(** * K-browser: the tab / navigation state machine of [app.js]

    A shallow embedding of the browser-chrome script.  The file follows the
    layout of the source:

    - [JS]  : the ECMAScript built-ins the script calls ([trim],
              [startsWith], [includes], [slice], [encodeURIComponent],
              number-to-string conversion, truthiness);
    - [V1]  : the first version of the script (one global history);
    - [V2]  : the second version (per-tab history, iframes, load monitor).

    JavaScript strings are sequences of UTF-16 code units; they are modelled
    as lists of [N].  Objects that the script mutates in place ([tab],
    [iframe]) live in lists and are updated functionally at the position the
    script reaches them through ([Array.prototype.find] returns the first
    match). *)

From Stdlib Require Import List ZArith NArith Bool Lia.
From Stdlib Require Strings.String Strings.Ascii.
Import String.StringSyntax.
Delimit Scope string_scope with string.
Import ListNotations.

Set Implicit Arguments.
Set Warnings "-abstract-large-number".

(* ===================================================================== *)
(** ** ECMAScript built-ins *)
(* ===================================================================== *)

Module JS.

Local Open Scope N_scope.

Definition code_unit := N.
Definition jsstring := list code_unit.

(** An ASCII literal as a JavaScript string. *)
Definition js (s : String.string) : jsstring :=
  map Ascii.N_of_ascii (String.list_ascii_of_string s).

Arguments js s%_string.

Fixpoint str_eqb (a b : jsstring) : bool :=
  match a, b with
  | [], [] => true
  | c :: a', d :: b' => N.eqb c d && str_eqb a' b'
  | _, _ => false
  end.

(** [ToBoolean] on a string: only the empty string is falsy. *)
Definition truthy (s : jsstring) : bool :=
  match s with [] => false | _ => true end.

(** [a || b] on strings. *)
Definition or_else (a b : jsstring) : jsstring :=
  if truthy a then a else b.

(** [String.prototype.startsWith]. *)
Fixpoint startsWith (s p : jsstring) : bool :=
  match p, s with
  | [], _ => true
  | c :: p', d :: s' => N.eqb c d && startsWith s' p'
  | _ :: _, [] => false
  end.

(** [String.prototype.includes]. *)
Fixpoint includes (s p : jsstring) : bool :=
  startsWith s p ||
  match s with
  | [] => false
  | _ :: s' => includes s' p
  end.

(** WhiteSpace and LineTerminator code points of ECMAScript; this is the
    set stripped by [trim] and matched by the regular expression [\s]. *)
Definition is_white (c : code_unit) : bool :=
  ((9 <=? c) && (c <=? 13)) || (c =? 32) || (c =? 160) || (c =? 5760)
  || ((8192 <=? c) && (c <=? 8202)) || (c =? 8232) || (c =? 8233)
  || (c =? 8239) || (c =? 8287) || (c =? 12288) || (c =? 65279).

Fixpoint trimStart (s : jsstring) : jsstring :=
  match s with
  | [] => []
  | c :: s' => if is_white c then trimStart s' else s
  end.

Definition trimEnd (s : jsstring) : jsstring :=
  rev (trimStart (rev s)).

(** [String.prototype.trim]. *)
Definition trim (s : jsstring) : jsstring := trimEnd (trimStart s).

(** [/\s/.test(s)]. *)
Definition test_white (s : jsstring) : bool := existsb is_white s.

(** [Array.prototype.slice(0, e)]: a negative end counts from the back. *)
Definition slice0 {A} (l : list A) (e : Z) : list A :=
  let len := Z.of_nat (length l) in
  let final := if (e <? 0)%Z then Z.max (len + e) 0 else Z.min e len in
  firstn (Z.to_nat final) l.

(** Values a history operation can hand back. *)
Inductive value : Type :=
| VNull
| VUndefined
| VStr (s : jsstring).

(** [l[i]] for an integral index: [undefined] outside the array. *)
Definition index (l : list jsstring) (i : Z) : value :=
  if (i <? 0)%Z then VUndefined
  else match nth_error l (Z.to_nat i) with
       | Some s => VStr s
       | None => VUndefined
       end.

(** Number-to-string conversion of an integral time value (these are far
    below 10^21, so the result is the plain decimal numeral). *)
Fixpoint digits (d : Decimal.uint) : jsstring :=
  match d with
  | Decimal.Nil => []
  | Decimal.D0 d => 48 :: digits d
  | Decimal.D1 d => 49 :: digits d
  | Decimal.D2 d => 50 :: digits d
  | Decimal.D3 d => 51 :: digits d
  | Decimal.D4 d => 52 :: digits d
  | Decimal.D5 d => 53 :: digits d
  | Decimal.D6 d => 54 :: digits d
  | Decimal.D7 d => 55 :: digits d
  | Decimal.D8 d => 56 :: digits d
  | Decimal.D9 d => 57 :: digits d
  end.

Definition of_number (z : Z) : jsstring :=
  match Z.to_int z with
  | Decimal.Pos d => digits d
  | Decimal.Neg d => 45 :: digits d
  end.

(** [Array.prototype.findIndex]; [None] stands for [-1]. *)
Fixpoint findIndex {A} (p : A -> bool) (l : list A) : option nat :=
  match l with
  | [] => None
  | x :: l' => if p x then Some 0%nat else option_map S (findIndex p l')
  end.

(** [l.splice(i, 1)] *)
Definition splice1 {A} (i : nat) (l : list A) : list A :=
  firstn i l ++ skipn (S i) l.

(** In-place mutation of the object that [find(p)] returns. *)
Fixpoint update_first {A} (p : A -> bool) (f : A -> A) (l : list A)
  : list A :=
  match l with
  | [] => []
  | x :: l' => if p x then f x :: l' else x :: update_first p f l'
  end.

(** *** [encodeURIComponent] *)

(** A-Z a-z 0-9 - _ . ! ~ * ' ( ) *)
Definition uriUnreserved (c : code_unit) : bool :=
  ((65 <=? c) && (c <=? 90)) || ((97 <=? c) && (c <=? 122))
  || ((48 <=? c) && (c <=? 57))
  || (c =? 45) || (c =? 95) || (c =? 46) || (c =? 33) || (c =? 126)
  || (c =? 42) || (c =? 39) || (c =? 40) || (c =? 41).

Definition is_lead (c : code_unit) : bool := (55296 <=? c) && (c <=? 56319).
Definition is_trail (c : code_unit) : bool := (56320 <=? c) && (c <=? 57343).

(** The code point of a surrogate pair. *)
Definition pair_code_point (hi lo : code_unit) : N :=
  (hi - 55296) * 1024 + (lo - 56320) + 65536.

Definition utf8 (v : N) : list N :=
  if v <? 128 then [v]
  else if v <? 2048 then
    [N.lor 192 (N.shiftr v 6); N.lor 128 (N.land v 63)]
  else if v <? 65536 then
    [N.lor 224 (N.shiftr v 12);
     N.lor 128 (N.land (N.shiftr v 6) 63);
     N.lor 128 (N.land v 63)]
  else
    [N.lor 240 (N.shiftr v 18);
     N.lor 128 (N.land (N.shiftr v 12) 63);
     N.lor 128 (N.land (N.shiftr v 6) 63);
     N.lor 128 (N.land v 63)].

Definition hex_digit (n : N) : code_unit :=
  if n <? 10 then 48 + n else 55 + n.

Definition percent (octet : N) : jsstring :=
  [37; hex_digit (N.shiftr octet 4); hex_digit (N.land octet 15)].

Definition escape (v : N) : jsstring := flat_map percent (utf8 v).

(** [None] stands for the [URIError] thrown on an unpaired surrogate. *)
Fixpoint encodeURIComponent (s : jsstring) : option jsstring :=
  match s with
  | [] => Some []
  | c :: rest =>
      if uriUnreserved c then
        option_map (cons c) (encodeURIComponent rest)
      else if is_trail c then None
      else if is_lead c then
        match rest with
        | d :: rest' =>
            if is_trail d then
              option_map (app (escape (pair_code_point c d)))
                         (encodeURIComponent rest')
            else None
        | [] => None
        end
      else option_map (app (escape c)) (encodeURIComponent rest)
  end.

(** [String.prototype.isWellFormed]: no surrogate code unit outside a
    pair of a leading and a trailing one. *)
Fixpoint isWellFormed (s : jsstring) : bool :=
  match s with
  | [] => true
  | c :: rest =>
      if is_trail c then false
      else if is_lead c then
        match rest with
        | d :: rest' => is_trail d && isWellFormed rest'
        | [] => false
        end
      else isWellFormed rest
  end.

End JS.

Import JS.

(* ===================================================================== *)
(** ** First version of the script: one global history *)
(* ===================================================================== *)

Module V1.

Record Tab : Type := mkTab {
  tab_id : jsstring;
  tab_title : jsstring;
  tab_url : jsstring;
  tab_timestamp : Z
}.

Record BrowserState : Type := mkState {
  tabs : list Tab;
  activeTabId : option jsstring;
  history : list jsstring;
  historyIndex : Z;
  currentUrl : value
}.

(** [constructor()] *)
Definition constructor : BrowserState :=
  {| tabs := []; activeTabId := None; history := []; historyIndex := (-1)%Z;
     currentUrl := VStr [] |}.

Definition has_id (tabId : jsstring) (t : Tab) : bool :=
  str_eqb (tab_id t) tabId.

Definition make_id (now : Z) : jsstring := js "tab-" ++ of_number now.

(** [addTab(url = '')]; this version has no limit on the number of
    tabs. *)
Definition addTab (b : BrowserState) (now_id now_ts : Z) (url : jsstring)
  : BrowserState * Tab :=
  let tab := {| tab_id := make_id now_id;
                tab_title := js "New Tab";
                tab_url := or_else url (js "about:blank");
                tab_timestamp := now_ts |} in
  ({| tabs := tabs b ++ [tab]; activeTabId := activeTabId b;
      history := history b; historyIndex := historyIndex b;
      currentUrl := currentUrl b |}, tab).

Definition active_is (b : BrowserState) (tabId : jsstring) : bool :=
  match activeTabId b with
  | Some a => str_eqb a tabId
  | None => false
  end.

Definition first_id (l : list Tab) : option jsstring :=
  match l with
  | t :: _ => Some (tab_id t)
  | [] => None
  end.

(** [removeTab(tabId)] *)
Definition removeTab (b : BrowserState) (tabId : jsstring)
  : BrowserState :=
  match findIndex (has_id tabId) (tabs b) with
  | Some i =>
      let rest := splice1 i (tabs b) in
      {| tabs := rest;
         activeTabId := if active_is b tabId then first_id rest
                        else activeTabId b;
         history := history b; historyIndex := historyIndex b;
         currentUrl := currentUrl b |}
  | None => b
  end.

(** [getActiveTab()] *)
Definition getActiveTab (b : BrowserState) : option Tab :=
  match activeTabId b with
  | Some a => find (has_id a) (tabs b)
  | None => None
  end.

(** [canGoBack()] and [canGoForward()] *)
Definition canGoBack (b : BrowserState) : bool := (historyIndex b >? 0)%Z.

Definition canGoForward (b : BrowserState) : bool :=
  (historyIndex b <? Z.of_nat (length (history b)) - 1)%Z.

(** *** The page *)

Record TabElement : Type := mkElement {
  el_tabId : jsstring;
  el_active : bool
}.

(** [openedWindows] holds window objects or [null]; of a window only
    its [closed] flag is read. *)
Record Page : Type := mkPage {
  bs : BrowserState;
  tabBar : list TabElement;
  addressBar : jsstring;
  backDisabled : bool;
  forwardDisabled : bool;
  openedWindows : list (option bool)
}.

(** [switchTab(tabId)] *)
Definition switchTab (tabId : jsstring) (p : Page) : Page :=
  let b := {| tabs := tabs (bs p); activeTabId := Some tabId;
              history := history (bs p);
              historyIndex := historyIndex (bs p);
              currentUrl := currentUrl (bs p) |} in
  let bar := map (fun e => {| el_tabId := el_tabId e;
                              el_active := str_eqb (el_tabId e) tabId |})
                 (tabBar p) in
  match getActiveTab b with
  | Some tab =>
      {| bs := b; tabBar := bar;
         addressBar := or_else (tab_url tab) [];
         backDisabled := negb (canGoBack b);           (* updateNavButtons *)
         forwardDisabled := negb (canGoForward b);
         openedWindows := openedWindows p |}
  | None =>
      {| bs := b; tabBar := bar; addressBar := addressBar p;
         backDisabled := backDisabled p;
         forwardDisabled := forwardDisabled p;
         openedWindows := openedWindows p |}
  end.

Fixpoint remove_element (tabId : jsstring) (l : list TabElement)
  : list TabElement :=
  match l with
  | [] => []
  | e :: l' => if str_eqb (el_tabId e) tabId then l'
               else e :: remove_element tabId l'
  end.

(** [closeTab(tabId)]: with one tab left, every opened window is closed,
    the list of windows is emptied, and the tab stays. *)
Definition closeTab (tabId : jsstring) (p : Page) : Page :=
  if (length (tabs (bs p)) =? 1)%nat then
    {| bs := bs p; tabBar := tabBar p; addressBar := addressBar p;
       backDisabled := backDisabled p;
       forwardDisabled := forwardDisabled p;
       openedWindows := [] |}
  else
    let p := {| bs := removeTab (bs p) tabId;
                tabBar := remove_element tabId (tabBar p);
                addressBar := addressBar p;
                backDisabled := backDisabled p;
                forwardDisabled := forwardDisabled p;
                openedWindows := openedWindows p |} in
    match activeTabId (bs p) with
    | Some a => if truthy a then switchTab a p else p
    | None => p
    end.

(** *** The remaining methods of the class *)

Definition set_url (u : jsstring) (t : Tab) : Tab :=
  {| tab_id := tab_id t; tab_title := tab_title t; tab_url := u;
     tab_timestamp := tab_timestamp t |}.

Definition set_title (s : jsstring) (t : Tab) : Tab :=
  {| tab_id := tab_id t; tab_title := s; tab_url := tab_url t;
     tab_timestamp := tab_timestamp t |}.

(** [updateTabUrl(tabId, url)]: the global [currentUrl] follows only when
    the tab exists. *)
Definition updateTabUrl (b : BrowserState) (tabId url : jsstring)
  : BrowserState :=
  match find (has_id tabId) (tabs b) with
  | Some _ =>
      {| tabs := update_first (has_id tabId) (set_url url) (tabs b);
         activeTabId := activeTabId b;
         history := history b; historyIndex := historyIndex b;
         currentUrl := VStr url |}
  | None => b
  end.

(** [updateTabTitle(tabId, title)] *)
Definition updateTabTitle (b : BrowserState) (tabId title : jsstring)
  : BrowserState :=
  {| tabs := update_first (has_id tabId)
                          (set_title (or_else title (js "Untitled")))
                          (tabs b);
     activeTabId := activeTabId b;
     history := history b; historyIndex := historyIndex b;
     currentUrl := currentUrl b |}.

(** [addToHistory(url)]: one history for the whole window. *)
Definition addToHistory (b : BrowserState) (url : jsstring) : BrowserState :=
  let h := slice0 (history b) (historyIndex b + 1) ++ [url] in
  {| tabs := tabs b; activeTabId := activeTabId b;
     history := h; historyIndex := Z.of_nat (length h) - 1;
     currentUrl := VStr url |}.

(** The assignments [this.historyIndex += d;
    this.currentUrl = this.history[this.historyIndex]]. *)
Definition move (d : Z) (b : BrowserState) : BrowserState :=
  {| tabs := tabs b; activeTabId := activeTabId b;
     history := history b; historyIndex := historyIndex b + d;
     currentUrl := index (history b) (historyIndex b + d) |}.

(** [goBack()] *)
Definition goBack (b : BrowserState) : BrowserState * value :=
  if canGoBack b then (move (-1) b, currentUrl (move (-1) b))
  else (b, VNull).

(** [goForward()] *)
Definition goForward (b : BrowserState) : BrowserState * value :=
  if canGoForward b then (move 1 b, currentUrl (move 1 b))
  else (b, VNull).

(** A call of one of the methods of the class that change the state. *)
Inductive Call : Type :=
| CallAddTab (now_id now_ts : Z) (url : jsstring)
| CallRemoveTab (tabId : jsstring)
| CallUpdateTabUrl (tabId url : jsstring)
| CallUpdateTabTitle (tabId title : jsstring)
| CallAddToHistory (url : jsstring)
| CallGoBack
| CallGoForward.

Definition call (c : Call) (b : BrowserState) : BrowserState :=
  match c with
  | CallAddTab now_id now_ts url => fst (addTab b now_id now_ts url)
  | CallRemoveTab tabId => removeTab b tabId
  | CallUpdateTabUrl tabId url => updateTabUrl b tabId url
  | CallUpdateTabTitle tabId title => updateTabTitle b tabId title
  | CallAddToHistory url => addToHistory b url
  | CallGoBack => fst (goBack b)
  | CallGoForward => fst (goForward b)
  end.

(** The state after a sequence of calls on [new BrowserState()]. *)
Definition calls (cs : list Call) : BrowserState :=
  fold_left (fun b c => call c b) cs constructor.

End V1.

(* ===================================================================== *)
(** ** Second version of the script: per-tab history and iframes *)
(* ===================================================================== *)

Module V2.

(** *** [class BrowserState] *)

(** A tab object.  [tab_iframe] is [null] or the handle of the iframe
    element created for the tab. *)
Record Tab : Type := mkTab {
  tab_id : jsstring;
  tab_title : jsstring;
  tab_url : jsstring;
  tab_timestamp : Z;
  tab_iframe : option nat;
  tab_history : list jsstring;
  tab_historyIndex : Z
}.

Record BrowserState : Type := mkState {
  tabs : list Tab;
  activeTabId : option jsstring;   (* [null] or a string *)
  maxTabs : Z
}.

(** [constructor()] *)
Definition constructor : BrowserState :=
  {| tabs := []; activeTabId := None; maxTabs := 3 |}.

Definition set_tabs (bs : BrowserState) (l : list Tab) : BrowserState :=
  {| tabs := l; activeTabId := activeTabId bs; maxTabs := maxTabs bs |}.

Definition set_activeTabId (bs : BrowserState) (a : option jsstring)
  : BrowserState :=
  {| tabs := tabs bs; activeTabId := a; maxTabs := maxTabs bs |}.

(** The callback [t => t.id === tabId]. *)
Definition has_id (tabId : jsstring) (t : Tab) : bool :=
  str_eqb (tab_id t) tabId.

(** The template literal [`tab-${Date.now()}`]. *)
Definition make_id (now : Z) : jsstring := js "tab-" ++ of_number now.

(** [addTab(url = '')].  [now_id] and [now_ts] are the two readings of
    [Date.now()].  The result [None] is the [null] returned after the
    [alert] at capacity. *)
Definition addTab (bs : BrowserState) (now_id now_ts : Z) (url : jsstring)
  : BrowserState * option Tab :=
  if (Z.of_nat (length (tabs bs)) >=? maxTabs bs)%Z then (bs, None)
  else
    let tab := {| tab_id := make_id now_id;
                  tab_title := js "New Tab";
                  tab_url := or_else url (js "about:blank");
                  tab_timestamp := now_ts;
                  tab_iframe := None;
                  tab_history := [];
                  tab_historyIndex := (-1)%Z |} in
    (set_tabs bs (tabs bs ++ [tab]), Some tab).

(** [this.activeTabId === tabId] *)
Definition active_is (bs : BrowserState) (tabId : jsstring) : bool :=
  match activeTabId bs with
  | Some a => str_eqb a tabId
  | None => false
  end.

Definition first_id (l : list Tab) : option jsstring :=
  match l with
  | t :: _ => Some (tab_id t)
  | [] => None
  end.

(** [removeTab(tabId)].  The second component is the iframe of the removed
    tab, which the method detaches from its parent node. *)
Definition removeTab (bs : BrowserState) (tabId : jsstring)
  : BrowserState * option nat :=
  match findIndex (has_id tabId) (tabs bs) with
  | Some i =>
      let detached :=
        match nth_error (tabs bs) i with
        | Some tab => tab_iframe tab
        | None => None
        end in
      let rest := splice1 i (tabs bs) in
      let bs' := set_tabs bs rest in
      (if active_is bs tabId then set_activeTabId bs' (first_id rest)
       else bs',
       detached)
  | None => (bs, None)
  end.

(** [getActiveTab()]; [None] stands for [undefined]. *)
Definition getActiveTab (bs : BrowserState) : option Tab :=
  match activeTabId bs with
  | Some a => find (has_id a) (tabs bs)
  | None => None
  end.

Definition set_url (u : jsstring) (t : Tab) : Tab :=
  {| tab_id := tab_id t; tab_title := tab_title t; tab_url := u;
     tab_timestamp := tab_timestamp t; tab_iframe := tab_iframe t;
     tab_history := tab_history t;
     tab_historyIndex := tab_historyIndex t |}.

Definition set_title (s : jsstring) (t : Tab) : Tab :=
  {| tab_id := tab_id t; tab_title := s; tab_url := tab_url t;
     tab_timestamp := tab_timestamp t; tab_iframe := tab_iframe t;
     tab_history := tab_history t;
     tab_historyIndex := tab_historyIndex t |}.

Definition set_iframe (h : option nat) (t : Tab) : Tab :=
  {| tab_id := tab_id t; tab_title := tab_title t; tab_url := tab_url t;
     tab_timestamp := tab_timestamp t; tab_iframe := h;
     tab_history := tab_history t;
     tab_historyIndex := tab_historyIndex t |}.

Definition set_history (l : list jsstring) (i : Z) (t : Tab) : Tab :=
  {| tab_id := tab_id t; tab_title := tab_title t; tab_url := tab_url t;
     tab_timestamp := tab_timestamp t; tab_iframe := tab_iframe t;
     tab_history := l; tab_historyIndex := i |}.

(** [updateTabUrl(tabId, url)] *)
Definition updateTabUrl (bs : BrowserState) (tabId url : jsstring)
  : BrowserState :=
  set_tabs bs (update_first (has_id tabId) (set_url url) (tabs bs)).

(** [updateTabTitle(tabId, title)] *)
Definition updateTabTitle (bs : BrowserState) (tabId title : jsstring)
  : BrowserState :=
  set_tabs bs
    (update_first (has_id tabId)
                  (set_title (or_else title (js "Untitled"))) (tabs bs)).

(** The three statements of [addToHistory] on the tab object. *)
Definition push (url : jsstring) (t : Tab) : Tab :=
  let h := slice0 (tab_history t) (tab_historyIndex t + 1) ++ [url] in
  set_history h (Z.of_nat (length h) - 1) t.

(** [addToHistory(tabId, url)] *)
Definition addToHistory (bs : BrowserState) (tabId url : jsstring)
  : BrowserState :=
  set_tabs bs (update_first (has_id tabId) (push url) (tabs bs)).

(** [canGoBack(tabId)] *)
Definition canGoBack (bs : BrowserState) (tabId : jsstring) : bool :=
  match find (has_id tabId) (tabs bs) with
  | None => false
  | Some tab => (tab_historyIndex tab >? 0)%Z
  end.

(** [canGoForward(tabId)] *)
Definition canGoForward (bs : BrowserState) (tabId : jsstring) : bool :=
  match find (has_id tabId) (tabs bs) with
  | None => false
  | Some tab =>
      (tab_historyIndex tab <? Z.of_nat (length (tab_history tab)) - 1)%Z
  end.

Definition move (d : Z) (t : Tab) : Tab :=
  set_history (tab_history t) (tab_historyIndex t + d) t.

(** [goBack(tabId)] *)
Definition goBack (bs : BrowserState) (tabId : jsstring)
  : BrowserState * value :=
  match find (has_id tabId) (tabs bs) with
  | Some tab =>
      if canGoBack bs tabId then
        (set_tabs bs (update_first (has_id tabId) (move (-1)) (tabs bs)),
         index (tab_history tab) (tab_historyIndex tab - 1))
      else (bs, VNull)
  | None => (bs, VNull)
  end.

(** [goForward(tabId)] *)
Definition goForward (bs : BrowserState) (tabId : jsstring)
  : BrowserState * value :=
  match find (has_id tabId) (tabs bs) with
  | Some tab =>
      if canGoForward bs tabId then
        (set_tabs bs (update_first (has_id tabId) (move 1) (tabs bs)),
         index (tab_history tab) (tab_historyIndex tab + 1))
      else (bs, VNull)
  | None => (bs, VNull)
  end.

(** The history of the tab [tabId], as the methods reach it. *)
Definition history_of (bs : BrowserState) (tabId : jsstring)
  : option (list jsstring * Z) :=
  option_map (fun t => (tab_history t, tab_historyIndex t))
             (find (has_id tabId) (tabs bs)).


(** *** URL normalisation *)

Section Platform.

(** The platform's [new URL(s)]: [None] when the constructor throws,
    otherwise the [hostname] of the parsed URL. *)
Variable URL_hostname : jsstring -> option jsstring.

Definition URL_ok (s : jsstring) : bool :=
  match URL_hostname s with
  | Some _ => true
  | None => false
  end.

(** [s.startsWith('http://') || s.startsWith('https://')] *)
Definition has_scheme (s : jsstring) : bool :=
  startsWith s (js "http://") || startsWith s (js "https://").

(** [isValidUrl(string)]; an exception of [new URL] lands in the
    [catch] branch, which returns [false]. *)
Definition isValidUrl (s : jsstring) : bool :=
  if has_scheme s then URL_ok s
  else if includes s (js ".") && negb (includes s (js " "))
          && negb (test_white s)
       then URL_ok (js "https://" ++ s)
       else false.

(** [sanitizeUrl(input)]; [None] is the [URIError] that
    [encodeURIComponent] throws. *)
Definition sanitizeUrl (input : jsstring) : option jsstring :=
  let input := trim input in
  if negb (truthy input) then Some (js "https://www.google.com")
  else if has_scheme input then Some input
  else if isValidUrl input then Some (js "https://" ++ input)
  else option_map (app (js "https://www.google.com/search?q="))
                  (encodeURIComponent input).


(** *** The page: DOM view, iframes and pending timers *)

(** The values [style.display] takes in the script. *)
Inductive display : Type := DUnset | DNone | DFlex | DBlock.

Definition is_flex (d : display) : bool :=
  match d with DFlex => true | _ => false end.

(** A [div.tab] element of the tab bar. *)
Record TabElement : Type := mkElement {
  el_tabId : jsstring;      (* dataset.tabId *)
  el_title : jsstring;      (* text of the .tab-title span *)
  el_active : bool          (* class 'active' *)
}.

(** An iframe made by [createTabIframe], with the variables its closures
    share.  [if_attempt] is a ghost counter: the number of
    [navigateToUrl] calls that loaded a URL into this iframe.  The
    script has no such field; nothing below branches on it.
    [if_src] is the [src] attribute as the script assigned it.  Reading
    [iframe.src] gives the browser's serialisation of that address (a
    bare host comes back with a trailing slash), so the [errorUrl] that
    the listeners take from [iframe.src] is the address of [if_src] up to
    that serialisation.  The addresses the script assigns carry a scheme,
    and for those [new URL] accepts the one exactly when it accepts the
    other, with the same host name. *)
Record IFrame : Type := mkIFrame {
  if_id : jsstring;
  if_owner : jsstring;            (* [tab.id] of the captured tab *)
  if_src : jsstring;
  if_display : display;
  if_attached : bool;             (* has a parent node *)
  loadTimeout : option N;         (* [let loadTimeout = null] *)
  hasLoaded : bool;               (* [let hasLoaded = false] *)
  prop_hasLoaded : option bool;   (* the property [iframe._hasLoaded] *)
  if_attempt : nat
}.

(** The closures handed to [setTimeout]. *)
Inductive Callback : Type :=
| Settle (h : nat)                        (* 500 ms after 'load' *)
| Recheck (h : nat) (hostname : jsstring) (* 2000 ms after the settle *)
| LoadTimeout (h : nat) (url : jsstring). (* 10000 ms after navigation *)

Definition cb_iframe (c : Callback) : nat :=
  match c with
  | Settle h => h
  | Recheck h _ => h
  | LoadTimeout h _ => h
  end.

(** A pending timer.  [tm_attempt] is ghost: the value of [if_attempt]
    of the iframe when the chain of timers this one belongs to started. *)
Record Timer : Type := mkTimer {
  tm_id : N;
  tm_due : N;
  tm_cb : Callback;
  tm_attempt : nat
}.

Record View : Type := mkView {
  errorDisplay : display;            (* errorMessage.style.display *)
  errorText : jsstring;              (* #errorText *)
  errorUrl : option jsstring;        (* errorMessage.dataset.url *)
  loading : bool;                    (* class 'active' / 'loading' *)
  welcomeDisplay : display;          (* welcomeScreen.style.display *)
  containerDisplay : display;        (* iframeContainer.style.display *)
  addressBar : jsstring;             (* addressBar.value *)
  backDisabled : bool;
  forwardDisabled : bool;
  tabBar : list TabElement           (* the .tab elements, in order *)
}.

Record Page : Type := mkPage {
  bs : BrowserState;                 (* const browserState *)
  view : View;
  iframes : list IFrame;             (* handle = position *)
  timers : list Timer;
  nextTimer : N;                     (* next handle of setTimeout *)
  clock : N                          (* time of the current event, ms *)
}.

Definition on_bs (f : BrowserState -> BrowserState) (p : Page) : Page :=
  {| bs := f (bs p); view := view p; iframes := iframes p;
     timers := timers p; nextTimer := nextTimer p; clock := clock p |}.

Definition on_view (f : View -> View) (p : Page) : Page :=
  {| bs := bs p; view := f (view p); iframes := iframes p;
     timers := timers p; nextTimer := nextTimer p; clock := clock p |}.

Definition on_iframes (f : list IFrame -> list IFrame) (p : Page) : Page :=
  {| bs := bs p; view := view p; iframes := f (iframes p);
     timers := timers p; nextTimer := nextTimer p; clock := clock p |}.

Definition set_timers (l : list Timer) (n : N) (p : Page) : Page :=
  {| bs := bs p; view := view p; iframes := iframes p;
     timers := l; nextTimer := n; clock := clock p |}.

Definition set_clock (t : N) (p : Page) : Page :=
  {| bs := bs p; view := view p; iframes := iframes p;
     timers := timers p; nextTimer := nextTimer p; clock := t |}.

Definition set_error (d : display) (v : View) : View :=
  {| errorDisplay := d; errorText := errorText v; errorUrl := errorUrl v;
     loading := loading v; welcomeDisplay := welcomeDisplay v;
     containerDisplay := containerDisplay v; addressBar := addressBar v;
     backDisabled := backDisabled v; forwardDisabled := forwardDisabled v;
     tabBar := tabBar v |}.

Definition set_errorText (s : jsstring) (v : View) : View :=
  {| errorDisplay := errorDisplay v; errorText := s;
     errorUrl := errorUrl v;
     loading := loading v; welcomeDisplay := welcomeDisplay v;
     containerDisplay := containerDisplay v; addressBar := addressBar v;
     backDisabled := backDisabled v; forwardDisabled := forwardDisabled v;
     tabBar := tabBar v |}.

Definition set_errorUrl (u : option jsstring) (v : View) : View :=
  {| errorDisplay := errorDisplay v; errorText := errorText v;
     errorUrl := u;
     loading := loading v; welcomeDisplay := welcomeDisplay v;
     containerDisplay := containerDisplay v; addressBar := addressBar v;
     backDisabled := backDisabled v; forwardDisabled := forwardDisabled v;
     tabBar := tabBar v |}.

Definition set_loading (b : bool) (v : View) : View :=
  {| errorDisplay := errorDisplay v; errorText := errorText v;
     errorUrl := errorUrl v;
     loading := b; welcomeDisplay := welcomeDisplay v;
     containerDisplay := containerDisplay v; addressBar := addressBar v;
     backDisabled := backDisabled v; forwardDisabled := forwardDisabled v;
     tabBar := tabBar v |}.

Definition set_welcome (d : display) (v : View) : View :=
  {| errorDisplay := errorDisplay v; errorText := errorText v;
     errorUrl := errorUrl v;
     loading := loading v; welcomeDisplay := d;
     containerDisplay := containerDisplay v; addressBar := addressBar v;
     backDisabled := backDisabled v; forwardDisabled := forwardDisabled v;
     tabBar := tabBar v |}.

Definition set_container (d : display) (v : View) : View :=
  {| errorDisplay := errorDisplay v; errorText := errorText v;
     errorUrl := errorUrl v;
     loading := loading v; welcomeDisplay := welcomeDisplay v;
     containerDisplay := d; addressBar := addressBar v;
     backDisabled := backDisabled v; forwardDisabled := forwardDisabled v;
     tabBar := tabBar v |}.

Definition set_addressBar (s : jsstring) (v : View) : View :=
  {| errorDisplay := errorDisplay v; errorText := errorText v;
     errorUrl := errorUrl v;
     loading := loading v; welcomeDisplay := welcomeDisplay v;
     containerDisplay := containerDisplay v; addressBar := s;
     backDisabled := backDisabled v; forwardDisabled := forwardDisabled v;
     tabBar := tabBar v |}.

Definition set_nav (b f : bool) (v : View) : View :=
  {| errorDisplay := errorDisplay v; errorText := errorText v;
     errorUrl := errorUrl v;
     loading := loading v; welcomeDisplay := welcomeDisplay v;
     containerDisplay := containerDisplay v; addressBar := addressBar v;
     backDisabled := b; forwardDisabled := f;
     tabBar := tabBar v |}.

Definition set_tabBar (l : list TabElement) (v : View) : View :=
  {| errorDisplay := errorDisplay v; errorText := errorText v;
     errorUrl := errorUrl v;
     loading := loading v; welcomeDisplay := welcomeDisplay v;
     containerDisplay := containerDisplay v; addressBar := addressBar v;
     backDisabled := backDisabled v; forwardDisabled := forwardDisabled v;
     tabBar := l |}.

(** Assignment to one iframe object. *)
Fixpoint update_nth {A} (n : nat) (f : A -> A) (l : list A) : list A :=
  match l, n with
  | [], _ => []
  | x :: l', O => f x :: l'
  | x :: l', S n' => x :: update_nth n' f l'
  end.

Definition on_iframe (h : nat) (f : IFrame -> IFrame) (p : Page) : Page :=
  on_iframes (update_nth h f) p.

Definition set_src (s : jsstring) (f : IFrame) : IFrame :=
  {| if_id := if_id f; if_owner := if_owner f; if_src := s;
     if_display := if_display f; if_attached := if_attached f;
     loadTimeout := loadTimeout f; hasLoaded := hasLoaded f;
     prop_hasLoaded := prop_hasLoaded f; if_attempt := if_attempt f |}.

Definition set_display (d : display) (f : IFrame) : IFrame :=
  {| if_id := if_id f; if_owner := if_owner f; if_src := if_src f;
     if_display := d; if_attached := if_attached f;
     loadTimeout := loadTimeout f; hasLoaded := hasLoaded f;
     prop_hasLoaded := prop_hasLoaded f; if_attempt := if_attempt f |}.

Definition set_attached (b : bool) (f : IFrame) : IFrame :=
  {| if_id := if_id f; if_owner := if_owner f; if_src := if_src f;
     if_display := if_display f; if_attached := b;
     loadTimeout := loadTimeout f; hasLoaded := hasLoaded f;
     prop_hasLoaded := prop_hasLoaded f; if_attempt := if_attempt f |}.

Definition set_loadTimeout (t : option N) (f : IFrame) : IFrame :=
  {| if_id := if_id f; if_owner := if_owner f; if_src := if_src f;
     if_display := if_display f; if_attached := if_attached f;
     loadTimeout := t; hasLoaded := hasLoaded f;
     prop_hasLoaded := prop_hasLoaded f; if_attempt := if_attempt f |}.

Definition set_hasLoaded (b : bool) (f : IFrame) : IFrame :=
  {| if_id := if_id f; if_owner := if_owner f; if_src := if_src f;
     if_display := if_display f; if_attached := if_attached f;
     loadTimeout := loadTimeout f; hasLoaded := b;
     prop_hasLoaded := prop_hasLoaded f; if_attempt := if_attempt f |}.

Definition set_prop_hasLoaded (b : option bool) (f : IFrame) : IFrame :=
  {| if_id := if_id f; if_owner := if_owner f; if_src := if_src f;
     if_display := if_display f; if_attached := if_attached f;
     loadTimeout := loadTimeout f; hasLoaded := hasLoaded f;
     prop_hasLoaded := b; if_attempt := if_attempt f |}.

Definition next_attempt (f : IFrame) : IFrame :=
  {| if_id := if_id f; if_owner := if_owner f; if_src := if_src f;
     if_display := if_display f; if_attached := if_attached f;
     loadTimeout := loadTimeout f; hasLoaded := hasLoaded f;
     prop_hasLoaded := prop_hasLoaded f;
     if_attempt := S (if_attempt f) |}.


(** *** View helpers *)

Definition showLoading (p : Page) : Page := on_view (set_loading true) p.
Definition hideLoading (p : Page) : Page := on_view (set_loading false) p.

Definition showWelcomeScreen (p : Page) : Page :=
  on_view (fun v => set_error DNone
                      (set_container DNone (set_welcome DFlex v))) p.

Definition hideWelcomeScreen (p : Page) : Page :=
  on_view (fun v => set_container DBlock (set_welcome DNone v)) p.

Definition default_error : jsstring :=
  js "This website blocks embedding in iframes for security reasons.".

(** [showError(message, url)] *)
Definition showError (message url : jsstring) (p : Page) : Page :=
  on_view (fun v =>
    let v := set_error DFlex v in
    let v := set_errorText (or_else message default_error) v in
    let v := set_container DNone v in
    let v := set_welcome DNone v in
    if truthy url then set_errorUrl (Some url) v else v) p.

Definition hideError (p : Page) : Page := on_view (set_error DNone) p.

(** [createTabElement(tab)] *)
Definition createTabElement (tab : Tab) : TabElement :=
  {| el_tabId := tab_id tab; el_title := tab_title tab;
     el_active := false |}.

(** [updateTabBar()] *)
Definition updateTabBar (p : Page) : Page :=
  on_view (fun v =>
    set_tabBar
      (map (fun e =>
              match find (has_id (el_tabId e)) (tabs (bs p)) with
              | Some tab =>
                  {| el_tabId := el_tabId e; el_title := tab_title tab;
                     el_active := el_active e |}
              | None => e
              end) (tabBar v)) v) p.

(** [updateNavButtons()] *)
Definition updateNavButtons (p : Page) : Page :=
  match getActiveTab (bs p) with
  | Some tab =>
      on_view (set_nav (negb (canGoBack (bs p) (tab_id tab)))
                       (negb (canGoForward (bs p) (tab_id tab)))) p
  | None => on_view (set_nav true true) p
  end.

(** *** Timers *)

(** [setTimeout(cb, delay)] *)
Definition setTimeout (cb : Callback) (delay : N) (attempt : nat)
           (p : Page) : Page :=
  set_timers
    (timers p ++ [{| tm_id := nextTimer p; tm_due := (clock p + delay)%N;
                     tm_cb := cb; tm_attempt := attempt |}])
    (nextTimer p + 1)%N p.

(** [clearTimeout(id)] *)
Definition clearTimeout (id : N) (p : Page) : Page :=
  set_timers (filter (fun tm => negb (tm_id tm =? id)%N) (timers p))
             (nextTimer p) p.

(** [if (loadTimeout) clearTimeout(loadTimeout)]: a handle is truthy
    when it is not [0]. *)
Definition handle_truthy (t : option N) : option N :=
  match t with
  | Some id => if (id =? 0)%N then None else Some id
  | None => None
  end.

(** [createTabIframe(tab)]: the new iframe is appended to the container
    and stored in [tab.iframe]. *)
Definition createTabIframe (tab : Tab) (p : Page) : Page * nat :=
  let h := length (iframes p) in
  let f := {| if_id := js "iframe-" ++ tab_id tab;
              if_owner := tab_id tab;
              if_src := [];
              if_display := DNone;
              if_attached := true;
              loadTimeout := None;
              hasLoaded := false;
              prop_hasLoaded := None;
              if_attempt := 0 |} in
  let p := on_iframes (fun l => l ++ [f]) p in
  (on_bs (fun b => set_tabs b
            (update_first (has_id (tab_id tab)) (set_iframe (Some h))
                          (tabs b))) p, h).

(** [startLoadTimeout(url)] of the iframe [h]. *)
Definition startLoadTimeout (h : nat) (url : jsstring) (p : Page) : Page :=
  match nth_error (iframes p) h with
  | None => p
  | Some f =>
      let p := match handle_truthy (loadTimeout f) with
               | Some id => clearTimeout id p
               | None => p
               end in
      let id := nextTimer p in
      let p := setTimeout (LoadTimeout h url) 10000 (if_attempt f) p in
      on_iframe h (set_loadTimeout (Some id)) p
  end.

(** The first four statements shared by the 'load' and 'error'
    listeners. *)
Definition signal_received (h : nat) (p : Page) : Page :=
  match nth_error (iframes p) h with
  | None => p
  | Some f =>
      let p := on_iframe h (set_hasLoaded true) p in
      let p := match handle_truthy (loadTimeout f) with
               | Some id =>
                   on_iframe h (set_loadTimeout None) (clearTimeout id p)
               | None => p
               end in
      hideLoading p
  end.

(** *** Tab management *)

(** [switchTab(tabId)] *)
Definition switchTab (tabId : jsstring) (p : Page) : Page :=
  let p := on_bs (fun b => set_activeTabId b (Some tabId)) p in
  let p := on_iframes
             (map (fun f => if if_attached f then set_display DNone f
                            else f)) p in
  let p := on_view (fun v =>
             set_tabBar
               (map (fun e => {| el_tabId := el_tabId e;
                                 el_title := el_title e;
                                 el_active := str_eqb (el_tabId e) tabId |})
                    (tabBar v)) v) p in
  match getActiveTab (bs p) with
  | None => p
  | Some tab =>
      let p := on_view (set_addressBar (or_else (tab_url tab) [])) p in
      let p :=
        match tab_iframe tab with
        | Some h =>
            hideWelcomeScreen (on_iframe h (set_display DBlock) p)
        | None =>
            if truthy (tab_url tab)
               && negb (str_eqb (tab_url tab) (js "about:blank"))
            then
              let (p, h) := createTabIframe tab p in
              let p := on_iframe h (set_src (tab_url tab)) p in
              hideWelcomeScreen (on_iframe h (set_display DBlock) p)
            else showWelcomeScreen p
        end in
      updateNavButtons p
  end.

(** Removal of the first element matching
    [[data-tab-id="${tabId}"]]. *)
Fixpoint remove_element (tabId : jsstring) (l : list TabElement)
  : list TabElement :=
  match l with
  | [] => []
  | e :: l' => if str_eqb (el_tabId e) tabId then l'
               else e :: remove_element tabId l'
  end.

(** [closeTab(tabId)] *)
Definition closeTab (tabId : jsstring) (p : Page) : Page :=
  if (length (tabs (bs p)) =? 1)%nat then p
  else
    let (b, detached) := removeTab (bs p) tabId in
    let p := on_bs (fun _ => b) p in
    let p := match detached with
             | Some h => on_iframe h (set_attached false) p
             | None => p
             end in
    let p := on_view (fun v => set_tabBar
                                 (remove_element tabId (tabBar v)) v) p in
    match activeTabId (bs p) with
    | Some a =>
        if truthy a then switchTab a p
        else match tabs (bs p) with
             | t :: _ => switchTab (tab_id t) p
             | [] => showWelcomeScreen p
             end
    | None =>
        match tabs (bs p) with
        | t :: _ => switchTab (tab_id t) p
        | [] => showWelcomeScreen p
        end
    end.

(** *** Navigation *)

(** [navigateToUrl(url)].  When [sanitizeUrl] throws, the handler is left
    before anything was assigned. *)
Definition navigateToUrl (url : jsstring) (p : Page) : Page :=
  match getActiveTab (bs p) with
  | None => p
  | Some tab =>
      match sanitizeUrl url with
      | None => p
      | Some sanitizedUrl =>
          let p := on_bs (fun b => updateTabUrl b (tab_id tab)
                                                sanitizedUrl) p in
          let p := on_bs (fun b => addToHistory b (tab_id tab)
                                                sanitizedUrl) p in
          let p :=
            match URL_hostname sanitizedUrl with
            | Some hostname =>
                updateTabBar
                  (on_bs (fun b => updateTabTitle b (tab_id tab)
                                                  hostname) p)
            | None =>
                updateTabBar
                  (on_bs (fun b => updateTabTitle b (tab_id tab)
                                     (js "Navigating...")) p)
            end in
          let p := on_view (set_addressBar sanitizedUrl) p in
          let p := updateNavButtons p in
          let (p, h) := match tab_iframe tab with
                        | Some h => (p, h)
                        | None => createTabIframe tab p
                        end in
          let p := showLoading p in
          let p := hideError p in
          let p := hideWelcomeScreen p in
          let p := on_iframe h (set_display DBlock) p in
          let p := on_iframe h (set_prop_hasLoaded (Some false)) p in
          let p := on_iframe h next_attempt p in
          let p := startLoadTimeout h sanitizedUrl p in
          on_iframe h (set_src sanitizedUrl) p
      end
  end.

(** The title [navigateToUrl] gives the tab: the host name, or
    ['Navigating...'] when [new URL] throws. *)
Definition nav_title (r : option jsstring) : jsstring :=
  match r with
  | Some hostname => hostname
  | None => js "Navigating..."
  end.

(** [navigateToUrl] from the point where the address [sanitizedUrl] and the
    title are known: both arms of its [try] run the same two statements,
    with one title or the other (see [navigateToUrl_titled]). *)
Definition navigate_titled (sanitizedUrl title : jsstring) (p : Page)
  : Page :=
  match getActiveTab (bs p) with
  | None => p
  | Some tab =>
      let p := on_bs (fun b => updateTabUrl b (tab_id tab) sanitizedUrl) p in
      let p := on_bs (fun b => addToHistory b (tab_id tab) sanitizedUrl) p in
      let p := updateTabBar
                 (on_bs (fun b => updateTabTitle b (tab_id tab) title) p) in
      let p := on_view (set_addressBar sanitizedUrl) p in
      let p := updateNavButtons p in
      let (p, h) := match tab_iframe tab with
                    | Some h => (p, h)
                    | None => createTabIframe tab p
                    end in
      let p := showLoading p in
      let p := hideError p in
      let p := hideWelcomeScreen p in
      let p := on_iframe h (set_display DBlock) p in
      let p := on_iframe h (set_prop_hasLoaded (Some false)) p in
      let p := on_iframe h next_attempt p in
      let p := startLoadTimeout h sanitizedUrl p in
      on_iframe h (set_src sanitizedUrl) p
  end.

(** [addTab(url)] of the page (not the method of the class). *)
Definition addTab_page (now_id now_ts : Z) (url : jsstring) (p : Page)
  : Page :=
  match (if truthy url then sanitizeUrl url else Some []) with
  | None => p
  | Some sanitizedUrl =>
      match addTab (bs p) now_id now_ts sanitizedUrl with
      | (_, None) => p
      | (b, Some tab) =>
          let p := on_bs (fun _ => b) p in
          let p := on_view (fun v => set_tabBar
                       (tabBar v ++ [createTabElement tab]) v) p in
          let p := on_bs (fun b => set_activeTabId b (Some (tab_id tab)))
                         p in
          let p := switchTab (tab_id tab) p in
          if truthy sanitizedUrl
             && negb (str_eqb sanitizedUrl (js "about:blank"))
          then navigateToUrl sanitizedUrl p
          else p
      end
  end.

(** The body shared by the page's [goBack()] and [goForward()]. *)
Definition history_button
           (can : BrowserState -> jsstring -> bool)
           (go : BrowserState -> jsstring -> BrowserState * value)
           (p : Page) : Page :=
  match getActiveTab (bs p) with
  | None => p
  | Some tab =>
      match tab_iframe tab with
      | None => p
      | Some h =>
          if can (bs p) (tab_id tab) then
            let (b, url) := go (bs p) (tab_id tab) in
            let p := on_bs (fun _ => b) p in
            match url with
            | VStr u =>
                if truthy u then
                  let p := showLoading p in
                  let p := on_iframe h (set_src u) p in
                  let p := on_bs (fun b => updateTabUrl b (tab_id tab) u)
                                 p in
                  let p := on_view (set_addressBar u) p in
                  updateNavButtons p
                else p
            | _ => p
            end
          else p   (* the iframe's own history is asked to move *)
      end
  end.

Definition goBack_page : Page -> Page := history_button canGoBack goBack.
Definition goForward_page : Page -> Page :=
  history_button canGoForward goForward.

(** [reload()] *)
Definition reload (p : Page) : Page :=
  match getActiveTab (bs p) with
  | None => p
  | Some tab =>
      match tab_iframe tab with
      | None => p
      | Some h => showLoading p   (* [iframe.src = iframe.src] *)
      end
  end.


(** *** The load monitor of [createTabIframe] *)

(** What the iframe lets the script see when a timer callback inspects
    it: [probe_document] is [Some title] when [contentDocument] can be
    read and has a [body]; [probe_window] tells whether [contentWindow]
    and its [location] can be read. *)
Record Probe : Type := mkProbe {
  probe_document : option jsstring;
  probe_window : bool
}.

Definition blocked_message (hostname : jsstring) : jsstring :=
  js "This website (" ++ hostname
     ++ js ") blocks embedding in iframes for security reasons. Click "
     ++ [34%N] ++ js "Open in New Window" ++ [34%N] ++ js " to view it.".

(** The 'load' listener. *)
Definition on_load (h : nat) (p : Page) : Page :=
  match nth_error (iframes p) h with
  | None => p
  | Some f => setTimeout (Settle h) 500 (if_attempt f)
                         (signal_received h p)
  end.

(** The 'error' listener. *)
Definition on_error (h : nat) (p : Page) : Page :=
  match nth_error (iframes p) h with
  | None => p
  | Some f =>
      showError
        (js "Failed to load this page. Please check your internet connection or try again.")
        (if_src f) (signal_received h p)
  end.

(** The callback run 500 ms after 'load'.  [attempt] is the ghost tag of
    the timer that fired and is handed on to the re-check. *)
Definition settle (h : nat) (attempt : nat) (pr : Probe) (p : Page)
  : Page :=
  match nth_error (iframes p) h with
  | None => p
  | Some f =>
      let set_title_of (t : jsstring) (p : Page) : Page :=
        updateTabBar (on_bs (fun b => updateTabTitle b (if_owner f) t) p) in
      (* first [try]: the document *)
      let first : Page * bool :=
        match probe_document pr with
        | Some title =>
            let p := hideError p in
            if truthy title then (set_title_of title p, true)
            else match URL_hostname (if_src f) with
                 | Some hostname => (set_title_of hostname p, true)
                 | None => (p, false)      (* caught *)
                 end
        | None => (p, false)
        end in
      let (p, returned) := first in
      if returned then p
      else
        (* second [try]: the window *)
        match URL_hostname (if_src f) with
        | None =>
            showError
              (js "Failed to load this page. The website may block embedding in iframes.")
              (if_src f) p
        | Some hostname =>
            if probe_window pr then set_title_of hostname (hideError p)
            else setTimeout (Recheck h hostname) 2000 attempt p
        end
  end.

(** The callback run 2000 ms after the settle callback. *)
Definition recheck (h : nat) (hostname : jsstring) (pr : Probe) (p : Page)
  : Page :=
  match nth_error (iframes p) h with
  | None => p
  | Some f =>
      if is_flex (errorDisplay (view p)) then p
      else match probe_document pr with
           | Some _ => p
           | None => showError (blocked_message hostname) (if_src f) p
           end
  end.

(** The callback armed by [startLoadTimeout]. *)
Definition load_timeout (h : nat) (url : jsstring) (p : Page) : Page :=
  match nth_error (iframes p) h with
  | None => p
  | Some f =>
      if hasLoaded f then p
      else
        let p := hideLoading p in
        match URL_hostname url with
        | Some hostname =>
            showError
              (js "This website (" ++ hostname
                  ++ js ") is taking too long to load or blocks iframe embedding.")
              url p
        | None =>
            showError
              (js "This page is taking too long to load or blocks iframe embedding.")
              url p
        end
  end.

Definition run_callback (tm : Timer) (pr : Probe) (p : Page) : Page :=
  match tm_cb tm with
  | Settle h => settle h (tm_attempt tm) pr p
  | Recheck h hostname => recheck h hostname pr p
  | LoadTimeout h url => load_timeout h url p
  end.

(** *** Events *)

(** The events that reach the state modelled here.  The reading-mode
    buttons and [Open in New Window] touch none of it. *)
Inductive Event : Type :=
| DOMContentLoaded (now_id now_ts : Z)    (* initBrowser *)
| ClickAdd (now_id now_ts : Z)            (* the '+' button *)
| ClickTab (k : nat)                      (* the k-th tab element *)
| ClickClose (k : nat)                    (* its close button *)
| PressEnter (text : jsstring)            (* Enter in the address bar *)
| ClickQuickLink (url : jsstring)
| ClickBack
| ClickForward
| ClickReload
| ClickRetry
| IframeLoad (h : nat)
| IframeError (h : nat)
| TimerFires (id : N) (pr : Probe).

Definition find_timer (id : N) (p : Page) : option Timer :=
  find (fun tm => (tm_id tm =? id)%N) (timers p).

(** One event handled at time [t].  [None]: the event cannot occur in
    this state (time runs backwards, no such element or iframe, timer not
    pending or not yet due). *)
Definition step (t : N) (e : Event) (p : Page) : option Page :=
  if (t <? clock p)%N then None
  else
    let p := set_clock t p in
    match e with
    | DOMContentLoaded now_id now_ts =>
        Some (addTab_page now_id now_ts [] p)
    | ClickAdd now_id now_ts => Some (addTab_page now_id now_ts [] p)
    | ClickTab k =>
        option_map (fun e => switchTab (el_tabId e) p)
                   (nth_error (tabBar (view p)) k)
    | ClickClose k =>
        option_map (fun e => closeTab (el_tabId e) p)
                   (nth_error (tabBar (view p)) k)
    | PressEnter text =>
        Some (navigateToUrl text (on_view (set_addressBar text) p))
    | ClickQuickLink url => Some (navigateToUrl url p)
    | ClickBack => Some (goBack_page p)
    | ClickForward => Some (goForward_page p)
    | ClickReload => Some (reload p)
    | ClickRetry =>
        let url := match errorUrl (view p) with
                   | Some u => or_else u (addressBar (view p))
                   | None => addressBar (view p)
                   end in
        Some (if truthy url then navigateToUrl url p else p)
    | IframeLoad h =>
        option_map (fun _ => on_load h p) (nth_error (iframes p) h)
    | IframeError h =>
        option_map (fun _ => on_error h p) (nth_error (iframes p) h)
    | TimerFires id pr =>
        match find_timer id p with
        | Some tm =>
            if (t <? tm_due tm)%N then None
            else Some (run_callback tm pr (clearTimeout id p))
        | None => None
        end
    end.

Fixpoint run (es : list (N * Event)) (p : Page) : option Page :=
  match es with
  | [] => Some p
  | (t, e) :: es' =>
      match step t e p with
      | Some p' => run es' p'
      | None => None
      end
  end.

(** The page before any handler ran: the state of [new BrowserState()],
    no tab element in the tab bar, no iframe made by the script and no
    timer armed.  Handles of [setTimeout] are positive. *)
Definition initial (p : Page) : Prop :=
  bs p = constructor /\ tabBar (view p) = [] /\ iframes p = []
  /\ timers p = [] /\ nextTimer p <> 0%N.

Definition reachable (p : Page) : Prop :=
  exists p0 es, initial p0 /\ run es p0 = Some p.

(** *** Registry invariants *)

(** [activeTabId], when set, is the id of a tab of the registry. *)
Definition active_ok (b : BrowserState) : Prop :=
  match activeTabId b with
  | None => True
  | Some a => In a (map tab_id (tabs b))
  end.

(** The invariant of a tab's history: the position is [-1] for an empty
    history and an index into the entries otherwise. *)
Definition history_ok (t : Tab) : Prop :=
  (-1 <= tab_historyIndex t < Z.of_nat (length (tab_history t)))%Z.

Definition histories_ok (p : Page) : Prop :=
  Forall history_ok (tabs (bs p)).

(** The part of the page the registry invariant speaks about: the ids of
    the tabs, the active id, and the ids on the tab elements. *)
Definition registry (p : Page)
  : list jsstring * option jsstring * list jsstring :=
  (map tab_id (tabs (bs p)), activeTabId (bs p),
   map el_tabId (tabBar (view p))).

(** Removal of the first occurrence of an id from a list of ids. *)
Fixpoint remove_id (tabId : jsstring) (l : list jsstring) : list jsstring :=
  match l with
  | [] => []
  | x :: l' => if str_eqb x tabId then l' else x :: remove_id tabId l'
  end.

(** The registry invariant of a page: the tab elements match the tabs,
    in order, and the active id is unset or the id of a tab. *)
Definition registry_ok (p : Page) : Prop :=
  map el_tabId (tabBar (view p)) = map tab_id (tabs (bs p))
  /\ active_ok (bs p).

(** *** Load-monitor invariants *)

(** Per iframe: the timer handle in [loadTimeout] and the ghost attempt
    number. *)
Definition slot (f : IFrame) : option N * nat :=
  (loadTimeout f, if_attempt f).

Definition slots (p : Page) : list (option N * nat) :=
  map slot (iframes p).

(** A pending timer has a positive handle below the next one, and a
    timeout timer is the one its iframe holds in [loadTimeout], armed by
    the latest navigation into that iframe. *)
Definition timer_ok (p : Page) (tm : Timer) : Prop :=
  (0 < tm_id tm < nextTimer p)%N
  /\ match tm_cb tm with
     | LoadTimeout h _ =>
         nth_error (slots p) h = Some (Some (tm_id tm), tm_attempt tm)
     | _ => True
     end.

Definition monitor_ok (p : Page) : Prop :=
  (0 < nextTimer p)%N
  /\ (forall tm, In tm (timers p) -> timer_ok p tm)
  /\ NoDup (map tm_id (timers p)).

(** A timer is stale when a later [navigateToUrl] loaded another URL into
    its iframe. *)
Definition stale (p : Page) (tm : Timer) : Prop :=
  exists f, nth_error (iframes p) (cb_iframe (tm_cb tm)) = Some f
            /\ tm_attempt tm < if_attempt f.

(** What the user sees of the load monitor: the error panel, the loading
    indicator and the tab titles. *)
Definition ui (p : Page)
  : display * jsstring * option jsstring * bool * list jsstring
    * list jsstring :=
  (errorDisplay (view p), errorText (view p), errorUrl (view p),
   loading (view p), map tab_title (tabs (bs p)),
   map el_title (tabBar (view p))).

(** *** Erasure of the ghost state *)

Definition erase_iframe (f : IFrame) : IFrame :=
  {| if_id := if_id f; if_owner := if_owner f; if_src := if_src f;
     if_display := if_display f; if_attached := if_attached f;
     loadTimeout := loadTimeout f; hasLoaded := hasLoaded f;
     prop_hasLoaded := prop_hasLoaded f; if_attempt := 0 |}.

Definition erase_timer (tm : Timer) : Timer :=
  {| tm_id := tm_id tm; tm_due := tm_due tm; tm_cb := tm_cb tm;
     tm_attempt := 0 |}.

(** The page as the script has it, without the attempt numbers. *)
Definition erase (p : Page) : Page :=
  {| bs := bs p; view := view p;
     iframes := map erase_iframe (iframes p);
     timers := map erase_timer (timers p);
     nextTimer := nextTimer p; clock := clock p |}.

(** *** The assignments of the handlers to [browserState] *)

(** One assignment of a handler to the registry, or one group of
    assignments that a handler makes together. *)
Inductive bs_atom (b : BrowserState) : BrowserState -> Prop :=
| atom_title tabId title :
    bs_atom b (updateTabTitle b tabId title)
| atom_active tabId :
    bs_atom b (set_activeTabId b (Some tabId))
| atom_iframe tabId h :
    bs_atom b (set_tabs b (update_first (has_id tabId) (set_iframe (Some h))
                                        (tabs b)))
| atom_visit tabId s :
    has_scheme s = true ->
    bs_atom b (addToHistory (updateTabUrl b tabId s) tabId s)
| atom_move tabId tab d u :
    find (has_id tabId) (tabs b) = Some tab ->
    (d = (-1)%Z /\ canGoBack b tabId = true)
    \/ (d = 1%Z /\ canGoForward b tabId = true) ->
    index (tab_history tab) (tab_historyIndex tab + d) = VStr u ->
    truthy u = true ->
    bs_atom b (updateTabUrl
                 (set_tabs b (update_first (has_id tabId) (move d) (tabs b)))
                 tabId u)
| atom_move_only tabId tab d :
    find (has_id tabId) (tabs b) = Some tab ->
    (d = (-1)%Z /\ canGoBack b tabId = true)
    \/ (d = 1%Z /\ canGoForward b tabId = true) ->
    (forall u, index (tab_history tab) (tab_historyIndex tab + d) = VStr u ->
               truthy u = false) ->
    bs_atom b (set_tabs b (update_first (has_id tabId) (move d) (tabs b)))
| atom_remove tabId :
    length (tabs b) <> 1%nat ->
    bs_atom b (fst (removeTab b tabId))
| atom_add now_id now_ts b1 tab :
    addTab b now_id now_ts [] = (b1, Some tab) ->
    bs_atom b (set_activeTabId b1 (Some (tab_id tab))).

Inductive bs_steps (b : BrowserState) : BrowserState -> Prop :=
| steps_refl : bs_steps b b
| steps_snoc b1 b2 : bs_steps b b1 -> bs_atom b1 b2 -> bs_steps b b2.

(** A tab as the handlers keep it: a title that is not empty, entries
    with a scheme, and an address that is ['about:blank'] before the first
    visit and the entry at the position afterwards. *)
Definition tab_ok (t : Tab) : Prop :=
  tab_title t <> []
  /\ Forall (fun u => has_scheme u = true) (tab_history t)
  /\ ((tab_history t = [] /\ tab_historyIndex t = (-1)%Z
       /\ tab_url t = js "about:blank")
      \/ index (tab_history t) (tab_historyIndex t) = VStr (tab_url t)).

Definition state_ok (b : BrowserState) : Prop :=
  maxTabs b = 3%Z
  /\ length (tabs b) <= 3
  /\ (tabs b <> [] -> activeTabId b <> None)
  /\ Forall tab_ok (tabs b).

(** *** The closure variable [hasLoaded] *)

(** From one list of iframes to a later one: every iframe is still there,
    made for the same tab, and its [hasLoaded] is still set if it was. *)
Definition keeps_loaded (l l' : list IFrame) : Prop :=
  forall h f,
    nth_error l h = Some f ->
    exists f', nth_error l' h = Some f'
               /\ if_owner f' = if_owner f
               /\ (hasLoaded f = true -> hasLoaded f' = true).

(** An assignment to an iframe that does not clear [hasLoaded]. *)
Definition keeps_flag (g : IFrame -> IFrame) : Prop :=
  forall f, if_owner (g f) = if_owner f
            /\ (hasLoaded f = true -> hasLoaded (g f) = true).

(** *** Which iframe is on display *)

(** What decides whether an iframe is seen: whether it is in the
    document, and its [style.display]. *)
Definition on_display (f : IFrame) : bool * display :=
  (if_attached f, if_display f).

(** [getActiveTab().iframe], when there is an active tab. *)
Definition active_iframe (b : BrowserState) : option (option nat) :=
  option_map tab_iframe (getActiveTab b).

(** The only iframe of the document with [display: block] is the one of
    the active tab. *)
Definition shows_active_only (p : Page) : Prop :=
  forall k f,
    nth_error (iframes p) k = Some f ->
    if_attached f = true -> if_display f = DBlock ->
    exists tab, getActiveTab (bs p) = Some tab /\ tab_iframe tab = Some k.

(** Two lists of iframes that look the same except at the handle [h]. *)
Definition same_off (h : nat) (l l' : list IFrame) : Prop :=
  forall k, k <> h ->
            nth_error (map on_display l') k = nth_error (map on_display l) k.

(** *** The iframes the tabs refer to *)

(** Every [tab.iframe] is [null] or one of the first [n] iframes made. *)
Definition handles_in (b : BrowserState) (n : nat) : Prop :=
  Forall (fun t => match tab_iframe t with
                   | Some h => h < n
                   | None => True
                   end) (tabs b).

Definition handles_ok (p : Page) : Prop :=
  handles_in (bs p) (length (iframes p)).

(** *** The tab bar and the history buttons *)

(** Of a tab element: the tab it stands for, and whether it is
    highlighted. *)
Definition mark (e : TabElement) : jsstring * bool :=
  (el_tabId e, el_active e).

(** The highlighted tab elements are those of the active tab. *)
Definition marks_ok (p : Page) : Prop :=
  forall e, In e (tabBar (view p)) ->
            el_active e = active_is (bs p) (el_tabId e).

(** What the history buttons should show for the active tab:
    [backBtn.disabled] and [forwardBtn.disabled]. *)
Definition nav_state (b : BrowserState) : option (bool * bool) :=
  option_map (fun tab => (negb (canGoBack b (tab_id tab)),
                          negb (canGoForward b (tab_id tab))))
             (getActiveTab b).

Definition nav_buttons (v : View) : bool * bool :=
  (backDisabled v, forwardDisabled v).

(** The history buttons are enabled as the history of the active tab
    allows. *)
Definition nav_ok (p : Page) : Prop :=
  match nav_state (bs p) with
  | Some buttons => nav_buttons (view p) = buttons
  | None => True
  end.

(** Two views with the same tab marks and the same history buttons. *)
Definition same_chrome (v v' : View) : Prop :=
  map mark (tabBar v') = map mark (tabBar v)
  /\ nav_buttons v' = nav_buttons v.

(** *** The iframes in the document *)

(** Every iframe that is still in the container is the iframe of a tab of
    the registry: when the iframe [k] is attached, some [tab.iframe] is
    [k]. *)
Definition iframes_owned (p : Page) : Prop :=
  forall k, nth_error (map if_attached (iframes p)) k = Some true ->
            In (Some k) (map tab_iframe (tabs (bs p))).

(** [iframeContainer.children.length], counting the iframes the script
    made. *)
Definition attached_count (p : Page) : nat :=
  length (filter if_attached (iframes p)).

End Platform.

End V2.

(* ===================================================================== *)
(** ** Reading mode: [displayArticle] (the same in both versions) *)
(* ===================================================================== *)

Module Reading.

(** [s.split(/\s+/)]: the pieces between the maximal runs of white space.
    [gap] tells whether the position is inside such a run; the head of the
    result is the piece that starts at the current position. *)
Fixpoint split_from (gap : bool) (s : jsstring) : list jsstring :=
  match s with
  | [] => [[]]
  | c :: s' =>
      if is_white c then
        if gap then split_from true s' else [] :: split_from true s'
      else
        match split_from false s' with
        | piece :: rest => (c :: piece) :: rest
        | [] => [[c]]
        end
  end.

Definition split_white (s : jsstring) : list jsstring := split_from false s.

(** The object handed to [displayArticle]; both callers fill the four
    fields with strings. *)
Record Article : Type := mkArticle {
  title : jsstring;
  byline : jsstring;
  content : jsstring;
  textContent : jsstring
}.

(** [article.textContent ? article.textContent.split(/\s+/).length : 0] *)
Definition wordCount (a : Article) : nat :=
  if truthy (textContent a) then length (split_white (textContent a))
  else 0%nat.

(** [Math.ceil(wordCount / 200)].  The quotient of an array length by 200
    is a double whose ceiling is the ceiling of the exact quotient. *)
Definition readingTime (a : Article) : Z :=
  ((Z.of_nat (wordCount a) + 199) / 200)%Z.

Definition bullet : jsstring := [32; 8226; 32]%N.

Definition metaText (a : Article) : jsstring :=
  (if truthy (byline a) then js "By " ++ byline a ++ bullet else [])
  ++ of_number (readingTime a) ++ js " min read".

(** The three elements [displayArticle] writes. *)
Record Panel : Type := mkPanel {
  articleTitle : jsstring;     (* textContent *)
  articleMeta : jsstring;      (* textContent *)
  articleBody : jsstring       (* innerHTML *)
}.

(** [displayArticle(article)], up to the font settings it applies
    afterwards. *)
Definition displayArticle (a : Article) : Panel :=
  {| articleTitle := or_else (title a) (js "Untitled");
     articleMeta := metaText a;
     articleBody := or_else (content a) [] |}.

(** The words of a text: its maximal runs of characters that are not
    white space.  [inword] tells whether the position is inside one. *)
Fixpoint words_from (inword : bool) (s : jsstring) : nat :=
  match s with
  | [] => 0
  | c :: s' =>
      if is_white c then words_from false s'
      else (if inword then 0 else 1) + words_from true s'
  end.

Definition words (s : jsstring) : nat := words_from false s.

Definition starts_white (s : jsstring) : bool :=
  match s with
  | c :: _ => is_white c
  | [] => false
  end.

Definition ends_white (s : jsstring) : bool := starts_white (rev s).

(** The same, read from the front: whether the text ends in white space,
    given whether the character before it was white space. *)
Fixpoint end_white (before : bool) (s : jsstring) : bool :=
  match s with
  | [] => before
  | c :: s' => end_white (is_white c) s'
  end.

End Reading.

(* ===================================================================== *)
(** ** Concrete inputs *)
(* ===================================================================== *)

Module Samples.

Import V2.

(** A small stand-in for the platform's URL parser, used where a statement
    is instantiated at concrete inputs: it accepts [http://] and [https://]
    followed by a non-empty host and no white space, and returns the text
    up to the first [/], [:], [?] or [#] as the host name. *)
Fixpoint host_part (s : jsstring) : jsstring :=
  match s with
  | [] => []
  | c :: s' =>
      if ((c =? 47) || (c =? 58) || (c =? 63) || (c =? 35))%N then []
      else c :: host_part s'
  end.

Definition sample_URL (s : jsstring) : option jsstring :=
  let rest := if startsWith s (js "https://") then Some (skipn 8 s)
              else if startsWith s (js "http://") then Some (skipn 7 s)
              else None in
  match rest with
  | Some r => if truthy (host_part r) && negb (test_white r)
              then Some (host_part r) else None
  | None => None
  end.

Definition sample_now : Z := 1700000000000.

Definition sample_id : jsstring := make_id sample_now.

(** The registry after one [addTab()]. *)
Definition one_tab : BrowserState :=
  fst (addTab constructor sample_now sample_now []).

(** The registry after a second [addTab()], one millisecond later. *)
Definition two_tabs : BrowserState :=
  fst (addTab one_tab (sample_now + 1) (sample_now + 1) []).

Definition blank_view : View :=
  {| errorDisplay := DUnset; errorText := []; errorUrl := None;
     loading := false; welcomeDisplay := DUnset; containerDisplay := DUnset;
     addressBar := []; backDisabled := false; forwardDisabled := false;
     tabBar := [] |}.

(** The page as the script finds it. *)
Definition blank_page : Page :=
  {| bs := constructor; view := blank_view; iframes := []; timers := [];
     nextTimer := 1; clock := 0 |}.

(** The page once [initBrowser] has run, at time 0. *)
Definition loaded_page : Page :=
  addTab_page sample_URL sample_now sample_now [] (set_clock 0 blank_page).

(** A navigation superseded during its settle delay: the page loads, the
    user enters an address, the iframe reports 'load', and 200 ms later the
    user enters another address. *)
Definition address_a : jsstring := js "https://a.example".
Definition address_b : jsstring := js "https://b.example".

Definition supersede_trace : list (N * Event) :=
  [(0%N, DOMContentLoaded sample_now sample_now);
   (1000%N, PressEnter address_a);
   (1200%N, IframeLoad 0);
   (1400%N, PressEnter address_b)].

(** The pages along that trace, given the titles the two navigations
    chose. *)
Definition first_navigation (title_a : jsstring) : Page :=
  navigate_titled address_a title_a
    (on_view (set_addressBar address_a) (set_clock 1000 loaded_page)).

Definition first_loaded (title_a : jsstring) : Page :=
  on_load 0 (set_clock 1200 (first_navigation title_a)).

Definition superseded (title_a title_b : jsstring) : Page :=
  navigate_titled address_b title_b
    (on_view (set_addressBar address_b)
             (set_clock 1400 (first_loaded title_a))).

(** A tab that visited two addresses and stands on the second. *)
Definition two_visits : BrowserState :=
  addToHistory (addToHistory one_tab sample_id address_a) sample_id address_b.

(** U+1F600 as a surrogate pair. *)
Definition grinning_face : jsstring := [55357%N; 56832%N].

(** The page loads and the user enters an address. *)
Definition visit_trace : list (N * Event) :=
  [(0%N, DOMContentLoaded sample_now sample_now);
   (1000%N, PressEnter address_a)].

Definition visited_page : Page := first_navigation (js "a.example").

(** The user enters an address in the first tab and opens a second tab
    while the first one is still loading. *)
Definition background_trace : list (N * Event) :=
  [(0%N, DOMContentLoaded sample_now sample_now);
   (1000%N, PressEnter address_a);
   (2000%N, ClickAdd (sample_now + 1) (sample_now + 1))].

Definition two_tab_page : Page :=
  match run sample_URL background_trace blank_page with
  | Some p => p
  | None => blank_page
  end.

End Samples.

(* ===================================================================== *)
(** ** Properties of the built-ins *)
(* ===================================================================== *)

(** Boolean string equality decides equality ([===] on strings). *)
Lemma str_eqb_spec (a b : jsstring) : str_eqb a b = true <-> a = b.
Proof.
  revert b; induction a as [|c a IH]; intros [|d b]; simpl;
    try (split; [discriminate | congruence]); try tauto.
  rewrite andb_true_iff, N.eqb_eq, IH.
  split; [intros [-> ->]; reflexivity | intros H; inversion H; auto].
Qed.

Lemma str_eqb_refl (a : jsstring) : str_eqb a a = true.
Proof. apply str_eqb_spec; reflexivity. Qed.


(** *** Arrays: [find], [findIndex], [splice] and in-place updates *)

Section Arrays.

Context {A : Type}.
Variable p : A -> bool.

Lemma findIndex_none (l : list A) :
  findIndex p l = None <-> find p l = None.
Proof.
  induction l as [|x l IH]; simpl; [tauto|].
  destruct (p x); [split; discriminate|].
  destruct (findIndex p l); simpl.
  - split; [discriminate|]. intros H; apply IH in H; discriminate.
  - split; intros _; [apply IH|]; reflexivity.
Qed.

(** [findIndex] returns the position of the first match. *)
Lemma findIndex_some (l : list A) (i : nat) :
  findIndex p l = Some i ->
  exists l1 x l2,
    l = l1 ++ x :: l2 /\ length l1 = i /\ p x = true
    /\ find p l1 = None /\ find p l = Some x
    /\ nth_error l i = Some x /\ splice1 i l = l1 ++ l2.
Proof.
  revert i; induction l as [|y l IH]; simpl; intros i H; [discriminate|].
  destruct (p y) eqn:Hy.
  - inversion H; subst.
    exists [], y, l; repeat split; auto.
  - destruct (findIndex p l) as [j|]; simpl in H; [|discriminate].
    inversion H; subst.
    destruct (IH j eq_refl) as (l1 & x & l2 & -> & Hlen & Hx & Hn & Hf & Hnth & Hs).
    exists (y :: l1), x, l2; simpl; rewrite Hy.
    repeat split; auto.
    unfold splice1 in *; simpl; f_equal; exact Hs.
Qed.

(** The object that [find] returns is the one that was assigned to. *)
Lemma find_update_first (f : A -> A) (l : list A) :
  (forall x, p (f x) = p x) ->
  find p (update_first p f l) = option_map f (find p l).
Proof.
  intros Hf; induction l as [|x l IH]; simpl; auto.
  destruct (p x) eqn:Hx; simpl.
  - rewrite Hf, Hx; reflexivity.
  - rewrite Hx; exact IH.
Qed.

Lemma map_update_first {B} (g : A -> B) (f : A -> A) (l : list A) :
  (forall x, g (f x) = g x) ->
  map g (update_first p f l) = map g l.
Proof.
  intros Hf; induction l as [|x l IH]; simpl; auto.
  destruct (p x); simpl; rewrite ?Hf, ?IH; reflexivity.
Qed.

End Arrays.

Lemma slice0_nonneg {A} (l : list A) (e : Z) :
  (0 <= e)%Z -> slice0 l e = firstn (Z.to_nat e) l.
Proof.
  intros He; unfold slice0.
  destruct (e <? 0)%Z eqn:E; [apply Z.ltb_lt in E; lia|].
  destruct (Z.le_gt_cases e (Z.of_nat (length l))) as [H|H].
  - rewrite Z.min_l by lia; reflexivity.
  - rewrite Z.min_r by lia.
    rewrite Nat2Z.id, firstn_all, firstn_all2 by lia; reflexivity.
Qed.

Lemma index_in_range (l : list jsstring) (i : Z) :
  (0 <= i < Z.of_nat (length l))%Z ->
  exists u, nth_error l (Z.to_nat i) = Some u /\ index l i = VStr u.
Proof.
  intros [H0 H1]; unfold index.
  destruct (i <? 0)%Z eqn:E; [apply Z.ltb_lt in E; lia|].
  destruct (nth_error l (Z.to_nat i)) as [u|] eqn:Hn.
  - exists u; auto.
  - apply nth_error_None in Hn; lia.
Qed.

(* ===================================================================== *)
(** ** NavigationHistory: the per-tab history of [BrowserState] *)
(* ===================================================================== *)

Section NavigationHistory.

Import V2.

Lemma find_none_not_in (tabId : jsstring) (l : list Tab) :
  find (has_id tabId) l = None <-> ~ In tabId (map tab_id l).
Proof.
  induction l as [|t l IH]; simpl; [tauto|].
  unfold has_id at 1.
  destruct (str_eqb (tab_id t) tabId) eqn:E.
  - apply str_eqb_spec in E; split; [discriminate|tauto].
  - assert (tab_id t <> tabId)
      by (intros H; apply str_eqb_spec in H; congruence).
    rewrite IH; tauto.
Qed.

Lemma find_some_in (tabId : jsstring) (l : list Tab) (t : Tab) :
  find (has_id tabId) l = Some t -> In t l /\ tab_id t = tabId.
Proof.
  intros H; apply find_some in H; destruct H as [H1 H2].
  split; [exact H1 | apply str_eqb_spec; exact H2].
Qed.

(** What [addToHistory], [goBack] and [goForward] do to the history that
    [tabId] designates. *)
Lemma history_of_addToHistory b tabId url :
  history_of (addToHistory b tabId url) tabId
  = option_map
      (fun h => let l := slice0 (fst h) (snd h + 1) ++ [url] in
                (l, (Z.of_nat (length l) - 1)%Z))
      (history_of b tabId).
Proof.
  unfold history_of, addToHistory; simpl.
  rewrite find_update_first by reflexivity.
  destruct (find (has_id tabId) (tabs b)); reflexivity.
Qed.

Lemma history_of_move b tabId d :
  history_of (set_tabs b (update_first (has_id tabId) (move d) (tabs b)))
             tabId
  = option_map (fun h => (fst h, (snd h + d)%Z)) (history_of b tabId).
Proof.
  unfold history_of; simpl.
  rewrite find_update_first by reflexivity.
  destruct (find (has_id tabId) (tabs b)); reflexivity.
Qed.

Lemma history_of_some b tabId entries position :
  history_of b tabId = Some (entries, position) ->
  exists tab, find (has_id tabId) (tabs b) = Some tab
              /\ tab_history tab = entries
              /\ tab_historyIndex tab = position.
Proof.
  unfold history_of; destruct (find (has_id tabId) (tabs b)) as [t|];
    simpl; [|discriminate].
  intros H; inversion H; eauto.
Qed.

Lemma goBack_moves b tabId entries position :
  history_of b tabId = Some (entries, position) ->
  (0 < position)%Z ->
  history_of (fst (goBack b tabId)) tabId
  = Some (entries, (position - 1)%Z)
  /\ snd (goBack b tabId) = index entries (position - 1).
Proof.
  intros Hh Hpos.
  destruct (history_of_some _ _ Hh) as (t & Hf & Hl & Hi).
  unfold goBack, canGoBack; rewrite Hf, Hi.
  replace (position >? 0)%Z with true by (symmetry; apply Z.gtb_lt; lia).
  cbn [fst snd]; rewrite history_of_move, Hh, Hl; split; reflexivity.
Qed.

Lemma goForward_moves b tabId entries position :
  history_of b tabId = Some (entries, position) ->
  (position < Z.of_nat (length entries) - 1)%Z ->
  history_of (fst (goForward b tabId)) tabId
  = Some (entries, (position + 1)%Z)
  /\ snd (goForward b tabId) = index entries (position + 1).
Proof.
  intros Hh Hpos.
  destruct (history_of_some _ _ Hh) as (t & Hf & Hl & Hi).
  unfold goForward, canGoForward; rewrite Hf, Hl, Hi.
  replace (position <? Z.of_nat (length entries) - 1)%Z with true
    by (symmetry; apply Z.ltb_lt; lia).
  cbn [fst snd]; rewrite history_of_move, Hh; split; reflexivity.
Qed.

(** C2.  [addToHistory] keeps the first [position + 1] entries, appends
    the URL and moves the position to the last entry.  From an empty
    history, pushing a, b, c, going back twice and pushing d leaves the
    entries [a; d] at position 1, with no way forward. *)
Theorem addToHistory_push b tabId entries position :
  history_of b tabId = Some (entries, position) ->
  (-1 <= position)%Z ->
  (forall url,
      let kept := firstn (Z.to_nat (position + 1)) entries in
      history_of (addToHistory b tabId url) tabId
      = Some (kept ++ [url], (Z.of_nat (length (kept ++ [url])) - 1)%Z)
      /\ ((position < Z.of_nat (length entries))%Z ->
          Z.of_nat (length kept) = (position + 1)%Z))
  /\ (entries = [] -> position = (-1)%Z ->
      forall a c d e,
        let pushed :=
          addToHistory (addToHistory (addToHistory b tabId a) tabId c)
                       tabId d in
        let back2 := fst (goBack (fst (goBack pushed tabId)) tabId) in
        let final := addToHistory back2 tabId e in
        history_of final tabId = Some ([a; e], 1%Z)
        /\ canGoForward final tabId = false).
Proof.
  intros Hh Hpos; split.
  - intros url kept; split.
    + rewrite history_of_addToHistory, Hh; simpl.
      rewrite slice0_nonneg by lia; reflexivity.
    + intros Hlt; subst kept; rewrite length_firstn; lia.
  - intros -> -> a c d e pushed back2 final.
    assert (Hp : history_of pushed tabId = Some ([a; c; d], 2%Z)).
    { subst pushed; rewrite !history_of_addToHistory, Hh; reflexivity. }
    assert (Hb : history_of back2 tabId = Some ([a; c; d], 0%Z)).
    { subst back2.
      destruct (goBack_moves _ _ Hp) as [H1 _]; [lia|].
      destruct (goBack_moves _ _ H1) as [H2 _]; [lia|].
      exact H2. }
    assert (Hfin : history_of final tabId = Some ([a; e], 1%Z)).
    { subst final; rewrite history_of_addToHistory, Hb; reflexivity. }
    split; [exact Hfin|].
    destruct (history_of_some _ _ Hfin) as (t & Hf & Hl & Hi).
    unfold canGoForward; rewrite Hf, Hl, Hi; reflexivity.
Qed.

(** C7.  With [canGoBack], [goBack] moves the position one step down and
    returns the entry there; without it, [goBack] returns [null] and
    changes nothing.  [goForward] does the same one step up, governed by
    [canGoForward]. *)
Theorem goBack_goForward_spec b tabId entries position :
  history_of b tabId = Some (entries, position) ->
  (-1 <= position < Z.of_nat (length entries))%Z ->
  canGoBack b tabId = (position >? 0)%Z
  /\ canGoForward b tabId = (position <? Z.of_nat (length entries) - 1)%Z
  /\ (canGoBack b tabId = true ->
      exists u,
        nth_error entries (Z.to_nat (position - 1)) = Some u
        /\ snd (goBack b tabId) = VStr u
        /\ history_of (fst (goBack b tabId)) tabId
           = Some (entries, (position - 1)%Z))
  /\ (canGoBack b tabId = false -> goBack b tabId = (b, VNull))
  /\ (canGoForward b tabId = true ->
      exists u,
        nth_error entries (Z.to_nat (position + 1)) = Some u
        /\ snd (goForward b tabId) = VStr u
        /\ history_of (fst (goForward b tabId)) tabId
           = Some (entries, (position + 1)%Z))
  /\ (canGoForward b tabId = false -> goForward b tabId = (b, VNull)).
Proof.
  intros Hh Hinv.
  destruct (history_of_some _ _ Hh) as (t & Hf & Hl & Hi).
  assert (Hb : canGoBack b tabId = (position >? 0)%Z)
    by (unfold canGoBack; rewrite Hf, Hi; reflexivity).
  assert (Hw : canGoForward b tabId
               = (position <? Z.of_nat (length entries) - 1)%Z)
    by (unfold canGoForward; rewrite Hf, Hl, Hi; reflexivity).
  repeat split; auto.
  - intros Hc. rewrite Hb in Hc. apply Z.gtb_lt in Hc.
    destruct (@index_in_range entries (position - 1)) as (u & Hn & Hu);
      [lia|].
    destruct (goBack_moves _ _ Hh) as [H1 H2]; [lia|].
    exists u; rewrite H2; auto.
  - intros Hc; unfold goBack; rewrite Hf, Hc; reflexivity.
  - intros Hc. rewrite Hw in Hc. apply Z.ltb_lt in Hc.
    destruct (@index_in_range entries (position + 1)) as (u & Hn & Hu);
      [lia|].
    destruct (goForward_moves _ _ Hh) as [H1 H2]; [lia|].
    exists u; rewrite H2; auto.
  - intros Hc; unfold goForward; rewrite Hf, Hc; reflexivity.
Qed.

(** C10.  For an identifier that no tab carries, [canGoBack] and
    [canGoForward] answer [false], [goBack] and [goForward] return
    [null], and the state is the one passed in. *)
Theorem history_unknown_tab b tabId :
  ~ In tabId (map tab_id (tabs b)) ->
  canGoBack b tabId = false
  /\ canGoForward b tabId = false
  /\ goBack b tabId = (b, VNull)
  /\ goForward b tabId = (b, VNull).
Proof.
  intros H; apply find_none_not_in in H.
  unfold canGoBack, canGoForward, goBack, goForward; rewrite H; auto.
Qed.

End NavigationHistory.

(* ===================================================================== *)
(** ** TabRegistry: [addTab] and [removeTab] *)
(* ===================================================================== *)

Section TabRegistry.

Import V2.

Lemma first_id_in (l : list Tab) (a : jsstring) :
  first_id l = Some a -> In a (map tab_id l).
Proof.
  destruct l as [|t l]; simpl; [discriminate|].
  intros H; inversion H; auto.
Qed.

Lemma active_is_spec b tabId :
  active_is b tabId = true <-> activeTabId b = Some tabId.
Proof.
  unfold active_is; destruct (activeTabId b) as [a|].
  - rewrite str_eqb_spec; split; [intros ->; reflexivity|congruence].
  - split; discriminate.
Qed.

(** What [removeTab] does when a tab carries the id. *)
Lemma removeTab_found b tabId :
  In tabId (map tab_id (tabs b)) ->
  exists l1 t l2,
    tabs b = l1 ++ t :: l2 /\ tab_id t = tabId
    /\ ~ In tabId (map tab_id l1)
    /\ tabs (fst (removeTab b tabId)) = l1 ++ l2
    /\ snd (removeTab b tabId) = tab_iframe t
    /\ activeTabId (fst (removeTab b tabId))
       = if active_is b tabId then first_id (l1 ++ l2) else activeTabId b.
Proof.
  intros Hin; unfold removeTab.
  destruct (findIndex (has_id tabId) (tabs b)) as [i|] eqn:Hi.
  - destruct (findIndex_some _ _ Hi)
      as (l1 & t & l2 & Hl & Hlen & Ht & Hn & Hf & Hnth & Hs).
    exists l1, t, l2; rewrite Hnth, Hs.
    repeat split; auto.
    + apply str_eqb_spec; exact Ht.
    + apply find_none_not_in; exact Hn.
    + destruct (active_is b tabId); reflexivity.
    + destruct (active_is b tabId); reflexivity.
  - apply findIndex_none, find_none_not_in in Hi; contradiction.
Qed.

Lemma removeTab_unknown b tabId :
  ~ In tabId (map tab_id (tabs b)) -> removeTab b tabId = (b, None).
Proof.
  intros H; apply find_none_not_in, findIndex_none in H.
  unfold removeTab; rewrite H; reflexivity.
Qed.

Lemma removeTab_active_ok b tabId :
  active_ok b -> active_ok (fst (removeTab b tabId)).
Proof.
  intros Hok.
  destruct (in_dec (list_eq_dec N.eq_dec) tabId (map tab_id (tabs b)))
    as [Hin|Hout].
  - destruct (removeTab_found b tabId Hin)
      as (l1 & t & l2 & Hl & Ht & Hn & Htabs & _ & Hact).
    unfold active_ok; rewrite Hact, Htabs.
    destruct (active_is b tabId) eqn:Ha.
    + destruct (first_id (l1 ++ l2)) as [a|] eqn:Hfst; [|exact I].
      apply first_id_in; exact Hfst.
    + unfold active_ok in Hok.
      destruct (activeTabId b) as [a|] eqn:Hb; [|exact I].
      rewrite Hl, map_app in Hok; rewrite map_app.
      apply in_app_or in Hok; apply in_or_app.
      destruct Hok as [H|[H|H]]; auto.
      exfalso. assert (active_is b tabId = true)
        by (apply active_is_spec; congruence).
      congruence.
  - rewrite removeTab_unknown by exact Hout; exact Hok.
Qed.

(** C5.  [removeTab] takes out the first tab carrying the id; when that id
    was the active one, the first remaining tab becomes active, or none if
    no tab remains; for an id no tab carries nothing changes; and a
    registry whose active id was unset or present stays so. *)
Theorem removeTab_spec b tabId :
  active_ok b ->
  (~ In tabId (map tab_id (tabs b)) -> removeTab b tabId = (b, None))
  /\ (In tabId (map tab_id (tabs b)) ->
      exists l1 t l2,
        tabs b = l1 ++ t :: l2 /\ tab_id t = tabId
        /\ ~ In tabId (map tab_id l1)
        /\ tabs (fst (removeTab b tabId)) = l1 ++ l2
        /\ (activeTabId b = Some tabId ->
            activeTabId (fst (removeTab b tabId)) = first_id (l1 ++ l2))
        /\ (activeTabId b <> Some tabId ->
            activeTabId (fst (removeTab b tabId)) = activeTabId b))
  /\ active_ok (fst (removeTab b tabId)).
Proof.
  intros Hok; split; [apply removeTab_unknown|split].
  - intros Hin.
    destruct (removeTab_found b tabId Hin)
      as (l1 & t & l2 & Hl & Ht & Hn & Htabs & _ & Hact).
    exists l1, t, l2; repeat split; auto.
    + intros Ha; apply active_is_spec in Ha; rewrite Hact, Ha; reflexivity.
    + intros Ha; rewrite Hact.
      destruct (active_is b tabId) eqn:E; [|reflexivity].
      apply active_is_spec in E; contradiction.
  - apply removeTab_active_ok; exact Hok.
Qed.

(** The capacity check of [addTab]: at or above [maxTabs] the call returns
    [null] and the registry is the one passed in; below, the new tab is
    appended and returned, and the bound is kept. *)
Lemma addTab_capacity b now_id now_ts url :
  ((maxTabs b <= Z.of_nat (length (tabs b)))%Z ->
   addTab b now_id now_ts url = (b, None))
  /\ ((Z.of_nat (length (tabs b)) < maxTabs b)%Z ->
      exists tab,
        addTab b now_id now_ts url = (set_tabs b (tabs b ++ [tab]), Some tab)
        /\ tab_id tab = make_id now_id
        /\ tab_title tab = js "New Tab"
        /\ tab_history tab = [] /\ tab_historyIndex tab = (-1)%Z
        /\ tab_iframe tab = None)
  /\ ((Z.of_nat (length (tabs b)) <= maxTabs b)%Z ->
      (Z.of_nat (length (tabs (fst (addTab b now_id now_ts url))))
       <= maxTabs (fst (addTab b now_id now_ts url)))%Z).
Proof.
  unfold addTab.
  destruct (Z.of_nat (length (tabs b)) >=? maxTabs b)%Z eqn:E.
  - apply Z.geb_le in E; repeat split; auto; lia.
  - assert (Z.of_nat (length (tabs b)) < maxTabs b)%Z
      by (destruct (Z.geb_spec (Z.of_nat (length (tabs b))) (maxTabs b));
          [discriminate | lia]).
    repeat split; try lia.
    + intros _; eexists; repeat split.
    + intros _; simpl; rewrite length_app; simpl; lia.
Qed.

(** C4 (the step the claim gets wrong).  Below capacity the id of the new
    tab is [tab-] followed by the clock reading, whether or not a tab with
    that id is present: at the reading at which [one_tab]'s tab was made,
    [addTab] returns a tab whose id the registry holds already. *)
Theorem addTab_id_not_fresh :
  exists tab,
    snd (addTab Samples.one_tab Samples.sample_now (Samples.sample_now + 7) [])
    = Some tab
    /\ (Z.of_nat (length (tabs Samples.one_tab)) < maxTabs Samples.one_tab)%Z
    /\ In (tab_id tab) (map tab_id (tabs Samples.one_tab)).
Proof.
  eexists; split; [reflexivity|split]; [reflexivity|].
  left; reflexivity.
Qed.

(** C9 (the step the claim gets wrong).  Two calls of [addTab] that read
    the same value from the clock make two tabs with one id, in both
    versions of the script. *)
Theorem addTab_same_reading_same_id (now ts1 ts2 : Z) (url1 url2 : jsstring) :
  (exists t1 t2,
      map tab_id
          (tabs (fst (addTab (fst (addTab constructor now ts1 url1))
                             now ts2 url2)))
      = [tab_id t1; tab_id t2]
      /\ snd (addTab constructor now ts1 url1) = Some t1
      /\ snd (addTab (fst (addTab constructor now ts1 url1)) now ts2 url2)
         = Some t2
      /\ tab_id t1 = tab_id t2)
  /\ (forall b,
         V1.tab_id (snd (V1.addTab b now ts1 url1))
         = V1.tab_id (snd (V1.addTab (fst (V1.addTab b now ts1 url1))
                                     now ts2 url2))).
Proof.
  split; [|reflexivity].
  do 2 eexists; repeat split.
Qed.

End TabRegistry.

(* ===================================================================== *)
(** ** URL normalisation *)
(* ===================================================================== *)

Section Sanitizer.

Import V2.

Variable URL_hostname : jsstring -> option jsstring.

Lemma trimStart_all_white (s : jsstring) :
  forallb is_white s = true -> trimStart s = [].
Proof.
  induction s as [|c s IH]; simpl; auto.
  destruct (is_white c); simpl; [exact IH | discriminate].
Qed.

(** An input made of white space only trims to the empty string. *)
Lemma trim_all_white (s : jsstring) :
  forallb is_white s = true -> trim s = [].
Proof.
  intros H; unfold trim; rewrite trimStart_all_white by exact H; reflexivity.
Qed.

Lemma includes_single (s : jsstring) (c : code_unit) :
  includes s [c] = existsb (N.eqb c) s.
Proof.
  induction s as [|d s IH]; [reflexivity|].
  cbn [includes startsWith existsb]; rewrite IH.
  destruct s; cbn [startsWith]; rewrite andb_true_r; reflexivity.
Qed.

(** [includes(' ')] is subsumed by the [\s] test. *)
Lemma includes_space_white (s : jsstring) :
  includes s (js " ") = true -> test_white s = true.
Proof.
  change (js " ") with [32%N]; rewrite includes_single.
  unfold test_white; induction s as [|c s IH]; [discriminate|].
  cbn [existsb]; destruct (32 =? c)%N eqn:E.
  - apply N.eqb_eq in E; subst c; reflexivity.
  - intros H; rewrite IH by exact H; apply orb_true_r.
Qed.

(** Past the scheme test, [isValidUrl] is the conjunction the claim
    describes. *)
Lemma isValidUrl_no_scheme (t : jsstring) :
  has_scheme t = false ->
  isValidUrl URL_hostname t
  = includes t (js ".") && negb (test_white t)
    && URL_ok URL_hostname (js "https://" ++ t).
Proof.
  intros Hs; unfold isValidUrl; rewrite Hs.
  destruct (includes t (js ".")); [|reflexivity].
  destruct (test_white t) eqn:Hw.
  - rewrite andb_false_r; reflexivity.
  - destruct (includes t (js " ")) eqn:E; [|reflexivity].
    apply includes_space_white in E; congruence.
Qed.

(** C3, as the code has it.  [sanitizeUrl] trims its input and decides on
    the trimmed text [t]: empty gives the default address; a leading
    [http://] or [https://] gives [t] itself; a dot, no white space and a
    well-formed [https://t] give [https://t]; anything else gives the
    search address with [encodeURIComponent(t)] appended (when that
    function returns).  The four examples of the claim hold. *)
Theorem sanitizeUrl_precedence (input : jsstring) :
  (forallb is_white input = true ->
   sanitizeUrl URL_hostname input = Some (js "https://www.google.com"))
  /\ (trim input = [] ->
      sanitizeUrl URL_hostname input = Some (js "https://www.google.com"))
  /\ (trim input <> [] -> has_scheme (trim input) = true ->
      sanitizeUrl URL_hostname input = Some (trim input))
  /\ (trim input <> [] -> has_scheme (trim input) = false ->
      includes (trim input) (js ".") = true ->
      test_white (trim input) = false ->
      URL_ok URL_hostname (js "https://" ++ trim input) = true ->
      sanitizeUrl URL_hostname input = Some (js "https://" ++ trim input))
  /\ (trim input <> [] -> has_scheme (trim input) = false ->
      includes (trim input) (js ".") = false
      \/ test_white (trim input) = true
      \/ URL_ok URL_hostname (js "https://" ++ trim input) = false ->
      sanitizeUrl URL_hostname input
      = option_map (app (js "https://www.google.com/search?q="))
                   (encodeURIComponent (trim input)))
  /\ sanitizeUrl URL_hostname (js "") = Some (js "https://www.google.com")
  /\ (URL_ok URL_hostname (js "https://example.com") = true ->
      sanitizeUrl URL_hostname (js "example.com")
      = Some (js "https://example.com"))
  /\ sanitizeUrl URL_hostname (js "https://x.com") = Some (js "https://x.com")
  /\ sanitizeUrl URL_hostname (js "hello world")
     = Some (js "https://www.google.com/search?q=hello%20world").
Proof.
  assert (Hempty : forall i, trim i = [] ->
            sanitizeUrl URL_hostname i = Some (js "https://www.google.com"))
    by (intros i H; unfold sanitizeUrl; rewrite H; reflexivity).
  assert (Hne : forall t, t <> [] -> negb (truthy t) = false)
    by (intros [|c t] H; [congruence | reflexivity]).
  repeat split.
  - intros H; apply Hempty, trim_all_white; exact H.
  - apply Hempty.
  - intros Ht Hs; unfold sanitizeUrl; rewrite (Hne _ Ht), Hs; reflexivity.
  - intros Ht Hs Hdot Hw Hok; unfold sanitizeUrl.
    rewrite (Hne _ Ht), Hs, (isValidUrl_no_scheme _ Hs), Hdot, Hw, Hok.
    reflexivity.
  - intros Ht Hs H; unfold sanitizeUrl.
    rewrite (Hne _ Ht), Hs, (isValidUrl_no_scheme _ Hs).
    destruct H as [H|[H|H]]; rewrite H.
    + reflexivity.
    + rewrite andb_false_r; reflexivity.
    + rewrite andb_false_r; reflexivity.
  - intros Hok; unfold sanitizeUrl.
    change (trim (js "example.com")) with (js "example.com").
    rewrite isValidUrl_no_scheme by reflexivity.
    change (js "https://" ++ js "example.com") with (js "https://example.com").
    rewrite Hok; reflexivity.
Qed.

(** C3, the step the claim gets wrong: an input that begins with a scheme
    and ends in white space is not handed back as it came. *)
Lemma sanitizeUrl_trims_scheme_input :
  exists input,
    has_scheme input = true
    /\ (forall URL, sanitizeUrl URL input = Some (js "https://x.com"))
    /\ js "https://x.com" <> input.
Proof.
  exists (js "https://x.com "); repeat split; discriminate.
Qed.

(** A lone surrogate in a search query makes [encodeURIComponent], and with
    it [sanitizeUrl], throw. *)
Lemma sanitizeUrl_lone_surrogate :
  sanitizeUrl URL_hostname [55296%N] = None.
Proof. reflexivity. Qed.

End Sanitizer.

(* ===================================================================== *)
(** ** The page: closing and switching tabs *)
(* ===================================================================== *)

Section PageRegistry.

Import V2.

Variable URL_hostname : jsstring -> option jsstring.

(** C8.  With a single tab in the registry, [closeTab] returns at once:
    the page of the second version is left as it was, and in the first
    version (which also closes the windows it opened) the registry and the
    tab bar are left as they were. *)
Theorem closeTab_sole_tab (p : Page) (q : V1.Page) (tabId : jsstring) :
  length (tabs (bs p)) = 1%nat ->
  length (V1.tabs (V1.bs q)) = 1%nat ->
  closeTab tabId p = p
  /\ V1.bs (V1.closeTab tabId q) = V1.bs q
  /\ V1.tabBar (V1.closeTab tabId q) = V1.tabBar q.
Proof.
  intros Hp Hq; unfold closeTab, V1.closeTab; rewrite Hp, Hq.
  repeat split.
Qed.

Lemma reg_on_view f q r :
  (forall v, map el_tabId (tabBar (f v)) = map el_tabId (tabBar v)) ->
  registry q = r -> registry (on_view f q) = r.
Proof.
  intros Hf <-; unfold registry; simpl; rewrite Hf; reflexivity.
Qed.

Lemma reg_on_bs f q r :
  (forall b, map tab_id (tabs (f b)) = map tab_id (tabs b)
             /\ activeTabId (f b) = activeTabId b) ->
  registry q = r -> registry (on_bs f q) = r.
Proof.
  intros Hf <-; unfold registry; simpl.
  destruct (Hf (bs q)) as [-> ->]; reflexivity.
Qed.

Lemma reg_on_iframes f q r :
  registry q = r -> registry (on_iframes f q) = r.
Proof. auto. Qed.

Lemma reg_on_iframe h f q r :
  registry q = r -> registry (on_iframe h f q) = r.
Proof. auto. Qed.

Lemma reg_set_timers l n q r :
  registry q = r -> registry (set_timers l n q) = r.
Proof. auto. Qed.

Lemma reg_set_clock t q r :
  registry q = r -> registry (set_clock t q) = r.
Proof. auto. Qed.

Lemma ids_update_first tabId f (l : list Tab) :
  (forall t, tab_id (f t) = tab_id t) ->
  map tab_id (update_first (has_id tabId) f l) = map tab_id l.
Proof. intros H; apply map_update_first; exact H. Qed.

Lemma reg_showLoading q r : registry q = r -> registry (showLoading q) = r.
Proof. auto. Qed.

Lemma reg_hideLoading q r : registry q = r -> registry (hideLoading q) = r.
Proof. auto. Qed.

Lemma reg_showWelcomeScreen q r :
  registry q = r -> registry (showWelcomeScreen q) = r.
Proof. auto. Qed.

Lemma reg_hideWelcomeScreen q r :
  registry q = r -> registry (hideWelcomeScreen q) = r.
Proof. auto. Qed.

Lemma reg_hideError q r : registry q = r -> registry (hideError q) = r.
Proof. auto. Qed.

Lemma reg_showError m u q r :
  registry q = r -> registry (showError m u q) = r.
Proof.
  intros <-; unfold showError, registry; simpl.
  destruct (truthy u); reflexivity.
Qed.

Lemma reg_updateTabBar q r :
  registry q = r -> registry (updateTabBar q) = r.
Proof.
  intros <-; unfold updateTabBar, registry; simpl.
  rewrite map_map; f_equal; apply map_ext; intros e.
  destruct (find (has_id (el_tabId e)) (tabs (bs q))); reflexivity.
Qed.

Lemma reg_updateNavButtons q r :
  registry q = r -> registry (updateNavButtons q) = r.
Proof.
  intros <-; unfold updateNavButtons.
  destruct (getActiveTab (bs q)); reflexivity.
Qed.

Lemma reg_setTimeout cb d a q r :
  registry q = r -> registry (setTimeout cb d a q) = r.
Proof. auto. Qed.

Lemma reg_clearTimeout id q r :
  registry q = r -> registry (clearTimeout id q) = r.
Proof. auto. Qed.

Lemma reg_createTabIframe tab q r :
  registry q = r -> registry (fst (createTabIframe tab q)) = r.
Proof.
  intros <-; unfold createTabIframe, registry; simpl.
  rewrite ids_update_first by reflexivity; reflexivity.
Qed.

Lemma reg_startLoadTimeout h u q r :
  registry q = r -> registry (startLoadTimeout h u q) = r.
Proof.
  intros <-; unfold startLoadTimeout.
  destruct (nth_error (iframes q) h) as [f|]; [|reflexivity].
  destruct (handle_truthy (loadTimeout f)); reflexivity.
Qed.

Lemma reg_signal_received h q r :
  registry q = r -> registry (signal_received h q) = r.
Proof.
  intros <-; unfold signal_received.
  destruct (nth_error (iframes q) h) as [f|]; [|reflexivity].
  destruct (handle_truthy (loadTimeout f)); reflexivity.
Qed.

Lemma reg_updateTabUrl tabId u q r :
  registry q = r -> registry (on_bs (fun b => updateTabUrl b tabId u) q) = r.
Proof.
  apply reg_on_bs; intros b; split; [|reflexivity].
  apply ids_update_first; reflexivity.
Qed.

Lemma reg_updateTabTitle tabId u q r :
  registry q = r ->
  registry (on_bs (fun b => updateTabTitle b tabId u) q) = r.
Proof.
  apply reg_on_bs; intros b; split; [|reflexivity].
  apply ids_update_first; reflexivity.
Qed.

Lemma reg_addToHistory tabId u q r :
  registry q = r -> registry (on_bs (fun b => addToHistory b tabId u) q) = r.
Proof.
  apply reg_on_bs; intros b; split; [|reflexivity].
  apply ids_update_first; reflexivity.
Qed.

Create HintDb reg.

#[local] Hint Resolve reg_on_iframes reg_on_iframe reg_set_timers reg_set_clock
  reg_showLoading reg_hideLoading reg_showWelcomeScreen
  reg_hideWelcomeScreen reg_hideError reg_showError reg_updateTabBar
  reg_updateNavButtons reg_setTimeout reg_clearTimeout
  reg_startLoadTimeout reg_signal_received reg_updateTabUrl
  reg_updateTabTitle reg_addToHistory : reg.

#[local] Hint Extern 1 (registry (on_view _ _) = _) =>
  apply reg_on_view; [intros; reflexivity|] : reg.

Lemma reg_navigateToUrl url q :
  registry (navigateToUrl URL_hostname url q) = registry q.
Proof.
  unfold navigateToUrl.
  destruct (getActiveTab (bs q)) as [tab|]; [|reflexivity].
  destruct (sanitizeUrl URL_hostname url) as [s|]; [|reflexivity].
  assert (H : forall q', registry q' = registry q ->
     registry
       (let (p, h) := match tab_iframe tab with
                      | Some h => (q', h)
                      | None => createTabIframe tab q'
                      end in
        let p := showLoading p in
        let p := hideError p in
        let p := hideWelcomeScreen p in
        let p := on_iframe h (set_display DBlock) p in
        let p := on_iframe h (set_prop_hasLoaded (Some false)) p in
        let p := on_iframe h next_attempt p in
        let p := startLoadTimeout h s p in
        on_iframe h (set_src s) p) = registry q).
  { intros q' Hq'.
    destruct (tab_iframe tab) as [h|].
    - auto 20 with reg.
    - pose proof (reg_createTabIframe tab Hq') as Hc.
      destruct (createTabIframe tab q') as [p' h]; simpl in Hc.
      auto 20 with reg. }
  cbv zeta; apply H.
  destruct (URL_hostname s); auto 20 with reg.
Qed.

Lemma reg_switchTab tabId q :
  registry (switchTab tabId q)
  = (map tab_id (tabs (bs q)), Some tabId, map el_tabId (tabBar (view q))).
Proof.
  unfold switchTab; cbv zeta.
  match goal with
  | |- context [getActiveTab (bs ?p)] => set (p3 := p)
  end.
  assert (H3 : registry p3
               = (map tab_id (tabs (bs q)), Some tabId,
                  map el_tabId (tabBar (view q)))).
  { unfold p3, registry; simpl; rewrite map_map; reflexivity. }
  clearbody p3.
  destruct (getActiveTab (bs p3)) as [tab|]; [|exact H3].
  apply reg_updateNavButtons.
  destruct (tab_iframe tab) as [h|].
  - auto 20 with reg.
  - destruct (truthy (tab_url tab)
              && negb (str_eqb (tab_url tab) (js "about:blank"))).
    + assert (Hc : registry
                (fst (createTabIframe tab
                        (on_view (set_addressBar (or_else (tab_url tab) []))
                                 p3)))
              = (map tab_id (tabs (bs q)), Some tabId,
                 map el_tabId (tabBar (view q)))).
      { apply reg_createTabIframe, reg_on_view; auto. }
      destruct (createTabIframe tab _) as [p' h]; simpl in Hc.
      auto 20 with reg.
    + apply reg_showWelcomeScreen, reg_on_view; auto.
Qed.

Lemma reg_history_button can go q :
  (forall b tabId,
      map tab_id (tabs (fst (go b tabId))) = map tab_id (tabs b)
      /\ activeTabId (fst (go b tabId)) = activeTabId b) ->
  registry (history_button can go q) = registry q.
Proof.
  intros Hgo; unfold history_button.
  destruct (getActiveTab (bs q)) as [tab|]; [|reflexivity].
  destruct (tab_iframe tab) as [h|]; [|reflexivity].
  destruct (can (bs q) (tab_id tab)); [|reflexivity].
  pose proof (Hgo (bs q) (tab_id tab)) as [H1 H2].
  destruct (go (bs q) (tab_id tab)) as [b v]; simpl in H1, H2.
  assert (H : registry (on_bs (fun _ => b) q) = registry q)
    by (unfold registry; simpl; rewrite H1, H2; reflexivity).
  destruct v as [| |u]; auto.
  destruct (truthy u); auto 20 with reg.
Qed.

Lemma goBack_ids b tabId :
  map tab_id (tabs (fst (goBack b tabId))) = map tab_id (tabs b)
  /\ activeTabId (fst (goBack b tabId)) = activeTabId b.
Proof.
  unfold goBack.
  destruct (find (has_id tabId) (tabs b)); [|auto].
  destruct (canGoBack b tabId); [|auto].
  split; [apply ids_update_first|]; reflexivity.
Qed.

Lemma goForward_ids b tabId :
  map tab_id (tabs (fst (goForward b tabId))) = map tab_id (tabs b)
  /\ activeTabId (fst (goForward b tabId)) = activeTabId b.
Proof.
  unfold goForward.
  destruct (find (has_id tabId) (tabs b)); [|auto].
  destruct (canGoForward b tabId); [|auto].
  split; [apply ids_update_first|]; reflexivity.
Qed.

Lemma reg_reload q : registry (reload q) = registry q.
Proof.
  unfold reload.
  destruct (getActiveTab (bs q)) as [tab|]; [|reflexivity].
  destruct (tab_iframe tab); reflexivity.
Qed.

Lemma reg_on_load h q : registry (on_load h q) = registry q.
Proof.
  unfold on_load; destruct (nth_error (iframes q) h); auto with reg.
Qed.

Lemma reg_on_error h q : registry (on_error h q) = registry q.
Proof.
  unfold on_error; destruct (nth_error (iframes q) h); auto with reg.
Qed.

Lemma reg_settle h a pr q :
  registry (settle URL_hostname h a pr q) = registry q.
Proof.
  unfold settle.
  destruct (nth_error (iframes q) h) as [f|]; [|reflexivity].
  cbv zeta.
  destruct (probe_document pr) as [title|].
  - destruct (truthy title); [auto 10 with reg|].
    destruct (URL_hostname (if_src f)); [auto 10 with reg|].
    auto 10 with reg.
  - destruct (URL_hostname (if_src f)); [|auto 10 with reg].
    destruct (probe_window pr); auto 10 with reg.
Qed.

Lemma reg_recheck h host pr q : registry (recheck h host pr q) = registry q.
Proof.
  unfold recheck.
  destruct (nth_error (iframes q) h) as [f|]; [|reflexivity].
  destruct (is_flex (errorDisplay (view q))); [reflexivity|].
  destruct (probe_document pr); auto with reg.
Qed.

Lemma reg_load_timeout h u q :
  registry (load_timeout URL_hostname h u q) = registry q.
Proof.
  unfold load_timeout.
  destruct (nth_error (iframes q) h) as [f|]; [|reflexivity].
  destruct (hasLoaded f); [reflexivity|].
  destruct (URL_hostname u); auto with reg.
Qed.

Lemma reg_run_callback tm pr q :
  registry (run_callback URL_hostname tm pr q) = registry q.
Proof.
  unfold run_callback; destruct (tm_cb tm).
  - apply reg_settle.
  - apply reg_recheck.
  - apply reg_load_timeout.
Qed.

(** *** The registry invariant *)

Lemma registry_ok_of q ids act els :
  registry q = (ids, act, els) ->
  els = ids ->
  match act with None => True | Some a => In a ids end ->
  registry_ok q.
Proof.
  unfold registry, registry_ok, active_ok; intros H; inversion H; subst.
  auto.
Qed.

Lemma registry_ok_same q q' :
  registry q' = registry q -> registry_ok q -> registry_ok q'.
Proof.
  unfold registry, registry_ok, active_ok; intros H; inversion H as [[H1 H2 H3]].
  rewrite H1, H2, H3; auto.
Qed.

Lemma registry_ok_switchTab tabId q :
  registry_ok q -> In tabId (map tab_id (tabs (bs q))) ->
  registry_ok (switchTab tabId q).
Proof.
  intros [Hels _] Hin.
  eapply registry_ok_of; [apply reg_switchTab|exact Hels|exact Hin].
Qed.

Lemma ids_removeTab b tabId :
  map tab_id (tabs (fst (removeTab b tabId)))
  = remove_id tabId (map tab_id (tabs b)).
Proof.
  unfold removeTab.
  assert (H : forall l : list Tab,
             map tab_id (match findIndex (has_id tabId) l with
                         | Some i => splice1 i l
                         | None => l
                         end)
             = remove_id tabId (map tab_id l)).
  { induction l as [|t l IH]; [reflexivity|].
    cbn [findIndex map remove_id]; unfold has_id at 1.
    destruct (str_eqb (tab_id t) tabId); [reflexivity|].
    destruct (findIndex (has_id tabId) l) as [i|];
      cbn [option_map]; rewrite <- IH; reflexivity. }
  rewrite <- H.
  destruct (findIndex (has_id tabId) (tabs b)); [|reflexivity].
  destruct (active_is b tabId); reflexivity.
Qed.

Lemma ids_remove_element tabId l :
  map el_tabId (remove_element tabId l) = remove_id tabId (map el_tabId l).
Proof.
  induction l as [|e l IH]; [reflexivity|].
  simpl; destruct (str_eqb (el_tabId e) tabId); [reflexivity|].
  simpl; rewrite IH; reflexivity.
Qed.

Lemma registry_ok_closeTab tabId q :
  registry_ok q -> registry_ok (closeTab tabId q).
Proof.
  intros [Hels Hact]; unfold closeTab.
  destruct (length (tabs (bs q)) =? 1)%nat; [split; assumption|].
  pose proof (ids_removeTab (bs q) tabId) as Hids.
  pose proof (removeTab_active_ok (bs q) tabId Hact) as Hok.
  destruct (removeTab (bs q) tabId) as [b detached]; simpl in Hids, Hok.
  cbv zeta.
  set (q1 := on_view _ _).
  assert (H1 : registry_ok q1).
  { subst q1; destruct detached; split; simpl;
      rewrite ?ids_remove_element, ?Hids, ?Hels; auto. }
  assert (Hb : bs q1 = b) by (subst q1; destruct detached; reflexivity).
  clearbody q1; subst b.
  assert (Hfirst : forall t l, tabs (bs q1) = t :: l ->
                     registry_ok (switchTab (tab_id t) q1)).
  { intros t l Ht; apply registry_ok_switchTab; [exact H1|].
    rewrite Ht; left; reflexivity. }
  assert (Hwelcome : registry_ok (showWelcomeScreen q1))
    by (apply (registry_ok_same (q := q1)); auto).
  destruct (activeTabId (bs q1)) as [a|] eqn:Ha.
  - destruct (truthy a).
    + apply registry_ok_switchTab; [exact H1|].
      unfold active_ok in Hok; rewrite Ha in Hok; exact Hok.
    + destruct (tabs (bs q1)) eqn:Ht; eauto.
  - destruct (tabs (bs q1)) eqn:Ht; eauto.
Qed.

Lemma registry_ok_addTab_page now_id now_ts url q :
  registry_ok q -> registry_ok (addTab_page URL_hostname now_id now_ts url q).
Proof.
  intros [Hels Hact]; unfold addTab_page.
  destruct (if truthy url then sanitizeUrl URL_hostname url else Some [])
    as [s|]; [|split; assumption].
  unfold addTab.
  destruct (Z.of_nat (length (tabs (bs q))) >=? maxTabs (bs q))%Z;
    [split; assumption|].
  cbv zeta.
  match goal with
  | |- context [switchTab ?i ?p] => set (id := i); set (q1 := p)
  end.
  assert (H1 : registry_ok (switchTab id q1)).
  { eapply registry_ok_of; [apply reg_switchTab| |].
    - subst q1; simpl; rewrite !map_app, Hels; reflexivity.
    - subst q1; simpl; rewrite map_app; apply in_or_app; right; left.
      reflexivity. }
  destruct (truthy s && negb (str_eqb s (js "about:blank"))); [|exact H1].
  eapply registry_ok_same; [apply reg_navigateToUrl|exact H1].
Qed.

Lemma registry_ok_step t e q q' :
  registry_ok q -> step URL_hostname t e q = Some q' -> registry_ok q'.
Proof.
  intros Hq; unfold step.
  destruct (t <? clock q)%N; [discriminate|].
  assert (Hc : registry_ok (set_clock t q)) by exact Hq.
  set (qc := set_clock t q) in *; clearbody qc.
  destruct e as [n1 n2|n1 n2|k|k|text|url| | | | |h|h|id pr]; intros H.
  - inversion H; apply registry_ok_addTab_page; exact Hc.
  - inversion H; apply registry_ok_addTab_page; exact Hc.
  - destruct (nth_error (tabBar (view qc)) k) as [el|] eqn:Hk;
      [|discriminate].
    inversion H; apply registry_ok_switchTab; [exact Hc|].
    destruct Hc as [Hels _]; rewrite <- Hels.
    apply in_map, nth_error_In with k; exact Hk.
  - destruct (nth_error (tabBar (view qc)) k) as [el|]; [|discriminate].
    inversion H; apply registry_ok_closeTab; exact Hc.
  - inversion H; eapply registry_ok_same; [apply reg_navigateToUrl|].
    apply (registry_ok_same (q := qc)); auto.
  - inversion H; eapply registry_ok_same; [apply reg_navigateToUrl|exact Hc].
  - inversion H; eapply registry_ok_same;
      [apply reg_history_button, goBack_ids|exact Hc].
  - inversion H; eapply registry_ok_same;
      [apply reg_history_button, goForward_ids|exact Hc].
  - inversion H; eapply registry_ok_same; [apply reg_reload|exact Hc].
  - inversion H.
    match goal with |- context [truthy ?u] => destruct (truthy u) end;
      [|exact Hc].
    eapply registry_ok_same; [apply reg_navigateToUrl|exact Hc].
  - destruct (nth_error (iframes qc) h); [|discriminate].
    inversion H; eapply registry_ok_same; [apply reg_on_load|exact Hc].
  - destruct (nth_error (iframes qc) h); [|discriminate].
    inversion H; eapply registry_ok_same; [apply reg_on_error|exact Hc].
  - destruct (find_timer id qc) as [tm|]; [|discriminate].
    destruct (t <? tm_due tm)%N; [discriminate|].
    inversion H; eapply registry_ok_same; [apply reg_run_callback|].
    apply (registry_ok_same (q := qc)); auto.
Qed.

Lemma registry_ok_run es q q' :
  registry_ok q -> run URL_hostname es q = Some q' -> registry_ok q'.
Proof.
  revert q; induction es as [|[t e] es IH]; simpl; intros q Hq H.
  - inversion H; subst; exact Hq.
  - destruct (step URL_hostname t e q) as [q1|] eqn:Hs; [|discriminate].
    eapply IH; [|exact H].
    eapply registry_ok_step; eauto.
Qed.

Lemma registry_ok_initial q : initial q -> registry_ok q.
Proof.
  intros (Hb & Hbar & _); unfold registry_ok, active_ok.
  rewrite Hb, Hbar; simpl; auto.
Qed.

(** C6, as the code has it.  [switchTab] assigns [activeTabId] whatever id
    it is given, and leaves the tabs alone.  For an id that no tab carries
    the statements before the test [if (tab)] still run: every iframe of
    the document is hidden, and each tab element is highlighted only if
    its [data-tab-id] is that id, so none is where the tab elements are
    those of the tabs; the address bar, the history buttons, the welcome
    screen, the error panel, the loading indicator and the timers stay as
    they were, and no iframe is made.  The handlers of the page call
    [switchTab] with ids of tabs only, so in every reachable state
    [activeTabId] is unset or the id of a tab of the registry (and the tab
    elements carry the ids of the tabs, in order). *)
Theorem switchTab_assigns_and_registry_invariant :
  (forall tabId p,
      activeTabId (bs (switchTab tabId p)) = Some tabId
      /\ map tab_id (tabs (bs (switchTab tabId p)))
         = map tab_id (tabs (bs p)))
  /\ (forall tabId p,
         ~ In tabId (map tab_id (tabs (bs p))) ->
         tabs (bs (switchTab tabId p)) = tabs (bs p)
         /\ addressBar (view (switchTab tabId p)) = addressBar (view p)
         /\ backDisabled (view (switchTab tabId p)) = backDisabled (view p)
         /\ forwardDisabled (view (switchTab tabId p))
            = forwardDisabled (view p)
         /\ welcomeDisplay (view (switchTab tabId p))
            = welcomeDisplay (view p)
         /\ length (iframes (switchTab tabId p)) = length (iframes p)
         /\ iframes (switchTab tabId p)
            = map (fun f => if if_attached f then set_display DNone f else f)
                  (iframes p)
         /\ (forall k f,
                nth_error (iframes (switchTab tabId p)) k = Some f ->
                if_attached f = true -> if_display f = DNone)
         /\ map el_tabId (tabBar (view (switchTab tabId p)))
            = map el_tabId (tabBar (view p))
         /\ (forall e, In e (tabBar (view (switchTab tabId p))) ->
                       el_active e = str_eqb (el_tabId e) tabId)
         /\ (map el_tabId (tabBar (view p)) = map tab_id (tabs (bs p)) ->
             forall e, In e (tabBar (view (switchTab tabId p))) ->
                       el_active e = false)
         /\ errorDisplay (view (switchTab tabId p)) = errorDisplay (view p)
         /\ containerDisplay (view (switchTab tabId p))
            = containerDisplay (view p)
         /\ loading (view (switchTab tabId p)) = loading (view p)
         /\ timers (switchTab tabId p) = timers p)
  /\ (forall p, reachable URL_hostname p ->
                active_ok (bs p)
                /\ map el_tabId (tabBar (view p)) = map tab_id (tabs (bs p))).
Proof.
  split; [|split].
  - intros tabId p; pose proof (reg_switchTab tabId p) as H.
    unfold registry in H; inversion H; auto.
  - intros tabId p Hnot.
    pose proof (proj2 (find_none_not_in tabId (tabs (bs p))) Hnot) as Hout.
    assert (E : switchTab tabId p
                = on_view
                    (fun v =>
                       set_tabBar
                         (map (fun e =>
                                 {| el_tabId := el_tabId e;
                                    el_title := el_title e;
                                    el_active :=
                                      str_eqb (el_tabId e) tabId |})
                              (tabBar v)) v)
                    (on_iframes
                       (map (fun f => if if_attached f
                                      then set_display DNone f else f))
                       (on_bs (fun b => set_activeTabId b (Some tabId)) p))).
    { unfold switchTab, getActiveTab; simpl; rewrite Hout; reflexivity. }
    assert (Hif : iframes (switchTab tabId p)
                  = map (fun f => if if_attached f then set_display DNone f
                                  else f) (iframes p))
      by (rewrite E; reflexivity).
    assert (Hbar : forall e,
               In e (tabBar (view (switchTab tabId p))) ->
               exists e0, In e0 (tabBar (view p))
                          /\ el_tabId e = el_tabId e0
                          /\ el_active e = str_eqb (el_tabId e0) tabId).
    { intros e He; rewrite E in He; simpl in He.
      apply in_map_iff in He; destruct He as (e0 & <- & Hin0).
      exists e0; repeat split; assumption. }
    split; [rewrite E; reflexivity|].
    split; [rewrite E; reflexivity|].
    split; [rewrite E; reflexivity|].
    split; [rewrite E; reflexivity|].
    split; [rewrite E; reflexivity|].
    split; [rewrite Hif; apply length_map|].
    split; [exact Hif|].
    split.
    { intros k f; rewrite Hif, nth_error_map.
      destruct (nth_error (iframes p) k) as [f0|]; [|discriminate].
      simpl; intros Hk.
      assert (Ef : (if if_attached f0 then set_display DNone f0 else f0) = f)
        by congruence.
      subst f; destruct (if_attached f0) eqn:E0; [reflexivity|].
      rewrite E0; discriminate. }
    split; [rewrite E; simpl; rewrite map_map; reflexivity|].
    split.
    { intros e He; destruct (Hbar e He) as (e0 & _ & -> & ->); reflexivity. }
    split.
    { intros Hreg e He; destruct (Hbar e He) as (e0 & Hin0 & _ & ->).
      destruct (str_eqb (el_tabId e0) tabId) eqn:Es; [|reflexivity].
      apply str_eqb_spec in Es; exfalso; apply Hnot.
      rewrite <- Hreg, <- Es; apply in_map; exact Hin0. }
    split; [rewrite E; reflexivity|].
    split; [rewrite E; reflexivity|].
    split; [rewrite E; reflexivity|].
    rewrite E; reflexivity.
  - intros p (p0 & es & Hi & Hr).
    destruct (registry_ok_run es (registry_ok_initial Hi) Hr); auto.
Qed.

End PageRegistry.

(* ===================================================================== *)
(** ** The load monitor: timers and superseded navigations *)
(* ===================================================================== *)

Section LoadMonitor.

Import V2.

Variable URL_hostname : jsstring -> option jsstring.

Lemma nth_error_update_nth {A} (g : A -> A) (l : list A) (h k : nat) :
  nth_error (update_nth h g l) k
  = if (k =? h)%nat then option_map g (nth_error l k) else nth_error l k.
Proof.
  revert h k; induction l as [|x l IH]; intros [|h] [|k]; simpl; auto.
  - destruct (k =? h)%nat; reflexivity.
Qed.

Lemma map_update_nth {A B} (s : A -> B) (g : A -> A) (sg : B -> B) l h :
  (forall x, s (g x) = sg (s x)) ->
  map s (update_nth h g l) = update_nth h sg (map s l).
Proof.
  intros Hg; revert h; induction l as [|x l IH]; intros [|h]; simpl;
    rewrite ?Hg, ?IH; reflexivity.
Qed.

Lemma update_nth_id {A} (g : A -> A) l h :
  (forall x, g x = x) -> update_nth h g l = l.
Proof.
  intros Hg; revert h; induction l as [|x l IH]; intros [|h]; simpl;
    rewrite ?Hg, ?IH; reflexivity.
Qed.

Lemma update_nth_none {A} (g : A -> A) (l : list A) (h : nat) :
  length l <= h -> update_nth h g l = l.
Proof.
  revert h; induction l as [|x l IH]; intros [|h] Hl; simpl in *;
    try reflexivity; try lia.
  rewrite IH by lia; reflexivity.
Qed.

(** A function that keeps the timers and at most appends iframes keeps the
    invariant. *)
Lemma mon_frame q q' extra :
  slots q' = slots q ++ extra ->
  timers q' = timers q -> nextTimer q' = nextTimer q ->
  monitor_ok q -> monitor_ok q'.
Proof.
  intros Hs Ht Hn (Hz & Hf & Hd); unfold monitor_ok; rewrite Ht, Hn.
  split; [exact Hz|split; [|exact Hd]].
  intros tm Hin; destruct (Hf tm Hin) as [Hid Hcb].
  unfold timer_ok; rewrite Hn; split; [exact Hid|].
  destruct (tm_cb tm); auto.
  rewrite Hs, nth_error_app1; [exact Hcb|].
  apply nth_error_Some; rewrite Hcb; discriminate.
Qed.

Lemma mon_same q q' :
  slots q' = slots q ->
  timers q' = timers q -> nextTimer q' = nextTimer q ->
  monitor_ok q -> monitor_ok q'.
Proof.
  intros Hs; apply mon_frame with (extra := []).
  rewrite app_nil_r; exact Hs.
Qed.

Lemma mon_on_bs f q : monitor_ok q -> monitor_ok (on_bs f q).
Proof. apply mon_same; reflexivity. Qed.

Lemma mon_on_view f q : monitor_ok q -> monitor_ok (on_view f q).
Proof. apply mon_same; reflexivity. Qed.

Lemma mon_set_clock t q : monitor_ok q -> monitor_ok (set_clock t q).
Proof. apply mon_same; reflexivity. Qed.

Lemma slots_on_iframe h g q :
  (forall f, slot (g f) = slot f) -> slots (on_iframe h g q) = slots q.
Proof.
  intros Hg; unfold slots, on_iframe; simpl.
  rewrite (map_update_nth slot g (fun x => x)) by exact Hg.
  apply update_nth_id; reflexivity.
Qed.

Lemma mon_on_iframe h g q :
  (forall f, slot (g f) = slot f) ->
  monitor_ok q -> monitor_ok (on_iframe h g q).
Proof.
  intros Hg; apply mon_same; try reflexivity.
  apply slots_on_iframe; exact Hg.
Qed.

Lemma mon_showLoading q : monitor_ok q -> monitor_ok (showLoading q).
Proof. apply mon_on_view. Qed.

Lemma mon_hideLoading q : monitor_ok q -> monitor_ok (hideLoading q).
Proof. apply mon_on_view. Qed.

Lemma mon_showWelcomeScreen q :
  monitor_ok q -> monitor_ok (showWelcomeScreen q).
Proof. apply mon_on_view. Qed.

Lemma mon_hideWelcomeScreen q :
  monitor_ok q -> monitor_ok (hideWelcomeScreen q).
Proof. apply mon_on_view. Qed.

Lemma mon_showError m u q : monitor_ok q -> monitor_ok (showError m u q).
Proof. apply mon_on_view. Qed.

Lemma mon_hideError q : monitor_ok q -> monitor_ok (hideError q).
Proof. apply mon_on_view. Qed.

Lemma mon_updateTabBar q : monitor_ok q -> monitor_ok (updateTabBar q).
Proof. apply mon_on_view. Qed.

Lemma mon_updateNavButtons q :
  monitor_ok q -> monitor_ok (updateNavButtons q).
Proof.
  unfold updateNavButtons; destruct (getActiveTab (bs q));
    apply mon_on_view.
Qed.

Lemma mon_createTabIframe tab q :
  monitor_ok q -> monitor_ok (fst (createTabIframe tab q)).
Proof.
  apply mon_frame with (extra := [(None, 0%nat)]); try reflexivity.
  unfold slots; simpl; rewrite map_app; reflexivity.
Qed.

Create HintDb mon.

#[local] Hint Resolve mon_on_bs mon_on_view mon_set_clock mon_showLoading
  mon_hideLoading mon_showWelcomeScreen mon_hideWelcomeScreen
  mon_showError mon_hideError mon_updateTabBar mon_updateNavButtons : mon.

#[local] Hint Extern 1 (monitor_ok (on_iframe _ _ _)) =>
  apply mon_on_iframe; [intros; reflexivity|] : mon.

Lemma in_clearTimeout id q tm :
  In tm (timers (clearTimeout id q)) <-> In tm (timers q) /\ tm_id tm <> id.
Proof.
  unfold clearTimeout; simpl; rewrite filter_In, negb_true_iff, N.eqb_neq.
  tauto.
Qed.

Lemma NoDup_map_filter {A B} (f : A -> B) (g : A -> bool) (l : list A) :
  NoDup (map f l) -> NoDup (map f (filter g l)).
Proof.
  induction l as [|x l IH]; simpl; [auto|].
  intros H; inversion H as [|? ? Hx Hl]; subst.
  destruct (g x); simpl; [|auto].
  constructor; [|auto].
  intros Hin; apply Hx.
  apply in_map_iff in Hin; destruct Hin as (y & Hy & Hin).
  apply filter_In in Hin; apply in_map_iff; exists y; tauto.
Qed.

Lemma mon_clearTimeout id q : monitor_ok q -> monitor_ok (clearTimeout id q).
Proof.
  intros (Hz & Hf & Hd); split; [exact Hz|split].
  - intros tm Hin; apply in_clearTimeout in Hin; destruct Hin as [Hin _].
    exact (Hf tm Hin).
  - apply NoDup_map_filter; exact Hd.
Qed.

(** Appending a timer with the next handle. *)
Lemma NoDup_fresh (ids : list N) (n : N) :
  (forall i, In i ids -> (i < n)%N) -> NoDup ids -> NoDup (ids ++ [n]).
Proof.
  intros Hlt Hd; induction ids as [|i ids IH]; simpl.
  - constructor; [intros []|constructor].
  - inversion Hd; subst; constructor.
    + intros Hin; apply in_app_or in Hin; destruct Hin as [Hin|[Hn|[]]];
        [contradiction|].
      specialize (Hlt i (or_introl eq_refl)); lia.
    + apply IH; auto; intros j Hj; apply Hlt; right; exact Hj.
Qed.

Lemma mon_setTimeout cb d a q :
  match cb with LoadTimeout _ _ => False | _ => True end ->
  monitor_ok q -> monitor_ok (setTimeout cb d a q).
Proof.
  intros Hcb (Hz & Hf & Hd); unfold monitor_ok, setTimeout; simpl.
  split; [lia|split].
  - intros tm Hin; apply in_app_or in Hin; destruct Hin as [Hin|[<-|[]]].
    + destruct (Hf tm Hin) as [[? ?] Hs]; split; [simpl; lia|exact Hs].
    + split; [simpl; lia|simpl].
      destruct cb; auto; contradiction.
  - rewrite map_app; simpl; apply NoDup_fresh; [|exact Hd].
    intros i Hi; apply in_map_iff in Hi; destruct Hi as (tm & <- & Hin).
    destruct (Hf tm Hin) as [[? ?] _]; assumption.
Qed.

Lemma nth_error_slots q k :
  nth_error (slots q) k = option_map slot (nth_error (iframes q) k).
Proof. unfold slots; apply nth_error_map. Qed.

Lemma nth_error_slots_on_iframe h g q k :
  nth_error (slots (on_iframe h g q)) k
  = if (k =? h)%nat
    then option_map (fun f => slot (g f)) (nth_error (iframes q) k)
    else nth_error (slots q) k.
Proof.
  rewrite !nth_error_slots; unfold on_iframe; simpl.
  rewrite nth_error_update_nth.
  destruct (k =? h)%nat; [|reflexivity].
  destruct (nth_error (iframes q) k); reflexivity.
Qed.

(** A timeout timer of the iframe [h] is the one [loadTimeout] names, and
    that handle is truthy. *)
Lemma timeout_timer_is_held q h f tm url :
  monitor_ok q -> nth_error (iframes q) h = Some f ->
  In tm (timers q) -> tm_cb tm = LoadTimeout h url ->
  handle_truthy (loadTimeout f) = Some (tm_id tm).
Proof.
  intros (_ & Hf & _) Hh Hin Hcb.
  destruct (Hf tm Hin) as [[Hpos _] Hs]; rewrite Hcb in Hs.
  rewrite nth_error_slots, Hh in Hs; inversion Hs as [[H1 H2]].
  unfold handle_truthy; rewrite H1.
  destruct (tm_id tm =? 0)%N eqn:E; [apply N.eqb_eq in E; lia|reflexivity].
Qed.

(** [startLoadTimeout] right after the attempt number went up: the timeout
    timer of the earlier attempt is cleared, the new one is held. *)
Lemma mon_arm h url q :
  monitor_ok q ->
  monitor_ok (startLoadTimeout h url (on_iframe h next_attempt q)).
Proof.
  intros Hq; pose proof Hq as (Hz & Hf & Hd).
  unfold startLoadTimeout.
  assert (Hnth : nth_error (iframes (on_iframe h next_attempt q)) h
                 = option_map next_attempt (nth_error (iframes q) h)).
  { unfold on_iframe; simpl; rewrite nth_error_update_nth, Nat.eqb_refl.
    reflexivity. }
  rewrite Hnth.
  destruct (nth_error (iframes q) h) as [f|] eqn:Hh; simpl.
  - (* the iframe exists *)
    set (q1 := on_iframe h next_attempt q).
    set (q2 := match handle_truthy (loadTimeout f) with
               | Some id => clearTimeout id q1
               | None => q1
               end).
    assert (Hn2 : nextTimer q2 = nextTimer q)
      by (subst q2; destruct (handle_truthy (loadTimeout f)); reflexivity).
    assert (Hif2 : iframes q2 = iframes q1)
      by (subst q2; destruct (handle_truthy (loadTimeout f)); reflexivity).
    assert (Hin2 : forall tm, In tm (timers q2) ->
              In tm (timers q)
              /\ forall u, tm_cb tm <> LoadTimeout h u).
    { intros tm Hin.
      assert (Hin' : In tm (timers q)).
      { subst q2; destruct (handle_truthy (loadTimeout f));
          [apply in_clearTimeout in Hin; tauto | exact Hin]. }
      split; [exact Hin'|].
      intros u Hcb.
      pose proof (timeout_timer_is_held _ Hq Hh Hin' Hcb) as Hheld.
      subst q2; rewrite Hheld in Hin.
      apply in_clearTimeout in Hin; tauto. }
    assert (Hd2 : NoDup (map tm_id (timers q2))).
    { subst q2; destruct (handle_truthy (loadTimeout f)); [|exact Hd].
      apply NoDup_map_filter; exact Hd. }
    clearbody q2.
    unfold monitor_ok; simpl; rewrite Hn2; split; [lia|split].
    + intros tm Hin; apply in_app_or in Hin.
      destruct Hin as [Hin|[<-|[]]].
      * destruct (Hin2 tm Hin) as [Hin' Hno].
        destruct (Hf tm Hin') as [[? ?] Hs].
        split; [simpl; lia|].
        destruct (tm_cb tm) as [| |h' u] eqn:Hcb; auto.
        assert (h' <> h) by (intros ->; apply (Hno u); reflexivity).
        unfold slots; simpl; rewrite Hif2; unfold q1; simpl.
        rewrite nth_error_map, !nth_error_update_nth.
        replace (h' =? h)%nat with false
          by (symmetry; apply Nat.eqb_neq; assumption).
        rewrite <- nth_error_map; exact Hs.
      * split; [simpl; lia|simpl].
        unfold slots; simpl; rewrite Hif2; unfold q1; simpl.
        rewrite nth_error_map, !nth_error_update_nth, Nat.eqb_refl, Hh.
        reflexivity.
    + rewrite map_app; simpl; apply NoDup_fresh; [|exact Hd2].
      intros i Hi; apply in_map_iff in Hi; destruct Hi as (tm & <- & Hin).
      destruct (Hin2 tm Hin) as [Hin' _].
      destruct (Hf tm Hin') as [[? ?] _]; assumption.
  - (* no such iframe: nothing is armed *)
    apply mon_same with (q := q); try reflexivity; [|exact Hq].
    unfold slots, on_iframe; simpl.
    rewrite update_nth_none by (apply nth_error_None; exact Hh).
    reflexivity.
Qed.

(** The 'load' and 'error' listeners clear the timeout timer they hold. *)
Lemma mon_signal_received h q :
  monitor_ok q -> monitor_ok (signal_received h q).
Proof.
  intros Hq; unfold signal_received.
  destruct (nth_error (iframes q) h) as [f|] eqn:Hh; [|exact Hq].
  apply mon_hideLoading.
  set (q1 := on_iframe h (set_hasLoaded true) q).
  assert (H1 : monitor_ok q1)
    by (apply mon_on_iframe; [reflexivity|exact Hq]).
  assert (Hh1 : exists f1, nth_error (iframes q1) h = Some f1
                           /\ loadTimeout f1 = loadTimeout f).
  { exists (set_hasLoaded true f); split; [|reflexivity].
    unfold q1, on_iframe; simpl.
    rewrite nth_error_update_nth, Nat.eqb_refl, Hh; reflexivity. }
  clearbody q1; destruct Hh1 as (f1 & Hh1 & Hlt).
  destruct (handle_truthy (loadTimeout f)) as [id|] eqn:Hid; [|exact H1].
  pose proof (mon_clearTimeout id H1) as (Hz & Hf & Hd).
  split; [exact Hz|split; [|exact Hd]].
  intros tm Hin; destruct (Hf tm Hin) as [Hb Hs].
  split; [exact Hb|].
  destruct (tm_cb tm) as [| |h' u] eqn:Hcb; auto.
  assert (h' <> h).
  { intros ->.
    apply in_clearTimeout in Hin; destruct Hin as [Hin Hne].
    pose proof (timeout_timer_is_held _ H1 Hh1 Hin Hcb) as Hheld.
    rewrite Hlt, Hid in Hheld; inversion Hheld; congruence. }
  rewrite nth_error_slots_on_iframe.
  replace (h' =? h)%nat with false
    by (symmetry; apply Nat.eqb_neq; assumption).
  exact Hs.
Qed.

#[local] Hint Resolve mon_clearTimeout mon_signal_received : mon.

Lemma mon_on_iframes_map g q :
  (forall f, slot (g f) = slot f) ->
  monitor_ok q -> monitor_ok (on_iframes (map g) q).
Proof.
  intros Hg; apply mon_same; try reflexivity.
  unfold slots; simpl; rewrite map_map; apply map_ext; exact Hg.
Qed.

Lemma mon_switchTab tabId q : monitor_ok q -> monitor_ok (switchTab tabId q).
Proof.
  intros Hq; unfold switchTab; cbv zeta.
  match goal with
  | |- context [getActiveTab (bs ?p)] => set (p3 := p)
  end.
  assert (H3 : monitor_ok p3).
  { subst p3; apply mon_on_view, mon_on_iframes_map, mon_on_bs; [|exact Hq].
    intros f; destruct (if_attached f); reflexivity. }
  clearbody p3.
  destruct (getActiveTab (bs p3)) as [tab|]; [|exact H3].
  apply mon_updateNavButtons.
  destruct (tab_iframe tab) as [h|].
  - auto 10 with mon.
  - destruct (truthy (tab_url tab)
              && negb (str_eqb (tab_url tab) (js "about:blank")));
      [|auto 10 with mon].
    assert (Hc : monitor_ok
                   (fst (createTabIframe tab
                      (on_view (set_addressBar (or_else (tab_url tab) []))
                               p3))))
      by (apply mon_createTabIframe; auto with mon).
    destruct (createTabIframe tab _) as [p' h]; simpl in Hc.
    auto 10 with mon.
Qed.

Lemma mon_closeTab tabId q : monitor_ok q -> monitor_ok (closeTab tabId q).
Proof.
  intros Hq; unfold closeTab.
  destruct (length (tabs (bs q)) =? 1)%nat; [exact Hq|].
  destruct (removeTab (bs q) tabId) as [b detached]; cbv zeta.
  set (q1 := on_view _ _).
  assert (H1 : monitor_ok q1)
    by (subst q1; destruct detached; auto 10 with mon).
  clearbody q1.
  destruct (activeTabId (bs q1)) as [a|]; [destruct (truthy a)|];
    try (apply mon_switchTab; exact H1);
    destruct (tabs (bs q1));
    try (apply mon_switchTab; exact H1); auto with mon.
Qed.

Lemma mon_navigateToUrl url q :
  monitor_ok q -> monitor_ok (navigateToUrl URL_hostname url q).
Proof.
  intros Hq; unfold navigateToUrl.
  destruct (getActiveTab (bs q)) as [tab|]; [|exact Hq].
  destruct (sanitizeUrl URL_hostname url) as [s|]; [|exact Hq].
  cbv zeta.
  match goal with
  | |- context [updateNavButtons ?p] => set (q1 := updateNavButtons p)
  end.
  assert (H1 : monitor_ok q1)
    by (subst q1; destruct (URL_hostname s); auto 20 with mon).
  clearbody q1.
  assert (H : exists q2 h,
             match tab_iframe tab with
             | Some h => (q1, h)
             | None => createTabIframe tab q1
             end = (q2, h) /\ monitor_ok q2).
  { destruct (tab_iframe tab) as [h|]; [eauto|].
    pose proof (mon_createTabIframe tab H1) as Hc.
    destruct (createTabIframe tab q1) as [p' h]; eauto. }
  destruct H as (q2 & h & -> & H2).
  apply mon_on_iframe; [reflexivity|].
  apply mon_arm; auto 20 with mon.
Qed.

Lemma mon_addTab_page now_id now_ts url q :
  monitor_ok q -> monitor_ok (addTab_page URL_hostname now_id now_ts url q).
Proof.
  intros Hq; unfold addTab_page.
  destruct (if truthy url then sanitizeUrl URL_hostname url else Some [])
    as [s|]; [|exact Hq].
  destruct (addTab (bs q) now_id now_ts s) as [b [tab|]]; [|exact Hq].
  cbv zeta.
  match goal with
  | |- context [switchTab ?i ?p] =>
      assert (H1 : monitor_ok (switchTab i p))
        by (apply mon_switchTab; auto 10 with mon)
  end.
  destruct (truthy s && negb (str_eqb s (js "about:blank"))); [|exact H1].
  apply mon_navigateToUrl; exact H1.
Qed.

Lemma mon_history_button can go q :
  monitor_ok q -> monitor_ok (history_button can go q).
Proof.
  intros Hq; unfold history_button.
  destruct (getActiveTab (bs q)) as [tab|]; [|exact Hq].
  destruct (tab_iframe tab) as [h|]; [|exact Hq].
  destruct (can (bs q) (tab_id tab)); [|exact Hq].
  destruct (go (bs q) (tab_id tab)) as [b v].
  destruct v as [| |u]; auto with mon.
  destruct (truthy u); auto 10 with mon.
Qed.

Lemma mon_reload q : monitor_ok q -> monitor_ok (reload q).
Proof.
  intros Hq; unfold reload.
  destruct (getActiveTab (bs q)) as [tab|]; [|exact Hq].
  destruct (tab_iframe tab); auto with mon.
Qed.

Lemma mon_on_load h q : monitor_ok q -> monitor_ok (on_load h q).
Proof.
  intros Hq; unfold on_load.
  destruct (nth_error (iframes q) h); [|exact Hq].
  apply mon_setTimeout; [exact I|auto with mon].
Qed.

Lemma mon_on_error h q : monitor_ok q -> monitor_ok (on_error h q).
Proof.
  intros Hq; unfold on_error.
  destruct (nth_error (iframes q) h); auto with mon.
Qed.

Lemma mon_settle h a pr q :
  monitor_ok q -> monitor_ok (settle URL_hostname h a pr q).
Proof.
  intros Hq; unfold settle.
  destruct (nth_error (iframes q) h) as [f|]; [|exact Hq].
  cbv zeta.
  destruct (probe_document pr) as [title|].
  - destruct (truthy title); [auto 10 with mon|].
    destruct (URL_hostname (if_src f)); auto 10 with mon.
  - destruct (URL_hostname (if_src f)); [|auto 10 with mon].
    destruct (probe_window pr); [auto 10 with mon|].
    apply mon_setTimeout; [exact I|exact Hq].
Qed.

Lemma mon_recheck h host pr q :
  monitor_ok q -> monitor_ok (recheck h host pr q).
Proof.
  intros Hq; unfold recheck.
  destruct (nth_error (iframes q) h) as [f|]; [|exact Hq].
  destruct (is_flex (errorDisplay (view q))); [exact Hq|].
  destruct (probe_document pr); auto with mon.
Qed.

Lemma mon_load_timeout h u q :
  monitor_ok q -> monitor_ok (load_timeout URL_hostname h u q).
Proof.
  intros Hq; unfold load_timeout.
  destruct (nth_error (iframes q) h) as [f|]; [|exact Hq].
  destruct (hasLoaded f); [exact Hq|].
  destruct (URL_hostname u); auto with mon.
Qed.

Lemma mon_step t e q q' :
  monitor_ok q -> step URL_hostname t e q = Some q' -> monitor_ok q'.
Proof.
  intros Hq; unfold step.
  destruct (t <? clock q)%N; [discriminate|].
  assert (Hc : monitor_ok (set_clock t q)) by (apply mon_set_clock, Hq).
  set (qc := set_clock t q) in *; clearbody qc.
  destruct e as [n1 n2|n1 n2|k|k|text|url| | | | |h|h|id pr]; intros H.
  - inversion H; apply mon_addTab_page; exact Hc.
  - inversion H; apply mon_addTab_page; exact Hc.
  - destruct (nth_error (tabBar (view qc)) k); [|discriminate].
    inversion H; apply mon_switchTab; exact Hc.
  - destruct (nth_error (tabBar (view qc)) k); [|discriminate].
    inversion H; apply mon_closeTab; exact Hc.
  - inversion H; apply mon_navigateToUrl, mon_on_view; exact Hc.
  - inversion H; apply mon_navigateToUrl; exact Hc.
  - inversion H; apply mon_history_button; exact Hc.
  - inversion H; apply mon_history_button; exact Hc.
  - inversion H; apply mon_reload; exact Hc.
  - inversion H.
    match goal with |- context [truthy ?u] => destruct (truthy u) end;
      [apply mon_navigateToUrl|]; exact Hc.
  - destruct (nth_error (iframes qc) h); [|discriminate].
    inversion H; apply mon_on_load; exact Hc.
  - destruct (nth_error (iframes qc) h); [|discriminate].
    inversion H; apply mon_on_error; exact Hc.
  - destruct (find_timer id qc) as [tm|]; [|discriminate].
    destruct (t <? tm_due tm)%N; [discriminate|].
    inversion H; unfold run_callback.
    pose proof (mon_clearTimeout id Hc) as Hcl.
    destruct (tm_cb tm);
      [apply mon_settle|apply mon_recheck|apply mon_load_timeout];
      exact Hcl.
Qed.

Lemma mon_run es q q' :
  monitor_ok q -> run URL_hostname es q = Some q' -> monitor_ok q'.
Proof.
  revert q; induction es as [|[t e] es IH]; simpl; intros q Hq H.
  - inversion H; subst; exact Hq.
  - destruct (step URL_hostname t e q) as [q1|] eqn:Hs; [|discriminate].
    eapply IH; [|exact H].
    eapply mon_step; eauto.
Qed.

Lemma mon_initial q : initial q -> monitor_ok q.
Proof.
  intros (_ & _ & _ & Ht & Hn); unfold monitor_ok; rewrite Ht.
  split; [lia|split]; [intros tm []|constructor].
Qed.

Lemma NoDup_map_eq {A B} (f : A -> B) (l : list A) (x y : A) :
  NoDup (map f l) -> In x l -> In y l -> f x = f y -> x = y.
Proof.
  induction l as [|z l IH]; simpl; [intros _ []|].
  intros Hd Hx Hy Hf; inversion Hd as [|? ? Hz Hl]; subst.
  destruct Hx as [->|Hx], Hy as [->|Hy]; auto.
  - exfalso; apply Hz; rewrite Hf; apply in_map; exact Hy.
  - exfalso; apply Hz; rewrite <- Hf; apply in_map; exact Hx.
Qed.

(** C1, as the code has it.  What a new [navigateToUrl] cancels of the
    attempt before it is the timeout timer: in every reachable state a
    pending timeout timer is the one its iframe holds in [loadTimeout] and
    carries the attempt number of the latest navigation into that iframe,
    so no timeout callback of a superseded attempt is left to fire, and an
    iframe has at most one pending timeout timer. *)
Theorem superseded_timeout_is_cleared (p : Page) :
  reachable URL_hostname p ->
  (forall tm h url,
      In tm (timers p) -> tm_cb tm = LoadTimeout h url ->
      ~ stale p tm
      /\ exists f, nth_error (iframes p) h = Some f
                   /\ loadTimeout f = Some (tm_id tm)
                   /\ tm_attempt tm = if_attempt f)
  /\ (forall tm tm' h url url',
         In tm (timers p) -> In tm' (timers p) ->
         tm_cb tm = LoadTimeout h url -> tm_cb tm' = LoadTimeout h url' ->
         tm = tm').
Proof.
  intros (p0 & es & Hi & Hr).
  pose proof (mon_run es (mon_initial Hi) Hr) as (_ & Hf & Hd).
  assert (Hheld : forall tm h url,
             In tm (timers p) -> tm_cb tm = LoadTimeout h url ->
             exists f, nth_error (iframes p) h = Some f
                       /\ loadTimeout f = Some (tm_id tm)
                       /\ tm_attempt tm = if_attempt f).
  { intros tm h url Hin Hcb.
    destruct (Hf tm Hin) as [_ Hs]; rewrite Hcb, nth_error_slots in Hs.
    destruct (nth_error (iframes p) h) as [f|]; [|discriminate].
    inversion Hs; eauto. }
  split.
  - intros tm h url Hin Hcb.
    destruct (Hheld tm h url Hin Hcb) as (f & Hh & Hl & Ha).
    split; [|eauto].
    intros (f' & Hh' & Hlt); rewrite Hcb in Hh'; simpl in Hh'.
    rewrite Hh in Hh'; inversion Hh'; subst f'; lia.
  - intros tm tm' h url url' Hin Hin' Hcb Hcb'.
    destruct (Hheld tm h url Hin Hcb) as (f & Hh & Hl & _).
    destruct (Hheld tm' h url' Hin' Hcb') as (f' & Hh' & Hl' & _).
    apply (NoDup_map_eq tm_id (timers p)); auto; congruence.
Qed.

End LoadMonitor.

Lemma cons_neq {A} (x : A) (l : list A) : x :: l <> l.
Proof.
  intros H; apply (f_equal (@length A)) in H; simpl in H; lia.
Qed.

(* ===================================================================== *)
(** ** The history invariant in reachable states *)
(* ===================================================================== *)

Section HistoryInvariant.

Import V2.

Variable URL_hostname : jsstring -> option jsstring.

Lemma Forall_update_first {A} (P : A -> Prop) (c : A -> bool) (f : A -> A)
      (l : list A) :
  (forall x, find c l = Some x -> P x -> P (f x)) ->
  Forall P l -> Forall P (update_first c f l).
Proof.
  induction l as [|x l IH]; simpl; intros Hf Hl; [constructor|].
  inversion Hl; subst.
  destruct (c x) eqn:Hc.
  - constructor; auto.
  - constructor; auto.
Qed.

Lemma history_ok_push url t : history_ok (push url t).
Proof.
  unfold history_ok, push; simpl; rewrite length_app; simpl; lia.
Qed.

Lemma hist_on_bs f q :
  (Forall history_ok (tabs (bs q)) -> Forall history_ok (tabs (f (bs q)))) ->
  histories_ok q -> histories_ok (on_bs f q).
Proof. unfold histories_ok; simpl; auto. Qed.

Lemma hist_on_view f q : histories_ok q -> histories_ok (on_view f q).
Proof. auto. Qed.

Lemma hist_on_iframes f q : histories_ok q -> histories_ok (on_iframes f q).
Proof. auto. Qed.

Lemma hist_on_iframe h f q : histories_ok q -> histories_ok (on_iframe h f q).
Proof. auto. Qed.

Lemma hist_set_timers l n q :
  histories_ok q -> histories_ok (set_timers l n q).
Proof. auto. Qed.

Lemma hist_set_clock t q : histories_ok q -> histories_ok (set_clock t q).
Proof. auto. Qed.

Lemma hist_showLoading q : histories_ok q -> histories_ok (showLoading q).
Proof. auto. Qed.

Lemma hist_hideLoading q : histories_ok q -> histories_ok (hideLoading q).
Proof. auto. Qed.

Lemma hist_showWelcomeScreen q :
  histories_ok q -> histories_ok (showWelcomeScreen q).
Proof. auto. Qed.

Lemma hist_hideWelcomeScreen q :
  histories_ok q -> histories_ok (hideWelcomeScreen q).
Proof. auto. Qed.

Lemma hist_showError m u q : histories_ok q -> histories_ok (showError m u q).
Proof. auto. Qed.

Lemma hist_hideError q : histories_ok q -> histories_ok (hideError q).
Proof. auto. Qed.

Lemma hist_updateTabBar q : histories_ok q -> histories_ok (updateTabBar q).
Proof. auto. Qed.

Lemma hist_updateNavButtons q :
  histories_ok q -> histories_ok (updateNavButtons q).
Proof.
  unfold updateNavButtons; destruct (getActiveTab (bs q)); auto.
Qed.

Lemma hist_setTimeout cb d a q :
  histories_ok q -> histories_ok (setTimeout cb d a q).
Proof. auto. Qed.

Lemma hist_clearTimeout id q :
  histories_ok q -> histories_ok (clearTimeout id q).
Proof. auto. Qed.

Lemma hist_startLoadTimeout h u q :
  histories_ok q -> histories_ok (startLoadTimeout h u q).
Proof.
  unfold startLoadTimeout.
  destruct (nth_error (iframes q) h) as [f|]; [|auto].
  destruct (handle_truthy (loadTimeout f)); auto.
Qed.

Lemma hist_signal_received h q :
  histories_ok q -> histories_ok (signal_received h q).
Proof.
  unfold signal_received.
  destruct (nth_error (iframes q) h) as [f|]; [|auto].
  destruct (handle_truthy (loadTimeout f)); auto.
Qed.

Lemma hist_update f tabId q :
  (forall t, history_ok t -> history_ok (f t)) ->
  histories_ok q ->
  histories_ok
    (on_bs (fun b => set_tabs b (update_first (has_id tabId) f (tabs b))) q).
Proof.
  intros Hf; apply hist_on_bs; simpl.
  apply Forall_update_first; auto.
Qed.

Lemma hist_updateTabUrl tabId u q :
  histories_ok q -> histories_ok (on_bs (fun b => updateTabUrl b tabId u) q).
Proof. apply (hist_update (set_url u)); auto. Qed.

Lemma hist_updateTabTitle tabId u q :
  histories_ok q ->
  histories_ok (on_bs (fun b => updateTabTitle b tabId u) q).
Proof.
  apply (hist_update (set_title (or_else u (js "Untitled")))); auto.
Qed.

Lemma hist_addToHistory tabId u q :
  histories_ok q -> histories_ok (on_bs (fun b => addToHistory b tabId u) q).
Proof.
  apply (hist_update (push u)); intros; apply history_ok_push.
Qed.

Lemma hist_createTabIframe tab q :
  histories_ok q -> histories_ok (fst (createTabIframe tab q)).
Proof.
  intros Hq; unfold createTabIframe; simpl.
  apply (hist_update (set_iframe (Some (length (iframes q))))); auto.
Qed.

Create HintDb hist.

#[local] Hint Resolve hist_on_view hist_on_iframes hist_on_iframe
  hist_set_timers hist_set_clock hist_showLoading hist_hideLoading
  hist_showWelcomeScreen hist_hideWelcomeScreen hist_showError
  hist_hideError hist_updateTabBar hist_updateNavButtons hist_setTimeout
  hist_clearTimeout hist_startLoadTimeout hist_signal_received
  hist_updateTabUrl hist_updateTabTitle hist_addToHistory : hist.

Lemma hist_goBack b tabId :
  Forall history_ok (tabs b) ->
  Forall history_ok (tabs (fst (goBack b tabId))).
Proof.
  intros Hb; unfold goBack.
  destruct (find (has_id tabId) (tabs b)) as [tab|] eqn:Hf; [|exact Hb].
  destruct (canGoBack b tabId) eqn:Hc; [|exact Hb].
  simpl; apply Forall_update_first; [|exact Hb].
  intros t Ht Hok; rewrite Hf in Ht; inversion Ht; subst t.
  unfold canGoBack in Hc; rewrite Hf in Hc; apply Z.gtb_lt in Hc.
  unfold history_ok in *; simpl; lia.
Qed.

Lemma hist_goForward b tabId :
  Forall history_ok (tabs b) ->
  Forall history_ok (tabs (fst (goForward b tabId))).
Proof.
  intros Hb; unfold goForward.
  destruct (find (has_id tabId) (tabs b)) as [tab|] eqn:Hf; [|exact Hb].
  destruct (canGoForward b tabId) eqn:Hc; [|exact Hb].
  simpl; apply Forall_update_first; [|exact Hb].
  intros t Ht Hok; rewrite Hf in Ht; inversion Ht; subst t.
  unfold canGoForward in Hc; rewrite Hf in Hc; apply Z.ltb_lt in Hc.
  unfold history_ok in *; simpl; lia.
Qed.

Lemma hist_removeTab b tabId :
  Forall history_ok (tabs b) ->
  Forall history_ok (tabs (fst (removeTab b tabId))).
Proof.
  intros Hb.
  destruct (in_dec (list_eq_dec N.eq_dec) tabId (map tab_id (tabs b)))
    as [Hin|Hout].
  - destruct (removeTab_found b tabId Hin)
      as (l1 & t & l2 & Hl & _ & _ & Htabs & _).
    rewrite Htabs; rewrite Hl in Hb.
    apply Forall_app in Hb; destruct Hb as [H1 H2]; inversion H2; subst.
    apply Forall_app; auto.
  - rewrite removeTab_unknown by exact Hout; exact Hb.
Qed.

Lemma hist_switchTab tabId q : histories_ok q -> histories_ok (switchTab tabId q).
Proof.
  intros Hq; unfold switchTab; cbv zeta.
  match goal with
  | |- context [getActiveTab (bs ?p)] => set (p3 := p)
  end.
  assert (H3 : histories_ok p3) by exact Hq.
  clearbody p3.
  destruct (getActiveTab (bs p3)) as [tab|]; [|exact H3].
  apply hist_updateNavButtons.
  destruct (tab_iframe tab) as [h|]; [auto 10 with hist|].
  destruct (truthy (tab_url tab)
            && negb (str_eqb (tab_url tab) (js "about:blank")));
    [|auto 10 with hist].
  assert (Hc : histories_ok
                 (fst (createTabIframe tab
                    (on_view (set_addressBar (or_else (tab_url tab) []))
                             p3))))
    by (apply hist_createTabIframe; auto with hist).
  destruct (createTabIframe tab _) as [p' h]; simpl in Hc.
  auto 10 with hist.
Qed.

Lemma hist_closeTab tabId q : histories_ok q -> histories_ok (closeTab tabId q).
Proof.
  intros Hq; unfold closeTab.
  destruct (length (tabs (bs q)) =? 1)%nat; [exact Hq|].
  pose proof (@hist_removeTab (bs q) tabId Hq) as Hr.
  destruct (removeTab (bs q) tabId) as [b detached]; cbv zeta; simpl in Hr.
  set (q1 := on_view _ _).
  assert (H1 : histories_ok q1) by (subst q1; destruct detached; exact Hr).
  clearbody q1.
  destruct (activeTabId (bs q1)) as [a|]; [destruct (truthy a)|];
    try (apply hist_switchTab; exact H1);
    destruct (tabs (bs q1));
    try (apply hist_switchTab; exact H1); auto with hist.
Qed.

Lemma hist_navigateToUrl url q :
  histories_ok q -> histories_ok (navigateToUrl URL_hostname url q).
Proof.
  intros Hq; unfold navigateToUrl.
  destruct (getActiveTab (bs q)) as [tab|]; [|exact Hq].
  destruct (sanitizeUrl URL_hostname url) as [s|]; [|exact Hq].
  cbv zeta.
  match goal with
  | |- context [updateNavButtons ?p] => set (q1 := updateNavButtons p)
  end.
  assert (H1 : histories_ok q1)
    by (subst q1; destruct (URL_hostname s); auto 20 with hist).
  clearbody q1.
  assert (H : exists q2 h,
             match tab_iframe tab with
             | Some h => (q1, h)
             | None => createTabIframe tab q1
             end = (q2, h) /\ histories_ok q2).
  { destruct (tab_iframe tab) as [h|]; [eauto|].
    pose proof (hist_createTabIframe tab H1) as Hc.
    destruct (createTabIframe tab q1) as [p' h]; eauto. }
  destruct H as (q2 & h & -> & H2).
  auto 20 with hist.
Qed.

Lemma hist_addTab_page now_id now_ts url q :
  histories_ok q ->
  histories_ok (addTab_page URL_hostname now_id now_ts url q).
Proof.
  intros Hq; unfold addTab_page.
  destruct (if truthy url then sanitizeUrl URL_hostname url else Some [])
    as [s|]; [|exact Hq].
  unfold addTab.
  destruct (Z.of_nat (length (tabs (bs q))) >=? maxTabs (bs q))%Z;
    [exact Hq|].
  cbv zeta.
  match goal with
  | |- context [switchTab ?i ?p] =>
      assert (H1 : histories_ok (switchTab i p))
  end.
  { apply hist_switchTab; unfold histories_ok; simpl.
    apply Forall_app; split; [exact Hq|].
    constructor; [|constructor].
    unfold history_ok; simpl; lia. }
  destruct (truthy s && negb (str_eqb s (js "about:blank"))); [|exact H1].
  apply hist_navigateToUrl; exact H1.
Qed.

Lemma hist_history_button can go q :
  (forall b tabId, Forall history_ok (tabs b) ->
                   Forall history_ok (tabs (fst (go b tabId)))) ->
  histories_ok q -> histories_ok (history_button can go q).
Proof.
  intros Hgo Hq; unfold history_button.
  destruct (getActiveTab (bs q)) as [tab|]; [|exact Hq].
  destruct (tab_iframe tab) as [h|]; [|exact Hq].
  destruct (can (bs q) (tab_id tab)); [|exact Hq].
  pose proof (Hgo (bs q) (tab_id tab) Hq) as Hb.
  destruct (go (bs q) (tab_id tab)) as [b v]; simpl in Hb.
  assert (H : histories_ok (on_bs (fun _ => b) q)) by exact Hb.
  destruct v as [| |u]; auto.
  destruct (truthy u); auto 10 with hist.
Qed.

Lemma hist_run_callback tm pr q :
  histories_ok q -> histories_ok (run_callback URL_hostname tm pr q).
Proof.
  intros Hq; unfold run_callback, settle, recheck, load_timeout.
  destruct (tm_cb tm) as [h|h host|h u];
    destruct (nth_error (iframes q) h) as [f|]; try exact Hq; cbv zeta.
  - destruct (probe_document pr) as [title|].
    + destruct (truthy title); [auto 10 with hist|].
      destruct (URL_hostname (if_src f)); auto 10 with hist.
    + destruct (URL_hostname (if_src f)); [|auto 10 with hist].
      destruct (probe_window pr); auto 10 with hist.
  - destruct (is_flex (errorDisplay (view q))); [exact Hq|].
    destruct (probe_document pr); auto with hist.
  - destruct (hasLoaded f); [exact Hq|].
    destruct (URL_hostname u); auto with hist.
Qed.

Lemma hist_step t e q q' :
  histories_ok q -> step URL_hostname t e q = Some q' -> histories_ok q'.
Proof.
  intros Hq; unfold step.
  destruct (t <? clock q)%N; [discriminate|].
  assert (Hc : histories_ok (set_clock t q)) by exact Hq.
  set (qc := set_clock t q) in *; clearbody qc.
  destruct e as [n1 n2|n1 n2|k|k|text|url| | | | |h|h|id pr]; intros H.
  - inversion H; apply hist_addTab_page; exact Hc.
  - inversion H; apply hist_addTab_page; exact Hc.
  - destruct (nth_error (tabBar (view qc)) k); [|discriminate].
    inversion H; apply hist_switchTab; exact Hc.
  - destruct (nth_error (tabBar (view qc)) k); [|discriminate].
    inversion H; apply hist_closeTab; exact Hc.
  - inversion H; apply hist_navigateToUrl, hist_on_view; exact Hc.
  - inversion H; apply hist_navigateToUrl; exact Hc.
  - inversion H; apply hist_history_button; [apply hist_goBack|exact Hc].
  - inversion H; apply hist_history_button; [apply hist_goForward|exact Hc].
  - inversion H; unfold reload.
    destruct (getActiveTab (bs qc)) as [tab|]; [|exact Hc].
    destruct (tab_iframe tab); exact Hc.
  - inversion H.
    match goal with |- context [truthy ?u] => destruct (truthy u) end;
      [apply hist_navigateToUrl|]; exact Hc.
  - destruct (nth_error (iframes qc) h) eqn:Hh; [|discriminate].
    inversion H; unfold on_load; rewrite Hh; auto with hist.
  - destruct (nth_error (iframes qc) h) eqn:Hh; [|discriminate].
    inversion H; unfold on_error; rewrite Hh; auto with hist.
  - destruct (find_timer id qc) as [tm|]; [|discriminate].
    destruct (t <? tm_due tm)%N; [discriminate|].
    inversion H; apply hist_run_callback, hist_clearTimeout; exact Hc.
Qed.

(** In every reachable state each tab's history satisfies the invariant
    of the data model: the position is [-1] when there are no entries and
    an index into the entries otherwise.  The hypotheses of
    [addToHistory_push] and [goBack_goForward_spec] hold there. *)
Lemma reachable_histories_ok (p : Page) :
  reachable URL_hostname p ->
  forall tabId entries position,
    history_of (bs p) tabId = Some (entries, position) ->
    (-1 <= position < Z.of_nat (length entries))%Z.
Proof.
  intros (p0 & es & Hi & Hr).
  assert (Hok : histories_ok p).
  { assert (H0 : histories_ok p0).
    { destruct Hi as (Hb & _); unfold histories_ok; rewrite Hb.
      constructor. }
    clear Hi; revert p0 H0 Hr.
    induction es as [|[t e] es IH]; simpl; intros p0 H0 Hr.
    - inversion Hr; subst; exact H0.
    - destruct (step URL_hostname t e p0) as [p1|] eqn:Hs; [|discriminate].
      eapply IH; [|exact Hr]. eapply hist_step; eauto. }
  intros tabId entries position Hh.
  destruct (history_of_some _ _ Hh) as (t & Hf & <- & <-).
  apply find_some_in in Hf; destruct Hf as [Hin _].
  unfold histories_ok in Hok; rewrite Forall_forall in Hok.
  exact (Hok t Hin).
Qed.

End HistoryInvariant.

(* ===================================================================== *)
(** ** The attempt numbers are ghost state *)
(* ===================================================================== *)

Section Ghost.

Import V2.

Variable URL_hostname : jsstring -> option jsstring.

Lemma cons_eq_inv {A} (x y : A) (l l' : list A) :
  x :: l = y :: l' -> x = y /\ l = l'.
Proof. intros H; inversion H; auto. Qed.

Lemma some_eq_inv {A} (x y : A) : Some x = Some y -> x = y.
Proof. intros H; inversion H; auto. Qed.

(** Two pages that differ in attempt numbers only. *)
Notation "p ~~ q" := (erase p = erase q) (at level 70).

Lemma sim_fields p q :
  p ~~ q ->
  bs p = bs q /\ view p = view q
  /\ map erase_iframe (iframes p) = map erase_iframe (iframes q)
  /\ map erase_timer (timers p) = map erase_timer (timers q)
  /\ nextTimer p = nextTimer q /\ clock p = clock q.
Proof. unfold erase; intros H; inversion H; auto 10. Qed.

Lemma sim_intro p q :
  bs p = bs q -> view p = view q ->
  map erase_iframe (iframes p) = map erase_iframe (iframes q) ->
  map erase_timer (timers p) = map erase_timer (timers q) ->
  nextTimer p = nextTimer q -> clock p = clock q ->
  p ~~ q.
Proof. unfold erase; intros -> -> -> -> -> ->; reflexivity. Qed.

Lemma sim_nth p q h :
  p ~~ q ->
  option_map erase_iframe (nth_error (iframes p) h)
  = option_map erase_iframe (nth_error (iframes q) h).
Proof.
  intros H; destruct (sim_fields H) as (_ & _ & Hi & _).
  rewrite <- !nth_error_map, Hi; reflexivity.
Qed.

(** The fields of an iframe the script reads. *)
Lemma erase_iframe_eq f g :
  erase_iframe f = erase_iframe g ->
  if_owner f = if_owner g /\ if_src f = if_src g
  /\ loadTimeout f = loadTimeout g /\ hasLoaded f = hasLoaded g.
Proof. unfold erase_iframe; intros H; inversion H; auto. Qed.

Lemma sim_on_bs f g p q :
  f (bs p) = g (bs q) -> p ~~ q -> on_bs f p ~~ on_bs g q.
Proof.
  intros Hf H; destruct (sim_fields H) as (_ & ? & ? & ? & ? & ?).
  apply sim_intro; assumption.
Qed.

Lemma sim_on_view f g p q :
  f (view p) = g (view q) -> p ~~ q -> on_view f p ~~ on_view g q.
Proof.
  intros Hf H; destruct (sim_fields H) as (? & _ & ? & ? & ? & ?).
  apply sim_intro; assumption.
Qed.

Lemma sim_set_clock t p q : p ~~ q -> set_clock t p ~~ set_clock t q.
Proof.
  intros H; destruct (sim_fields H) as (? & ? & ? & ? & ? & _).
  apply sim_intro; auto.
Qed.

(** An assignment to an iframe commutes with the erasure. *)
Definition ghost_blind (g : IFrame -> IFrame) : Prop :=
  forall f, erase_iframe (g f) = erase_iframe (g (erase_iframe f)).

Lemma ghost_blind_eq g f f' :
  ghost_blind g -> erase_iframe f = erase_iframe f' ->
  erase_iframe (g f) = erase_iframe (g f').
Proof. intros Hg H; rewrite (Hg f), (Hg f'), H; reflexivity. Qed.

Lemma erase_update_nth h g l l' :
  ghost_blind g ->
  map erase_iframe l = map erase_iframe l' ->
  map erase_iframe (update_nth h g l) = map erase_iframe (update_nth h g l').
Proof.
  intros Hg; revert h l'; induction l as [|x l IH]; intros h [|y l'] H;
    try discriminate; [reflexivity|].
  cbn [map] in H; apply cons_eq_inv in H; destruct H as [Hx Hl].
  destruct h as [|h]; cbn [update_nth map].
  - rewrite (ghost_blind_eq Hg Hx), Hl; reflexivity.
  - rewrite Hx, (IH h l' Hl); reflexivity.
Qed.

Lemma sim_on_iframe h g p q :
  ghost_blind g -> p ~~ q -> on_iframe h g p ~~ on_iframe h g q.
Proof.
  intros Hg H; destruct (sim_fields H) as (? & ? & ? & ? & ? & ?).
  apply sim_intro; auto; simpl.
  apply erase_update_nth; assumption.
Qed.

Lemma sim_on_iframes_map g p q :
  ghost_blind g -> p ~~ q -> on_iframes (map g) p ~~ on_iframes (map g) q.
Proof.
  intros Hg H; destruct (sim_fields H) as (? & ? & Hi & ? & ? & ?).
  apply sim_intro; auto; simpl.
  revert Hi; generalize (iframes q); induction (iframes p) as [|x l IH];
    intros [|y l'] Hi; try discriminate; [reflexivity|].
  cbn [map] in *; apply cons_eq_inv in Hi; destruct Hi as [Hx Hl].
  rewrite (ghost_blind_eq Hg Hx), (IH l' Hl); reflexivity.
Qed.

Lemma sim_setTimeout cb d a a' p q :
  p ~~ q -> setTimeout cb d a p ~~ setTimeout cb d a' q.
Proof.
  intros H; destruct (sim_fields H) as (? & ? & ? & Ht & Hn & Hc).
  apply sim_intro; auto; simpl; [|congruence].
  rewrite !map_app, Ht, Hn, Hc; reflexivity.
Qed.

Lemma erase_filter (c : Timer -> bool) l l' :
  (forall tm, c (erase_timer tm) = c tm) ->
  map erase_timer l = map erase_timer l' ->
  map erase_timer (filter c l) = map erase_timer (filter c l').
Proof.
  intros Hc; revert l'; induction l as [|x l IH]; intros [|y l'] H;
    try discriminate; [reflexivity|].
  cbn [map] in H; apply cons_eq_inv in H; destruct H as [Hx Hl];
    cbn [filter].
  rewrite <- (Hc x), <- (Hc y), Hx.
  destruct (c (erase_timer y)); cbn [map]; rewrite ?Hx, (IH l' Hl);
    reflexivity.
Qed.

Lemma sim_clearTimeout id p q :
  p ~~ q -> clearTimeout id p ~~ clearTimeout id q.
Proof.
  intros H; destruct (sim_fields H) as (? & ? & ? & Ht & Hn & Hc).
  apply sim_intro; auto; simpl.
  apply erase_filter; [reflexivity|exact Ht].
Qed.

Lemma sim_find_timer id p q :
  p ~~ q ->
  option_map erase_timer (find_timer id p)
  = option_map erase_timer (find_timer id q).
Proof.
  intros H; destruct (sim_fields H) as (_ & _ & _ & Ht & _).
  unfold find_timer; revert Ht; generalize (timers q).
  induction (timers p) as [|x l IH]; intros [|y l'] Ht; try discriminate;
    [reflexivity|].
  cbn [map] in Ht; apply cons_eq_inv in Ht; destruct Ht as [Hx Hl];
    cbn [find].
  assert (Hid : tm_id x = tm_id y)
    by (apply (f_equal tm_id) in Hx; exact Hx).
  rewrite Hid; destruct (tm_id y =? id)%N; [|auto].
  cbn [option_map]; rewrite Hx; reflexivity.
Qed.

Lemma sim_createTabIframe tab p q :
  p ~~ q ->
  fst (createTabIframe tab p) ~~ fst (createTabIframe tab q)
  /\ snd (createTabIframe tab p) = snd (createTabIframe tab q).
Proof.
  intros H; destruct (sim_fields H) as (Hb & ? & Hi & ? & ? & ?).
  assert (Hlen : length (iframes p) = length (iframes q))
    by (apply (f_equal (@length _)) in Hi; rewrite !length_map in Hi;
        exact Hi).
  unfold createTabIframe; simpl; split; [|exact Hlen].
  apply sim_intro; simpl; auto.
  - rewrite Hb, Hlen; reflexivity.
  - rewrite !map_app, Hi; reflexivity.
Qed.

Create HintDb sim.

#[local] Hint Resolve sim_set_clock sim_setTimeout sim_clearTimeout : sim.

(** Side conditions: both sides read the same [bs] and [view]. *)
Ltac same_reads :=
  cbn [bs view on_bs on_view on_iframes on_iframe set_timers set_clock];
  repeat match goal with
         | H : bs _ = bs _ |- _ => rewrite H
         | H : view _ = view _ |- _ => rewrite H
         end;
  reflexivity.

Lemma sim_on_view_same f p q : p ~~ q -> on_view f p ~~ on_view f q.
Proof.
  intros H; apply sim_on_view; [|exact H].
  destruct (sim_fields H) as (_ & -> & _); reflexivity.
Qed.

Lemma sim_on_bs_same f p q : p ~~ q -> on_bs f p ~~ on_bs f q.
Proof.
  intros H; apply sim_on_bs; [|exact H].
  destruct (sim_fields H) as (-> & _); reflexivity.
Qed.

#[local] Hint Extern 1 (on_view _ _ ~~ on_view _ _) =>
  first [apply sim_on_view_same | apply sim_on_view; [same_reads|]] : sim.

#[local] Hint Extern 1 (on_bs _ _ ~~ on_bs _ _) =>
  first [apply sim_on_bs_same | apply sim_on_bs; [same_reads|]] : sim.

#[local] Hint Extern 1 (on_iframe _ _ _ ~~ on_iframe _ _ _) =>
  apply sim_on_iframe; [intros ?; reflexivity|] : sim.

(** Reading the page through [bs] and [view]. *)
Ltac sim_read H :=
  let Hb := fresh "Hb" in
  let Hv := fresh "Hv" in
  destruct (sim_fields H) as (Hb & Hv & _).

Lemma sim_showLoading p q : p ~~ q -> showLoading p ~~ showLoading q.
Proof. intros H; sim_read H; unfold showLoading; auto with sim. Qed.

Lemma sim_hideLoading p q : p ~~ q -> hideLoading p ~~ hideLoading q.
Proof. intros H; sim_read H; unfold hideLoading; auto with sim. Qed.

Lemma sim_showWelcomeScreen p q :
  p ~~ q -> showWelcomeScreen p ~~ showWelcomeScreen q.
Proof. intros H; sim_read H; unfold showWelcomeScreen; auto with sim. Qed.

Lemma sim_hideWelcomeScreen p q :
  p ~~ q -> hideWelcomeScreen p ~~ hideWelcomeScreen q.
Proof. intros H; sim_read H; unfold hideWelcomeScreen; auto with sim. Qed.

Lemma sim_showError m u p q : p ~~ q -> showError m u p ~~ showError m u q.
Proof. intros H; sim_read H; unfold showError; auto with sim. Qed.

Lemma sim_hideError p q : p ~~ q -> hideError p ~~ hideError q.
Proof. intros H; sim_read H; unfold hideError; auto with sim. Qed.

Lemma sim_updateTabBar p q : p ~~ q -> updateTabBar p ~~ updateTabBar q.
Proof. intros H; sim_read H; unfold updateTabBar; auto with sim. Qed.

Lemma sim_updateNavButtons p q :
  p ~~ q -> updateNavButtons p ~~ updateNavButtons q.
Proof.
  intros H; sim_read H; unfold updateNavButtons; rewrite Hb.
  destruct (getActiveTab (bs q)); auto with sim.
Qed.

#[local] Hint Resolve sim_showLoading sim_hideLoading sim_showWelcomeScreen
  sim_hideWelcomeScreen sim_showError sim_hideError sim_updateTabBar
  sim_updateNavButtons : sim.

(** Case analysis on the iframe [h] of two similar pages. *)
Ltac sim_iframe H h f g Hfg :=
  let E := fresh "E" in
  pose proof (sim_nth h H) as E;
  match type of E with
  | option_map _ (nth_error (iframes ?p) _)
    = option_map _ (nth_error (iframes ?q) _) =>
      destruct (nth_error (iframes p) h) as [f|];
      destruct (nth_error (iframes q) h) as [g|];
      try discriminate E;
      [assert (Hfg : erase_iframe f = erase_iframe g)
         by (apply some_eq_inv; exact E); clear E
      | clear E]
  end.

Lemma sim_startLoadTimeout h u p q :
  p ~~ q -> startLoadTimeout h u p ~~ startLoadTimeout h u q.
Proof.
  intros H; unfold startLoadTimeout.
  sim_iframe H h f g Hfg; [|exact H].
  destruct (erase_iframe_eq Hfg) as (_ & _ & Hl & _); rewrite Hl.
  assert (H1 : match handle_truthy (loadTimeout g) with
               | Some id => clearTimeout id p
               | None => p
               end
               ~~ match handle_truthy (loadTimeout g) with
                  | Some id => clearTimeout id q
                  | None => q
                  end)
    by (destruct (handle_truthy (loadTimeout g)); auto with sim).
  destruct (sim_fields H1) as (_ & _ & _ & _ & Hn & _); rewrite Hn.
  auto with sim.
Qed.

Lemma sim_signal_received h p q :
  p ~~ q -> signal_received h p ~~ signal_received h q.
Proof.
  intros H; unfold signal_received.
  sim_iframe H h f g Hfg; [|exact H].
  destruct (erase_iframe_eq Hfg) as (_ & _ & Hl & _); rewrite Hl.
  destruct (handle_truthy (loadTimeout g)); auto 10 with sim.
Qed.

#[local] Hint Resolve sim_startLoadTimeout sim_signal_received : sim.

Lemma sim_switchTab tabId p q : p ~~ q -> switchTab tabId p ~~ switchTab tabId q.
Proof.
  intros H; unfold switchTab; cbv zeta.
  match goal with
  | |- (match getActiveTab (bs ?x) with _ => _ end)
       ~~ (match getActiveTab (bs ?y) with _ => _ end) =>
      set (p3 := x); set (q3 := y)
  end.
  assert (H3 : p3 ~~ q3).
  { subst p3 q3; sim_read H.
    apply sim_on_view; [same_reads|].
    apply sim_on_iframes_map;
      [intros f; simpl; destruct (if_attached f); reflexivity|].
    auto with sim. }
  clearbody p3 q3; sim_read H3; rewrite Hb.
  destruct (getActiveTab (bs q3)) as [tab|]; [|exact H3].
  apply sim_updateNavButtons.
  destruct (tab_iframe tab) as [h|]; [auto 10 with sim|].
  destruct (truthy (tab_url tab)
            && negb (str_eqb (tab_url tab) (js "about:blank")));
    [|auto 10 with sim].
  assert (Hc : on_view (set_addressBar (or_else (tab_url tab) [])) p3
               ~~ on_view (set_addressBar (or_else (tab_url tab) [])) q3)
    by auto with sim.
  destruct (sim_createTabIframe tab Hc) as [Hc1 Hc2].
  destruct (createTabIframe tab (on_view _ p3)) as [p' h].
  destruct (createTabIframe tab (on_view _ q3)) as [q' h'].
  simpl in Hc1, Hc2; subst h'.
  auto 10 with sim.
Qed.

Lemma sim_closeTab tabId p q : p ~~ q -> closeTab tabId p ~~ closeTab tabId q.
Proof.
  intros H; unfold closeTab; sim_read H; rewrite Hb.
  destruct (length (tabs (bs q)) =? 1)%nat; [exact H|].
  destruct (removeTab (bs q) tabId) as [b detached]; cbv zeta.
  match goal with
  | |- (match activeTabId (bs ?x) with _ => _ end)
       ~~ (match activeTabId (bs ?y) with _ => _ end) =>
      set (p1 := x); set (q1 := y)
  end.
  assert (H1 : p1 ~~ q1).
  { subst p1 q1; destruct detached; auto 10 with sim. }
  clearbody p1 q1.
  destruct (sim_fields H1) as (Hb1 & _); rewrite Hb1.
  destruct (activeTabId (bs q1)) as [a|]; [destruct (truthy a)|];
    try (apply sim_switchTab; exact H1);
    destruct (tabs (bs q1));
    try (apply sim_switchTab; exact H1); auto with sim.
Qed.

Lemma sim_navigateToUrl url p q :
  p ~~ q ->
  navigateToUrl URL_hostname url p ~~ navigateToUrl URL_hostname url q.
Proof.
  intros H; unfold navigateToUrl; sim_read H; rewrite Hb.
  destruct (getActiveTab (bs q)) as [tab|]; [|exact H].
  destruct (sanitizeUrl URL_hostname url) as [s|]; [|exact H].
  cbv zeta.
  match goal with
  | |- (let (_, _) := match _ with
                      | Some h1 => (?x, h1)
                      | None => _
                      end in _)
       ~~ (let (_, _) := match _ with
                         | Some h2 => (?y, h2)
                         | None => _
                         end in _) =>
      set (p1 := x); set (q1 := y)
  end.
  assert (H1 : p1 ~~ q1).
  { subst p1 q1; apply sim_updateNavButtons, sim_on_view_same.
    destruct (URL_hostname s); apply sim_updateTabBar; auto 10 with sim. }
  clearbody p1 q1.
  assert (H2 : exists p2 q2 h,
             match tab_iframe tab with
             | Some h => (p1, h)
             | None => createTabIframe tab p1
             end = (p2, h)
             /\ match tab_iframe tab with
                | Some h => (q1, h)
                | None => createTabIframe tab q1
                end = (q2, h)
             /\ p2 ~~ q2).
  { destruct (tab_iframe tab) as [h|]; [exists p1, q1, h; auto|].
    destruct (sim_createTabIframe tab H1) as [Hc1 Hc2].
    destruct (createTabIframe tab p1) as [p' h].
    destruct (createTabIframe tab q1) as [q' h'].
    simpl in Hc1, Hc2; subst h'; exists p', q', h; auto. }
  destruct H2 as (p2 & q2 & h & -> & -> & H2).
  auto 20 with sim.
Qed.

Lemma sim_addTab_page now_id now_ts url p q :
  p ~~ q ->
  addTab_page URL_hostname now_id now_ts url p
  ~~ addTab_page URL_hostname now_id now_ts url q.
Proof.
  intros H; unfold addTab_page; sim_read H; rewrite Hb.
  destruct (if truthy url then sanitizeUrl URL_hostname url else Some [])
    as [s|]; [|exact H].
  destruct (addTab (bs q) now_id now_ts s) as [b [tab|]]; [|exact H].
  cbv zeta.
  match goal with
  | |- (if _ then _ else ?x) ~~ (if _ then _ else ?y) =>
      assert (H1 : x ~~ y) by (apply sim_switchTab; auto 10 with sim)
  end.
  destruct (truthy s && negb (str_eqb s (js "about:blank"))); [|exact H1].
  apply sim_navigateToUrl; exact H1.
Qed.

Lemma sim_history_button can go p q :
  p ~~ q -> history_button can go p ~~ history_button can go q.
Proof.
  intros H; unfold history_button; sim_read H; rewrite Hb.
  destruct (getActiveTab (bs q)) as [tab|]; [|exact H].
  destruct (tab_iframe tab) as [h|]; [|exact H].
  destruct (can (bs q) (tab_id tab)); [|exact H].
  destruct (go (bs q) (tab_id tab)) as [b v].
  destruct v as [| |u]; auto with sim.
  destruct (truthy u); auto 10 with sim.
Qed.

Lemma sim_reload p q : p ~~ q -> reload p ~~ reload q.
Proof.
  intros H; unfold reload; sim_read H; rewrite Hb.
  destruct (getActiveTab (bs q)) as [tab|]; [|exact H].
  destruct (tab_iframe tab); auto with sim.
Qed.

Lemma sim_on_load h p q : p ~~ q -> on_load h p ~~ on_load h q.
Proof.
  intros H; unfold on_load.
  sim_iframe H h f g Hfg; [|exact H].
  auto with sim.
Qed.

Lemma sim_on_error h p q : p ~~ q -> on_error h p ~~ on_error h q.
Proof.
  intros H; unfold on_error.
  sim_iframe H h f g Hfg; [|exact H].
  destruct (erase_iframe_eq Hfg) as (_ & Hs & _); rewrite Hs.
  auto with sim.
Qed.

Lemma sim_settle h a a' pr p q :
  p ~~ q ->
  settle URL_hostname h a pr p ~~ settle URL_hostname h a' pr q.
Proof.
  intros H; unfold settle.
  sim_iframe H h f g Hfg; [|exact H].
  destruct (erase_iframe_eq Hfg) as (Ho & Hs & _); rewrite Ho, Hs.
  cbv zeta.
  destruct (probe_document pr) as [title|].
  - destruct (truthy title); [auto 10 with sim|].
    destruct (URL_hostname (if_src g)); auto 10 with sim.
  - destruct (URL_hostname (if_src g)); [|auto 10 with sim].
    destruct (probe_window pr); auto 10 with sim.
Qed.

Lemma sim_recheck h host pr p q :
  p ~~ q -> recheck h host pr p ~~ recheck h host pr q.
Proof.
  intros H; unfold recheck; sim_read H; rewrite Hv.
  sim_iframe H h f g Hfg; [|exact H].
  destruct (erase_iframe_eq Hfg) as (_ & Hs & _); rewrite Hs.
  destruct (is_flex (errorDisplay (view q))); [exact H|].
  destruct (probe_document pr); auto with sim.
Qed.

Lemma sim_load_timeout h u p q :
  p ~~ q ->
  load_timeout URL_hostname h u p ~~ load_timeout URL_hostname h u q.
Proof.
  intros H; unfold load_timeout.
  sim_iframe H h f g Hfg; [|exact H].
  destruct (erase_iframe_eq Hfg) as (_ & _ & _ & Hl); rewrite Hl.
  destruct (hasLoaded g); [exact H|].
  destruct (URL_hostname u); auto with sim.
Qed.

(** The attempt numbers never steer the script: two pages that differ in
    them only take the same steps, to pages that again differ in them
    only, and show the same to the user. *)
Lemma ghost_state_is_inert t e p q :
  p ~~ q ->
  ui p = ui q
  /\ match step URL_hostname t e p, step URL_hostname t e q with
     | Some p', Some q' => p' ~~ q'
     | None, None => True
     | _, _ => False
     end.
Proof.
  intros H; split.
  { destruct (sim_fields H) as (Hb & Hv & _); unfold ui; rewrite Hb, Hv.
    reflexivity. }
  unfold step.
  destruct (sim_fields H) as (_ & _ & _ & _ & _ & Hc); rewrite Hc.
  destruct (t <? clock q)%N; [exact I|].
  pose proof (sim_set_clock t H) as Hq.
  set (pc := set_clock t p) in *; set (qc := set_clock t q) in *.
  clearbody pc qc.
  destruct (sim_fields Hq) as (Hb & Hv & _).
  destruct e as [n1 n2|n1 n2|k|k|text|url| | | | |h|h|id pr].
  - apply sim_addTab_page; exact Hq.
  - apply sim_addTab_page; exact Hq.
  - rewrite Hv; destruct (nth_error (tabBar (view qc)) k); simpl; auto.
    apply sim_switchTab; exact Hq.
  - rewrite Hv; destruct (nth_error (tabBar (view qc)) k); simpl; auto.
    apply sim_closeTab; exact Hq.
  - apply sim_navigateToUrl; auto with sim.
  - apply sim_navigateToUrl; exact Hq.
  - apply sim_history_button; exact Hq.
  - apply sim_history_button; exact Hq.
  - apply sim_reload; exact Hq.
  - rewrite Hv.
    match goal with |- context [truthy ?u] => destruct (truthy u) end;
      [apply sim_navigateToUrl|]; exact Hq.
  - pose proof (sim_nth h Hq) as E.
    destruct (nth_error (iframes pc) h), (nth_error (iframes qc) h);
      try discriminate E; simpl; auto.
    apply sim_on_load; exact Hq.
  - pose proof (sim_nth h Hq) as E.
    destruct (nth_error (iframes pc) h), (nth_error (iframes qc) h);
      try discriminate E; simpl; auto.
    apply sim_on_error; exact Hq.
  - pose proof (sim_find_timer id Hq) as E.
    destruct (find_timer id pc) as [tm|], (find_timer id qc) as [tm'|];
      try discriminate E; auto.
    simpl in E; inversion E as [[Hid Hdue Hcb]]; rewrite Hdue.
    destruct (t <? tm_due tm')%N; [exact I|].
    unfold run_callback; rewrite Hcb.
    pose proof (sim_clearTimeout id Hq) as Hcl.
    destruct (tm_cb tm');
      [apply sim_settle|apply sim_recheck|apply sim_load_timeout];
      exact Hcl.
Qed.

End Ghost.

Section Superseded.

Import V2 Samples.

Variable URL : jsstring -> option jsstring.

Lemma navigateToUrl_titled url s q :
  sanitizeUrl URL url = Some s ->
  navigateToUrl URL url q = navigate_titled s (nav_title (URL s)) q.
Proof.
  intros Hs; unfold navigateToUrl, navigate_titled; rewrite Hs.
  destruct (getActiveTab (bs q)); [|reflexivity].
  destruct (URL s); reflexivity.
Qed.

Lemma run_supersede_trace :
  run URL supersede_trace blank_page
  = Some (superseded (nav_title (URL address_a)) (nav_title (URL address_b))).
Proof.
  unfold supersede_trace; cbn [run].
  replace (step URL 0 (DOMContentLoaded sample_now sample_now) blank_page)
    with (Some loaded_page) by (vm_compute; reflexivity).
  replace (step URL 1000 (PressEnter address_a) loaded_page)
    with (Some (first_navigation (nav_title (URL address_a)))).
  2:{ unfold step; cbv beta iota zeta.
      rewrite navigateToUrl_titled with (s := address_a)
        by (vm_compute; reflexivity).
      generalize (nav_title (URL address_a)); intros ta.
      vm_compute; reflexivity. }
  generalize (nav_title (URL address_a)); intros ta.
  replace (step URL 1200 (IframeLoad 0) (first_navigation ta))
    with (Some (first_loaded ta)) by (vm_compute; reflexivity).
  unfold step; cbv beta iota zeta.
  rewrite navigateToUrl_titled with (s := address_b)
    by (vm_compute; reflexivity).
  generalize (nav_title (URL address_b)); intros tb.
  vm_compute; reflexivity.
Qed.

End Superseded.

(** C1, the step the claim gets wrong.  After [Samples.supersede_trace]
    the settle timer of the first navigation (handle 2) is still pending
    and stale.  When it fires 500 ms after the 'load' signal and the
    document in the iframe can be read, the callback writes that
    document's title over the title the second navigation gave the tab:
    no token is compared. *)
Lemma stale_settle_callback_retitles_tab :
  exists es id t,
    V2.initial Samples.blank_page
    /\ forall URL,
      exists title p tm p',
        V2.run URL es Samples.blank_page = Some p
        /\ V2.find_timer id p = Some tm
        /\ V2.stale p tm
        /\ V2.step URL t
             (V2.TimerFires id {| V2.probe_document := Some title;
                                  V2.probe_window := true |}) p
           = Some p'
        /\ V2.ui p' <> V2.ui p.
Proof.
  exists Samples.supersede_trace, 2%N, 1700%N.
  split; [repeat split; discriminate|].
  intros URL.
  rewrite run_supersede_trace.
  generalize (V2.nav_title (URL Samples.address_a)) as ta.
  generalize (V2.nav_title (URL Samples.address_b)) as tb.
  intros tb ta.
  exists (120%N :: or_else tb (js "Untitled")).
  eexists; eexists; eexists.
  split; [reflexivity|].
  split; [vm_compute; reflexivity|].
  split; [eexists; split; [vm_compute; reflexivity|vm_compute; lia]|].
  split; [vm_compute; reflexivity|].
  generalize (or_else tb (js "Untitled")) as title; intros title.
  vm_compute; intros H; inversion H as [[H1 H2]].
  exact (cons_neq H1).
Qed.

(** The same superseded navigation, when the iframe cannot be inspected
    (with the stand-in parser of [Samples]): the stale settle callback
    arms the re-check, and 2000 ms later the stale re-check puts up the
    error panel while the second navigation is still loading. *)
Lemma stale_recheck_callback_shows_error :
  let closed := {| V2.probe_document := None; V2.probe_window := false |} in
  exists p tm p',
    V2.run Samples.sample_URL
           (Samples.supersede_trace ++ [(1700%N, V2.TimerFires 2 closed)])
           Samples.blank_page = Some p
    /\ V2.find_timer 4 p = Some tm
    /\ V2.tm_cb tm = V2.Recheck 0 (js "b.example")
    /\ V2.stale p tm
    /\ V2.step Samples.sample_URL 3700 (V2.TimerFires 4 closed) p = Some p'
    /\ V2.errorDisplay (V2.view p) = V2.DNone
    /\ V2.loading (V2.view p) = true
    /\ V2.errorDisplay (V2.view p') = V2.DFlex
    /\ V2.errorText (V2.view p') = V2.blocked_message (js "b.example").
Proof.
  intros closed.
  eexists; eexists; eexists.
  split; [vm_compute; reflexivity|].
  split; [vm_compute; reflexivity|].
  split; [reflexivity|].
  split; [eexists; split; [vm_compute; reflexivity|vm_compute; lia]|].
  split; [vm_compute; reflexivity|].
  repeat split; vm_compute; reflexivity.
Qed.

(** C6, the step the claim gets wrong.  On the page [initBrowser] leaves,
    which holds one tab, [switchTab] with an id that no tab carries still
    assigns [activeTabId]: the page changes, and the active id then names
    no tab. *)
Lemma switchTab_unknown_id_sets_active :
  exists p tabId,
    (forall URL,
        V2.run URL [(0%N, V2.DOMContentLoaded Samples.sample_now
                                              Samples.sample_now)]
               Samples.blank_page = Some p)
    /\ ~ In tabId (map V2.tab_id (V2.tabs (V2.bs p)))
    /\ V2.activeTabId (V2.bs (V2.switchTab tabId p)) = Some tabId
    /\ V2.switchTab tabId p <> p
    /\ ~ V2.active_ok (V2.bs (V2.switchTab tabId p)).
Proof.
  exists Samples.loaded_page, (js "tab-0").
  split; [intros URL; vm_compute; reflexivity|].
  split; [vm_compute; intros [H|[]]; discriminate H|].
  split; [reflexivity|].
  split; [intros H; apply (f_equal (fun p => V2.activeTabId (V2.bs p))) in H;
          vm_compute in H; discriminate H|].
  vm_compute; intros [H|[]]; discriminate H.
Qed.

(* ===================================================================== *)
(** ** The statements at concrete inputs *)
(* ===================================================================== *)

Section Instances.

Import V2 Samples.

Lemma addToHistory_push_at_one_tab :
  history_of one_tab sample_id = Some ([], (-1)%Z)
  /\ (-1 <= -1)%Z
  /\ history_of (addToHistory one_tab sample_id address_a) sample_id
     = Some ([address_a], 0%Z).
Proof.
  assert (H1 : history_of one_tab sample_id = Some ([], (-1)%Z))
    by reflexivity.
  assert (H2 : (-1 <= -1)%Z) by apply Z.le_refl.
  split; [exact H1|split; [exact H2|]].
  exact (proj1 (proj1 (addToHistory_push one_tab sample_id H1 H2) address_a)).
Defined.

(** A tab that visited two addresses and stands on the second. *)
Lemma goBack_at_two_entries :
  let b := addToHistory (addToHistory one_tab sample_id address_a)
                        sample_id address_b in
  history_of b sample_id = Some ([address_a; address_b], 1%Z)
  /\ (-1 <= 1 < Z.of_nat (length [address_a; address_b]))%Z
  /\ canGoBack b sample_id = true
  /\ canGoForward b sample_id = false
  /\ goForward b sample_id = (b, VNull).
Proof.
  intros b.
  assert (H1 : history_of b sample_id = Some ([address_a; address_b], 1%Z))
    by reflexivity.
  assert (H2 : (-1 <= 1 < Z.of_nat (length [address_a; address_b]))%Z)
    by (split; [discriminate|reflexivity]).
  destruct (goBack_goForward_spec b sample_id H1 H2)
    as (Hb & Hf & _ & _ & _ & Hnull).
  split; [exact H1|split; [exact H2|]].
  split; [exact Hb|split; [exact Hf|]].
  exact (Hnull Hf).
Defined.

Lemma history_unknown_tab_at_one_tab :
  ~ In (js "tab-0") (map tab_id (tabs one_tab))
  /\ canGoBack one_tab (js "tab-0") = false
  /\ goBack one_tab (js "tab-0") = (one_tab, VNull).
Proof.
  assert (H : ~ In (js "tab-0") (map tab_id (tabs one_tab)))
    by (intros [H|[]]; discriminate H).
  destruct (history_unknown_tab one_tab (js "tab-0") H) as (Hb & _ & Hg & _).
  split; [exact H|split; [exact Hb|exact Hg]].
Defined.

(** Closing the active first tab of two makes the second one active. *)
Lemma removeTab_at_two_tabs :
  let b := set_activeTabId two_tabs (Some sample_id) in
  active_ok b
  /\ active_ok (fst (removeTab b sample_id))
  /\ activeTabId (fst (removeTab b sample_id))
     = Some (make_id (sample_now + 1)).
Proof.
  intros b.
  assert (H : active_ok b) by (left; reflexivity).
  destruct (removeTab_spec b sample_id H) as (_ & _ & Hok).
  split; [exact H|split; [exact Hok|reflexivity]].
Defined.

Lemma closeTab_sole_tab_at_loaded_page :
  let q := {| V1.bs := fst (V1.addTab V1.constructor sample_now sample_now []);
              V1.tabBar := [{| V1.el_tabId := sample_id;
                               V1.el_active := true |}];
              V1.addressBar := []; V1.backDisabled := true;
              V1.forwardDisabled := true; V1.openedWindows := [] |} in
  length (tabs (bs loaded_page)) = 1%nat
  /\ length (V1.tabs (V1.bs q)) = 1%nat
  /\ closeTab sample_id loaded_page = loaded_page
  /\ V1.bs (V1.closeTab sample_id q) = V1.bs q.
Proof.
  intros q.
  assert (H1 : length (tabs (bs loaded_page)) = 1%nat) by reflexivity.
  assert (H2 : length (V1.tabs (V1.bs q)) = 1%nat) by reflexivity.
  destruct (closeTab_sole_tab loaded_page q sample_id H1 H2) as (Hc & Hb & _).
  split; [exact H1|split; [exact H2|split; [exact Hc|exact Hb]]].
Defined.

Lemma sanitizeUrl_precedence_at_example :
  URL_ok sample_URL (js "https://example.com") = true
  /\ sanitizeUrl sample_URL (js "example.com")
     = Some (js "https://example.com")
  /\ sanitizeUrl sample_URL (js "  hello world ")
     = Some (js "https://www.google.com/search?q=hello%20world").
Proof.
  assert (H : URL_ok sample_URL (js "https://example.com") = true)
    by reflexivity.
  destruct (sanitizeUrl_precedence sample_URL (js "example.com"))
    as (_ & _ & _ & _ & _ & _ & Hex & _).
  destruct (sanitizeUrl_precedence sample_URL (js "  hello world "))
    as (_ & _ & _ & _ & Hq & _).
  split; [exact H|split; [exact (Hex H)|]].
  apply Hq; [discriminate|reflexivity|left; reflexivity].
Defined.

Lemma reachable_loaded_page : reachable sample_URL loaded_page.
Proof.
  exists blank_page, [(0%N, DOMContentLoaded sample_now sample_now)].
  split; [repeat split; discriminate|vm_compute; reflexivity].
Defined.

Lemma registry_invariant_at_loaded_page :
  reachable sample_URL loaded_page
  /\ active_ok (bs loaded_page)
  /\ activeTabId (bs (switchTab (js "tab-0") loaded_page)) = Some (js "tab-0")
  /\ ~ In (js "tab-0") (map tab_id (tabs (bs visited_page)))
  /\ map if_display (iframes visited_page) = [DBlock]
  /\ map if_display (iframes (switchTab (js "tab-0") visited_page)) = [DNone]
  /\ map el_active (tabBar (view visited_page)) = [true]
  /\ forall e, In e (tabBar (view (switchTab (js "tab-0") visited_page))) ->
               el_active e = false.
Proof.
  destruct (switchTab_assigns_and_registry_invariant sample_URL)
    as (Hs & Hun & Hr).
  assert (Hnot : ~ In (js "tab-0") (map tab_id (tabs (bs visited_page))))
    by (vm_compute; intros [H|[]]; discriminate H).
  destruct (Hun (js "tab-0") visited_page Hnot)
    as (_ & _ & _ & _ & _ & _ & Hif & _ & _ & _ & Hoff & _).
  split; [exact reachable_loaded_page|].
  split; [exact (proj1 (Hr loaded_page reachable_loaded_page))|].
  split; [exact (proj1 (Hs (js "tab-0") loaded_page))|].
  split; [exact Hnot|].
  split; [vm_compute; reflexivity|].
  split; [rewrite Hif; vm_compute; reflexivity|].
  split; [vm_compute; reflexivity|].
  apply Hoff; vm_compute; reflexivity.
Defined.

(** After the superseding navigation the one pending timeout timer is the
    second navigation's. *)
Lemma superseded_timeout_at_trace :
  let p := superseded (js "a.example") (js "b.example") in
  reachable sample_URL p
  /\ exists tm,
      In tm (timers p) /\ tm_cb tm = LoadTimeout 0 address_b
      /\ tm_attempt tm = 2%nat /\ ~ stale p tm.
Proof.
  intros p.
  assert (H : reachable sample_URL p).
  { exists blank_page, supersede_trace.
    split; [repeat split; discriminate|].
    rewrite run_supersede_trace; vm_compute; reflexivity. }
  split; [exact H|].
  exists {| tm_id := 3; tm_due := 11400; tm_cb := LoadTimeout 0 address_b;
            tm_attempt := 2 |}.
  assert (Hin : In {| tm_id := 3; tm_due := 11400;
                      tm_cb := LoadTimeout 0 address_b; tm_attempt := 2 |}
                   (timers p)) by (vm_compute; right; left; reflexivity).
  split; [exact Hin|split; [reflexivity|split; [reflexivity|]]].
  exact (proj1 (proj1 (superseded_timeout_is_cleared H) _ 0%nat address_b
                      Hin eq_refl)).
Defined.

End Instances.

(* ===================================================================== *)
(** ** The address [sanitizeUrl] returns *)
(* ===================================================================== *)

Section SanitizedAddress.

Import V2.

Variable URL_hostname : jsstring -> option jsstring.

(** *** [trim] *)

Lemma trimStart_idem (s : jsstring) : trimStart (trimStart s) = trimStart s.
Proof.
  induction s as [|c s IH]; [reflexivity|].
  cbn [trimStart]; destruct (is_white c) eqn:E; [exact IH|].
  cbn [trimStart]; rewrite E; reflexivity.
Qed.

Lemma trimStart_length (s : jsstring) : length (trimStart s) <= length s.
Proof.
  induction s as [|c s IH]; [apply le_n|].
  cbn [trimStart]; destruct (is_white c); cbn [length]; lia.
Qed.

(** What [trimStart] drops is white space. *)
Lemma trimStart_suffix (s : jsstring) :
  exists w, s = w ++ trimStart s /\ forallb is_white w = true.
Proof.
  induction s as [|c s (w & Hw & Hall)]; [exists []; auto|].
  cbn [trimStart]; destruct (is_white c) eqn:E.
  - exists (c :: w); cbn [app forallb]; rewrite E, Hall, <- Hw; auto.
  - exists []; auto.
Qed.

Lemma trimStart_fixed_head (s : jsstring) :
  trimStart s = s ->
  s = [] \/ exists c s', s = c :: s' /\ is_white c = false.
Proof.
  destruct s as [|c s]; [auto|].
  cbn [trimStart]; destruct (is_white c) eqn:E; [|eauto].
  intros H; pose proof (trimStart_length s) as Hl.
  rewrite H in Hl; cbn [length] in Hl; lia.
Qed.

Lemma trimStart_cons_fixed (c : code_unit) (s : jsstring) :
  is_white c = false -> trimStart (c :: s) = c :: s.
Proof. intros E; cbn [trimStart]; rewrite E; reflexivity. Qed.

Lemma trimEnd_prefix (t : jsstring) :
  exists w, t = trimEnd t ++ w /\ forallb is_white w = true.
Proof.
  destruct (trimStart_suffix (rev t)) as (w & Hw & Hall).
  exists (rev w); split.
  - unfold trimEnd; rewrite <- rev_app_distr, <- Hw, rev_involutive.
    reflexivity.
  - apply forallb_forall; intros x Hx; apply in_rev in Hx.
    exact (proj1 (forallb_forall _ _) Hall x Hx).
Qed.

Lemma trimStart_trimEnd (t : jsstring) :
  trimStart t = t -> trimStart (trimEnd t) = trimEnd t.
Proof.
  intros H; destruct (trimStart_fixed_head H) as [->|(c & s' & -> & Hc)];
    [reflexivity|].
  destruct (trimEnd_prefix (c :: s')) as (w & Hw & _).
  destruct (trimEnd (c :: s')) as [|d u]; [reflexivity|].
  cbn [app] in Hw; injection Hw as -> _.
  apply trimStart_cons_fixed; exact Hc.
Qed.

(** A string with no white space at either end is what [trim] returns for
    it. *)
Lemma trim_fixed (s : jsstring) :
  trimStart s = s -> trimStart (rev s) = rev s -> trim s = s.
Proof.
  intros H1 H2; unfold trim, trimEnd; rewrite H1, H2; apply rev_involutive.
Qed.

Lemma trim_tight (s : jsstring) :
  trimStart (trim s) = trim s /\ trimStart (rev (trim s)) = rev (trim s).
Proof.
  split.
  - unfold trim; apply trimStart_trimEnd, trimStart_idem.
  - unfold trim, trimEnd; rewrite rev_involutive; apply trimStart_idem.
Qed.

Lemma trim_idem (s : jsstring) : trim (trim s) = trim s.
Proof. destruct (trim_tight s); apply trim_fixed; assumption. Qed.

Lemma tight_end_app (a b : jsstring) :
  trimStart (rev a) = rev a -> trimStart (rev b) = rev b ->
  trimStart (rev (a ++ b)) = rev (a ++ b).
Proof.
  intros Ha Hb; rewrite rev_app_distr.
  destruct (trimStart_fixed_head Hb) as [E|(d & u & E & Hd)]; rewrite E.
  - exact Ha.
  - cbn [app]; apply trimStart_cons_fixed; exact Hd.
Qed.

Lemma trim_app_fixed (a b : jsstring) :
  a <> [] -> trimStart a = a -> trimStart (rev a) = rev a ->
  trimStart (rev b) = rev b -> trim (a ++ b) = a ++ b.
Proof.
  intros Hne Ha Hra Hrb; apply trim_fixed; [|apply tight_end_app; assumption].
  destruct (trimStart_fixed_head Ha) as [->|(c & s' & -> & Hc)];
    [contradiction|].
  cbn [app]; apply trimStart_cons_fixed; exact Hc.
Qed.

Lemma in_trimStart (x : code_unit) (s : jsstring) :
  In x (trimStart s) -> In x s.
Proof.
  destruct (trimStart_suffix s) as (w & Hw & _); intros H.
  rewrite Hw; apply in_or_app; right; exact H.
Qed.

Lemma in_trim (x : code_unit) (s : jsstring) : In x (trim s) -> In x s.
Proof.
  unfold trim, trimEnd; intros H.
  apply in_rev, in_trimStart, in_rev, in_trimStart in H; exact H.
Qed.

(** *** [encodeURIComponent] *)

Lemma unreserved_not_white (c : code_unit) :
  uriUnreserved c = true -> is_white c = false.
Proof.
  unfold uriUnreserved, is_white; intros H.
  repeat (apply orb_true_iff in H; destruct H as [H|H]);
    repeat (apply andb_true_iff in H; destruct H as [H H']);
    try apply N.leb_le in H; try apply N.leb_le in H';
    try apply N.eqb_eq in H;
    repeat (apply orb_false_iff; split);
    try apply andb_false_iff;
    try (apply N.eqb_neq; lia);
    try (left; apply N.leb_gt; lia); try (right; apply N.leb_gt; lia).
Qed.

Lemma hex_digit_not_white (n : N) :
  (n < 16)%N -> is_white (hex_digit n) = false.
Proof.
  intros Hn; unfold hex_digit, is_white.
  destruct (n <? 10)%N eqn:E;
    [apply N.ltb_lt in E | apply N.ltb_ge in E];
    repeat (apply orb_false_iff; split);
    try apply andb_false_iff;
    try (apply N.eqb_neq; lia);
    try (left; apply N.leb_gt; lia); try (right; apply N.leb_gt; lia).
Qed.

Lemma land_15_bound (n : N) : (N.land n 15 < 16)%N.
Proof.
  change 15%N with (N.ones 4); rewrite N.land_ones.
  apply N.mod_lt; discriminate.
Qed.

Lemma percent_tight_end (o : N) :
  trimStart (rev (percent o)) = rev (percent o).
Proof.
  unfold percent; cbn [rev app].
  apply trimStart_cons_fixed, hex_digit_not_white, land_15_bound.
Qed.

Lemma escape_tight_end (v : N) : trimStart (rev (escape v)) = rev (escape v).
Proof.
  unfold escape; induction (utf8 v) as [|o l IH]; [reflexivity|].
  cbn [flat_map]; apply tight_end_app; [apply percent_tight_end | exact IH].
Qed.

(** The output of [encodeURIComponent] is made of unreserved characters
    and escape sequences. *)
Lemma encodeURIComponent_pieces (P : jsstring -> Prop) :
  P [] ->
  (forall c e, uriUnreserved c = true -> P e -> P (c :: e)) ->
  (forall v e, P e -> P (escape v ++ e)) ->
  forall s e, encodeURIComponent s = Some e -> P e.
Proof.
  intros Hnil Hun Hesc s.
  assert (H : forall n s, length s <= n ->
                          forall e, encodeURIComponent s = Some e -> P e).
  { clear s; induction n as [|n IH]; intros s Hlen e He.
    - destruct s; [|cbn [length] in Hlen; lia].
      injection He as <-; exact Hnil.
    - destruct s as [|c rest]; [injection He as <-; exact Hnil|].
      cbn [length] in Hlen; cbn [encodeURIComponent] in He.
      destruct (uriUnreserved c) eqn:Hu.
      { destruct (encodeURIComponent rest) as [e'|] eqn:E;
          [|discriminate].
        injection He as <-; apply Hun; [exact Hu|].
        apply (IH rest); [lia | exact E]. }
      destruct (is_trail c); [discriminate|].
      destruct (is_lead c).
      { destruct rest as [|d rest']; [discriminate|].
        destruct (is_trail d); [|discriminate].
        destruct (encodeURIComponent rest') as [e'|] eqn:E;
          [|discriminate].
        injection He as <-; apply Hesc.
        apply (IH rest'); [cbn [length] in Hlen; lia | exact E]. }
      destruct (encodeURIComponent rest) as [e'|] eqn:E; [|discriminate].
      injection He as <-; apply Hesc.
      apply (IH rest); [lia | exact E]. }
  intros e; apply (H (length s)); apply le_n.
Qed.

Lemma encodeURIComponent_tight_end (s e : jsstring) :
  encodeURIComponent s = Some e -> trimStart (rev e) = rev e.
Proof.
  apply encodeURIComponent_pieces with
    (P := fun e => trimStart (rev e) = rev e).
  - reflexivity.
  - intros c e' Hc He'; change (c :: e') with ([c] ++ e').
    apply tight_end_app; [|exact He'].
    apply trimStart_cons_fixed, unreserved_not_white; exact Hc.
  - intros v e' He'; apply tight_end_app; [apply escape_tight_end|exact He'].
Qed.

(** White space is never a surrogate. *)
Lemma white_not_surrogate (c : code_unit) :
  is_white c = true -> is_lead c = false /\ is_trail c = false.
Proof.
  unfold is_white, is_lead, is_trail; intros H.
  repeat (apply orb_true_iff in H; destruct H as [H|H]);
    repeat (apply andb_true_iff in H; destruct H as [H H']);
    try apply N.leb_le in H; try apply N.leb_le in H';
    try apply N.eqb_eq in H;
    split; apply andb_false_iff;
    try (left; apply N.leb_gt; lia); try (right; apply N.leb_gt; lia).
Qed.

Lemma list_ind2 {A} (P : list A -> Prop) :
  P [] -> (forall x, P [x]) ->
  (forall x y l, P l -> P (y :: l) -> P (x :: y :: l)) ->
  forall l, P l.
Proof.
  intros H0 H1 H2 l.
  assert (H : P l /\ forall x, P (x :: l)).
  { induction l as [|y l [IH1 IH2]]; [split; auto|].
    split; [apply IH2|]. intros x; apply H2; [exact IH1 | apply IH2]. }
  exact (proj1 H).
Qed.

Lemma isWellFormed_trimStart (s : jsstring) :
  isWellFormed s = true -> isWellFormed (trimStart s) = true.
Proof.
  induction s as [|c s IH]; [auto|].
  cbn [trimStart]; destruct (is_white c) eqn:E; [|auto].
  destruct (white_not_surrogate _ E) as [Hl Ht].
  cbn [isWellFormed]; rewrite Hl, Ht; exact IH.
Qed.

Lemma isWellFormed_white_suffix (a w : jsstring) :
  forallb is_white w = true ->
  isWellFormed (a ++ w) = true -> isWellFormed a = true.
Proof.
  intros Hw; induction a as [|x|x y l IH1 IH2] using list_ind2.
  - reflexivity.
  - cbn [app isWellFormed]; destruct (is_trail x); [discriminate|].
    destruct (is_lead x); [|reflexivity].
    destruct w as [|d w']; [discriminate|].
    cbn [forallb] in Hw; apply andb_true_iff in Hw; destruct Hw as [Hd _].
    destruct (white_not_surrogate _ Hd) as [_ Ht]; rewrite Ht; discriminate.
  - change ((x :: y :: l) ++ w) with (x :: (y :: l) ++ w).
    cbn [isWellFormed]; destruct (is_trail x); [discriminate|].
    destruct (is_lead x); [|exact IH2].
    cbn [app]; destruct (is_trail y); [|discriminate].
    cbn [andb]; exact IH1.
Qed.

Lemma isWellFormed_trim (s : jsstring) :
  isWellFormed s = true -> isWellFormed (trim s) = true.
Proof.
  intros H; apply isWellFormed_trimStart in H; unfold trim.
  destruct (trimEnd_prefix (trimStart s)) as (w & Hw & Hall).
  apply (isWellFormed_white_suffix _ _ Hall); rewrite <- Hw; exact H.
Qed.

Lemma encodeURIComponent_isWellFormed (s : jsstring) :
  isWellFormed s = true -> exists e, encodeURIComponent s = Some e.
Proof.
  induction s as [|x|x y l IH1 IH2] using list_ind2.
  - intros _; exists []; reflexivity.
  - cbn [isWellFormed encodeURIComponent].
    destruct (uriUnreserved x); [eexists; reflexivity|].
    destruct (is_trail x); [discriminate|].
    destruct (is_lead x); [discriminate|eexists; reflexivity].
  - cbn [isWellFormed]; intros H.
    change (encodeURIComponent (x :: y :: l)) with
      (if uriUnreserved x then
         option_map (cons x) (encodeURIComponent (y :: l))
       else if is_trail x then None
       else if is_lead x then
         if is_trail y then
           option_map (app (escape (pair_code_point x y)))
                      (encodeURIComponent l)
         else None
       else option_map (app (escape x)) (encodeURIComponent (y :: l))).
    destruct (is_trail x) eqn:Ht; [discriminate|].
    destruct (is_lead x) eqn:Hl.
    + apply andb_true_iff in H; destruct H as [Hy Hrest].
      destruct (IH1 Hrest) as [e He]; rewrite Hy, He.
      destruct (uriUnreserved x) eqn:Hu; [|eexists; reflexivity].
      (* an unreserved character is no surrogate *)
      exfalso; revert Hu Hl; unfold uriUnreserved, is_lead; intros Hu Hl.
      apply andb_true_iff in Hl; destruct Hl as [Hl _].
      apply N.leb_le in Hl.
      repeat (apply orb_true_iff in Hu; destruct Hu as [Hu|Hu]);
        repeat (apply andb_true_iff in Hu; destruct Hu as [Hu Hu']);
        try apply N.leb_le in Hu; try apply N.leb_le in Hu';
        try apply N.eqb_eq in Hu; lia.
    + destruct (IH2 H) as [e He]; rewrite He.
      destruct (uriUnreserved x); eexists; reflexivity.
Qed.

(** *** [sanitizeUrl] *)

Lemma has_scheme_https (s : jsstring) : has_scheme (js "https://" ++ s) = true.
Proof. unfold has_scheme; cbn; destruct s; reflexivity. Qed.

Lemma has_scheme_nonempty (s : jsstring) : has_scheme s = true -> s <> [].
Proof. intros H ->; discriminate. Qed.

(** The four ways out of [sanitizeUrl] all give an address with a scheme
    and no white space at either end. *)
Lemma sanitizeUrl_result (input r : jsstring) :
  sanitizeUrl URL_hostname input = Some r ->
  has_scheme r = true /\ trim r = r.
Proof.
  unfold sanitizeUrl; destruct (trim_tight input) as [T1 T2].
  destruct (trim input) as [|c t'] eqn:Et.
  - cbn [truthy negb]; intros [= <-]; split; reflexivity.
  - rewrite <- Et in *; replace (truthy (trim input)) with true
      by (rewrite Et; reflexivity).
    cbn [negb]; destruct (has_scheme (trim input)) eqn:Hs.
    + intros [= <-]; split; [exact Hs | apply trim_idem].
    + destruct (isValidUrl URL_hostname (trim input)).
      * intros [= <-]; split; [apply has_scheme_https|].
        apply (@trim_app_fixed (js "https://") (trim input));
          [discriminate|reflexivity|reflexivity|exact T2].
      * destruct (encodeURIComponent (trim input)) as [e|] eqn:E;
          cbn [option_map]; [|discriminate].
        intros [= <-]; split;
          [exact (has_scheme_https (js "www.google.com/search?q=" ++ e))|].
        apply (@trim_app_fixed (js "https://www.google.com/search?q=") e);
          [discriminate|reflexivity|reflexivity|].
        exact (encodeURIComponent_tight_end _ E).
Qed.

(** X1.  Whatever the user typed and whatever [new URL] accepts, the
    address [sanitizeUrl] returns starts with [http://] or [https://]; in
    particular it is never empty. *)
Theorem sanitizeUrl_has_scheme (input r : jsstring) :
  sanitizeUrl URL_hostname input = Some r ->
  has_scheme r = true /\ r <> [].
Proof.
  intros H; destruct (sanitizeUrl_result _ H) as [Hs _].
  split; [exact Hs | apply has_scheme_nonempty; exact Hs].
Qed.

(** X2.  [sanitizeUrl] is idempotent: an address it returned is returned
    unchanged when sanitised again, as happens when the page's [addTab]
    hands its sanitised address to [navigateToUrl]. *)
Theorem sanitizeUrl_idempotent (input r : jsstring) :
  sanitizeUrl URL_hostname input = Some r ->
  sanitizeUrl URL_hostname r = Some r.
Proof.
  intros H; destruct (sanitizeUrl_result _ H) as [Hs Ht].
  unfold sanitizeUrl; rewrite Ht, Hs.
  destruct r; [discriminate|reflexivity].
Qed.

(** X3.  [sanitizeUrl] returns an address for every well-formed input:
    the [URIError] of [encodeURIComponent] needs an unpaired surrogate. *)
Theorem sanitizeUrl_well_formed_input (input : jsstring) :
  isWellFormed input = true ->
  exists r, sanitizeUrl URL_hostname input = Some r.
Proof.
  intros H; apply isWellFormed_trim in H; unfold sanitizeUrl.
  destruct (negb (truthy (trim input))); [eauto|].
  destruct (has_scheme (trim input)); [eauto|].
  destruct (isValidUrl URL_hostname (trim input)); [eauto|].
  destruct (encodeURIComponent_isWellFormed _ H) as [e ->].
  cbn [option_map]; eauto.
Qed.

End SanitizedAddress.

(* ===================================================================== *)
(** ** Back and forward as inverse moves *)
(* ===================================================================== *)

Section HistoryRoundTrip.

Import V2.

Lemma update_first_twice {A} (p : A -> bool) (f g : A -> A) (l : list A) :
  (forall x, p (g x) = p x) ->
  update_first p f (update_first p g l)
  = update_first p (fun x => f (g x)) l.
Proof.
  intros Hg; induction l as [|x l IH]; [reflexivity|].
  cbn [update_first]; destruct (p x) eqn:Hx; cbn [update_first].
  - rewrite Hg, Hx; reflexivity.
  - rewrite Hx, IH; reflexivity.
Qed.

Lemma update_first_same {A} (p : A -> bool) (f : A -> A) (l : list A) :
  (forall x, f x = x) -> update_first p f l = l.
Proof.
  intros Hf; induction l as [|x l IH]; [reflexivity|].
  cbn [update_first]; destruct (p x); rewrite ?Hf, ?IH; reflexivity.
Qed.

Lemma move_back (d : Z) (t : Tab) : move (- d) (move d t) = t.
Proof.
  destruct t; unfold move, set_history; cbn; f_equal; lia.
Qed.

Lemma set_tabs_tabs (b : BrowserState) : set_tabs b (tabs b) = b.
Proof. destruct b; reflexivity. Qed.

Lemma moved_twice (b : BrowserState) (tabId : jsstring) (d : Z) :
  set_tabs (set_tabs b (update_first (has_id tabId) (move d) (tabs b)))
    (update_first (has_id tabId) (move (- d))
       (update_first (has_id tabId) (move d) (tabs b)))
  = b.
Proof.
  rewrite update_first_twice by reflexivity.
  rewrite (@update_first_same _ (has_id tabId)
             (fun x => move (- d) (move d x)) (tabs b))
    by (intros x; apply move_back).
  destruct b; reflexivity.
Qed.

(** X4.  On a tab whose position is an index into its entries, [goForward]
    undoes [goBack] and [goBack] undoes [goForward]: the whole registry is
    the one before the two calls, and the second call returns the entry
    the tab was at. *)
Theorem goBack_goForward_inverse (b : BrowserState) (tabId : jsstring)
        (tab : Tab) (u : jsstring) :
  find (has_id tabId) (tabs b) = Some tab ->
  nth_error (tab_history tab) (Z.to_nat (tab_historyIndex tab)) = Some u ->
  (0 <= tab_historyIndex tab)%Z ->
  (canGoBack b tabId = true ->
   goForward (fst (goBack b tabId)) tabId = (b, VStr u))
  /\ (canGoForward b tabId = true ->
      goBack (fst (goForward b tabId)) tabId = (b, VStr u)).
Proof.
  intros Hf Hu H0.
  assert (Hlen : (tab_historyIndex tab < Z.of_nat (length (tab_history tab)))%Z).
  { assert (Z.to_nat (tab_historyIndex tab) < length (tab_history tab))
      by (apply nth_error_Some; rewrite Hu; discriminate).
    lia. }
  assert (Hi : index (tab_history tab) (tab_historyIndex tab) = VStr u).
  { unfold index; rewrite Hu.
    destruct (tab_historyIndex tab <? 0)%Z eqn:E;
      [apply Z.ltb_lt in E; lia | reflexivity]. }
  split; intros Hc.
  - unfold goBack; rewrite Hf, Hc; cbn [fst].
    unfold goForward, canGoForward; cbn [tabs set_tabs].
    rewrite find_update_first, Hf by reflexivity; cbn [option_map].
    cbn [move set_history tab_history tab_historyIndex].
    replace (tab_historyIndex tab + -1 <? _)%Z with true
      by (symmetry; apply Z.ltb_lt; lia).
    replace (tab_historyIndex tab + -1 + 1)%Z with (tab_historyIndex tab)
      by lia.
    rewrite Hi; f_equal.
    exact (moved_twice b tabId (-1)).
  - unfold goForward; rewrite Hf, Hc; cbn [fst].
    unfold goBack, canGoBack; cbn [tabs set_tabs].
    rewrite find_update_first, Hf by reflexivity; cbn [option_map].
    cbn [move set_history tab_history tab_historyIndex].
    replace (tab_historyIndex tab + 1 >? 0)%Z with true
      by (symmetry; apply Z.gtb_lt; lia).
    replace (tab_historyIndex tab + 1 - 1)%Z with (tab_historyIndex tab)
      by lia.
    rewrite Hi; f_equal.
    exact (moved_twice b tabId 1).
Qed.

(** X5.  A visit can be taken back: after [addToHistory] on a tab that was
    at an entry [u], nothing lies ahead, [goBack] returns [u], and a
    [goForward] after that returns the address just added. *)
Theorem addToHistory_then_goBack (b : BrowserState) (tabId url : jsstring)
        (tab : Tab) (u : jsstring) :
  find (has_id tabId) (tabs b) = Some tab ->
  nth_error (tab_history tab) (Z.to_nat (tab_historyIndex tab)) = Some u ->
  (0 <= tab_historyIndex tab)%Z ->
  let b1 := addToHistory b tabId url in
  canGoForward b1 tabId = false
  /\ canGoBack b1 tabId = true
  /\ snd (goBack b1 tabId) = VStr u
  /\ snd (goForward (fst (goBack b1 tabId)) tabId) = VStr url.
Proof.
  intros Hf Hu H0 b1.
  assert (Hlt : Z.to_nat (tab_historyIndex tab) < length (tab_history tab))
    by (apply nth_error_Some; rewrite Hu; discriminate).
  set (i := Z.to_nat (tab_historyIndex tab)) in *.
  set (kept := firstn (S i) (tab_history tab)).
  assert (Hk : length kept = S i)
    by (unfold kept; rewrite length_firstn; lia).
  assert (Hh : history_of b1 tabId
               = Some (kept ++ [url], Z.of_nat (S i))).
  { unfold b1; rewrite history_of_addToHistory.
    unfold history_of; rewrite Hf; cbn [option_map fst snd].
    rewrite slice0_nonneg by lia.
    replace (Z.to_nat (tab_historyIndex tab + 1)) with (S i) by lia.
    fold kept; rewrite length_app, Hk; cbn [length].
    do 2 f_equal; lia. }
  assert (Hku : nth_error (kept ++ [url]) i = Some u).
  { rewrite nth_error_app1 by lia.
    unfold kept; rewrite nth_error_firstn.
    replace (i <? S i)%nat with true by (symmetry; apply Nat.ltb_lt; lia).
    exact Hu. }
  assert (Hkl : nth_error (kept ++ [url]) (S i) = Some url).
  { rewrite nth_error_app2 by lia.
    replace (S i - length kept)%nat with 0%nat by lia; reflexivity. }
  destruct (history_of_some _ _ Hh) as (t1 & Hf1 & Hl1 & Hi1).
  assert (Hfw : canGoForward b1 tabId = false).
  { unfold canGoForward; rewrite Hf1, Hl1, Hi1.
    apply Z.ltb_ge; rewrite length_app, Hk; cbn [length]; lia. }
  assert (Hbk : canGoBack b1 tabId = true).
  { unfold canGoBack; rewrite Hf1, Hi1; apply Z.gtb_lt; lia. }
  destruct (goBack_moves _ _ Hh) as [Hb1 Hb2]; [lia|].
  destruct (goForward_moves _ _ Hb1) as [_ Hw2];
    [rewrite length_app, Hk; cbn [length]; lia|].
  repeat split; [exact Hfw | exact Hbk | |].
  - rewrite Hb2; unfold index.
    replace (Z.of_nat (S i) - 1 <? 0)%Z with false
      by (symmetry; apply Z.ltb_ge; lia).
    replace (Z.to_nat (Z.of_nat (S i) - 1)) with i by lia.
    rewrite Hku; reflexivity.
  - rewrite Hw2; unfold index.
    replace (Z.of_nat (S i) - 1 + 1 <? 0)%Z with false
      by (symmetry; apply Z.ltb_ge; lia).
    replace (Z.to_nat (Z.of_nat (S i) - 1 + 1)) with (S i) by lia.
    rewrite Hkl; reflexivity.
Qed.

End HistoryRoundTrip.

(* ===================================================================== *)
(** ** First version: the history of the window *)
(* ===================================================================== *)

Section GlobalHistory.

Import V1.

(** The position is [-1] or an index into the entries. *)
Lemma calls_position_from (cs : list Call) (b : BrowserState) :
  (-1 <= historyIndex b < Z.of_nat (length (history b)))%Z ->
  let b' := fold_left (fun b c => call c b) cs b in
  (-1 <= historyIndex b' < Z.of_nat (length (history b')))%Z.
Proof.
  revert b; induction cs as [|c cs IH]; intros b Hb; [exact Hb|].
  cbn [fold_left]; apply IH.
  destruct c; cbn [call].
  - exact Hb.
  - unfold removeTab; destruct (findIndex _ _); exact Hb.
  - unfold updateTabUrl; destruct (find _ _); exact Hb.
  - exact Hb.
  - unfold addToHistory; cbn [history historyIndex].
    rewrite length_app; cbn [length]; lia.
  - unfold goBack, canGoBack.
    destruct (historyIndex b >? 0)%Z eqn:E; cbn [fst]; [|exact Hb].
    apply Z.gtb_lt in E; cbn [move history historyIndex]; lia.
  - unfold goForward, canGoForward.
    destruct (historyIndex b <? _)%Z eqn:E; cbn [fst]; [|exact Hb].
    apply Z.ltb_lt in E; cbn [move history historyIndex]; lia.
Qed.

(** X6.  After any sequence of calls of the methods of the first version's
    class on a new state, the position is [-1] or an index into the
    window's history, so that [goBack] and [goForward] never return
    [undefined]: each returns [null] exactly when its test fails, and
    otherwise the entry next to the position, which it also stores in
    [currentUrl]. *)
Theorem global_history_calls (cs : list V1.Call) :
  let b := V1.calls cs in
  (-1 <= historyIndex b < Z.of_nat (length (history b)))%Z
  /\ (if canGoBack b
      then exists u,
          nth_error (history b) (Z.to_nat (historyIndex b - 1)) = Some u
          /\ snd (goBack b) = VStr u
          /\ currentUrl (fst (goBack b)) = VStr u
          /\ historyIndex (fst (goBack b)) = (historyIndex b - 1)%Z
      else goBack b = (b, VNull))
  /\ (if canGoForward b
      then exists u,
          nth_error (history b) (Z.to_nat (historyIndex b + 1)) = Some u
          /\ snd (goForward b) = VStr u
          /\ currentUrl (fst (goForward b)) = VStr u
          /\ historyIndex (fst (goForward b)) = (historyIndex b + 1)%Z
      else goForward b = (b, VNull)).
Proof.
  intros b.
  assert (Hb : (-1 <= historyIndex b < Z.of_nat (length (history b)))%Z).
  { apply (calls_position_from cs constructor); cbn; lia. }
  split; [exact Hb|split].
  - unfold goBack; destruct (canGoBack b) eqn:E; [|reflexivity].
    unfold canGoBack in E; apply Z.gtb_lt in E.
    destruct (@index_in_range (history b) (historyIndex b - 1))
      as (u & Hn & Hu); [lia|].
    exists u; cbn [fst snd move currentUrl historyIndex].
    replace (historyIndex b + -1)%Z with (historyIndex b - 1)%Z by lia.
    rewrite Hu; auto.
  - unfold goForward; destruct (canGoForward b) eqn:E; [|reflexivity].
    unfold canGoForward in E; apply Z.ltb_lt in E.
    destruct (@index_in_range (history b) (historyIndex b + 1))
      as (u & Hn & Hu); [lia|].
    exists u; cbn [fst snd move currentUrl historyIndex].
    rewrite Hu; auto.
Qed.

End GlobalHistory.

(* ===================================================================== *)
(** ** Reading mode: the word count and the reading time *)
(* ===================================================================== *)

Section ReadingTime.

Import Reading.

Lemma split_from_nonempty (gap : bool) (s : jsstring) :
  split_from gap s <> [].
Proof.
  revert gap; induction s as [|c s IH]; intros gap; [discriminate|].
  cbn [split_from]; destruct (is_white c).
  - destruct gap; [apply IH | discriminate].
  - destruct (split_from false s); discriminate.
Qed.

Lemma end_white_rev (before : bool) (s : jsstring) :
  end_white before s
  = match rev s with
    | c :: _ => is_white c
    | [] => before
    end.
Proof.
  revert before; induction s as [|c s IH]; intros before; [reflexivity|].
  cbn [end_white rev]; rewrite IH.
  destruct (rev s); reflexivity.
Qed.

Lemma split_from_length (s : jsstring) :
  length (split_from true s)
  = (words_from false s + if end_white true s then 1 else 0)%nat
  /\ length (split_from false s)
     = (words_from true s + 1 + if end_white false s then 1 else 0)%nat.
Proof.
  induction s as [|c s [IHg IHw]]; [split; reflexivity|].
  cbn [split_from words_from end_white].
  destruct (is_white c) eqn:E; cbv iota.
  - split; [exact IHg | cbn [length]; rewrite IHg; lia].
  - pose proof (split_from_nonempty false s) as Hne.
    destruct (split_from false s) as [|piece rest]; [contradiction|].
    cbn [length] in *; split; lia.
Qed.

(** No piece of the split contains white space. *)
Lemma split_from_no_white (gap : bool) (s : jsstring) :
  Forall (fun piece => test_white piece = false) (split_from gap s).
Proof.
  revert gap; induction s as [|c s IH]; intros gap.
  - repeat constructor.
  - cbn [split_from]; destruct (is_white c) eqn:E.
    + destruct gap; [apply IH | constructor; [reflexivity | apply IH]].
    + specialize (IH false); destruct (split_from false s) as [|piece rest].
      * repeat constructor; unfold test_white; cbn [existsb]; rewrite E.
        reflexivity.
      * inversion IH as [|? ? Hp Hr]; subst; constructor; [|exact Hr].
        unfold test_white in *; cbn [existsb]; rewrite E, Hp; reflexivity.
Qed.

Lemma ceil_200 (n : Z) :
  (0 <= n)%Z ->
  (200 * ((n + 199) / 200 - 1) < n <= 200 * ((n + 199) / 200))%Z.
Proof.
  intros Hn.
  pose proof (Z.div_mod (n + 199) 200 ltac:(lia)) as Hd.
  pose proof (Z.mod_pos_bound (n + 199) 200 ltac:(lia)) as Hm.
  lia.
Qed.

(** X7.  The word count of [displayArticle] is [0] for an empty text and
    otherwise the number of words of the text plus one for white space at
    its start and one for white space at its end; the pieces counted hold
    no white space.  The reading time is the word count divided by 200 and
    rounded up: [0] minutes exactly for the empty text, and it is what
    [articleMeta] ends with. *)
Theorem displayArticle_reading_time (a : Reading.Article) :
  let text := textContent a in
  (text = [] -> wordCount a = 0%nat)
  /\ (text <> [] ->
      wordCount a
      = (words text + (if starts_white text then 1 else 0)
         + (if ends_white text then 1 else 0))%nat)
  /\ Forall (fun piece => test_white piece = false) (split_white text)
  /\ (200 * (readingTime a - 1) < Z.of_nat (wordCount a)
      <= 200 * readingTime a)%Z
  /\ (readingTime a = 0%Z <-> text = [])
  /\ exists prefix,
      articleMeta (displayArticle a)
      = prefix ++ of_number (readingTime a) ++ js " min read"
      /\ (byline a = [] -> prefix = []).
Proof.
  intros text.
  assert (H0 : text = [] -> wordCount a = 0%nat).
  { unfold wordCount; fold text; intros ->; reflexivity. }
  assert (H1 : text <> [] ->
               wordCount a
               = (words text + (if starts_white text then 1 else 0)
                  + (if ends_white text then 1 else 0))%nat).
  { unfold wordCount, split_white, words, ends_white; fold text.
    destruct text as [|c s]; [congruence|intros _].
    cbn [truthy split_from words_from starts_white].
    destruct (split_from_length s) as [Hg Hw].
    assert (He : forall before,
               end_white before (c :: s) = starts_white (rev (c :: s))).
    { intros before; rewrite end_white_rev; unfold starts_white.
      destruct (rev (c :: s)) eqn:Er; [|reflexivity].
      apply (f_equal (@length _)) in Er; rewrite length_rev in Er.
      discriminate. }
    specialize (He false); cbn [end_white] in He.
    destruct (is_white c) eqn:E; cbv iota.
    - cbn [length]; rewrite Hg, He; lia.
    - pose proof (split_from_nonempty false s) as Hne.
      destruct (split_from false s) as [|piece rest]; [contradiction|].
      cbn [length] in *; rewrite <- He; lia. }
  assert (Hpos : text <> [] -> (0 < wordCount a)%nat).
  { unfold wordCount; fold text; destruct text as [|c s]; [congruence|].
    intros _; cbn [truthy]; unfold split_white.
    pose proof (split_from_nonempty false (c :: s)) as Hne.
    destruct (split_from false (c :: s)); [contradiction|cbn [length]; lia]. }
  split; [exact H0|split; [exact H1|split; [apply split_from_no_white|]]].
  split; [apply ceil_200; lia|split].
  - unfold readingTime; split.
    + intros Hz; destruct text as [|c s] eqn:Et; [reflexivity|].
      assert (0 < wordCount a)%nat by (apply Hpos; discriminate).
      pose proof (@ceil_200 (Z.of_nat (wordCount a)) ltac:(lia)) as Hc.
      lia.
    + intros Ht; rewrite (H0 Ht); reflexivity.
  - unfold displayArticle, metaText; cbn [articleMeta].
    eexists; split; [reflexivity|].
    intros ->; reflexivity.
Qed.

End ReadingTime.

(* ===================================================================== *)
(** ** What the handlers do to the registry *)
(* ===================================================================== *)

Section RegistryMoves.

Import V2.

Variable URL_hostname : jsstring -> option jsstring.

(** *** Handlers that leave [browserState] alone *)

Lemma bs_updateNavButtons q : bs (updateNavButtons q) = bs q.
Proof.
  unfold updateNavButtons; destruct (getActiveTab (bs q)); reflexivity.
Qed.

Lemma bs_startLoadTimeout h u q : bs (startLoadTimeout h u q) = bs q.
Proof.
  unfold startLoadTimeout; destruct (nth_error (iframes q) h) as [f|];
    [|reflexivity].
  destruct (handle_truthy (loadTimeout f)); reflexivity.
Qed.

Lemma bs_signal_received h q : bs (signal_received h q) = bs q.
Proof.
  unfold signal_received; destruct (nth_error (iframes q) h) as [f|];
    [|reflexivity].
  destruct (handle_truthy (loadTimeout f)); reflexivity.
Qed.

Ltac bs_norm :=
  repeat first
    [ rewrite bs_updateNavButtons
    | rewrite bs_startLoadTimeout
    | rewrite bs_signal_received
    | progress cbn [bs on_bs on_view on_iframes on_iframe set_timers
                    set_clock showLoading hideLoading showWelcomeScreen
                    hideWelcomeScreen showError hideError updateTabBar
                    setTimeout clearTimeout createTabIframe fst snd] ].

(** *** The handlers, as sequences of moves of the registry *)

Lemma steps_switchTab b tabId q :
  bs_steps b (bs q) -> bs_steps b (bs (switchTab tabId q)).
Proof.
  intros Hq; unfold switchTab; cbv zeta.
  match goal with
  | |- context [getActiveTab (bs ?p)] => set (p3 := p)
  end.
  assert (H3 : bs_steps b (bs p3)).
  { unfold p3; cbn [bs on_bs on_view on_iframes].
    eapply steps_snoc; [exact Hq | apply atom_active]. }
  clearbody p3.
  destruct (getActiveTab (bs p3)) as [tab|]; [|exact H3].
  destruct (tab_iframe tab) as [h|]; [bs_norm; exact H3|].
  destruct (truthy (tab_url tab)
            && negb (str_eqb (tab_url tab) (js "about:blank")));
    bs_norm; [|exact H3].
  eapply steps_snoc; [exact H3 | apply atom_iframe].
Qed.

Lemma steps_closeTab b tabId q :
  bs_steps b (bs q) -> bs_steps b (bs (closeTab tabId q)).
Proof.
  intros Hq; unfold closeTab.
  destruct (length (tabs (bs q)) =? 1)%nat eqn:E; [exact Hq|].
  apply Nat.eqb_neq in E.
  pose proof (atom_remove (bs q) tabId E) as Ha.
  destruct (removeTab (bs q) tabId) as [b1 detached]; cbn [fst] in Ha.
  cbv zeta.
  set (q1 := on_view _ _).
  assert (H1 : bs_steps b (bs q1)).
  { subst q1; destruct detached; bs_norm;
      eapply steps_snoc; [exact Hq | exact Ha | exact Hq | exact Ha]. }
  clearbody q1.
  destruct (activeTabId (bs q1)) as [a|].
  - destruct (truthy a); [apply steps_switchTab; exact H1|].
    destruct (tabs (bs q1)); [exact H1 | apply steps_switchTab; exact H1].
  - destruct (tabs (bs q1)); [exact H1 | apply steps_switchTab; exact H1].
Qed.

Lemma steps_navigateToUrl b url q :
  bs_steps b (bs q) -> bs_steps b (bs (navigateToUrl URL_hostname url q)).
Proof.
  intros Hq; unfold navigateToUrl.
  destruct (getActiveTab (bs q)) as [tab|]; [|exact Hq].
  destruct (sanitizeUrl URL_hostname url) as [s|] eqn:Hs; [|exact Hq].
  destruct (@sanitizeUrl_result URL_hostname _ _ Hs) as [Hsch _].
  assert (Hv : bs_steps b (addToHistory (updateTabUrl (bs q) (tab_id tab) s)
                                        (tab_id tab) s))
    by (eapply steps_snoc; [exact Hq | apply atom_visit; exact Hsch]).
  cbv zeta.
  destruct (URL_hostname s) as [host|]; destruct (tab_iframe tab) as [h|];
    bs_norm;
    repeat (eapply steps_snoc;
            [|first [apply atom_iframe | apply atom_title]]);
    exact Hv.
Qed.

Lemma steps_addTab_page b now_id now_ts q :
  bs_steps b (bs q) ->
  bs_steps b (bs (addTab_page URL_hostname now_id now_ts [] q)).
Proof.
  intros Hq; unfold addTab_page; cbn [truthy].
  destruct (addTab (bs q) now_id now_ts []) as [b1 [tab|]] eqn:Ha;
    [|exact Hq].
  cbv zeta; cbn [truthy andb].
  apply steps_switchTab; cbn [bs on_bs on_view].
  eapply steps_snoc; [exact Hq | eapply atom_add; exact Ha].
Qed.

Lemma steps_goBack_page b q :
  bs_steps b (bs q) -> bs_steps b (bs (goBack_page q)).
Proof.
  intros Hq; unfold goBack_page, history_button.
  destruct (getActiveTab (bs q)) as [tab|]; [|exact Hq].
  destruct (tab_iframe tab) as [h|]; [|exact Hq].
  destruct (canGoBack (bs q) (tab_id tab)) eqn:Hc; [|exact Hq].
  unfold goBack; rewrite Hc.
  destruct (find (has_id (tab_id tab)) (tabs (bs q))) as [t|] eqn:Hf;
    [|unfold canGoBack in Hc; rewrite Hf in Hc; discriminate].
  change (tab_historyIndex t - 1)%Z with (tab_historyIndex t + -1)%Z.
  destruct (index (tab_history t) (tab_historyIndex t + -1)) as [| |u] eqn:Hi;
    cbv zeta.
  - bs_norm; eapply steps_snoc; [exact Hq|].
    eapply atom_move_only with (d := (-1)%Z); [exact Hf|auto|].
    intros u Hu; rewrite Hi in Hu; discriminate.
  - bs_norm; eapply steps_snoc; [exact Hq|].
    eapply atom_move_only with (d := (-1)%Z); [exact Hf|auto|].
    intros u Hu; rewrite Hi in Hu; discriminate.
  - destruct (truthy u) eqn:Hu; bs_norm; (eapply steps_snoc; [exact Hq|]).
    + eapply atom_move with (d := (-1)%Z); eauto.
    + eapply atom_move_only with (d := (-1)%Z); [exact Hf|auto|].
      intros u' Hu'; rewrite Hi in Hu'; injection Hu' as <-; exact Hu.
Qed.

Lemma steps_goForward_page b q :
  bs_steps b (bs q) -> bs_steps b (bs (goForward_page q)).
Proof.
  intros Hq; unfold goForward_page, history_button.
  destruct (getActiveTab (bs q)) as [tab|]; [|exact Hq].
  destruct (tab_iframe tab) as [h|]; [|exact Hq].
  destruct (canGoForward (bs q) (tab_id tab)) eqn:Hc; [|exact Hq].
  unfold goForward; rewrite Hc.
  destruct (find (has_id (tab_id tab)) (tabs (bs q))) as [t|] eqn:Hf;
    [|unfold canGoForward in Hc; rewrite Hf in Hc; discriminate].
  destruct (index (tab_history t) (tab_historyIndex t + 1)) as [| |u] eqn:Hi;
    cbv zeta.
  - bs_norm; eapply steps_snoc; [exact Hq|].
    eapply atom_move_only with (d := 1%Z); [exact Hf|auto|].
    intros u Hu; rewrite Hi in Hu; discriminate.
  - bs_norm; eapply steps_snoc; [exact Hq|].
    eapply atom_move_only with (d := 1%Z); [exact Hf|auto|].
    intros u Hu; rewrite Hi in Hu; discriminate.
  - destruct (truthy u) eqn:Hu; bs_norm; (eapply steps_snoc; [exact Hq|]).
    + eapply atom_move with (d := 1%Z); eauto.
    + eapply atom_move_only with (d := 1%Z); [exact Hf|auto|].
      intros u' Hu'; rewrite Hi in Hu'; injection Hu' as <-; exact Hu.
Qed.

Lemma bs_reload q : bs (reload q) = bs q.
Proof.
  unfold reload; destruct (getActiveTab (bs q)) as [tab|]; [|reflexivity].
  destruct (tab_iframe tab); reflexivity.
Qed.

Lemma bs_on_load h q : bs (on_load h q) = bs q.
Proof.
  unfold on_load; destruct (nth_error (iframes q) h); bs_norm; reflexivity.
Qed.

Lemma bs_on_error h q : bs (on_error h q) = bs q.
Proof.
  unfold on_error; destruct (nth_error (iframes q) h); bs_norm; reflexivity.
Qed.

Lemma bs_recheck h host pr q : bs (recheck h host pr q) = bs q.
Proof.
  unfold recheck; destruct (nth_error (iframes q) h); [|reflexivity].
  destruct (is_flex (errorDisplay (view q))); [reflexivity|].
  destruct (probe_document pr); reflexivity.
Qed.

Lemma bs_load_timeout h u q : bs (load_timeout URL_hostname h u q) = bs q.
Proof.
  unfold load_timeout; destruct (nth_error (iframes q) h) as [f|];
    [|reflexivity].
  destruct (hasLoaded f); [reflexivity|].
  destruct (URL_hostname u); reflexivity.
Qed.

Lemma steps_settle b h a pr q :
  bs_steps b (bs q) -> bs_steps b (bs (settle URL_hostname h a pr q)).
Proof.
  intros Hq; unfold settle.
  destruct (nth_error (iframes q) h) as [f|]; [|exact Hq].
  cbv zeta.
  destruct (probe_document pr) as [title|];
    [destruct (truthy title)|];
    destruct (URL_hostname (if_src f)) as [host|];
    try destruct (probe_window pr);
    bs_norm;
    try (eapply steps_snoc; [exact Hq | apply atom_title]);
    exact Hq.
Qed.

Lemma steps_run_callback b tm pr q :
  bs_steps b (bs q) ->
  bs_steps b (bs (run_callback URL_hostname tm pr q)).
Proof.
  intros Hq; unfold run_callback; destruct (tm_cb tm).
  - apply steps_settle; exact Hq.
  - rewrite bs_recheck; exact Hq.
  - rewrite bs_load_timeout; exact Hq.
Qed.

(** Every event moves the registry by the assignments listed in
    [bs_atom]. *)
Lemma step_bs_steps t e q q' :
  step URL_hostname t e q = Some q' -> bs_steps (bs q) (bs q').
Proof.
  unfold step; destruct (t <? clock q)%N; [discriminate|].
  assert (Hc : bs_steps (bs q) (bs (set_clock t q))) by apply steps_refl.
  set (qc := set_clock t q) in *; clearbody qc.
  destruct e as [n1 n2|n1 n2|k|k|text|url| | | | |h|h|id pr]; intros H.
  - injection H as <-; apply steps_addTab_page; exact Hc.
  - injection H as <-; apply steps_addTab_page; exact Hc.
  - destruct (nth_error (tabBar (view qc)) k); [|discriminate].
    injection H as <-; apply steps_switchTab; exact Hc.
  - destruct (nth_error (tabBar (view qc)) k); [|discriminate].
    injection H as <-; apply steps_closeTab; exact Hc.
  - injection H as <-; apply steps_navigateToUrl; exact Hc.
  - injection H as <-; apply steps_navigateToUrl; exact Hc.
  - injection H as <-; apply steps_goBack_page; exact Hc.
  - injection H as <-; apply steps_goForward_page; exact Hc.
  - injection H as <-; rewrite bs_reload; exact Hc.
  - injection H as <-.
    match goal with |- context [truthy ?u] => destruct (truthy u) end;
      [apply steps_navigateToUrl|]; exact Hc.
  - destruct (nth_error (iframes qc) h); [|discriminate].
    injection H as <-; rewrite bs_on_load; exact Hc.
  - destruct (nth_error (iframes qc) h); [|discriminate].
    injection H as <-; rewrite bs_on_error; exact Hc.
  - destruct (find_timer id qc) as [tm|]; [|discriminate].
    destruct (t <? tm_due tm)%N; [discriminate|].
    injection H as <-; apply steps_run_callback; exact Hc.
Qed.

End RegistryMoves.

(* ===================================================================== *)
(** ** Invariants of the registry in the reachable states *)
(* ===================================================================== *)

Section RegistryInvariant.

Import V2.

Variable URL_hostname : jsstring -> option jsstring.

Lemma update_first_nil {A} (c : A -> bool) (f : A -> A) (l : list A) :
  update_first c f l = [] -> l = [].
Proof.
  destruct l as [|x l]; [reflexivity|].
  cbn [update_first]; destruct (c x); discriminate.
Qed.

Lemma length_update_first {A} (c : A -> bool) (f : A -> A) (l : list A) :
  length (update_first c f l) = length l.
Proof.
  induction l as [|x l IH]; [reflexivity|].
  cbn [update_first]; destruct (c x); cbn [length]; rewrite ?IH; reflexivity.
Qed.

Lemma Forall_firstn_of {A} (P : A -> Prop) (n : nat) (l : list A) :
  Forall P l -> Forall P (firstn n l).
Proof.
  intros H; revert n; induction H as [|x l Hx Hl IH]; intros [|n];
    cbn [firstn]; constructor; auto.
Qed.

Lemma index_VStr (l : list jsstring) (i : Z) (u : jsstring) :
  index l i = VStr u ->
  (0 <= i < Z.of_nat (length l))%Z /\ nth_error l (Z.to_nat i) = Some u.
Proof.
  unfold index; destruct (i <? 0)%Z eqn:E; [discriminate|].
  apply Z.ltb_ge in E.
  destruct (nth_error l (Z.to_nat i)) as [v|] eqn:Hn; [|discriminate].
  intros [= <-]; split; [|reflexivity].
  assert (Z.to_nat i < length l) by (apply nth_error_Some; congruence).
  lia.
Qed.

Lemma has_scheme_truthy (s : jsstring) : has_scheme s = true -> truthy s = true.
Proof. destruct s; [discriminate | reflexivity]. Qed.

Lemma or_else_nonempty (a b : jsstring) : b <> [] -> or_else a b <> [].
Proof. unfold or_else; destruct a; cbn [truthy]; [auto | discriminate]. Qed.

(** *** The moves keep the invariant *)

Lemma state_ok_update b tabId f :
  (forall t, find (has_id tabId) (tabs b) = Some t -> tab_ok t ->
             tab_ok (f t)) ->
  state_ok b ->
  state_ok (set_tabs b (update_first (has_id tabId) f (tabs b))).
Proof.
  intros Hf (Hm & Hl & Ha & Ht); unfold state_ok.
  cbn [set_tabs maxTabs tabs activeTabId]; rewrite length_update_first.
  split; [exact Hm|split; [exact Hl|split]].
  - intros Hne; apply Ha; intros E; apply Hne; rewrite E; reflexivity.
  - apply Forall_update_first; auto.
Qed.

Lemma visit_eq b tabId s :
  addToHistory (updateTabUrl b tabId s) tabId s
  = set_tabs b (update_first (has_id tabId)
                             (fun t => push s (set_url s t)) (tabs b)).
Proof.
  unfold addToHistory, updateTabUrl; cbn [tabs set_tabs].
  rewrite update_first_twice by reflexivity; reflexivity.
Qed.

Lemma move_eq b tabId d u :
  updateTabUrl (set_tabs b (update_first (has_id tabId) (move d) (tabs b)))
               tabId u
  = set_tabs b (update_first (has_id tabId)
                             (fun t => set_url u (move d t)) (tabs b)).
Proof.
  unfold updateTabUrl; cbn [tabs set_tabs].
  rewrite update_first_twice by reflexivity; reflexivity.
Qed.

Lemma tab_ok_visit s t :
  has_scheme s = true -> tab_ok t -> tab_ok (push s (set_url s t)).
Proof.
  intros Hs (Ht & Hh & _); unfold tab_ok, push.
  cbn [set_history set_url tab_title tab_history tab_historyIndex tab_url].
  split; [exact Ht|split].
  - apply Forall_app; split; [|repeat constructor; exact Hs].
    unfold slice0; apply Forall_firstn_of; exact Hh.
  - right; unfold index; rewrite length_app; cbn [length].
    set (k := slice0 (tab_history t) (tab_historyIndex t + 1)).
    replace (Z.of_nat (length k + 1) - 1 <? 0)%Z with false
      by (symmetry; apply Z.ltb_ge; lia).
    replace (Z.to_nat (Z.of_nat (length k + 1) - 1)) with (length k) by lia.
    rewrite nth_error_app2, Nat.sub_diag by apply le_n; reflexivity.
Qed.

(** With the invariant, the entry a move arrives at is an address. *)
Lemma tab_ok_move_target b tabId t d :
  tab_ok t ->
  find (has_id tabId) (tabs b) = Some t ->
  (d = (-1)%Z /\ canGoBack b tabId = true)
  \/ (d = 1%Z /\ canGoForward b tabId = true) ->
  exists u, index (tab_history t) (tab_historyIndex t + d) = VStr u
            /\ has_scheme u = true.
Proof.
  intros (_ & Hh & Hpos) Hf Hd.
  assert (Hr : (0 <= tab_historyIndex t + d
                < Z.of_nat (length (tab_history t)))%Z).
  { destruct Hpos as [(Hnil & Hi & _)|Hi].
    - exfalso; destruct Hd as [[-> Hc]|[-> Hc]].
      + unfold canGoBack in Hc; rewrite Hf, Hi in Hc; discriminate.
      + unfold canGoForward in Hc; rewrite Hf, Hi, Hnil in Hc; discriminate.
    - apply index_VStr in Hi; destruct Hi as [Hi _].
      destruct Hd as [[-> Hc]|[-> Hc]].
      + unfold canGoBack in Hc; rewrite Hf in Hc; apply Z.gtb_lt in Hc; lia.
      + unfold canGoForward in Hc; rewrite Hf in Hc; apply Z.ltb_lt in Hc.
        lia. }
  destruct (@index_in_range _ _ Hr) as (u & Hn & Hu).
  exists u; split; [exact Hu|].
  rewrite Forall_forall in Hh; apply Hh; eapply nth_error_In; exact Hn.
Qed.

Lemma maxTabs_removeTab b tabId :
  maxTabs (fst (removeTab b tabId)) = maxTabs b.
Proof.
  unfold removeTab; destruct (findIndex (has_id tabId) (tabs b));
    [|reflexivity].
  destruct (active_is b tabId); reflexivity.
Qed.

Lemma state_ok_removeTab b tabId :
  state_ok b -> state_ok (fst (removeTab b tabId)).
Proof.
  intros (Hm & Hl & Ha & Ht).
  destruct (in_dec (list_eq_dec N.eq_dec) tabId (map tab_id (tabs b)))
    as [Hin|Hout].
  - destruct (removeTab_found b tabId Hin)
      as (l1 & t & l2 & Hb & _ & _ & Htabs & _ & Hact).
    unfold state_ok; rewrite maxTabs_removeTab, Htabs, Hact.
    rewrite Hb in Hl, Ht; rewrite length_app in *; cbn [length] in Hl.
    split; [exact Hm|split; [lia|split]].
    + intros Hne; destruct (active_is b tabId).
      * destruct (l1 ++ l2); [contradiction|discriminate].
      * apply Ha; rewrite Hb; destruct l1; discriminate.
    + apply Forall_app in Ht; destruct Ht as [H1 H2].
      inversion H2; subst; apply Forall_app; auto.
  - rewrite removeTab_unknown by exact Hout; repeat split; assumption.
Qed.

Lemma state_ok_atom b b' : bs_atom b b' -> state_ok b -> state_ok b'.
Proof.
  intros Hatom Hb; destruct Hatom as
      [tabId title|tabId|tabId h|tabId s Hs|tabId tab d u Hf Hd Hi Hu
      |tabId tab d Hf Hd Hno|tabId Hlen|now_id now_ts b1 tab Hadd].
  - apply state_ok_update; [|exact Hb].
    intros t _ (Ht & Hrest); split; [|exact Hrest].
    cbn [set_title tab_title]; apply or_else_nonempty; discriminate.
  - destruct Hb as (Hm & Hl & _ & Ht); repeat split; auto; discriminate.
  - apply state_ok_update; [|exact Hb].
    intros t _ Ht; exact Ht.
  - rewrite visit_eq; apply state_ok_update; [|exact Hb].
    intros t _ Ht; apply tab_ok_visit; assumption.
  - rewrite move_eq; apply state_ok_update; [|exact Hb].
    intros t Hft (Ht & Hh & _); rewrite Hf in Hft; injection Hft as <-.
    split; [exact Ht|split; [exact Hh|right; exact Hi]].
  - exfalso.
    assert (Ht : tab_ok tab).
    { destruct Hb as (_ & _ & _ & Hall); rewrite Forall_forall in Hall.
      apply Hall; exact (proj1 (find_some _ _ Hf)). }
    destruct (@tab_ok_move_target b tabId tab d Ht Hf Hd) as (u & Hi & Hs).
    apply has_scheme_truthy in Hs; rewrite (Hno u Hi) in Hs; discriminate.
  - apply state_ok_removeTab; exact Hb.
  - destruct Hb as (Hm & Hl & Ha & Ht); unfold addTab in Hadd.
    destruct (Z.of_nat (length (tabs b)) >=? maxTabs b)%Z eqn:E;
      [discriminate|].
    injection Hadd as <- <-.
    assert (Z.of_nat (length (tabs b)) < maxTabs b)%Z
      by (destruct (Z.geb_spec (Z.of_nat (length (tabs b))) (maxTabs b));
          [discriminate | lia]).
    unfold state_ok; cbn [set_activeTabId set_tabs maxTabs tabs activeTabId].
    rewrite length_app; cbn [length].
    split; [exact Hm|split; [lia|split; [discriminate|]]].
    apply Forall_app; split; [exact Ht|].
    constructor; [|constructor].
    split; [discriminate|split; [constructor|left; auto]].
Qed.

Lemma state_ok_steps b b' : bs_steps b b' -> state_ok b -> state_ok b'.
Proof.
  induction 1 as [|b1 b2 _ IH Ha]; intros Hb; [exact Hb|].
  eapply state_ok_atom; [exact Ha | apply IH; exact Hb].
Qed.

Lemma nonempty_atom b b' : bs_atom b b' -> tabs b <> [] -> tabs b' <> [].
Proof.
  intros Hatom Hb; destruct Hatom as
      [tabId title|tabId|tabId h|tabId s Hs|tabId tab d u Hf Hd Hi Hu
      |tabId tab d Hf Hd Hno|tabId Hlen|now_id now_ts b1 tab Hadd];
    try rewrite visit_eq; try rewrite move_eq;
    cbn [updateTabTitle set_tabs set_activeTabId tabs];
    try (intros E; apply update_first_nil in E; contradiction);
    try exact Hb.
  - destruct (in_dec (list_eq_dec N.eq_dec) tabId (map tab_id (tabs b)))
      as [Hin|Hout].
    + destruct (removeTab_found b tabId Hin)
        as (l1 & t & l2 & Heq & _ & _ & Htabs & _).
      rewrite Htabs; rewrite Heq, length_app in Hlen; cbn [length] in Hlen.
      destruct l1; [destruct l2; [cbn in Hlen; lia|discriminate]
                   |discriminate].
    + rewrite removeTab_unknown by exact Hout; exact Hb.
  - unfold addTab in Hadd.
    destruct (Z.of_nat (length (tabs b)) >=? maxTabs b)%Z; [discriminate|].
    injection Hadd as <- _; cbn [set_tabs tabs].
    destruct (tabs b); discriminate.
Qed.

Lemma nonempty_steps b b' : bs_steps b b' -> tabs b <> [] -> tabs b' <> [].
Proof.
  induction 1 as [|b1 b2 _ IH Ha]; intros Hb; [exact Hb|].
  eapply nonempty_atom; [exact Ha | apply IH; exact Hb].
Qed.

Lemma run_bs_steps es q q' :
  run URL_hostname es q = Some q' -> bs_steps (bs q) (bs q').
Proof.
  revert q; induction es as [|[t e] es IH]; cbn [run]; intros q H.
  - injection H as <-; apply steps_refl.
  - destruct (step URL_hostname t e q) as [q1|] eqn:Hs; [|discriminate].
    pose proof (step_bs_steps _ _ _ _ Hs) as H1.
    specialize (IH _ H); clear - H1 IH.
    induction IH as [|b1 b2 _ IH' Ha]; [exact H1|].
    eapply steps_snoc; [exact IH' | exact Ha].
Qed.

Lemma state_ok_constructor : state_ok constructor.
Proof.
  unfold state_ok, constructor; cbn.
  split; [reflexivity|split; [lia|split; [congruence|constructor]]].
Qed.

Lemma reachable_state_ok p : reachable URL_hostname p -> state_ok (bs p).
Proof.
  intros (p0 & es & Hi & Hr).
  apply (state_ok_steps (run_bs_steps _ _ Hr)).
  destruct Hi as (-> & _); exact state_ok_constructor.
Qed.

Lemma reachable_registry_ok p : reachable URL_hostname p -> registry_ok p.
Proof.
  intros (p0 & es & Hi & Hr).
  exact (@registry_ok_run URL_hostname es _ _ (registry_ok_initial Hi) Hr).
Qed.

(** X8.  In every reachable state the registry holds at most three tabs,
    [maxTabs] still is [3], and as soon as there is a tab there is an
    active one: [getActiveTab] returns a tab of the registry. *)
Theorem reachable_tabs_bounded (p : Page) :
  reachable URL_hostname p ->
  maxTabs (bs p) = 3%Z
  /\ length (tabs (bs p)) <= 3
  /\ (tabs (bs p) <> [] ->
      exists tab, getActiveTab (bs p) = Some tab /\ In tab (tabs (bs p))).
Proof.
  intros Hp; destruct (reachable_state_ok Hp) as (Hm & Hl & Ha & _).
  destruct (reachable_registry_ok Hp) as [_ Hact].
  split; [exact Hm|split; [exact Hl|]].
  intros Hne; specialize (Ha Hne).
  unfold getActiveTab; unfold active_ok in Hact.
  destruct (activeTabId (bs p)) as [a|]; [|congruence].
  destruct (find (has_id a) (tabs (bs p))) as [tab|] eqn:Hf.
  - exists tab; split; [reflexivity|]. apply find_some in Hf; tauto.
  - apply find_none_not_in in Hf; contradiction.
Qed.

(** X9.  Once [initBrowser] has run on the page as the script finds it,
    the registry is never empty again: whatever happens afterwards there
    are between one and three tabs. *)
Theorem tabs_after_page_load (p0 p : Page) (t : N) (now_id now_ts : Z)
        (es : list (N * Event)) :
  initial p0 ->
  run URL_hostname ((t, DOMContentLoaded now_id now_ts) :: es) p0 = Some p ->
  1 <= length (tabs (bs p)) <= 3.
Proof.
  intros Hi Hr.
  assert (Hp : reachable URL_hostname p)
    by (exists p0, ((t, DOMContentLoaded now_id now_ts) :: es); auto).
  destruct (reachable_state_ok Hp) as (_ & Hl & _).
  split; [|exact Hl].
  cbn [run] in Hr.
  destruct (step URL_hostname t (DOMContentLoaded now_id now_ts) p0)
    as [p1|] eqn:Hs; [|discriminate].
  assert (H1 : tabs (bs p1) <> []).
  { unfold step in Hs; destruct (t <? clock p0)%N; [discriminate|].
    injection Hs as <-; unfold addTab_page; cbn [truthy].
    destruct Hi as (Hb & _).
    cbn [bs set_clock]; rewrite Hb; cbn [addTab constructor tabs maxTabs
                                          length Z.of_nat Z.geb Z.compare].
    cbv zeta; cbn [truthy andb].
    intros E.
    match type of E with
    | tabs (bs (switchTab ?i ?q)) = [] =>
        pose proof (f_equal (fun r => fst (fst r)) (reg_switchTab i q))
          as Hids
    end.
    cbn beta in Hids; unfold registry in Hids; cbn [fst] in Hids.
    rewrite E in Hids; symmetry in Hids; apply map_eq_nil in Hids.
    cbn in Hids; discriminate. }
  pose proof (nonempty_steps (run_bs_steps _ _ Hr) H1) as Hne.
  destruct (tabs (bs p)); [contradiction | cbn [length]; lia].
Qed.

(** X10.  In every reachable state each tab has a title that is not
    empty, history entries that all start with [http://] or [https://],
    and an address that is ['about:blank'] with an empty history or else
    the entry at the tab's position.  So when [canGoBack] or
    [canGoForward] holds, [goBack] or [goForward] returns such an
    address, never [undefined] or an empty string. *)
Theorem reachable_tabs_consistent (p : Page) :
  reachable URL_hostname p ->
  (forall tab, In tab (tabs (bs p)) -> tab_ok tab)
  /\ (forall tabId,
         canGoBack (bs p) tabId = true ->
         exists u, snd (goBack (bs p) tabId) = VStr u
                   /\ has_scheme u = true)
  /\ (forall tabId,
         canGoForward (bs p) tabId = true ->
         exists u, snd (goForward (bs p) tabId) = VStr u
                   /\ has_scheme u = true).
Proof.
  intros Hp; destruct (reachable_state_ok Hp) as (_ & _ & _ & Hall).
  rewrite Forall_forall in Hall.
  split; [exact Hall|split]; intros tabId Hc.
  - destruct (find (has_id tabId) (tabs (bs p))) as [t|] eqn:Hf;
      [|unfold canGoBack in Hc; rewrite Hf in Hc; discriminate].
    assert (Ht : tab_ok t) by (apply Hall; apply find_some in Hf; tauto).
    destruct (@tab_ok_move_target (bs p) tabId t (-1)%Z Ht Hf)
      as (u & Hi & Hs); [auto|].
    exists u; unfold goBack; rewrite Hf, Hc; split; [exact Hi|exact Hs].
  - destruct (find (has_id tabId) (tabs (bs p))) as [t|] eqn:Hf;
      [|unfold canGoForward in Hc; rewrite Hf in Hc; discriminate].
    assert (Ht : tab_ok t) by (apply Hall; apply find_some in Hf; tauto).
    destruct (@tab_ok_move_target (bs p) tabId t 1%Z Ht Hf)
      as (u & Hi & Hs); [auto|].
    exists u; unfold goForward; rewrite Hf, Hc; split; [exact Hi|exact Hs].
Qed.

End RegistryInvariant.

(* ===================================================================== *)
(** ** The load timeout after the first signal of an iframe *)
(* ===================================================================== *)

Section LoadedFlag.

Import V2.

Variable URL_hostname : jsstring -> option jsstring.

Lemma kl_refl l : keeps_loaded l l.
Proof. intros h f Hf; exists f; auto. Qed.

Lemma kl_trans l1 l2 l3 :
  keeps_loaded l1 l2 -> keeps_loaded l2 l3 -> keeps_loaded l1 l3.
Proof.
  intros H12 H23 h f Hf.
  destruct (H12 h f Hf) as (f2 & Hf2 & Ho2 & Hl2).
  destruct (H23 h f2 Hf2) as (f3 & Hf3 & Ho3 & Hl3).
  exists f3; split; [exact Hf3|split; [congruence|auto]].
Qed.

Lemma kl_update_nth l0 l h g :
  keeps_flag g -> keeps_loaded l0 l -> keeps_loaded l0 (update_nth h g l).
Proof.
  intros Hg H k f Hf; destruct (H k f Hf) as (f1 & Hf1 & Ho & Hl).
  rewrite nth_error_update_nth, Hf1; destruct (k =? h)%nat.
  - exists (g f1); destruct (Hg f1) as [Hgo Hgl]; cbn [option_map].
    split; [reflexivity|split; [congruence|auto]].
  - exists f1; auto.
Qed.

Lemma kl_map l0 l g :
  keeps_flag g -> keeps_loaded l0 l -> keeps_loaded l0 (map g l).
Proof.
  intros Hg H k f Hf; destruct (H k f Hf) as (f1 & Hf1 & Ho & Hl).
  rewrite nth_error_map, Hf1; exists (g f1); destruct (Hg f1) as [Hgo Hgl].
  split; [reflexivity|split; [congruence|auto]].
Qed.

Lemma kl_app l0 l extra :
  keeps_loaded l0 l -> keeps_loaded l0 (l ++ extra).
Proof.
  intros H k f Hf; destruct (H k f Hf) as (f1 & Hf1 & Ho & Hl).
  exists f1; split; [|auto].
  rewrite nth_error_app1; [exact Hf1|].
  apply nth_error_Some; congruence.
Qed.

Ltac flag :=
  let f := fresh "f" in
  let Hf := fresh "Hf" in
  intros f; try destruct (if_attached f);
  (split; [reflexivity
          | first [intros Hf; exact Hf | intros _; reflexivity]]).

Lemma iframes_updateNavButtons q : iframes (updateNavButtons q) = iframes q.
Proof.
  unfold updateNavButtons; destruct (getActiveTab (bs q)); reflexivity.
Qed.

Lemma kl_startLoadTimeout l0 h u q :
  keeps_loaded l0 (iframes q) ->
  keeps_loaded l0 (iframes (startLoadTimeout h u q)).
Proof.
  intros H; unfold startLoadTimeout.
  destruct (nth_error (iframes q) h) as [f|]; [|exact H].
  destruct (handle_truthy (loadTimeout f));
    cbn [iframes on_iframe on_iframes setTimeout clearTimeout set_timers];
    (apply kl_update_nth; [flag|exact H]).
Qed.

Lemma kl_signal_received l0 h q :
  keeps_loaded l0 (iframes q) ->
  keeps_loaded l0 (iframes (signal_received h q)).
Proof.
  intros H; unfold signal_received.
  destruct (nth_error (iframes q) h) as [f|]; [|exact H].
  destruct (handle_truthy (loadTimeout f));
    cbn [iframes on_iframe on_iframes hideLoading on_view clearTimeout
         set_timers];
    repeat (apply kl_update_nth; [flag|]); exact H.
Qed.

Ltac kl H :=
  repeat first
    [ exact H
    | rewrite iframes_updateNavButtons
    | apply kl_startLoadTimeout
    | apply kl_signal_received
    | apply kl_update_nth; [flag|]
    | apply kl_map; [flag|]
    | apply kl_app
    | progress cbn [iframes bs on_bs on_view on_iframes on_iframe set_timers
                    set_clock showLoading hideLoading showWelcomeScreen
                    hideWelcomeScreen showError hideError updateTabBar
                    setTimeout clearTimeout createTabIframe fst snd] ].

Lemma kl_switchTab l0 tabId q :
  keeps_loaded l0 (iframes q) ->
  keeps_loaded l0 (iframes (switchTab tabId q)).
Proof.
  intros Hq; unfold switchTab; cbv zeta.
  match goal with
  | |- context [getActiveTab (bs ?p)] => set (p3 := p)
  end.
  assert (H3 : keeps_loaded l0 (iframes p3)) by (unfold p3; kl Hq).
  clearbody p3.
  destruct (getActiveTab (bs p3)) as [tab|]; [|exact H3].
  destruct (tab_iframe tab) as [h|]; [kl H3|].
  destruct (truthy (tab_url tab)
            && negb (str_eqb (tab_url tab) (js "about:blank")));
    kl H3.
Qed.

Lemma kl_closeTab l0 tabId q :
  keeps_loaded l0 (iframes q) ->
  keeps_loaded l0 (iframes (closeTab tabId q)).
Proof.
  intros Hq; unfold closeTab.
  destruct (length (tabs (bs q)) =? 1)%nat; [exact Hq|].
  destruct (removeTab (bs q) tabId) as [b1 detached]; cbv zeta.
  set (q1 := on_view _ _).
  assert (H1 : keeps_loaded l0 (iframes q1))
    by (subst q1; destruct detached; kl Hq).
  clearbody q1.
  destruct (activeTabId (bs q1)) as [a|]; [destruct (truthy a)|];
    try (apply kl_switchTab; exact H1);
    destruct (tabs (bs q1));
    try (apply kl_switchTab; exact H1); exact H1.
Qed.

Lemma kl_navigateToUrl l0 url q :
  keeps_loaded l0 (iframes q) ->
  keeps_loaded l0 (iframes (navigateToUrl URL_hostname url q)).
Proof.
  intros Hq; unfold navigateToUrl.
  destruct (getActiveTab (bs q)) as [tab|]; [|exact Hq].
  destruct (sanitizeUrl URL_hostname url) as [s|]; [|exact Hq].
  cbv zeta.
  destruct (URL_hostname s) as [host|]; destruct (tab_iframe tab) as [h|];
    kl Hq.
Qed.

Lemma kl_addTab_page l0 now_id now_ts url q :
  keeps_loaded l0 (iframes q) ->
  keeps_loaded l0 (iframes (addTab_page URL_hostname now_id now_ts url q)).
Proof.
  intros Hq; unfold addTab_page.
  destruct (if truthy url then sanitizeUrl URL_hostname url else Some [])
    as [s|]; [|exact Hq].
  destruct (addTab (bs q) now_id now_ts s) as [b1 [tab|]]; [|exact Hq].
  cbv zeta.
  destruct (truthy s && negb (str_eqb s (js "about:blank")));
    [apply kl_navigateToUrl|]; apply kl_switchTab; exact Hq.
Qed.

Lemma kl_history_button l0 can go q :
  keeps_loaded l0 (iframes q) ->
  keeps_loaded l0 (iframes (history_button can go q)).
Proof.
  intros Hq; unfold history_button.
  destruct (getActiveTab (bs q)) as [tab|]; [|exact Hq].
  destruct (tab_iframe tab) as [h|]; [|exact Hq].
  destruct (can (bs q) (tab_id tab)); [|exact Hq].
  destruct (go (bs q) (tab_id tab)) as [b1 [| |u]]; cbv zeta;
    try exact Hq.
  destruct (truthy u); kl Hq.
Qed.

Lemma kl_reload l0 q :
  keeps_loaded l0 (iframes q) -> keeps_loaded l0 (iframes (reload q)).
Proof.
  intros Hq; unfold reload.
  destruct (getActiveTab (bs q)) as [tab|]; [|exact Hq].
  destruct (tab_iframe tab); exact Hq.
Qed.

Lemma kl_on_load l0 h q :
  keeps_loaded l0 (iframes q) -> keeps_loaded l0 (iframes (on_load h q)).
Proof.
  intros Hq; unfold on_load; destruct (nth_error (iframes q) h); kl Hq.
Qed.

Lemma kl_on_error l0 h q :
  keeps_loaded l0 (iframes q) -> keeps_loaded l0 (iframes (on_error h q)).
Proof.
  intros Hq; unfold on_error; destruct (nth_error (iframes q) h); kl Hq.
Qed.

Lemma iframes_run_callback tm pr q :
  iframes (run_callback URL_hostname tm pr q) = iframes q.
Proof.
  unfold run_callback; destruct (tm_cb tm) as [h|h host|h u].
  - unfold settle; destruct (nth_error (iframes q) h) as [f|]; [|reflexivity].
    cbv zeta.
    destruct (probe_document pr) as [title|];
      [destruct (truthy title)|];
      destruct (URL_hostname (if_src f)) as [host|];
      try destruct (probe_window pr); reflexivity.
  - unfold recheck; destruct (nth_error (iframes q) h); [|reflexivity].
    destruct (is_flex (errorDisplay (view q))); [reflexivity|].
    destruct (probe_document pr); reflexivity.
  - unfold load_timeout; destruct (nth_error (iframes q) h) as [f|];
      [|reflexivity].
    destruct (hasLoaded f); [reflexivity|].
    destruct (URL_hostname u); reflexivity.
Qed.

Lemma kl_step t e q q' :
  step URL_hostname t e q = Some q' ->
  keeps_loaded (iframes q) (iframes q').
Proof.
  unfold step; destruct (t <? clock q)%N; [discriminate|].
  assert (Hc : keeps_loaded (iframes q) (iframes (set_clock t q)))
    by apply kl_refl.
  set (qc := set_clock t q) in *; clearbody qc.
  destruct e as [n1 n2|n1 n2|k|k|text|url| | | | |h|h|id pr]; intros H.
  - injection H as <-; apply kl_addTab_page; exact Hc.
  - injection H as <-; apply kl_addTab_page; exact Hc.
  - destruct (nth_error (tabBar (view qc)) k); [|discriminate].
    injection H as <-; apply kl_switchTab; exact Hc.
  - destruct (nth_error (tabBar (view qc)) k); [|discriminate].
    injection H as <-; apply kl_closeTab; exact Hc.
  - injection H as <-; apply kl_navigateToUrl; exact Hc.
  - injection H as <-; apply kl_navigateToUrl; exact Hc.
  - injection H as <-; apply kl_history_button; exact Hc.
  - injection H as <-; apply kl_history_button; exact Hc.
  - injection H as <-; apply kl_reload; exact Hc.
  - injection H as <-.
    match goal with |- context [truthy ?u] => destruct (truthy u) end;
      [apply kl_navigateToUrl|]; exact Hc.
  - destruct (nth_error (iframes qc) h); [|discriminate].
    injection H as <-; apply kl_on_load; exact Hc.
  - destruct (nth_error (iframes qc) h); [|discriminate].
    injection H as <-; apply kl_on_error; exact Hc.
  - destruct (find_timer id qc) as [tm|]; [|discriminate].
    destruct (t <? tm_due tm)%N; [discriminate|].
    injection H as <-; rewrite iframes_run_callback; exact Hc.
Qed.

Lemma kl_run es q q' :
  run URL_hostname es q = Some q' -> keeps_loaded (iframes q) (iframes q').
Proof.
  revert q; induction es as [|[t e] es IH]; cbn [run]; intros q H.
  - injection H as <-; apply kl_refl.
  - destruct (step URL_hostname t e q) as [q1|] eqn:Hs; [|discriminate].
    eapply kl_trans; [eapply kl_step; exact Hs | apply IH; exact H].
Qed.

(** Both listeners set [hasLoaded]. *)
Lemma signal_sets_flag h q f :
  nth_error (iframes q) h = Some f ->
  exists f', nth_error (iframes (signal_received h q)) h = Some f'
             /\ hasLoaded f' = true.
Proof.
  intros Hf; unfold signal_received; rewrite Hf.
  destruct (handle_truthy (loadTimeout f));
    cbn [iframes on_iframe on_iframes hideLoading on_view clearTimeout
         set_timers];
    rewrite !nth_error_update_nth, Nat.eqb_refl, Hf; cbn [option_map];
    eexists; split; reflexivity.
Qed.

(** X11.  The load timeout guards only the first load of an iframe.  Once
    the iframe has fired [load] or [error], its [hasLoaded] is set and no
    handler clears it again ([navigateToUrl] assigns the property
    [_hasLoaded] of the element, not the variable the callbacks read):
    whatever happens afterwards, later navigations in the same tab
    included, a timeout callback of this iframe returns without touching
    the page. *)
Theorem load_timeout_dead_after_first_signal
        (p p' : Page) (h : nat) (es : list (N * Event)) :
  h < length (iframes p) ->
  run URL_hostname es (on_load h p) = Some p'
  \/ run URL_hostname es (on_error h p) = Some p' ->
  (exists f', nth_error (iframes p') h = Some f' /\ hasLoaded f' = true)
  /\ (forall tm pr url,
         tm_cb tm = LoadTimeout h url ->
         run_callback URL_hostname tm pr p' = p').
Proof.
  intros Hh Hrun.
  destruct (nth_error (iframes p) h) as [f|] eqn:Hf;
    [|apply nth_error_None in Hf; lia].
  destruct (signal_sets_flag h p Hf) as (f1 & Hf1 & Hl1).
  assert (Hkl : exists p1, iframes p1 = iframes (signal_received h p)
                           /\ run URL_hostname es p1 = Some p').
  { destruct Hrun as [Hr|Hr]; [exists (on_load h p) | exists (on_error h p)];
      (split; [|exact Hr]).
    - unfold on_load; rewrite Hf; reflexivity.
    - unfold on_error; rewrite Hf; reflexivity. }
  destruct Hkl as (p1 & Hp1 & Hr).
  pose proof (kl_run _ _ Hr) as Hk; rewrite Hp1 in Hk.
  destruct (Hk h f1 Hf1) as (f' & Hf' & _ & Hl').
  split; [exists f'; auto|].
  intros tm pr url Hcb; unfold run_callback, load_timeout.
  rewrite Hcb, Hf', (Hl' Hl1); reflexivity.
Qed.

End LoadedFlag.

(* ===================================================================== *)
(** ** The iframe on display *)
(* ===================================================================== *)

Section VisibleIframe.

Import V2.

Variable URL_hostname : jsstring -> option jsstring.

Ltac proj_norm :=
  repeat first
    [ rewrite bs_updateNavButtons
    | rewrite iframes_updateNavButtons
    | rewrite bs_startLoadTimeout
    | rewrite bs_signal_received
    | progress cbn [bs iframes on_bs on_view on_iframes on_iframe set_timers
                    set_clock showLoading hideLoading showWelcomeScreen
                    hideWelcomeScreen showError hideError updateTabBar
                    setTimeout clearTimeout createTabIframe fst snd] ].

(** *** The active tab under updates of one tab *)

Lemma find_update_first_other a i (g : Tab -> Tab) l t :
  (forall x, tab_id (g x) = tab_id x) ->
  find (has_id a) l = Some t ->
  exists t', find (has_id a) (update_first (has_id i) g l) = Some t'
             /\ (t' = t \/ t' = g t).
Proof.
  intros Hg; induction l as [|x l IH]; cbn [find update_first];
    [discriminate|].
  assert (Hx : has_id a (g x) = has_id a x)
    by (unfold has_id; rewrite Hg; reflexivity).
  destruct (has_id i x); cbn [find].
  - rewrite Hx; destruct (has_id a x).
    + intros [= <-]; eauto.
    + intros H; exists t; auto.
  - destruct (has_id a x).
    + intros [= <-]; eauto.
    + exact IH.
Qed.

Lemma find_update_first_none a i (g : Tab -> Tab) l :
  (forall x, tab_id (g x) = tab_id x) ->
  find (has_id a) l = None ->
  find (has_id a) (update_first (has_id i) g l) = None.
Proof.
  intros Hg; induction l as [|x l IH]; cbn [find update_first]; [auto|].
  assert (Hx : has_id a (g x) = has_id a x)
    by (unfold has_id; rewrite Hg; reflexivity).
  destruct (has_id i x); cbn [find].
  - rewrite Hx; destruct (has_id a x); [discriminate|auto].
  - destruct (has_id a x); [discriminate|exact IH].
Qed.

Lemma active_iframe_update b i g :
  (forall t, tab_id (g t) = tab_id t) ->
  (forall t, tab_iframe (g t) = tab_iframe t) ->
  active_iframe (set_tabs b (update_first (has_id i) g (tabs b)))
  = active_iframe b.
Proof.
  intros Hid Hif; unfold active_iframe, getActiveTab.
  cbn [set_tabs activeTabId tabs].
  destruct (activeTabId b) as [a|]; [|reflexivity].
  destruct (find (has_id a) (tabs b)) as [t|] eqn:Hf.
  - destruct (@find_update_first_other a i g _ _ Hid Hf)
      as (t' & -> & [->| ->]); cbn [option_map]; rewrite ?Hif; reflexivity.
  - rewrite find_update_first_none by assumption; reflexivity.
Qed.

Lemma active_iframe_updateTabUrl b i u :
  active_iframe (updateTabUrl b i u) = active_iframe b.
Proof. apply active_iframe_update; reflexivity. Qed.

Lemma active_iframe_updateTabTitle b i u :
  active_iframe (updateTabTitle b i u) = active_iframe b.
Proof. apply active_iframe_update; reflexivity. Qed.

Lemma active_iframe_addToHistory b i u :
  active_iframe (addToHistory b i u) = active_iframe b.
Proof. apply active_iframe_update; reflexivity. Qed.

Lemma active_iframe_goBack b i :
  active_iframe (fst (goBack b i)) = active_iframe b.
Proof.
  unfold goBack; destruct (find (has_id i) (tabs b)); [|reflexivity].
  destruct (canGoBack b i); [|reflexivity].
  apply active_iframe_update; reflexivity.
Qed.

Lemma active_iframe_goForward b i :
  active_iframe (fst (goForward b i)) = active_iframe b.
Proof.
  unfold goForward; destruct (find (has_id i) (tabs b)); [|reflexivity].
  destruct (canGoForward b i); [|reflexivity].
  apply active_iframe_update; reflexivity.
Qed.

Lemma active_iframe_some b h :
  active_iframe b = Some (Some h) ->
  exists tab, getActiveTab b = Some tab /\ tab_iframe tab = Some h.
Proof.
  unfold active_iframe; destruct (getActiveTab b) as [tab|]; [|discriminate].
  cbn [option_map]; intros [= H]; eauto.
Qed.

Lemma active_iframe_attach b a h :
  activeTabId b = Some a ->
  find (has_id a) (tabs b) <> None ->
  active_iframe
    (set_tabs b (update_first (has_id a) (set_iframe (Some h)) (tabs b)))
  = Some (Some h).
Proof.
  intros Ha Hf; unfold active_iframe, getActiveTab.
  cbn [set_tabs activeTabId tabs]; rewrite Ha.
  rewrite find_update_first by reflexivity.
  destruct (find (has_id a) (tabs b)); [reflexivity|contradiction].
Qed.

(** *** What is on display under updates of the iframes *)

Lemma vis_update_nth h (g : IFrame -> IFrame) l :
  (forall f, on_display (g f) = on_display f) ->
  map on_display (update_nth h g l) = map on_display l.
Proof.
  intros Hg; revert h; induction l as [|x l IH]; intros [|h];
    cbn [update_nth map]; rewrite ?Hg, ?IH; reflexivity.
Qed.

Lemma vis_startLoadTimeout h u q :
  map on_display (iframes (startLoadTimeout h u q))
  = map on_display (iframes q).
Proof.
  unfold startLoadTimeout.
  destruct (nth_error (iframes q) h) as [f|]; [|reflexivity].
  destruct (handle_truthy (loadTimeout f)); proj_norm;
    apply vis_update_nth; reflexivity.
Qed.

Lemma vis_signal_received h q :
  map on_display (iframes (signal_received h q))
  = map on_display (iframes q).
Proof.
  unfold signal_received.
  destruct (nth_error (iframes q) h) as [f|]; [|reflexivity].
  destruct (handle_truthy (loadTimeout f)); proj_norm;
    rewrite ?vis_update_nth by reflexivity; reflexivity.
Qed.

Lemma shows_frame q q' :
  map on_display (iframes q') = map on_display (iframes q) ->
  active_iframe (bs q') = active_iframe (bs q) ->
  shows_active_only q -> shows_active_only q'.
Proof.
  intros Hd Ha Hq k f' Hk Hat Hdis.
  assert (Hn : nth_error (map on_display (iframes q)) k
               = Some (true, DBlock)).
  { rewrite <- Hd, nth_error_map, Hk; cbn [option_map]; unfold on_display.
    rewrite Hat, Hdis; reflexivity. }
  rewrite nth_error_map in Hn.
  destruct (nth_error (iframes q) k) as [f|] eqn:Hf; [|discriminate].
  cbn [option_map] in Hn; unfold on_display in Hn.
  injection Hn as Hat0 Hdis0.
  destruct (Hq k f Hf Hat0 Hdis0) as (tab & Hg & Hi).
  apply active_iframe_some; rewrite Ha; unfold active_iframe.
  rewrite Hg, <- Hi; reflexivity.
Qed.

(** *** [switchTab] puts the tab's iframe on display, and no other *)

Lemma hidden_nth l k f :
  nth_error (map (fun f => if if_attached f then set_display DNone f else f)
                 l) k = Some f ->
  if_attached f = true -> if_display f = DNone.
Proof.
  rewrite nth_error_map; destruct (nth_error l k) as [f0|]; [|discriminate].
  cbn [option_map]; intros [= <-].
  destruct (if_attached f0) eqn:E; [reflexivity|].
  rewrite E; discriminate.
Qed.

Lemma shows_switchTab tabId q : shows_active_only (switchTab tabId q).
Proof.
  unfold switchTab; cbv zeta.
  match goal with
  | |- context [getActiveTab (bs ?p)] => set (p3 := p)
  end.
  assert (H3 : forall k f, nth_error (iframes p3) k = Some f ->
                           if_attached f = true -> if_display f = DNone).
  { unfold p3; cbn [iframes on_view on_iframes on_bs]; apply hidden_nth. }
  clearbody p3.
  destruct (getActiveTab (bs p3)) as [tab|] eqn:Hg.
  2: { intros k f Hk Ha Hd; rewrite (H3 k f Hk Ha) in Hd; discriminate. }
  destruct (tab_iframe tab) as [h|] eqn:Hi.
  - intros k f; proj_norm; rewrite nth_error_update_nth.
    destruct (k =? h)%nat eqn:E.
    + apply Nat.eqb_eq in E; subst k; intros _ _ _; exists tab; auto.
    + intros Hk Ha Hd; rewrite (H3 k f Hk Ha) in Hd; discriminate.
  - destruct (truthy (tab_url tab)
              && negb (str_eqb (tab_url tab) (js "about:blank"))).
    + intros k f; proj_norm; rewrite !nth_error_update_nth.
      destruct (k =? length (iframes p3))%nat eqn:E.
      * apply Nat.eqb_eq in E; subst k; intros _ _ _.
        apply active_iframe_some.
        unfold getActiveTab in Hg.
        destruct (activeTabId (bs p3)) as [a|] eqn:Ha; [|discriminate].
        destruct (find_some_in _ _ Hg) as [_ ->].
        apply active_iframe_attach; [exact Ha | congruence].
      * apply Nat.eqb_neq in E; intros Hk Ha Hd.
        destruct (lt_dec k (length (iframes p3))) as [Hlt|Hge].
        -- rewrite nth_error_app1 in Hk by exact Hlt.
           rewrite (H3 k f Hk Ha) in Hd; discriminate.
        -- rewrite nth_error_app2 in Hk by lia.
           destruct (k - length (iframes p3)) as [|[|n]] eqn:Ek;
             [lia|discriminate|discriminate].
    + intros k f; proj_norm.
      intros Hk Ha Hd; rewrite (H3 k f Hk Ha) in Hd; discriminate.
Qed.

(** *** [closeTab] *)

Lemma shows_closeTab tabId q :
  shows_active_only q -> shows_active_only (closeTab tabId q).
Proof.
  intros Hq; unfold closeTab.
  destruct (length (tabs (bs q)) =? 1)%nat eqn:E; [exact Hq|].
  apply Nat.eqb_neq in E.
  destruct (removeTab (bs q) tabId) as [b1 detached] eqn:Hr; cbv zeta.
  set (q1 := on_view _ _).
  assert (Hb1 : bs q1 = b1) by (subst q1; destruct detached; reflexivity).
  assert (Hw : tabs b1 = [] -> shows_active_only (showWelcomeScreen q1)).
  { intros Hnil.
    destruct (in_dec (list_eq_dec N.eq_dec) tabId (map tab_id (tabs (bs q))))
      as [Hin|Hout].
    - exfalso.
      destruct (removeTab_found (bs q) tabId Hin)
        as (l1 & t & l2 & Heq & _ & _ & Htabs & _).
      rewrite Hr in Htabs; cbn [fst] in Htabs; rewrite Hnil in Htabs.
      symmetry in Htabs; apply app_eq_nil in Htabs.
      destruct Htabs as [-> ->]; rewrite Heq in E; apply E; reflexivity.
    - rewrite removeTab_unknown in Hr by exact Hout.
      injection Hr as <- <-; subst q1; exact Hq. }
  clearbody q1; subst b1.
  destruct (activeTabId (bs q1)) as [a|]; [destruct (truthy a)|];
    try apply shows_switchTab;
    destruct (tabs (bs q1)); try apply shows_switchTab; auto.
Qed.

(** *** [navigateToUrl] *)

Lemma so_refl h l : same_off h l l.
Proof. intros k _; reflexivity. Qed.

Lemma so_update_at h g l0 l :
  same_off h l0 l -> same_off h l0 (update_nth h g l).
Proof.
  intros H k Hk; rewrite nth_error_map, nth_error_update_nth.
  replace (k =? h)%nat with false by (symmetry; apply Nat.eqb_neq; exact Hk).
  rewrite <- nth_error_map; apply H; exact Hk.
Qed.

Lemma so_app h l0 l x :
  length l = h -> same_off h l0 l -> same_off h l0 (l ++ [x]).
Proof.
  intros Hl H k Hk; rewrite <- (H k Hk), map_app.
  destruct (lt_dec k h) as [Hlt|Hge].
  - apply nth_error_app1; rewrite length_map; lia.
  - rewrite nth_error_app2 by (rewrite length_map; lia).
    rewrite length_map.
    replace (nth_error (map on_display l) k) with (@None (bool * display))
      by (symmetry; apply nth_error_None; rewrite length_map; lia).
    destruct (k - length l) as [|[|n]] eqn:Ek; [lia|reflexivity|reflexivity].
Qed.

Lemma so_startLoadTimeout h u l0 q :
  same_off h l0 (iframes q) ->
  same_off h l0 (iframes (startLoadTimeout h u q)).
Proof.
  intros H; unfold startLoadTimeout.
  destruct (nth_error (iframes q) h) as [f|]; [|exact H].
  destruct (handle_truthy (loadTimeout f)); proj_norm;
    apply so_update_at; exact H.
Qed.

Lemma shows_at h q q' tab :
  getActiveTab (bs q) = Some tab ->
  tab_iframe tab = Some h \/ tab_iframe tab = None ->
  shows_active_only q ->
  same_off h (iframes q) (iframes q') ->
  active_iframe (bs q') = Some (Some h) ->
  shows_active_only q'.
Proof.
  intros Hg Hi Hq Hoff Hact k f' Hk Hat Hdis.
  destruct (Nat.eq_dec k h) as [->|Hne];
    [apply active_iframe_some; exact Hact|].
  exfalso.
  assert (Hn : nth_error (map on_display (iframes q)) k
               = Some (true, DBlock)).
  { rewrite <- (Hoff k Hne), nth_error_map, Hk; cbn [option_map].
    unfold on_display; rewrite Hat, Hdis; reflexivity. }
  rewrite nth_error_map in Hn.
  destruct (nth_error (iframes q) k) as [f|] eqn:Hf; [|discriminate].
  cbn [option_map] in Hn; unfold on_display in Hn.
  injection Hn as Hat0 Hdis0.
  destruct (Hq k f Hf Hat0 Hdis0) as (tab0 & Hg0 & Hi0).
  rewrite Hg in Hg0; injection Hg0 as <-.
  destruct Hi as [Hi|Hi]; rewrite Hi in Hi0; congruence.
Qed.

Ltac so H :=
  repeat first
    [ exact H
    | apply so_refl
    | apply so_startLoadTimeout
    | apply so_update_at
    | apply so_app; [reflexivity|]
    | progress proj_norm ].

Lemma shows_navigateToUrl url q :
  shows_active_only q ->
  shows_active_only (navigateToUrl URL_hostname url q).
Proof.
  intros Hq; unfold navigateToUrl.
  destruct (getActiveTab (bs q)) as [tab|] eqn:Hg; [|exact Hq].
  destruct (sanitizeUrl URL_hostname url) as [s|]; [|exact Hq].
  cbv zeta.
  assert (Hact : exists a, activeTabId (bs q) = Some a /\ tab_id tab = a
                           /\ find (has_id a) (tabs (bs q)) = Some tab).
  { unfold getActiveTab in Hg.
    destruct (activeTabId (bs q)) as [a|]; [|discriminate].
    exists a; destruct (find_some_in _ _ Hg) as [_ Hid]; auto. }
  destruct Hact as (a & Ha & Hid & Hf).
  destruct (URL_hostname s) as [host|]; destruct (tab_iframe tab) as [h|] eqn:Hi.
  - apply (@shows_at h q _ tab Hg); [auto|exact Hq| |].
    + so (@so_refl h (iframes q)).
    + proj_norm.
      rewrite active_iframe_updateTabTitle, active_iframe_addToHistory,
        active_iframe_updateTabUrl.
      unfold active_iframe; rewrite Hg; cbn [option_map]; rewrite Hi.
      reflexivity.
  - apply (@shows_at (length (iframes q)) q _ tab Hg); [auto|exact Hq| |].
    + so (@so_refl (length (iframes q)) (iframes q)).
    + proj_norm; rewrite Hid; apply active_iframe_attach; [exact Ha|].
      cbn [updateTabTitle addToHistory updateTabUrl set_tabs tabs].
      destruct (@find_update_first_other a a (set_url s) _ _
                  ltac:(reflexivity) Hf) as (t1 & H1 & _).
      destruct (@find_update_first_other a a (push s) _ _
                  ltac:(reflexivity) H1) as (t2 & H2 & _).
      destruct (@find_update_first_other a a
                  (set_title (or_else host (js "Untitled"))) _ _
                  ltac:(reflexivity) H2) as (t3 & H3 & _).
      rewrite H3; discriminate.
  - apply (@shows_at h q _ tab Hg); [auto|exact Hq| |].
    + so (@so_refl h (iframes q)).
    + proj_norm.
      rewrite active_iframe_updateTabTitle, active_iframe_addToHistory,
        active_iframe_updateTabUrl.
      unfold active_iframe; rewrite Hg; cbn [option_map]; rewrite Hi.
      reflexivity.
  - apply (@shows_at (length (iframes q)) q _ tab Hg); [auto|exact Hq| |].
    + so (@so_refl (length (iframes q)) (iframes q)).
    + proj_norm; rewrite Hid; apply active_iframe_attach; [exact Ha|].
      cbn [updateTabTitle addToHistory updateTabUrl set_tabs tabs].
      destruct (@find_update_first_other a a (set_url s) _ _
                  ltac:(reflexivity) Hf) as (t1 & H1 & _).
      destruct (@find_update_first_other a a (push s) _ _
                  ltac:(reflexivity) H1) as (t2 & H2 & _).
      destruct (@find_update_first_other a a
                  (set_title (or_else (js "Navigating...") (js "Untitled")))
                  _ _ ltac:(reflexivity) H2) as (t3 & H3 & _).
      rewrite H3; discriminate.
Qed.

Lemma shows_addTab_page now_id now_ts url q :
  shows_active_only (addTab_page URL_hostname now_id now_ts url q)
  \/ addTab_page URL_hostname now_id now_ts url q = q.
Proof.
  unfold addTab_page.
  destruct (if truthy url then sanitizeUrl URL_hostname url else Some [])
    as [s|]; [|auto].
  destruct (addTab (bs q) now_id now_ts s) as [b1 [tab|]]; [|auto].
  cbv zeta; left.
  destruct (truthy s && negb (str_eqb s (js "about:blank")));
    [apply shows_navigateToUrl|]; apply shows_switchTab.
Qed.

(** *** The other handlers *)

Lemma shows_history_button can go q :
  (forall b i, active_iframe (fst (go b i)) = active_iframe b) ->
  shows_active_only q -> shows_active_only (history_button can go q).
Proof.
  intros Hgo Hq; unfold history_button.
  destruct (getActiveTab (bs q)) as [tab|]; [|exact Hq].
  destruct (tab_iframe tab) as [h|]; [|exact Hq].
  destruct (can (bs q) (tab_id tab)); [|exact Hq].
  pose proof (Hgo (bs q) (tab_id tab)) as Hb.
  destruct (go (bs q) (tab_id tab)) as [b1 v]; cbn [fst] in Hb; cbv zeta.
  assert (H1 : shows_active_only (on_bs (fun _ => b1) q))
    by (apply (shows_frame (q := q)); [reflexivity|exact Hb|exact Hq]).
  destruct v as [| |u]; try exact H1.
  destruct (truthy u); [|exact H1].
  apply (shows_frame (q := q)); [| |exact Hq]; proj_norm.
  - apply vis_update_nth; reflexivity.
  - rewrite active_iframe_updateTabUrl; exact Hb.
Qed.

Lemma shows_reload q : shows_active_only q -> shows_active_only (reload q).
Proof.
  intros Hq; unfold reload.
  destruct (getActiveTab (bs q)) as [tab|]; [|exact Hq].
  destruct (tab_iframe tab); exact Hq.
Qed.

Lemma shows_on_load h q :
  shows_active_only q -> shows_active_only (on_load h q).
Proof.
  intros Hq; unfold on_load; destruct (nth_error (iframes q) h); [|exact Hq].
  apply (shows_frame (q := q)); [| |exact Hq]; proj_norm;
    [apply vis_signal_received|reflexivity].
Qed.

Lemma shows_on_error h q :
  shows_active_only q -> shows_active_only (on_error h q).
Proof.
  intros Hq; unfold on_error; destruct (nth_error (iframes q) h); [|exact Hq].
  apply (shows_frame (q := q)); [| |exact Hq]; proj_norm;
    [apply vis_signal_received|reflexivity].
Qed.

Lemma active_iframe_run_callback tm pr q :
  active_iframe (bs (run_callback URL_hostname tm pr q))
  = active_iframe (bs q).
Proof.
  unfold run_callback; destruct (tm_cb tm) as [h|h host|h u].
  - unfold settle; destruct (nth_error (iframes q) h) as [f|]; [|reflexivity].
    cbv zeta.
    destruct (probe_document pr) as [title|];
      [destruct (truthy title)|];
      destruct (URL_hostname (if_src f)) as [host|];
      try destruct (probe_window pr);
      proj_norm; rewrite ?active_iframe_updateTabTitle; reflexivity.
  - rewrite bs_recheck; reflexivity.
  - rewrite bs_load_timeout; reflexivity.
Qed.

Lemma shows_step t e q q' :
  shows_active_only q -> step URL_hostname t e q = Some q' ->
  shows_active_only q'.
Proof.
  intros Hq; unfold step; destruct (t <? clock q)%N; [discriminate|].
  assert (Hc : shows_active_only (set_clock t q)) by exact Hq.
  set (qc := set_clock t q) in *; clearbody qc.
  destruct e as [n1 n2|n1 n2|k|k|text|url| | | | |h|h|id pr]; intros H.
  - injection H as <-.
    destruct (shows_addTab_page n1 n2 [] qc) as [Hs| ->]; assumption.
  - injection H as <-.
    destruct (shows_addTab_page n1 n2 [] qc) as [Hs| ->]; assumption.
  - destruct (nth_error (tabBar (view qc)) k); [|discriminate].
    injection H as <-; apply shows_switchTab.
  - destruct (nth_error (tabBar (view qc)) k); [|discriminate].
    injection H as <-; apply shows_closeTab; exact Hc.
  - injection H as <-; apply shows_navigateToUrl; exact Hc.
  - injection H as <-; apply shows_navigateToUrl; exact Hc.
  - injection H as <-; apply shows_history_button;
      [apply active_iframe_goBack|exact Hc].
  - injection H as <-; apply shows_history_button;
      [apply active_iframe_goForward|exact Hc].
  - injection H as <-; apply shows_reload; exact Hc.
  - injection H as <-.
    match goal with |- context [truthy ?u] => destruct (truthy u) end;
      [apply shows_navigateToUrl|]; exact Hc.
  - destruct (nth_error (iframes qc) h); [|discriminate].
    injection H as <-; apply shows_on_load; exact Hc.
  - destruct (nth_error (iframes qc) h); [|discriminate].
    injection H as <-; apply shows_on_error; exact Hc.
  - destruct (find_timer id qc) as [tm|]; [|discriminate].
    destruct (t <? tm_due tm)%N; [discriminate|].
    injection H as <-.
    apply (shows_frame (q := qc)); [| |exact Hc].
    + rewrite iframes_run_callback; reflexivity.
    + rewrite active_iframe_run_callback; reflexivity.
Qed.

Lemma shows_run es q q' :
  shows_active_only q -> run URL_hostname es q = Some q' ->
  shows_active_only q'.
Proof.
  revert q; induction es as [|[t e] es IH]; cbn [run]; intros q Hq H.
  - injection H as <-; exact Hq.
  - destruct (step URL_hostname t e q) as [q1|] eqn:Hs; [|discriminate].
    eapply IH; [eapply shows_step; eauto | exact H].
Qed.

(** X12.  In every reachable state the only iframe of the document with
    [display: block] is the iframe of the active tab; so at most one page
    is on display, and none when there is no active tab or the active tab
    has no iframe yet. *)
Theorem reachable_shows_active_only (p : Page) :
  reachable URL_hostname p ->
  shows_active_only p
  /\ (forall k1 k2 f1 f2,
         nth_error (iframes p) k1 = Some f1 ->
         nth_error (iframes p) k2 = Some f2 ->
         if_attached f1 = true -> if_display f1 = DBlock ->
         if_attached f2 = true -> if_display f2 = DBlock ->
         k1 = k2).
Proof.
  intros (p0 & es & Hi & Hr).
  assert (H0 : shows_active_only p0).
  { destruct Hi as (_ & _ & Hif & _); intros k f Hk.
    rewrite Hif in Hk; destruct k; discriminate. }
  pose proof (shows_run es H0 Hr) as Hp.
  split; [exact Hp|].
  intros k1 k2 f1 f2 H1 H2 Ha1 Hd1 Ha2 Hd2.
  destruct (Hp k1 f1 H1 Ha1 Hd1) as (t1 & Hg1 & Hi1).
  destruct (Hp k2 f2 H2 Ha2 Hd2) as (t2 & Hg2 & Hi2).
  congruence.
Qed.

End VisibleIframe.

(* ===================================================================== *)
(** ** What a navigation leaves behind *)
(* ===================================================================== *)

Section NavigationResult.

Import V2.

Variable URL_hostname : jsstring -> option jsstring.

Lemma updateNavButtons_active q tab :
  getActiveTab (bs q) = Some tab ->
  updateNavButtons q
  = on_view (set_nav (negb (canGoBack (bs q) (tab_id tab)))
                     (negb (canGoForward (bs q) (tab_id tab)))) q.
Proof. intros H; unfold updateNavButtons; rewrite H; reflexivity. Qed.

(** What [startLoadTimeout] leaves behind. *)
Lemma startLoadTimeout_armed h u q f :
  nth_error (iframes q) h = Some f ->
  bs (startLoadTimeout h u q) = bs q
  /\ view (startLoadTimeout h u q) = view q
  /\ nth_error (iframes (startLoadTimeout h u q)) h
     = Some (set_loadTimeout (Some (nextTimer q)) f)
  /\ In {| tm_id := nextTimer q; tm_due := (clock q + 10000)%N;
           tm_cb := LoadTimeout h u; tm_attempt := if_attempt f |}
        (timers (startLoadTimeout h u q)).
Proof.
  intros H; unfold startLoadTimeout; rewrite H.
  destruct (handle_truthy (loadTimeout f));
    cbn [bs view iframes timers nextTimer clock on_iframe on_iframes
         setTimeout clearTimeout set_timers];
    rewrite nth_error_update_nth, Nat.eqb_refl, H;
    (split; [reflexivity|split; [reflexivity|split; [reflexivity|]]]);
    apply in_or_app; right; left; reflexivity.
Qed.

Lemma visited_tab b a s title tab :
  activeTabId b = Some a ->
  find (has_id a) (tabs b) = Some tab ->
  getActiveTab (updateTabTitle (addToHistory (updateTabUrl b a s) a s) a title)
  = Some (set_title (or_else title (js "Untitled")) (push s (set_url s tab))).
Proof.
  intros Ha Hf; unfold getActiveTab.
  cbn [updateTabTitle addToHistory updateTabUrl set_tabs activeTabId tabs].
  rewrite Ha, !find_update_first, Hf by reflexivity; reflexivity.
Qed.

Lemma index_last (l : list jsstring) (u : jsstring) :
  index (l ++ [u]) (Z.of_nat (length (l ++ [u])) - 1) = VStr u.
Proof.
  unfold index; rewrite length_app; cbn [length].
  replace (Z.of_nat (length l + 1) - 1 <? 0)%Z with false
    by (symmetry; apply Z.ltb_ge; lia).
  replace (Z.to_nat (Z.of_nat (length l + 1) - 1)) with (length l) by lia.
  rewrite nth_error_app2, Nat.sub_diag by apply le_n; reflexivity.
Qed.

(** What [navigateToUrl] leaves behind, for a tab whose iframe is one of
    the iframes of the page. *)
Lemma navigate_result (p : Page) (url s : jsstring) (tab : Tab) :
  getActiveTab (bs p) = Some tab ->
  sanitizeUrl URL_hostname url = Some s ->
  (forall h, tab_iframe tab = Some h -> h < length (iframes p)) ->
  let p' := navigateToUrl URL_hostname url p in
  let h := match tab_iframe tab with
           | Some h => h
           | None => length (iframes p)
           end in
  (exists tab',
      getActiveTab (bs p') = Some tab'
      /\ tab_id tab' = tab_id tab
      /\ tab_url tab' = s
      /\ tab_title tab' = or_else (nav_title (URL_hostname s)) (js "Untitled")
      /\ tab_iframe tab' = Some h
      /\ index (tab_history tab') (tab_historyIndex tab') = VStr s
      /\ canGoForward (bs p') (tab_id tab) = false)
  /\ addressBar (view p') = s
  /\ loading (view p') = true
  /\ errorDisplay (view p') = DNone
  /\ welcomeDisplay (view p') = DNone
  /\ containerDisplay (view p') = DBlock
  /\ forwardDisabled (view p') = true
  /\ (exists f, nth_error (iframes p') h = Some f
                /\ if_src f = s /\ if_display f = DBlock
                /\ loadTimeout f = Some (nextTimer p))
  /\ (exists tm, In tm (timers p')
                 /\ tm_id tm = nextTimer p
                 /\ tm_due tm = (clock p + 10000)%N
                 /\ tm_cb tm = LoadTimeout h s).
Proof.
  intros Hg Hs Hh p' h.
  assert (Hact : exists a, activeTabId (bs p) = Some a /\ tab_id tab = a
                           /\ find (has_id a) (tabs (bs p)) = Some tab).
  { unfold getActiveTab in Hg.
    destruct (activeTabId (bs p)) as [a|]; [|discriminate].
    exists a; destruct (find_some_in _ _ Hg) as [_ Hid]; auto. }
  destruct Hact as (a & Ha & Hid & Hf).
  set (T := nav_title (URL_hostname s)).
  set (B := updateTabTitle (addToHistory (updateTabUrl (bs p) a s) a s) a T).
  set (tab2 := set_title (or_else T (js "Untitled")) (push s (set_url s tab))).
  assert (Hv : getActiveTab B = Some tab2) by (apply visited_tab; assumption).
  assert (Hf2 : find (has_id a) (tabs B) = Some tab2).
  { unfold getActiveTab in Hv; replace (activeTabId B) with (Some a) in Hv;
      exact Hv. }
  assert (Hfw : canGoForward B a = false).
  { unfold canGoForward; rewrite Hf2.
    unfold tab2, push;
      cbn [set_title set_history set_url tab_history tab_historyIndex].
    apply Z.ltb_irrefl. }
  assert (Hp' : exists Y fY,
             p' = on_iframe h (set_src s) (startLoadTimeout h s Y)
             /\ nth_error (iframes Y) h = Some fY
             /\ if_display fY = DBlock
             /\ bs Y = (match tab_iframe tab with
                        | Some _ => B
                        | None => set_tabs B (update_first (has_id a)
                                     (set_iframe (Some h)) (tabs B))
                        end)
             /\ view Y = set_container DBlock (set_welcome DNone
                          (set_error DNone (set_loading true
                            (set_nav (negb (canGoBack B a)) true
                               (set_addressBar s
                                  (view (updateTabBar
                                           (on_bs (fun _ => B) p))))))))
             /\ nextTimer Y = nextTimer p /\ clock Y = clock p).
  { unfold p'; rewrite (@navigateToUrl_titled URL_hostname url s p Hs).
    unfold navigate_titled; rewrite Hg; cbv zeta; fold T; rewrite Hid.
    match goal with
    | |- context [updateNavButtons ?q] =>
        rewrite (@updateNavButtons_active q tab2 Hv)
    end.
    change (tab_id tab2) with (tab_id tab); rewrite Hid.
    cbn [bs on_view on_bs updateTabBar]; fold B; rewrite Hfw.
    subst h; destruct (tab_iframe tab) as [h0|] eqn:Hi.
    - destruct (nth_error (iframes p) h0) as [f0|] eqn:Hf0;
        [|apply nth_error_None in Hf0; specialize (Hh h0 eq_refl); lia].
      eexists; eexists; split; [reflexivity|].
      cbn [bs view iframes nextTimer clock on_iframe on_iframes on_view on_bs
           showLoading hideError hideWelcomeScreen updateTabBar].
      rewrite !nth_error_update_nth, Nat.eqb_refl, Hf0.
      repeat split.
    - eexists; eexists; split; [reflexivity|].
      cbn [bs view iframes nextTimer clock on_iframe on_iframes on_view on_bs
           showLoading hideError hideWelcomeScreen updateTabBar
           createTabIframe fst snd].
      rewrite !nth_error_update_nth, Nat.eqb_refl.
      rewrite nth_error_app2, Nat.sub_diag by apply le_n.
      change (tab_id tab) with (tab_id tab). rewrite Hid.
      repeat split. }
  destruct Hp' as (Y & fY & Hp' & HfY & Hd & HbY & HvY & HnY & HcY).
  clearbody p'; subst p'.
  destruct (@startLoadTimeout_armed h s Y fY HfY) as (Hb & Hvw & Hn & Hin).
  cbn [bs view iframes timers on_iframe on_iframes].
  rewrite Hb, Hvw, HbY, HvY, nth_error_update_nth, Nat.eqb_refl, Hn.
  split; [|repeat split].
  - destruct (tab_iframe tab) as [h0|] eqn:Hi.
    + exists tab2; split; [exact Hv|].
      split; [reflexivity|split; [reflexivity|split; [reflexivity|]]].
      split; [exact Hi|split; [apply index_last|rewrite Hid; exact Hfw]].
    + exists (set_iframe (Some h) tab2).
      split.
      { unfold getActiveTab; cbn [set_tabs activeTabId tabs].
        replace (activeTabId B) with (Some a) by (symmetry; exact Ha).
        rewrite find_update_first, Hf2 by reflexivity; reflexivity. }
      split; [reflexivity|split; [reflexivity|split; [reflexivity|]]].
      split; [reflexivity|split; [apply index_last|]].
      rewrite Hid; unfold canGoForward; cbn [set_tabs tabs].
      rewrite find_update_first, Hf2 by reflexivity; cbn [option_map].
      unfold canGoForward in Hfw; rewrite Hf2 in Hfw; exact Hfw.
  - eexists; split; [reflexivity|].
    cbn [option_map set_src set_loadTimeout if_src if_display loadTimeout].
    rewrite HnY; auto.
  - eexists; split; [exact Hin|].
    cbn [tm_id tm_due tm_cb]; rewrite HnY, HcY; auto.
Qed.


(** *** Every [tab.iframe] is an iframe of the page *)

Lemma length_update_nth {A} (h : nat) (g : A -> A) (l : list A) :
  length (update_nth h g l) = length l.
Proof.
  revert h; induction l as [|x l IH]; intros [|h]; cbn [update_nth length];
    rewrite ?IH; reflexivity.
Qed.

Lemma length_iframes_startLoadTimeout h u q :
  length (iframes (startLoadTimeout h u q)) = length (iframes q).
Proof.
  unfold startLoadTimeout.
  destruct (nth_error (iframes q) h) as [f|]; [|reflexivity].
  destruct (handle_truthy (loadTimeout f));
    cbn [iframes on_iframe on_iframes setTimeout clearTimeout set_timers];
    apply length_update_nth.
Qed.

Lemma length_iframes_signal_received h q :
  length (iframes (signal_received h q)) = length (iframes q).
Proof.
  unfold signal_received.
  destruct (nth_error (iframes q) h) as [f|]; [|reflexivity].
  destruct (handle_truthy (loadTimeout f));
    cbn [iframes on_iframe on_iframes hideLoading on_view clearTimeout
         set_timers];
    rewrite ?length_update_nth; reflexivity.
Qed.

Lemma handles_in_le b n m : n <= m -> handles_in b n -> handles_in b m.
Proof.
  intros Hle; unfold handles_in; apply Forall_impl.
  intros t; destruct (tab_iframe t); [lia|auto].
Qed.

Lemma handles_in_update b i g n :
  (forall t, tab_iframe (g t) = tab_iframe t) ->
  handles_in b n ->
  handles_in (set_tabs b (update_first (has_id i) g (tabs b))) n.
Proof.
  intros Hg Hb; unfold handles_in; cbn [set_tabs tabs].
  apply Forall_update_first; [|exact Hb].
  intros t _; rewrite Hg; auto.
Qed.

Lemma handles_in_attach b i n :
  handles_in b n ->
  handles_in (set_tabs b (update_first (has_id i) (set_iframe (Some n))
                                       (tabs b))) (S n).
Proof.
  intros Hb; apply (@handles_in_le _ n (S n)) in Hb; [|lia].
  unfold handles_in; cbn [set_tabs tabs].
  apply Forall_update_first; [|exact Hb].
  intros t _ _; cbn [set_iframe tab_iframe]; lia.
Qed.

Lemma handles_in_removeTab b i n :
  handles_in b n -> handles_in (fst (removeTab b i)) n.
Proof.
  intros Hb; unfold handles_in in *.
  destruct (in_dec (list_eq_dec N.eq_dec) i (map tab_id (tabs b)))
    as [Hin|Hout].
  - destruct (removeTab_found b i Hin)
      as (l1 & t & l2 & Hl & _ & _ & Htabs & _).
    rewrite Htabs; rewrite Hl in Hb.
    apply Forall_app in Hb; destruct Hb as [H1 H2]; inversion H2; subst.
    apply Forall_app; auto.
  - rewrite removeTab_unknown by exact Hout; exact Hb.
Qed.

Lemma handles_in_goBack b i n :
  handles_in b n -> handles_in (fst (goBack b i)) n.
Proof.
  intros Hb; unfold goBack; destruct (find (has_id i) (tabs b)); [|exact Hb].
  destruct (canGoBack b i); [|exact Hb].
  apply handles_in_update; [reflexivity|exact Hb].
Qed.

Lemma handles_in_goForward b i n :
  handles_in b n -> handles_in (fst (goForward b i)) n.
Proof.
  intros Hb; unfold goForward; destruct (find (has_id i) (tabs b));
    [|exact Hb].
  destruct (canGoForward b i); [|exact Hb].
  apply handles_in_update; [reflexivity|exact Hb].
Qed.

Ltac handles H :=
  unfold handles_ok in *;
  repeat first
    [ exact H
    | rewrite bs_updateNavButtons
    | rewrite iframes_updateNavButtons
    | rewrite bs_startLoadTimeout
    | rewrite bs_signal_received
    | rewrite length_iframes_startLoadTimeout
    | rewrite length_iframes_signal_received
    | rewrite length_update_nth
    | rewrite length_map
    | rewrite length_app, Nat.add_1_r
    | apply handles_in_attach
    | apply handles_in_update; [reflexivity|]
    | progress cbn [bs iframes on_bs on_view on_iframes on_iframe set_timers
                    set_clock showLoading hideLoading showWelcomeScreen
                    hideWelcomeScreen showError hideError updateTabBar
                    setTimeout clearTimeout createTabIframe fst snd
                    length] ].

Lemma handles_switchTab tabId q :
  handles_ok q -> handles_ok (switchTab tabId q).
Proof.
  intros Hq; unfold switchTab; cbv zeta.
  match goal with
  | |- context [getActiveTab (bs ?p)] => set (p3 := p)
  end.
  assert (H3 : handles_ok p3) by (unfold p3; handles Hq).
  clearbody p3.
  destruct (getActiveTab (bs p3)) as [tab|]; [|exact H3].
  destruct (tab_iframe tab) as [h|]; [handles H3|].
  destruct (truthy (tab_url tab)
            && negb (str_eqb (tab_url tab) (js "about:blank")));
    handles H3.
Qed.

Lemma handles_closeTab tabId q :
  handles_ok q -> handles_ok (closeTab tabId q).
Proof.
  intros Hq; unfold closeTab.
  destruct (length (tabs (bs q)) =? 1)%nat; [exact Hq|].
  pose proof (@handles_in_removeTab (bs q) tabId _ Hq) as Hr.
  destruct (removeTab (bs q) tabId) as [b1 detached]; cbn [fst] in Hr.
  cbv zeta.
  set (q1 := on_view _ _).
  assert (H1 : handles_ok q1) by (subst q1; destruct detached; handles Hr).
  clearbody q1.
  destruct (activeTabId (bs q1)) as [a|]; [destruct (truthy a)|];
    try (apply handles_switchTab; exact H1);
    destruct (tabs (bs q1));
    try (apply handles_switchTab; exact H1); exact H1.
Qed.

Lemma handles_navigateToUrl url q :
  handles_ok q -> handles_ok (navigateToUrl URL_hostname url q).
Proof.
  intros Hq; unfold navigateToUrl.
  destruct (getActiveTab (bs q)) as [tab|]; [|exact Hq].
  destruct (sanitizeUrl URL_hostname url) as [s|]; [|exact Hq].
  cbv zeta.
  destruct (URL_hostname s) as [host|]; destruct (tab_iframe tab) as [h|];
    handles Hq.
Qed.

Lemma handles_addTab_page now_id now_ts url q :
  handles_ok q -> handles_ok (addTab_page URL_hostname now_id now_ts url q).
Proof.
  intros Hq; unfold addTab_page.
  destruct (if truthy url then sanitizeUrl URL_hostname url else Some [])
    as [s|]; [|exact Hq].
  unfold addTab.
  destruct (Z.of_nat (length (tabs (bs q))) >=? maxTabs (bs q))%Z;
    [exact Hq|].
  cbv zeta.
  match goal with
  | |- context [switchTab _ ?p] => set (q1 := p)
  end.
  assert (H1 : handles_ok q1).
  { subst q1; unfold handles_ok, handles_in in *.
    cbn [bs iframes on_bs on_view set_activeTabId set_tabs tabs].
    apply Forall_app; split; [exact Hq|].
    constructor; [exact I|constructor]. }
  clearbody q1.
  destruct (truthy s && negb (str_eqb s (js "about:blank")));
    [apply handles_navigateToUrl|]; apply handles_switchTab; exact H1.
Qed.

Lemma handles_history_button can go q :
  (forall b i n, handles_in b n -> handles_in (fst (go b i)) n) ->
  handles_ok q -> handles_ok (history_button can go q).
Proof.
  intros Hgo Hq; unfold history_button.
  destruct (getActiveTab (bs q)) as [tab|]; [|exact Hq].
  destruct (tab_iframe tab) as [h|]; [|exact Hq].
  destruct (can (bs q) (tab_id tab)); [|exact Hq].
  pose proof (Hgo (bs q) (tab_id tab) _ Hq) as Hb.
  destruct (go (bs q) (tab_id tab)) as [b1 [| |u]]; cbn [fst] in Hb;
    cbv zeta; try exact Hb.
  destruct (truthy u); handles Hb.
Qed.

Lemma handles_step t e q q' :
  handles_ok q -> step URL_hostname t e q = Some q' -> handles_ok q'.
Proof.
  intros Hq; unfold step; destruct (t <? clock q)%N; [discriminate|].
  assert (Hc : handles_ok (set_clock t q)) by exact Hq.
  set (qc := set_clock t q) in *; clearbody qc.
  destruct e as [n1 n2|n1 n2|k|k|text|url| | | | |h|h|id pr]; intros H.
  - injection H as <-; apply handles_addTab_page; exact Hc.
  - injection H as <-; apply handles_addTab_page; exact Hc.
  - destruct (nth_error (tabBar (view qc)) k); [|discriminate].
    injection H as <-; apply handles_switchTab; exact Hc.
  - destruct (nth_error (tabBar (view qc)) k); [|discriminate].
    injection H as <-; apply handles_closeTab; exact Hc.
  - injection H as <-; apply handles_navigateToUrl; exact Hc.
  - injection H as <-; apply handles_navigateToUrl; exact Hc.
  - injection H as <-; apply handles_history_button;
      [apply handles_in_goBack|exact Hc].
  - injection H as <-; apply handles_history_button;
      [apply handles_in_goForward|exact Hc].
  - injection H as <-; unfold handles_ok; rewrite bs_reload.
    unfold reload; destruct (getActiveTab (bs qc)) as [tab|]; [|exact Hc].
    destruct (tab_iframe tab); exact Hc.
  - injection H as <-.
    match goal with |- context [truthy ?u] => destruct (truthy u) end;
      [apply handles_navigateToUrl|]; exact Hc.
  - destruct (nth_error (iframes qc) h); [|discriminate].
    injection H as <-; unfold on_load.
    destruct (nth_error (iframes qc) h); handles Hc.
  - destruct (nth_error (iframes qc) h); [|discriminate].
    injection H as <-; unfold on_error.
    destruct (nth_error (iframes qc) h); handles Hc.
  - destruct (find_timer id qc) as [tm|]; [|discriminate].
    destruct (t <? tm_due tm)%N; [discriminate|].
    injection H as <-; unfold handles_ok.
    rewrite iframes_run_callback.
    unfold run_callback; destruct (tm_cb tm) as [h|h host|h u].
    + unfold settle; destruct (nth_error _ h) as [f|]; [|exact Hc].
      cbv zeta.
      destruct (probe_document pr) as [title|];
        [destruct (truthy title)|];
        destruct (URL_hostname (if_src f)) as [host|];
        try destruct (probe_window pr);
        handles Hc.
    + rewrite bs_recheck; exact Hc.
    + rewrite bs_load_timeout; exact Hc.
Qed.

Lemma reachable_handles_ok p : reachable URL_hostname p -> handles_ok p.
Proof.
  intros (p0 & es & Hi & Hr).
  assert (H0 : handles_ok p0).
  { destruct Hi as (Hb & _); unfold handles_ok, handles_in; rewrite Hb.
    constructor. }
  clear Hi; revert p0 H0 Hr.
  induction es as [|[t e] es IH]; cbn [run]; intros p0 H0 Hr.
  - injection Hr as <-; exact H0.
  - destruct (step URL_hostname t e p0) as [p1|] eqn:Hs; [|discriminate].
    eapply IH; [eapply handles_step; eauto | exact Hr].
Qed.

(** X13.  What [navigateToUrl] leaves behind in a reachable state with an
    active tab when [sanitizeUrl] returns the address [s]: the active tab
    is the same tab, now at [s], titled with the host name (or
    ['Navigating...']), with [s] as the entry at its position and nothing
    ahead; the address bar shows [s]; the loading indicator is on, the
    error panel and the welcome screen are hidden and the container is
    shown; the forward button is disabled; the tab's iframe (made now if
    it had none) is on display with [s] as its source; and a timeout for
    that iframe and that address is pending, due 10 seconds later. *)
Theorem navigateToUrl_loads_address (p : Page) (url s : jsstring) (tab : Tab) :
  reachable URL_hostname p ->
  getActiveTab (bs p) = Some tab ->
  sanitizeUrl URL_hostname url = Some s ->
  let p' := navigateToUrl URL_hostname url p in
  let h := match tab_iframe tab with
           | Some h => h
           | None => length (iframes p)
           end in
  (exists tab',
      getActiveTab (bs p') = Some tab'
      /\ tab_id tab' = tab_id tab
      /\ tab_url tab' = s
      /\ tab_title tab' = or_else (nav_title (URL_hostname s)) (js "Untitled")
      /\ tab_iframe tab' = Some h
      /\ index (tab_history tab') (tab_historyIndex tab') = VStr s
      /\ canGoForward (bs p') (tab_id tab) = false)
  /\ addressBar (view p') = s
  /\ loading (view p') = true
  /\ errorDisplay (view p') = DNone
  /\ welcomeDisplay (view p') = DNone
  /\ containerDisplay (view p') = DBlock
  /\ forwardDisabled (view p') = true
  /\ (exists f, nth_error (iframes p') h = Some f
                /\ if_src f = s /\ if_display f = DBlock
                /\ loadTimeout f = Some (nextTimer p))
  /\ (exists tm, In tm (timers p')
                 /\ tm_id tm = nextTimer p
                 /\ tm_due tm = (clock p + 10000)%N
                 /\ tm_cb tm = LoadTimeout h s).
Proof.
  intros Hp Hg Hs.
  apply navigate_result; [exact Hg|exact Hs|].
  intros h Hi.
  pose proof (reachable_handles_ok Hp) as Hok.
  unfold handles_ok, handles_in in Hok; rewrite Forall_forall in Hok.
  unfold getActiveTab in Hg.
  destruct (activeTabId (bs p)) as [a|]; [|discriminate].
  apply find_some in Hg; destruct Hg as [Hin _].
  specialize (Hok tab Hin); rewrite Hi in Hok; exact Hok.
Qed.

End NavigationResult.

(* ===================================================================== *)
(** ** A page that loads after its timeout *)
(* ===================================================================== *)

Section LateLoad.

Import V2.

Variable URL_hostname : jsstring -> option jsstring.

Lemma view_signal_received h q f :
  nth_error (iframes q) h = Some f ->
  view (signal_received h q) = set_loading false (view q)
  /\ exists f', nth_error (iframes (signal_received h q)) h = Some f'
                /\ if_src f' = if_src f.
Proof.
  intros Hf; unfold signal_received; rewrite Hf.
  destruct (handle_truthy (loadTimeout f));
    cbn [view iframes on_iframe on_iframes hideLoading on_view clearTimeout
         set_timers];
    rewrite !nth_error_update_nth, Nat.eqb_refl, Hf; cbn [option_map];
    (split; [reflexivity|eexists; split; reflexivity]).
Qed.

(** X14.  When the timeout of a first load has fired and the page then
    loads after all, the page stays hidden.  The timeout callback shows
    the error panel and hides the iframe container.  Whatever the check
    scheduled by the [load] listener then finds, nothing shows the
    container again, the welcome screen stays hidden and the loading
    indicator is off.  The error panel is hidden again, so that nothing
    at all is on display, when the check can read the document and the
    document has a title or [new URL(iframe.src)] succeeds, and when it
    cannot read the document but [new URL(iframe.src)] succeeds and the
    window can be read; in every other case the error panel is on
    display. *)
Theorem late_load_stays_hidden (p : Page) (h attempt : nat)
        (url : jsstring) (f : IFrame) (pr : Probe) :
  nth_error (iframes p) h = Some f ->
  hasLoaded f = false ->
  let timed_out := load_timeout URL_hostname h url p in
  let settled :=
    settle URL_hostname h attempt pr (on_load h timed_out) in
  (errorDisplay (view timed_out) = DFlex
   /\ containerDisplay (view timed_out) = DNone)
  /\ containerDisplay (view settled) = DNone
  /\ welcomeDisplay (view settled) = DNone
  /\ loading (view settled) = false
  /\ (forall title,
         probe_document pr = Some title ->
         truthy title = true \/ URL_hostname (if_src f) <> None ->
         errorDisplay (view settled) = DNone)
  /\ errorDisplay (view settled)
     = match probe_document pr with
       | Some title =>
           if truthy title then DNone
           else match URL_hostname (if_src f) with
                | Some _ => DNone
                | None => DFlex
                end
       | None =>
           match URL_hostname (if_src f) with
           | Some _ => if probe_window pr then DNone else DFlex
           | None => DFlex
           end
       end.
Proof.
  intros Hf Hl timed_out settled.
  assert (H1 : errorDisplay (view timed_out) = DFlex
               /\ containerDisplay (view timed_out) = DNone
               /\ welcomeDisplay (view timed_out) = DNone
               /\ nth_error (iframes timed_out) h = Some f).
  { unfold timed_out, load_timeout; rewrite Hf, Hl.
    destruct (URL_hostname url); destruct (truthy url) eqn:Hu;
      unfold showError; rewrite Hu; cbn; auto. }
  destruct H1 as (He & Hc & Hw & Hf1).
  split; [split; assumption|].
  destruct (view_signal_received h timed_out Hf1) as (Hv & f2 & Hf2 & Hs2).
  assert (Hall :
            containerDisplay (view settled) = DNone
            /\ welcomeDisplay (view settled) = DNone
            /\ loading (view settled) = false
            /\ errorDisplay (view settled)
               = match probe_document pr with
                 | Some title =>
                     if truthy title then DNone
                     else match URL_hostname (if_src f) with
                          | Some _ => DNone
                          | None => DFlex
                          end
                 | None =>
                     match URL_hostname (if_src f) with
                     | Some _ => if probe_window pr then DNone else DFlex
                     | None => DFlex
                     end
                 end).
  { unfold settled, settle, on_load; rewrite Hf1.
    cbn [iframes setTimeout set_timers]; rewrite Hf2, Hs2.
    destruct (probe_document pr) as [title|];
      [destruct (truthy title)|];
      destruct (URL_hostname (if_src f)) as [host|];
      try destruct (probe_window pr);
      unfold showError; destruct (truthy (if_src f));
      cbn [view bs on_bs on_view updateTabBar hideError setTimeout
           set_timers errorDisplay containerDisplay welcomeDisplay loading
           set_tabBar set_error set_errorText set_errorUrl set_container
           set_welcome];
      rewrite Hv;
      cbn [set_loading errorDisplay containerDisplay welcomeDisplay loading];
      auto. }
  destruct Hall as (Hcs & Hws & Hls & Hes).
  split; [exact Hcs|split; [exact Hws|split; [exact Hls|]]].
  split; [|exact Hes].
  intros title Hpr Hor; rewrite Hes, Hpr.
  destruct (truthy title); [reflexivity|].
  destruct (URL_hostname (if_src f)); [reflexivity|].
  destruct Hor as [Ht|Hu]; [discriminate|contradiction].
Qed.

End LateLoad.

(* ===================================================================== *)
(** ** The tab bar and the history buttons follow the active tab *)
(* ===================================================================== *)

Section Chrome.

Import V2.

Variable URL_hostname : jsstring -> option jsstring.

Lemma str_eqb_sym (a b : jsstring) : str_eqb a b = str_eqb b a.
Proof.
  revert b; induction a as [|c a IH]; intros [|d b]; cbn [str_eqb];
    try reflexivity.
  rewrite IH, N.eqb_sym; reflexivity.
Qed.

(** *** The active tab under updates of one tab *)

Lemma active_field_update {A} (field : Tab -> A) b i g :
  (forall t, tab_id (g t) = tab_id t) ->
  (forall t, field (g t) = field t) ->
  option_map field
    (getActiveTab (set_tabs b (update_first (has_id i) g (tabs b))))
  = option_map field (getActiveTab b).
Proof.
  intros Hid Hf; unfold getActiveTab.
  cbn [set_tabs activeTabId tabs].
  destruct (activeTabId b) as [a|]; [|reflexivity].
  destruct (find (has_id a) (tabs b)) as [t|] eqn:Ht.
  - destruct (@find_update_first_other a i g _ _ Hid Ht)
      as (t' & -> & [->| ->]); cbn [option_map]; rewrite ?Hf; reflexivity.
  - rewrite find_update_first_none by assumption; reflexivity.
Qed.

Lemma active_nav b tab :
  getActiveTab b = Some tab ->
  canGoBack b (tab_id tab) = (tab_historyIndex tab >? 0)%Z
  /\ canGoForward b (tab_id tab)
     = (tab_historyIndex tab <? Z.of_nat (length (tab_history tab)) - 1)%Z.
Proof.
  unfold getActiveTab; destruct (activeTabId b) as [a|]; [|discriminate].
  intros Hf; destruct (find_some_in _ _ Hf) as [_ Hid].
  unfold canGoBack, canGoForward; rewrite Hid, Hf; auto.
Qed.

Lemma nav_state_fields b :
  nav_state b
  = option_map
      (fun tab =>
         (negb (tab_historyIndex tab >? 0)%Z,
          negb (tab_historyIndex tab
                <? Z.of_nat (length (tab_history tab)) - 1)%Z))
      (getActiveTab b).
Proof.
  unfold nav_state; destruct (getActiveTab b) as [tab|] eqn:Hg;
    [|reflexivity].
  cbn [option_map]; destruct (@active_nav b tab Hg) as [-> ->]; reflexivity.
Qed.

Lemma nav_state_update b i g :
  (forall t, tab_id (g t) = tab_id t) ->
  (forall t, tab_history (g t) = tab_history t) ->
  (forall t, tab_historyIndex (g t) = tab_historyIndex t) ->
  nav_state (set_tabs b (update_first (has_id i) g (tabs b))) = nav_state b.
Proof.
  intros Hid Hh Hi; rewrite !nav_state_fields.
  apply active_field_update; [exact Hid|].
  intros t; rewrite Hh, Hi; reflexivity.
Qed.

Lemma nav_state_updateTabTitle b i u :
  nav_state (updateTabTitle b i u) = nav_state b.
Proof. apply nav_state_update; reflexivity. Qed.

Lemma nav_state_updateTabUrl b i u :
  nav_state (updateTabUrl b i u) = nav_state b.
Proof. apply nav_state_update; reflexivity. Qed.

(** *** Frames *)

Lemma marks_frame q q' :
  map mark (tabBar (view q')) = map mark (tabBar (view q)) ->
  activeTabId (bs q') = activeTabId (bs q) ->
  marks_ok q -> marks_ok q'.
Proof.
  intros Hm Ha Hq e' He'.
  apply (in_map mark) in He'; rewrite Hm in He'.
  apply in_map_iff in He'; destruct He' as (e & Heq & He).
  unfold mark in Heq; injection Heq as Hid Hact.
  rewrite <- Hid, <- Hact, (Hq e He); unfold active_is; rewrite Ha.
  reflexivity.
Qed.

Lemma nav_frame q q' :
  nav_state (bs q') = nav_state (bs q) ->
  nav_buttons (view q') = nav_buttons (view q) ->
  nav_ok q -> nav_ok q'.
Proof.
  unfold nav_ok; intros -> ->; auto.
Qed.

Lemma sc_refl v : same_chrome v v.
Proof. split; reflexivity. Qed.

Lemma sc_trans v1 v2 v3 :
  same_chrome v1 v2 -> same_chrome v2 v3 -> same_chrome v1 v3.
Proof. intros [H1 H2] [H3 H4]; split; congruence. Qed.

Lemma sc_showError m u q : same_chrome (view q) (view (showError m u q)).
Proof.
  unfold showError; cbn [view on_view]; destruct (truthy u); split;
    reflexivity.
Qed.

Lemma sc_updateTabBar q : same_chrome (view q) (view (updateTabBar q)).
Proof.
  unfold updateTabBar; cbn [view on_view]; split; [|reflexivity].
  cbn [tabBar set_tabBar]; rewrite map_map; apply map_ext; intros e.
  destruct (find (has_id (el_tabId e)) (tabs (bs q))); reflexivity.
Qed.

Lemma view_startLoadTimeout h u q : view (startLoadTimeout h u q) = view q.
Proof.
  unfold startLoadTimeout; destruct (nth_error (iframes q) h) as [f|];
    [|reflexivity].
  destruct (handle_truthy (loadTimeout f)); reflexivity.
Qed.

Lemma sc_signal_received h q :
  same_chrome (view q) (view (signal_received h q)).
Proof.
  unfold signal_received; destruct (nth_error (iframes q) h) as [f|];
    [|apply sc_refl].
  destruct (handle_truthy (loadTimeout f)); split; reflexivity.
Qed.

Lemma activeTabId_update b i g :
  activeTabId (set_tabs b (update_first (has_id i) g (tabs b)))
  = activeTabId b.
Proof. reflexivity. Qed.

(** *** [updateNavButtons] *)

Lemma nav_ok_updateNavButtons q : nav_ok (updateNavButtons q).
Proof.
  unfold nav_ok; rewrite bs_updateNavButtons.
  unfold nav_state, updateNavButtons.
  destruct (getActiveTab (bs q)) as [tab|]; [reflexivity|exact I].
Qed.

Lemma marks_updateNavButtons q :
  tabBar (view (updateNavButtons q)) = tabBar (view q).
Proof.
  unfold updateNavButtons; destruct (getActiveTab (bs q)); reflexivity.
Qed.

(** *** [switchTab] *)

Lemma chrome_switchTab tabId q :
  marks_ok (switchTab tabId q) /\ nav_ok (switchTab tabId q).
Proof.
  unfold switchTab; cbv zeta.
  match goal with
  | |- context [getActiveTab (bs ?p)] => set (p3 := p)
  end.
  assert (H3 : marks_ok p3).
  { unfold p3, marks_ok; cbn [view bs on_view on_iframes on_bs tabBar
                              set_tabBar set_activeTabId].
    intros e He; apply in_map_iff in He; destruct He as (e0 & <- & _).
    unfold active_is; cbn [activeTabId el_active el_tabId].
    apply str_eqb_sym. }
  clearbody p3.
  destruct (getActiveTab (bs p3)) as [tab|] eqn:Hg.
  2: { split; [exact H3|]. unfold nav_ok, nav_state; rewrite Hg; exact I. }
  split; [|apply nav_ok_updateNavButtons].
  apply (marks_frame (q := p3)); [| |exact H3];
    rewrite ?marks_updateNavButtons, ?bs_updateNavButtons;
    destruct (tab_iframe tab) as [h|];
    try destruct (truthy (tab_url tab)
                  && negb (str_eqb (tab_url tab) (js "about:blank")));
    reflexivity.
Qed.

(** *** [navigateToUrl] *)

Lemma chrome_navigateToUrl url q :
  marks_ok q /\ nav_ok q ->
  marks_ok (navigateToUrl URL_hostname url q)
  /\ nav_ok (navigateToUrl URL_hostname url q).
Proof.
  intros [Hm Hn]; unfold navigateToUrl.
  destruct (getActiveTab (bs q)) as [tab|]; [|auto].
  destruct (sanitizeUrl URL_hostname url) as [s|]; [|auto].
  cbv zeta.
  assert (Hmain : forall title,
             let X := updateNavButtons
                        (on_view (set_addressBar s)
                           (updateTabBar
                              (on_bs (fun b => updateTabTitle b (tab_id tab)
                                                              title)
                                 (on_bs (fun b => addToHistory b (tab_id tab)
                                                               s)
                                    (on_bs (fun b => updateTabUrl b
                                                       (tab_id tab) s)
                                           q))))) in
             marks_ok X /\ nav_ok X).
  { intros title X; split; [|apply nav_ok_updateNavButtons].
    apply (marks_frame (q := q)); [| |exact Hm].
    - unfold X; rewrite marks_updateNavButtons.
      cbn [view on_view tabBar set_addressBar].
      exact (proj1 (sc_updateTabBar _)).
    - unfold X; rewrite bs_updateNavButtons; reflexivity. }
  assert (Hrest : forall X,
             marks_ok X /\ nav_ok X ->
             let p' :=
               let (p, h) := match tab_iframe tab with
                             | Some h => (X, h)
                             | None => createTabIframe tab X
                             end in
               let p := showLoading p in
               let p := hideError p in
               let p := hideWelcomeScreen p in
               let p := on_iframe h (set_display DBlock) p in
               let p := on_iframe h (set_prop_hasLoaded (Some false)) p in
               let p := on_iframe h next_attempt p in
               let p := startLoadTimeout h s p in
               on_iframe h (set_src s) p in
             marks_ok p' /\ nav_ok p').
  { intros X [HmX HnX] p'; subst p'.
    destruct (tab_iframe tab) as [h|]; cbv zeta;
      cbn [createTabIframe]; split.
    - apply (marks_frame (q := X)); [| |exact HmX];
        cbn [view bs on_iframe on_iframes];
        rewrite ?view_startLoadTimeout, ?bs_startLoadTimeout; reflexivity.
    - apply (@nav_frame X); [| |exact HnX];
        cbn [view bs on_iframe on_iframes];
        rewrite ?view_startLoadTimeout, ?bs_startLoadTimeout; reflexivity.
    - apply (marks_frame (q := X)); [| |exact HmX];
        cbn [view bs on_iframe on_iframes];
        rewrite ?view_startLoadTimeout, ?bs_startLoadTimeout; reflexivity.
    - apply (@nav_frame X); [| |exact HnX];
        cbn [view bs on_iframe on_iframes];
        rewrite ?view_startLoadTimeout, ?bs_startLoadTimeout;
        [|reflexivity].
      cbn [bs on_view on_bs on_iframes showLoading hideError
           hideWelcomeScreen].
      apply nav_state_update; reflexivity. }
  destruct (URL_hostname s) as [host|]; apply Hrest; apply Hmain.
Qed.

(** *** [closeTab] and the page's [addTab] *)

Lemma in_remove_element tabId l e :
  In e (remove_element tabId l) -> In e l.
Proof.
  induction l as [|x l IH]; cbn [remove_element]; [auto|].
  destruct (str_eqb (el_tabId x) tabId); [right; assumption|].
  intros [->|H]; [left; reflexivity | right; auto].
Qed.

Lemma chrome_closeTab tabId q :
  marks_ok q /\ nav_ok q ->
  marks_ok (closeTab tabId q) /\ nav_ok (closeTab tabId q).
Proof.
  intros Hq; unfold closeTab.
  destruct (length (tabs (bs q)) =? 1)%nat eqn:E; [exact Hq|].
  apply Nat.eqb_neq in E.
  destruct (removeTab (bs q) tabId) as [b1 detached] eqn:Hr; cbv zeta.
  set (q1 := on_view _ _).
  assert (Hb1 : bs q1 = b1) by (subst q1; destruct detached; reflexivity).
  assert (Hw : tabs b1 = [] ->
               marks_ok (showWelcomeScreen q1)
               /\ nav_ok (showWelcomeScreen q1)).
  { intros Hnil; split.
    - destruct (in_dec (list_eq_dec N.eq_dec) tabId
                       (map tab_id (tabs (bs q)))) as [Hin|Hout].
      + exfalso.
        destruct (removeTab_found (bs q) tabId Hin)
          as (l1 & t & l2 & Heq & _ & _ & Htabs & _).
        rewrite Hr in Htabs; cbn [fst] in Htabs; rewrite Hnil in Htabs.
        symmetry in Htabs; apply app_eq_nil in Htabs.
        destruct Htabs as [-> ->]; rewrite Heq in E; apply E; reflexivity.
      + rewrite removeTab_unknown in Hr by exact Hout.
        injection Hr as <- <-; subst q1.
        intros e He; apply in_remove_element in He.
        exact (proj1 Hq e He).
    - unfold nav_ok, nav_state, getActiveTab.
      cbn [bs showWelcomeScreen on_view]; rewrite Hb1, Hnil.
      destruct (activeTabId b1); exact I. }
  clearbody q1; subst b1.
  destruct (activeTabId (bs q1)) as [a|]; [destruct (truthy a)|];
    try apply chrome_switchTab;
    destruct (tabs (bs q1)); try apply chrome_switchTab; auto.
Qed.

Lemma chrome_addTab_page now_id now_ts url q :
  marks_ok q /\ nav_ok q ->
  marks_ok (addTab_page URL_hostname now_id now_ts url q)
  /\ nav_ok (addTab_page URL_hostname now_id now_ts url q).
Proof.
  intros Hq; unfold addTab_page.
  destruct (if truthy url then sanitizeUrl URL_hostname url else Some [])
    as [s|]; [|exact Hq].
  destruct (addTab (bs q) now_id now_ts s) as [b1 [tab|]]; [|exact Hq].
  cbv zeta.
  destruct (truthy s && negb (str_eqb s (js "about:blank")));
    [apply chrome_navigateToUrl|]; apply chrome_switchTab.
Qed.

(** *** The history buttons of the page *)

Lemma chrome_goBack_page q :
  state_ok (bs q) -> marks_ok q /\ nav_ok q ->
  marks_ok (goBack_page q) /\ nav_ok (goBack_page q).
Proof.
  intros Hok Hq; unfold goBack_page, history_button.
  destruct (getActiveTab (bs q)) as [tab|]; [|exact Hq].
  destruct (tab_iframe tab) as [h|]; [|exact Hq].
  destruct (canGoBack (bs q) (tab_id tab)) eqn:Hc; [|exact Hq].
  destruct (find (has_id (tab_id tab)) (tabs (bs q))) as [t|] eqn:Hf;
    [|unfold canGoBack in Hc; rewrite Hf in Hc; discriminate].
  assert (Ht : tab_ok t).
  { destruct Hok as (_ & _ & _ & Hall); rewrite Forall_forall in Hall.
    apply Hall; apply find_some in Hf; tauto. }
  destruct (@tab_ok_move_target (bs q) (tab_id tab) t (-1)%Z Ht Hf)
    as (u & Hi & Hs); [auto|].
  unfold goBack; rewrite Hf, Hc.
  change (tab_historyIndex t - 1)%Z with (tab_historyIndex t + -1)%Z.
  rewrite Hi; cbv zeta; rewrite (has_scheme_truthy _ Hs).
  split; [|apply nav_ok_updateNavButtons].
  apply (marks_frame (q := q)); [| |exact (proj1 Hq)];
    rewrite ?marks_updateNavButtons, ?bs_updateNavButtons; reflexivity.
Qed.

Lemma chrome_goForward_page q :
  state_ok (bs q) -> marks_ok q /\ nav_ok q ->
  marks_ok (goForward_page q) /\ nav_ok (goForward_page q).
Proof.
  intros Hok Hq; unfold goForward_page, history_button.
  destruct (getActiveTab (bs q)) as [tab|]; [|exact Hq].
  destruct (tab_iframe tab) as [h|]; [|exact Hq].
  destruct (canGoForward (bs q) (tab_id tab)) eqn:Hc; [|exact Hq].
  destruct (find (has_id (tab_id tab)) (tabs (bs q))) as [t|] eqn:Hf;
    [|unfold canGoForward in Hc; rewrite Hf in Hc; discriminate].
  assert (Ht : tab_ok t).
  { destruct Hok as (_ & _ & _ & Hall); rewrite Forall_forall in Hall.
    apply Hall; apply find_some in Hf; tauto. }
  destruct (@tab_ok_move_target (bs q) (tab_id tab) t 1%Z Ht Hf)
    as (u & Hi & Hs); [auto|].
  unfold goForward; rewrite Hf, Hc, Hi; cbv zeta.
  rewrite (has_scheme_truthy _ Hs).
  split; [|apply nav_ok_updateNavButtons].
  apply (marks_frame (q := q)); [| |exact (proj1 Hq)];
    rewrite ?marks_updateNavButtons, ?bs_updateNavButtons; reflexivity.
Qed.

(** *** The handlers that leave the tab bar and the buttons alone *)

Lemma chrome_frame q q' :
  same_chrome (view q) (view q') ->
  activeTabId (bs q') = activeTabId (bs q) ->
  nav_state (bs q') = nav_state (bs q) ->
  marks_ok q /\ nav_ok q -> marks_ok q' /\ nav_ok q'.
Proof.
  intros [Hm Hb] Ha Hn [H1 H2]; split.
  - exact (marks_frame _ Hm Ha H1).
  - exact (@nav_frame q q' Hn Hb H2).
Qed.

Ltac sc :=
  repeat first
    [ solve [split; reflexivity]
    | eapply sc_trans; [|apply sc_updateTabBar]
    | eapply sc_trans; [|apply sc_showError]
    | eapply sc_trans; [|apply sc_signal_received]
    | progress cbn [view on_view on_bs on_iframe on_iframes hideError
                    hideLoading showLoading setTimeout set_timers
                    clearTimeout] ].

Lemma chrome_reload q :
  marks_ok q /\ nav_ok q -> marks_ok (reload q) /\ nav_ok (reload q).
Proof.
  intros Hq; unfold reload.
  destruct (getActiveTab (bs q)) as [tab|]; [|exact Hq].
  destruct (tab_iframe tab); exact Hq.
Qed.

Lemma chrome_on_load h q :
  marks_ok q /\ nav_ok q -> marks_ok (on_load h q) /\ nav_ok (on_load h q).
Proof.
  intros Hq; unfold on_load; destruct (nth_error (iframes q) h); [|exact Hq].
  apply (chrome_frame (q := q)); [sc| | |exact Hq];
    cbn [bs setTimeout set_timers]; rewrite bs_signal_received; reflexivity.
Qed.

Lemma chrome_on_error h q :
  marks_ok q /\ nav_ok q -> marks_ok (on_error h q) /\ nav_ok (on_error h q).
Proof.
  intros Hq; unfold on_error; destruct (nth_error (iframes q) h); [|exact Hq].
  apply (chrome_frame (q := q)); [sc| | |exact Hq];
    cbn [bs showError on_view]; rewrite bs_signal_received; reflexivity.
Qed.

Lemma chrome_run_callback tm pr q :
  marks_ok q /\ nav_ok q ->
  marks_ok (run_callback URL_hostname tm pr q)
  /\ nav_ok (run_callback URL_hostname tm pr q).
Proof.
  intros Hq; unfold run_callback; destruct (tm_cb tm) as [h|h host|h u].
  - unfold settle; destruct (nth_error (iframes q) h) as [f|]; [|exact Hq].
    cbv zeta.
    destruct (probe_document pr) as [title|];
      [destruct (truthy title)|];
      destruct (URL_hostname (if_src f)) as [host|];
      try destruct (probe_window pr);
      (apply (chrome_frame (q := q)); [sc| | |exact Hq]);
      cbn [bs on_bs on_view updateTabBar hideError showError setTimeout
           set_timers];
      rewrite ?nav_state_updateTabTitle; reflexivity.
  - unfold recheck; destruct (nth_error (iframes q) h); [|exact Hq].
    destruct (is_flex (errorDisplay (view q))); [exact Hq|].
    destruct (probe_document pr); [exact Hq|].
    apply (chrome_frame (q := q)); [sc| | |exact Hq]; reflexivity.
  - unfold load_timeout; destruct (nth_error (iframes q) h) as [f|];
      [|exact Hq].
    destruct (hasLoaded f); [exact Hq|].
    destruct (URL_hostname u);
      (apply (chrome_frame (q := q)); [sc| | |exact Hq]); reflexivity.
Qed.

Lemma chrome_step t e q q' :
  state_ok (bs q) -> marks_ok q /\ nav_ok q ->
  step URL_hostname t e q = Some q' -> marks_ok q' /\ nav_ok q'.
Proof.
  intros Hok Hq; unfold step; destruct (t <? clock q)%N; [discriminate|].
  assert (Hc : marks_ok (set_clock t q) /\ nav_ok (set_clock t q))
    by exact Hq.
  assert (Hokc : state_ok (bs (set_clock t q))) by exact Hok.
  set (qc := set_clock t q) in *; clearbody qc.
  destruct e as [n1 n2|n1 n2|k|k|text|url| | | | |h|h|id pr]; intros H.
  - injection H as <-; apply chrome_addTab_page; exact Hc.
  - injection H as <-; apply chrome_addTab_page; exact Hc.
  - destruct (nth_error (tabBar (view qc)) k); [|discriminate].
    injection H as <-; apply chrome_switchTab.
  - destruct (nth_error (tabBar (view qc)) k); [|discriminate].
    injection H as <-; apply chrome_closeTab; exact Hc.
  - injection H as <-; apply chrome_navigateToUrl.
    apply (chrome_frame (q := qc)); [split| | |exact Hc]; reflexivity.
  - injection H as <-; apply chrome_navigateToUrl; exact Hc.
  - injection H as <-; apply chrome_goBack_page; assumption.
  - injection H as <-; apply chrome_goForward_page; assumption.
  - injection H as <-; apply chrome_reload; exact Hc.
  - injection H as <-.
    match goal with |- context [truthy ?u] => destruct (truthy u) end;
      [apply chrome_navigateToUrl|]; exact Hc.
  - destruct (nth_error (iframes qc) h); [|discriminate].
    injection H as <-; apply chrome_on_load; exact Hc.
  - destruct (nth_error (iframes qc) h); [|discriminate].
    injection H as <-; apply chrome_on_error; exact Hc.
  - destruct (find_timer id qc) as [tm|]; [|discriminate].
    destruct (t <? tm_due tm)%N; [discriminate|].
    injection H as <-; apply chrome_run_callback.
    apply (chrome_frame (q := qc)); [split| | |exact Hc]; reflexivity.
Qed.

Lemma reachable_chrome p :
  reachable URL_hostname p -> marks_ok p /\ nav_ok p.
Proof.
  intros (p0 & es & Hi & Hr).
  assert (H0 : state_ok (bs p0) /\ marks_ok p0 /\ nav_ok p0).
  { destruct Hi as (Hb & Hbar & _); rewrite Hb.
    split; [exact state_ok_constructor|split].
    - intros e He; rewrite Hbar in He; destruct He.
    - unfold nav_ok; rewrite Hb; exact I. }
  clear Hi; revert p0 H0 Hr.
  induction es as [|[t e] es IH]; cbn [run]; intros p0 (Hok & H0) Hr.
  - injection Hr as <-; exact H0.
  - destruct (step URL_hostname t e p0) as [p1|] eqn:Hs; [|discriminate].
    apply (IH p1); [|exact Hr].
    split; [|eapply chrome_step; eauto].
    exact (state_ok_steps (@step_bs_steps URL_hostname t e p0 p1 Hs) Hok).
Qed.

(** X15.  In every reachable state the highlighted tab elements are
    those of the active tab: a tab element has the class [active]
    exactly when its tab id is [activeTabId]. *)
Theorem reachable_active_tab_highlighted (p : Page) :
  reachable URL_hostname p ->
  forall e, In e (tabBar (view p)) ->
            el_active e = true <-> activeTabId (bs p) = Some (el_tabId e).
Proof.
  intros Hp e He; destruct (reachable_chrome Hp) as [Hm _].
  rewrite (Hm e He); apply active_is_spec.
Qed.

(** X16.  In every reachable state with an active tab the history
    buttons are enabled as the history of that tab allows: the back
    button is disabled exactly when [canGoBack] fails for the active tab,
    and the forward button exactly when [canGoForward] fails. *)
Theorem reachable_nav_buttons (p : Page) (tab : Tab) :
  reachable URL_hostname p ->
  getActiveTab (bs p) = Some tab ->
  backDisabled (view p) = negb (canGoBack (bs p) (tab_id tab))
  /\ forwardDisabled (view p) = negb (canGoForward (bs p) (tab_id tab)).
Proof.
  intros Hp Hg; destruct (reachable_chrome Hp) as [_ Hn].
  unfold nav_ok, nav_state in Hn; rewrite Hg in Hn; cbn [option_map] in Hn.
  unfold nav_buttons in Hn; injection Hn as Hb Hf; auto.
Qed.

End Chrome.

(* ===================================================================== *)
(** ** What the back and forward buttons leave behind *)
(* ===================================================================== *)

Section HistoryButtons.

Import V2.

Variable URL_hostname : jsstring -> option jsstring.

Lemma updateNavButtons_on_view q :
  exists back forward, updateNavButtons q = on_view (set_nav back forward) q.
Proof.
  unfold updateNavButtons; destruct (getActiveTab (bs q)); eauto.
Qed.

(** The body shared by the two buttons, for a move by [d] that the
    history allows. *)
Lemma history_button_result can go d (p : Page) (tab : Tab) (h : nat) :
  (forall b i t,
      find (has_id i) (tabs b) = Some t -> can b i = true ->
      go b i = (set_tabs b (update_first (has_id i) (move d) (tabs b)),
                index (tab_history t) (tab_historyIndex t + d))) ->
  (forall b i, can b i = true ->
               (d = (-1)%Z /\ canGoBack b i = true)
               \/ (d = 1%Z /\ canGoForward b i = true)) ->
  state_ok (bs p) -> handles_ok p ->
  getActiveTab (bs p) = Some tab ->
  tab_iframe tab = Some h ->
  can (bs p) (tab_id tab) = true ->
  exists u,
    index (tab_history tab) (tab_historyIndex tab + d) = VStr u
    /\ has_scheme u = true
    /\ let p' := history_button can go p in
       getActiveTab (bs p') = Some (set_url u (move d tab))
       /\ addressBar (view p') = u
       /\ loading (view p') = true
       /\ (exists f, nth_error (iframes p') h = Some f /\ if_src f = u)
       /\ timers p' = timers p
       /\ errorDisplay (view p') = errorDisplay (view p)
       /\ containerDisplay (view p') = containerDisplay (view p)
       /\ welcomeDisplay (view p') = welcomeDisplay (view p).
Proof.
  intros Hgo Hcan Hok Hh Hg Hi Hc.
  assert (Hact : exists a, activeTabId (bs p) = Some a /\ tab_id tab = a
                           /\ find (has_id a) (tabs (bs p)) = Some tab).
  { unfold getActiveTab in Hg.
    destruct (activeTabId (bs p)) as [a|]; [|discriminate].
    exists a; destruct (find_some_in _ _ Hg) as [_ Hid]; auto. }
  destruct Hact as (a & Ha & Hid & Hf).
  rewrite Hid in Hc.
  assert (Ht : tab_ok tab).
  { destruct Hok as (_ & _ & _ & Hall); rewrite Forall_forall in Hall.
    apply Hall; exact (proj1 (find_some _ _ Hf)). }
  destruct (@tab_ok_move_target (bs p) a tab d Ht Hf (Hcan _ _ Hc))
    as (u & Hu & Hs).
  assert (Hf0 : exists f0, nth_error (iframes p) h = Some f0).
  { unfold handles_ok, handles_in in Hh; rewrite Forall_forall in Hh.
    pose proof (Hh tab (proj1 (find_some _ _ Hf))) as Hlt.
    rewrite Hi in Hlt.
    destruct (nth_error (iframes p) h) as [f0|] eqn:E; [eauto|].
    apply nth_error_None in E; lia. }
  destruct Hf0 as (f0 & Hf0).
  exists u; split; [exact Hu|split; [exact Hs|]].
  unfold history_button; rewrite Hg, Hi, Hid, Hc, (Hgo _ _ _ Hf Hc), Hu.
  cbv zeta; rewrite (has_scheme_truthy _ Hs).
  match goal with
  | |- context [updateNavButtons ?q] =>
      destruct (updateNavButtons_on_view q) as (back & forward & ->)
  end.
  cbn [bs view iframes timers on_bs on_view on_iframe on_iframes showLoading
       addressBar loading errorDisplay containerDisplay welcomeDisplay
       set_nav set_addressBar set_loading].
  rewrite nth_error_update_nth, Nat.eqb_refl, Hf0.
  split; [|repeat split; try reflexivity].
  - unfold getActiveTab, updateTabUrl; cbn [set_tabs activeTabId tabs].
    rewrite Ha, !find_update_first, Hf by reflexivity; reflexivity.
  - eexists; split; reflexivity.
Qed.

(** X17.  The back button of the page, in a reachable state whose active
    tab has an iframe.  When [canGoBack] fails the state stays as it is.
    Otherwise the tab moves to the entry before its position, which is an
    address [u] with a scheme: the tab's url, the address bar and the
    iframe's source become [u] and the loading indicator is switched on.
    No timeout is armed, and the error panel, the iframe container and
    the welcome screen stay as they were.  The forward button does the
    same with the entry after the position. *)
Theorem history_buttons_load_neighbour (p : Page) (tab : Tab) (h : nat) :
  reachable URL_hostname p ->
  getActiveTab (bs p) = Some tab ->
  tab_iframe tab = Some h ->
  (canGoBack (bs p) (tab_id tab) = false -> goBack_page p = p)
  /\ (canGoForward (bs p) (tab_id tab) = false -> goForward_page p = p)
  /\ (canGoBack (bs p) (tab_id tab) = true ->
      exists u,
        index (tab_history tab) (tab_historyIndex tab - 1) = VStr u
        /\ has_scheme u = true
        /\ let p' := goBack_page p in
           getActiveTab (bs p') = Some (set_url u (move (-1) tab))
           /\ addressBar (view p') = u
           /\ loading (view p') = true
           /\ (exists f, nth_error (iframes p') h = Some f /\ if_src f = u)
           /\ timers p' = timers p
           /\ errorDisplay (view p') = errorDisplay (view p)
           /\ containerDisplay (view p') = containerDisplay (view p)
           /\ welcomeDisplay (view p') = welcomeDisplay (view p))
  /\ (canGoForward (bs p) (tab_id tab) = true ->
      exists u,
        index (tab_history tab) (tab_historyIndex tab + 1) = VStr u
        /\ has_scheme u = true
        /\ let p' := goForward_page p in
           getActiveTab (bs p') = Some (set_url u (move 1 tab))
           /\ addressBar (view p') = u
           /\ loading (view p') = true
           /\ (exists f, nth_error (iframes p') h = Some f /\ if_src f = u)
           /\ timers p' = timers p
           /\ errorDisplay (view p') = errorDisplay (view p)
           /\ containerDisplay (view p') = containerDisplay (view p)
           /\ welcomeDisplay (view p') = welcomeDisplay (view p)).
Proof.
  intros Hp Hg Hi.
  pose proof (reachable_state_ok Hp) as Hok.
  pose proof (reachable_handles_ok Hp) as Hh.
  split; [|split; [|split]].
  - intros Hc; unfold goBack_page, history_button; rewrite Hg, Hi, Hc.
    reflexivity.
  - intros Hc; unfold goForward_page, history_button; rewrite Hg, Hi, Hc.
    reflexivity.
  - intros Hc.
    apply (@history_button_result canGoBack goBack (-1)%Z p tab h); auto.
    intros b i t Hf Hcb; unfold goBack; rewrite Hf, Hcb; reflexivity.
  - intros Hc.
    apply (@history_button_result canGoForward goForward 1%Z p tab h); auto.
    intros b i t Hf Hcb; unfold goForward; rewrite Hf, Hcb; reflexivity.
Qed.

End HistoryButtons.

(* ===================================================================== *)
(** ** The timeout of a tab that was closed or left *)
(* ===================================================================== *)

Section TimeoutOutlivesTab.

Import V2.

Variable URL_hostname : jsstring -> option jsstring.

Lemma map_update_nth_same {A B} (field : A -> B) (h : nat) (g : A -> A)
      (l : list A) :
  (forall x, field (g x) = field x) ->
  map field (update_nth h g l) = map field l.
Proof.
  intros Hg; revert h; induction l as [|x l IH]; intros [|h];
    cbn [update_nth map]; rewrite ?Hg, ?IH; reflexivity.
Qed.

Lemma timers_updateNavButtons q : timers (updateNavButtons q) = timers q.
Proof.
  unfold updateNavButtons; destruct (getActiveTab (bs q)); reflexivity.
Qed.

Lemma timers_switchTab tabId q : timers (switchTab tabId q) = timers q.
Proof.
  unfold switchTab; cbv zeta.
  match goal with
  | |- context [getActiveTab (bs ?p)] => destruct (getActiveTab (bs p))
                                           as [tab|]
  end; [|reflexivity].
  rewrite timers_updateNavButtons.
  destruct (tab_iframe tab) as [h|]; [reflexivity|].
  destruct (truthy (tab_url tab)
            && negb (str_eqb (tab_url tab) (js "about:blank")));
    reflexivity.
Qed.

Lemma timers_closeTab tabId q : timers (closeTab tabId q) = timers q.
Proof.
  unfold closeTab.
  destruct (length (tabs (bs q)) =? 1)%nat; [reflexivity|].
  destruct (removeTab (bs q) tabId) as [b1 detached]; cbv zeta.
  set (q1 := on_view _ _).
  assert (H1 : timers q1 = timers q)
    by (subst q1; destruct detached; reflexivity).
  clearbody q1; rewrite <- H1.
  destruct (activeTabId (bs q1)) as [a|]; [destruct (truthy a)|];
    try apply timers_switchTab;
    destruct (tabs (bs q1)); try apply timers_switchTab; reflexivity.
Qed.

(** [switchTab] and [closeTab] assign no [hasLoaded]. *)
Lemma flags_switchTab tabId q :
  exists extra,
    map hasLoaded (iframes (switchTab tabId q))
    = map hasLoaded (iframes q) ++ extra.
Proof.
  unfold switchTab; cbv zeta.
  match goal with
  | |- context [getActiveTab (bs ?p)] => set (p3 := p)
  end.
  assert (H3 : map hasLoaded (iframes p3) = map hasLoaded (iframes q)).
  { unfold p3; cbn [iframes on_view on_iframes on_bs].
    rewrite map_map; apply map_ext; intros f.
    destruct (if_attached f); reflexivity. }
  clearbody p3; rewrite <- H3.
  destruct (getActiveTab (bs p3)) as [tab|];
    [|exists []; rewrite app_nil_r; reflexivity].
  rewrite iframes_updateNavButtons.
  destruct (tab_iframe tab) as [h|].
  - exists []; rewrite app_nil_r.
    cbn [iframes hideWelcomeScreen on_view on_iframe on_iframes].
    apply map_update_nth_same; reflexivity.
  - destruct (truthy (tab_url tab)
              && negb (str_eqb (tab_url tab) (js "about:blank"))).
    + eexists.
      cbn [iframes hideWelcomeScreen on_view on_iframe on_iframes on_bs
           createTabIframe].
      rewrite !map_update_nth_same by reflexivity.
      rewrite map_app; reflexivity.
    + exists []; rewrite app_nil_r; reflexivity.
Qed.

Lemma flags_closeTab tabId q :
  exists extra,
    map hasLoaded (iframes (closeTab tabId q))
    = map hasLoaded (iframes q) ++ extra.
Proof.
  unfold closeTab.
  destruct (length (tabs (bs q)) =? 1)%nat;
    [exists []; rewrite app_nil_r; reflexivity|].
  destruct (removeTab (bs q) tabId) as [b1 detached]; cbv zeta.
  set (q1 := on_view _ _).
  assert (H1 : map hasLoaded (iframes q1) = map hasLoaded (iframes q)).
  { subst q1; destruct detached; [|reflexivity].
    cbn [iframes on_view on_iframe on_iframes on_bs].
    apply map_update_nth_same; reflexivity. }
  clearbody q1; rewrite <- H1.
  destruct (activeTabId (bs q1)) as [a|]; [destruct (truthy a)|];
    try apply flags_switchTab;
    destruct (tabs (bs q1)); try apply flags_switchTab;
    exists []; rewrite app_nil_r; reflexivity.
Qed.

Lemma flags_prefix_nth (l l' : list IFrame) extra h f :
  map hasLoaded l' = map hasLoaded l ++ extra ->
  nth_error l h = Some f ->
  exists f', nth_error l' h = Some f' /\ hasLoaded f' = hasLoaded f.
Proof.
  intros Hm Hf.
  assert (Hn : nth_error (map hasLoaded l') h = Some (hasLoaded f)).
  { rewrite Hm, nth_error_app1, nth_error_map, Hf; [reflexivity|].
    rewrite length_map; apply nth_error_Some; congruence. }
  rewrite nth_error_map in Hn.
  destruct (nth_error l' h) as [f'|]; [|discriminate].
  cbn [option_map] in Hn; injection Hn as Hn; eauto.
Qed.

Lemma load_timeout_shows_error q h url f :
  nth_error (iframes q) h = Some f ->
  hasLoaded f = false ->
  errorDisplay (view (load_timeout URL_hostname h url q)) = DFlex
  /\ containerDisplay (view (load_timeout URL_hostname h url q)) = DNone
  /\ loading (view (load_timeout URL_hostname h url q)) = false.
Proof.
  intros Hf Hl; unfold load_timeout; rewrite Hf, Hl.
  destruct (URL_hostname url); destruct (truthy url) eqn:Hu;
    unfold showError; rewrite Hu; cbn; auto.
Qed.

(** X18.  Closing a tab or switching to another one cancels no timer.
    The timeout armed for a page that has not loaded stays pending when
    its tab is closed or left, and when it fires it puts up the error
    panel and hides the iframe container, whichever tab is active by
    then. *)
Theorem timeout_outlives_its_tab (p : Page) (tabId : jsstring) (tm : Timer)
        (h : nat) (url : jsstring) (f : IFrame) (pr : Probe) :
  In tm (timers p) ->
  tm_cb tm = LoadTimeout h url ->
  nth_error (iframes p) h = Some f ->
  hasLoaded f = false ->
  (forall p',
      p' = closeTab tabId p \/ p' = switchTab tabId p ->
      In tm (timers p')
      /\ errorDisplay (view (run_callback URL_hostname tm pr p')) = DFlex
      /\ containerDisplay (view (run_callback URL_hostname tm pr p')) = DNone
      /\ loading (view (run_callback URL_hostname tm pr p')) = false).
Proof.
  intros Hin Hcb Hf Hl p' Hp'.
  assert (Ht : timers p' = timers p)
    by (destruct Hp' as [->| ->];
        [apply timers_closeTab | apply timers_switchTab]).
  assert (Hfl : exists extra,
             map hasLoaded (iframes p') = map hasLoaded (iframes p) ++ extra)
    by (destruct Hp' as [->| ->];
        [apply flags_closeTab | apply flags_switchTab]).
  destruct Hfl as (extra & Hfl).
  destruct (@flags_prefix_nth _ _ _ _ _ Hfl Hf) as (f' & Hf' & Hl').
  rewrite Hl in Hl'.
  split; [rewrite Ht; exact Hin|].
  unfold run_callback; rewrite Hcb.
  exact (@load_timeout_shows_error _ _ url _ Hf' Hl').
Qed.

End TimeoutOutlivesTab.

(* ===================================================================== *)
(** ** The iframes left in the document *)
(* ===================================================================== *)

Section OwnedIframes.

Import V2.

Variable URL_hostname : jsstring -> option jsstring.

Lemma attached_on_display l :
  map if_attached l = map fst (map on_display l).
Proof. rewrite map_map; reflexivity. Qed.

Lemma owned_same q q' :
  map if_attached (iframes q') = map if_attached (iframes q) ->
  map tab_iframe (tabs (bs q')) = map tab_iframe (tabs (bs q)) ->
  iframes_owned q -> iframes_owned q'.
Proof. intros Ha Hh Hq k; rewrite Ha, Hh; apply Hq. Qed.

Lemma owned_on_view g q : iframes_owned q -> iframes_owned (on_view g q).
Proof. intros Hq; exact Hq. Qed.

Lemma owned_on_iframe h g q :
  (forall f, if_attached (g f) = if_attached f) ->
  iframes_owned q -> iframes_owned (on_iframe h g q).
Proof.
  intros Hg; apply owned_same; [|reflexivity].
  cbn [iframes on_iframe on_iframes]; apply map_update_nth_same; exact Hg.
Qed.

Lemma owned_update i g q :
  (forall t, tab_iframe (g t) = tab_iframe t) ->
  iframes_owned q ->
  iframes_owned
    (on_bs (fun b => set_tabs b (update_first (has_id i) g (tabs b))) q).
Proof.
  intros Hg; apply owned_same; [reflexivity|].
  cbn [bs on_bs set_tabs tabs]; apply map_update_first; exact Hg.
Qed.

Lemma owned_updateNavButtons q :
  iframes_owned q -> iframes_owned (updateNavButtons q).
Proof.
  apply owned_same;
    [rewrite iframes_updateNavButtons | rewrite bs_updateNavButtons];
    reflexivity.
Qed.

Lemma owned_startLoadTimeout h u q :
  iframes_owned q -> iframes_owned (startLoadTimeout h u q).
Proof.
  apply owned_same; [|rewrite bs_startLoadTimeout; reflexivity].
  rewrite !attached_on_display, vis_startLoadTimeout; reflexivity.
Qed.

Lemma owned_signal_received h q :
  iframes_owned q -> iframes_owned (signal_received h q).
Proof.
  apply owned_same; [|rewrite bs_signal_received; reflexivity].
  rewrite !attached_on_display, vis_signal_received; reflexivity.
Qed.

Lemma owned_setTimeout cb delay attempt q :
  iframes_owned q -> iframes_owned (setTimeout cb delay attempt q).
Proof. intros Hq; exact Hq. Qed.

Lemma owned_clearTimeout id q :
  iframes_owned q -> iframes_owned (clearTimeout id q).
Proof. intros Hq; exact Hq. Qed.

Ltac own H :=
  repeat first
    [ lazymatch goal with
      | |- iframes_owned ?x =>
          lazymatch type of H with
          | iframes_owned ?y => constr_eq x y
          end
      end; exact H
    | lazymatch goal with
      | |- iframes_owned (updateNavButtons _) => apply owned_updateNavButtons
      | |- iframes_owned (startLoadTimeout _ _ _) =>
          apply owned_startLoadTimeout
      | |- iframes_owned (signal_received _ _) => apply owned_signal_received
      | |- iframes_owned (on_iframe _ _ _) =>
          apply owned_on_iframe; [reflexivity|]
      | |- iframes_owned (on_view _ _) => apply owned_on_view
      | |- iframes_owned (setTimeout _ _ _ _) => apply owned_setTimeout
      | |- iframes_owned (clearTimeout _ _) => apply owned_clearTimeout
      | |- iframes_owned (on_bs (fun b => set_tabs b (update_first _ _ _)) _)
        => apply owned_update; [reflexivity|]
      end
    | progress unfold showLoading, hideLoading, showWelcomeScreen,
                      hideWelcomeScreen, showError, hideError, updateTabBar,
                      updateTabUrl, updateTabTitle, addToHistory ].

(** *** A new iframe is stored in the tab it is made for *)

Lemma in_update_first_other (P : Tab -> bool) g l t0 k :
  find P l = Some t0 -> tab_iframe t0 = None ->
  In (Some k) (map tab_iframe l) ->
  In (Some k) (map tab_iframe (update_first P g l)).
Proof.
  induction l as [|x l IH]; cbn [find update_first]; [discriminate|].
  destruct (P x); cbn [map In].
  - intros [= ->] H0 [H|H]; [congruence|right; exact H].
  - intros Hf H0 [H|H]; [left; exact H|right; apply IH; assumption].
Qed.

Lemma in_update_first_new (P : Tab -> bool) g l t0 :
  find P l = Some t0 -> In (g t0) (update_first P g l).
Proof.
  induction l as [|x l IH]; cbn [find update_first]; [discriminate|].
  destruct (P x); cbn [In].
  - intros [= ->]; left; reflexivity.
  - intros Hf; right; apply IH; exact Hf.
Qed.

Lemma owned_create q tab t0 :
  find (has_id (tab_id tab)) (tabs (bs q)) = Some t0 ->
  tab_iframe t0 = None ->
  iframes_owned q -> iframes_owned (fst (createTabIframe tab q)).
Proof.
  intros Hf H0 Hq k.
  cbn [createTabIframe fst bs iframes on_bs on_iframes set_tabs tabs].
  rewrite map_app; cbn [map]; intros Hk.
  destruct (lt_dec k (length (iframes q))) as [Hlt|Hge].
  - rewrite nth_error_app1 in Hk by (rewrite length_map; exact Hlt).
    apply (@in_update_first_other _ _ _ _ _ Hf H0), Hq, Hk.
  - rewrite nth_error_app2 in Hk by (rewrite length_map; lia).
    rewrite length_map in Hk.
    destruct (k - length (iframes q)) as [|n] eqn:E;
      [|destruct n; discriminate].
    assert (Ek : k = length (iframes q)) by lia; subst k.
    apply in_map_iff.
    exists (set_iframe (Some (length (iframes q))) t0).
    split; [reflexivity|].
    apply in_update_first_new; exact Hf.
Qed.

Lemma createTabIframe_pair tab q :
  createTabIframe tab q = (fst (createTabIframe tab q), length (iframes q)).
Proof. reflexivity. Qed.

Lemma active_found b tab :
  getActiveTab b = Some tab ->
  find (has_id (tab_id tab)) (tabs b) = Some tab.
Proof.
  unfold getActiveTab; destruct (activeTabId b) as [a|]; [|discriminate].
  intros Hf; destruct (find_some_in _ _ Hf) as [_ ->]; exact Hf.
Qed.

Lemma found_update a i (g : Tab -> Tab) l t :
  (forall x, tab_id (g x) = tab_id x) ->
  (forall x, tab_iframe (g x) = tab_iframe x) ->
  find (has_id a) l = Some t ->
  exists t', find (has_id a) (update_first (has_id i) g l) = Some t'
             /\ tab_iframe t' = tab_iframe t.
Proof.
  intros Hid Hif Hf.
  destruct (@find_update_first_other a i g _ _ Hid Hf)
    as (t' & Ht' & [->| ->]); eauto.
Qed.

(** *** The handlers *)

Lemma owned_switchTab tabId q :
  iframes_owned q -> iframes_owned (switchTab tabId q).
Proof.
  intros Hq; unfold switchTab; cbv zeta.
  match goal with
  | |- context [getActiveTab (bs ?p)] => set (p3 := p)
  end.
  assert (H3 : iframes_owned p3).
  { apply (owned_same (q := q)); [|reflexivity|exact Hq].
    unfold p3; cbn [iframes on_view on_iframes on_bs].
    rewrite map_map; apply map_ext; intros f.
    destruct (if_attached f) eqn:E; [exact E|exact E]. }
  clearbody p3.
  destruct (getActiveTab (bs p3)) as [tab|] eqn:Hg; [|exact H3].
  apply owned_updateNavButtons.
  destruct (tab_iframe tab) as [h|] eqn:Hi; [own H3|].
  destruct (truthy (tab_url tab)
            && negb (str_eqb (tab_url tab) (js "about:blank")));
    [|own H3].
  rewrite createTabIframe_pair; cbv iota.
  own H3.
  apply (@owned_create _ tab tab); [|exact Hi|exact H3].
  apply active_found; exact Hg.
Qed.

Lemma owned_removeTab q tabId :
  iframes_owned q ->
  iframes_owned
    (match snd (removeTab (bs q) tabId) with
     | Some h => on_iframe h (set_attached false)
                           (on_bs (fun _ => fst (removeTab (bs q) tabId)) q)
     | None => on_bs (fun _ => fst (removeTab (bs q) tabId)) q
     end).
Proof.
  intros Hq.
  destruct (in_dec (list_eq_dec N.eq_dec) tabId (map tab_id (tabs (bs q))))
    as [Hin|Hout].
  2: { rewrite removeTab_unknown by exact Hout; cbn [fst snd]; exact Hq. }
  destruct (removeTab_found (bs q) tabId Hin)
    as (l1 & t & l2 & Heq & _ & _ & Htabs & Hd & _).
  rewrite Hd.
  assert (Hrest : forall k, In (Some k) (map tab_iframe (tabs (bs q))) ->
                            tab_iframe t <> Some k ->
                            In (Some k) (map tab_iframe (l1 ++ l2))).
  { intros k; rewrite Heq, !map_app, !in_app_iff; cbn [map In].
    intros [H|[H|H]] Hne; [left; exact H|contradiction|right; exact H]. }
  destruct (tab_iframe t) as [h|]; intros k;
    cbn [bs iframes on_bs on_iframe on_iframes]; rewrite Htabs.
  - rewrite nth_error_map, nth_error_update_nth.
    destruct (k =? h)%nat eqn:E.
    + destruct (nth_error (iframes q) k); discriminate.
    + apply Nat.eqb_neq in E; rewrite <- nth_error_map; intros Hk.
      apply Hrest; [apply Hq; exact Hk|congruence].
  - intros Hk; apply Hrest; [apply Hq; exact Hk|discriminate].
Qed.

Lemma owned_closeTab tabId q :
  iframes_owned q -> iframes_owned (closeTab tabId q).
Proof.
  intros Hq; unfold closeTab.
  destruct (length (tabs (bs q)) =? 1)%nat; [exact Hq|].
  pose proof (@owned_removeTab q tabId Hq) as Hr.
  destruct (removeTab (bs q) tabId) as [b1 detached]; cbn [fst snd] in Hr.
  cbv zeta.
  set (q1 := on_view _ _).
  assert (H1 : iframes_owned q1) by (subst q1; apply owned_on_view; exact Hr).
  clearbody q1.
  destruct (activeTabId (bs q1)) as [a|]; [destruct (truthy a)|];
    try (apply owned_switchTab; exact H1);
    destruct (tabs (bs q1)) eqn:Et;
    try (apply owned_switchTab; exact H1); own H1.
Qed.

Lemma owned_navigateToUrl url q :
  iframes_owned q -> iframes_owned (navigateToUrl URL_hostname url q).
Proof.
  intros Hq; unfold navigateToUrl.
  destruct (getActiveTab (bs q)) as [tab|] eqn:Hg; [|exact Hq].
  destruct (sanitizeUrl URL_hostname url) as [s|]; [|exact Hq].
  cbv zeta.
  pose proof (active_found _ Hg) as Hf.
  destruct (URL_hostname s) as [host|];
    (destruct (tab_iframe tab) as [h|] eqn:Hi;
     [own Hq | rewrite createTabIframe_pair; cbv iota; own Hq]).
  - destruct (@found_update _ (tab_id tab) (set_url s) _ _
                ltac:(reflexivity) ltac:(reflexivity) Hf) as (t1 & H1 & E1).
    destruct (@found_update _ (tab_id tab) (push s) _ _
                ltac:(reflexivity) ltac:(reflexivity) H1) as (t2 & H2 & E2).
    destruct (@found_update _ (tab_id tab)
                (set_title (or_else host (js "Untitled"))) _ _
                ltac:(reflexivity) ltac:(reflexivity) H2) as (t3 & H3 & E3).
    apply (@owned_create _ tab t3);
      [rewrite bs_updateNavButtons; exact H3|congruence|own Hq].
  - destruct (@found_update _ (tab_id tab) (set_url s) _ _
                ltac:(reflexivity) ltac:(reflexivity) Hf) as (t1 & H1 & E1).
    destruct (@found_update _ (tab_id tab) (push s) _ _
                ltac:(reflexivity) ltac:(reflexivity) H1) as (t2 & H2 & E2).
    destruct (@found_update _ (tab_id tab)
                (set_title (or_else (js "Navigating...") (js "Untitled")))
                _ _ ltac:(reflexivity) ltac:(reflexivity) H2)
      as (t3 & H3 & E3).
    apply (@owned_create _ tab t3);
      [rewrite bs_updateNavButtons; exact H3|congruence|own Hq].
Qed.

Lemma owned_addTab_page now_id now_ts url q :
  iframes_owned q ->
  iframes_owned (addTab_page URL_hostname now_id now_ts url q).
Proof.
  intros Hq; unfold addTab_page.
  destruct (if truthy url then sanitizeUrl URL_hostname url else Some [])
    as [s|]; [|exact Hq].
  unfold addTab.
  destruct (Z.of_nat (length (tabs (bs q))) >=? maxTabs (bs q))%Z;
    [exact Hq|].
  cbv zeta.
  match goal with
  | |- context [switchTab _ ?p] => set (q1 := p)
  end.
  assert (H1 : iframes_owned q1).
  { subst q1; intros k Hk.
    cbn [bs iframes on_bs on_view set_activeTabId set_tabs tabs] in *.
    rewrite map_app; apply in_or_app; left; apply Hq; exact Hk. }
  clearbody q1.
  destruct (truthy s && negb (str_eqb s (js "about:blank")));
    [apply owned_navigateToUrl|]; apply owned_switchTab; exact H1.
Qed.

Lemma tab_iframes_goBack b i :
  map tab_iframe (tabs (fst (goBack b i))) = map tab_iframe (tabs b).
Proof.
  unfold goBack; destruct (find (has_id i) (tabs b)); [|reflexivity].
  destruct (canGoBack b i); [|reflexivity].
  cbn [fst set_tabs tabs]; apply map_update_first; reflexivity.
Qed.

Lemma tab_iframes_goForward b i :
  map tab_iframe (tabs (fst (goForward b i))) = map tab_iframe (tabs b).
Proof.
  unfold goForward; destruct (find (has_id i) (tabs b)); [|reflexivity].
  destruct (canGoForward b i); [|reflexivity].
  cbn [fst set_tabs tabs]; apply map_update_first; reflexivity.
Qed.

Lemma owned_history_button can go q :
  (forall b i,
      map tab_iframe (tabs (fst (go b i))) = map tab_iframe (tabs b)) ->
  iframes_owned q -> iframes_owned (history_button can go q).
Proof.
  intros Hgo Hq; unfold history_button.
  destruct (getActiveTab (bs q)) as [tab|]; [|exact Hq].
  destruct (tab_iframe tab) as [h|]; [|exact Hq].
  destruct (can (bs q) (tab_id tab)); [|exact Hq].
  pose proof (Hgo (bs q) (tab_id tab)) as Hb.
  destruct (go (bs q) (tab_id tab)) as [b1 v]; cbn [fst] in Hb; cbv zeta.
  assert (H1 : iframes_owned (on_bs (fun _ => b1) q))
    by (apply (owned_same (q := q)); [reflexivity|exact Hb|exact Hq]).
  destruct v as [| |u]; try exact H1.
  destruct (truthy u); [|exact H1].
  own H1.
Qed.

Lemma owned_run_callback tm pr q :
  iframes_owned q -> iframes_owned (run_callback URL_hostname tm pr q).
Proof.
  intros Hq; unfold run_callback; destruct (tm_cb tm) as [h|h host|h u].
  - unfold settle; destruct (nth_error (iframes q) h) as [f|]; [|exact Hq].
    cbv zeta.
    destruct (probe_document pr) as [title|];
      [destruct (truthy title)|];
      destruct (URL_hostname (if_src f)) as [host|];
      try destruct (probe_window pr);
      cbv iota; own Hq.
  - apply (owned_same (q := q)); [|rewrite bs_recheck; reflexivity|exact Hq].
    unfold recheck; destruct (nth_error (iframes q) h); [|reflexivity].
    destruct (is_flex (errorDisplay (view q))); [reflexivity|].
    destruct (probe_document pr); reflexivity.
  - apply (owned_same (q := q));
      [|rewrite bs_load_timeout; reflexivity|exact Hq].
    unfold load_timeout; destruct (nth_error (iframes q) h) as [f|];
      [|reflexivity].
    destruct (hasLoaded f); [reflexivity|].
    destruct (URL_hostname u); reflexivity.
Qed.

Lemma owned_step t e q q' :
  iframes_owned q -> step URL_hostname t e q = Some q' -> iframes_owned q'.
Proof.
  intros Hq; unfold step; destruct (t <? clock q)%N; [discriminate|].
  assert (Hc : iframes_owned (set_clock t q)) by exact Hq.
  set (qc := set_clock t q) in *; clearbody qc.
  destruct e as [n1 n2|n1 n2|k|k|text|url| | | | |h|h|id pr]; intros H.
  - injection H as <-; apply owned_addTab_page; exact Hc.
  - injection H as <-; apply owned_addTab_page; exact Hc.
  - destruct (nth_error (tabBar (view qc)) k); [|discriminate].
    injection H as <-; apply owned_switchTab; exact Hc.
  - destruct (nth_error (tabBar (view qc)) k); [|discriminate].
    injection H as <-; apply owned_closeTab; exact Hc.
  - injection H as <-; apply owned_navigateToUrl, owned_on_view; exact Hc.
  - injection H as <-; apply owned_navigateToUrl; exact Hc.
  - injection H as <-; apply owned_history_button;
      [apply tab_iframes_goBack|exact Hc].
  - injection H as <-; apply owned_history_button;
      [apply tab_iframes_goForward|exact Hc].
  - injection H as <-; unfold reload.
    destruct (getActiveTab (bs qc)) as [tab|]; [|exact Hc].
    destruct (tab_iframe tab); exact Hc.
  - injection H as <-.
    match goal with |- context [truthy ?u] => destruct (truthy u) end;
      [apply owned_navigateToUrl|]; exact Hc.
  - destruct (nth_error (iframes qc) h); [|discriminate].
    injection H as <-; unfold on_load.
    destruct (nth_error (iframes qc) h); [|exact Hc].
    own Hc.
  - destruct (nth_error (iframes qc) h); [|discriminate].
    injection H as <-; unfold on_error.
    destruct (nth_error (iframes qc) h); [|exact Hc].
    own Hc.
  - destruct (find_timer id qc) as [tm|]; [|discriminate].
    destruct (t <? tm_due tm)%N; [discriminate|].
    injection H as <-; apply owned_run_callback; exact Hc.
Qed.

Lemma owned_run es q q' :
  iframes_owned q -> run URL_hostname es q = Some q' -> iframes_owned q'.
Proof.
  revert q; induction es as [|[t e] es IH]; cbn [run]; intros q Hq H.
  - injection H as <-; exact Hq.
  - destruct (step URL_hostname t e q) as [q1|] eqn:Hs; [|discriminate].
    eapply IH; [eapply owned_step; eauto | exact H].
Qed.

(** *** Counting the attached iframes *)

Lemma NoDup_map_inj {A B} (g : A -> B) (l : list A) :
  (forall x y, g x = g y -> x = y) -> NoDup l -> NoDup (map g l).
Proof.
  intros Hg; induction 1 as [|x l Hx Hl IH]; cbn [map]; constructor.
  - intros Hin; apply in_map_iff in Hin; destruct Hin as (y & Hy & Hin).
    apply Hg in Hy; subst y; contradiction.
  - exact IH.
Qed.

Lemma attached_indices (l : list IFrame) :
  exists ks,
    NoDup ks /\ length ks = length (filter if_attached l)
    /\ forall k, In k ks -> nth_error (map if_attached l) k = Some true.
Proof.
  induction l as [|x l (ks & Hnd & Hlen & Hks)]; [exists []; repeat split|].
  - constructor.
  - intros k [].
  - assert (Hs : NoDup (map S ks))
      by (apply NoDup_map_inj; [intros a b [= ->]; reflexivity|exact Hnd]).
    assert (Hin : forall k, In k (map S ks) ->
                            nth_error (map if_attached (x :: l)) k
                            = Some true).
    { intros k Hk; apply in_map_iff in Hk; destruct Hk as (k0 & <- & Hk0).
      cbn [map nth_error]; apply Hks; exact Hk0. }
    cbn [filter]; destruct (if_attached x) eqn:E.
    + exists (0 :: map S ks); split; [|split].
      * constructor; [|exact Hs].
        intros H0; apply in_map_iff in H0; destruct H0 as (k0 & [=] & _).
      * cbn [length]; rewrite length_map, Hlen; reflexivity.
      * intros k [<-|Hk]; [cbn [map nth_error]; rewrite E; reflexivity|].
        apply Hin; exact Hk.
    + exists (map S ks); split; [exact Hs|split; [|exact Hin]].
      rewrite length_map; exact Hlen.
Qed.

Lemma owned_count q :
  iframes_owned q -> attached_count q <= length (tabs (bs q)).
Proof.
  intros Hq; unfold attached_count.
  destruct (attached_indices (iframes q)) as (ks & Hnd & <- & Hks).
  rewrite <- (length_map Some ks), <- (length_map tab_iframe (tabs (bs q))).
  apply NoDup_incl_length.
  - apply NoDup_map_inj; [intros a b [= ->]; reflexivity|exact Hnd].
  - intros o Ho; apply in_map_iff in Ho; destruct Ho as (k & <- & Hk).
    apply Hq, Hks, Hk.
Qed.

(** X19.  No iframe is left behind in the document: in every reachable
    state each iframe still attached to the container is the iframe of a
    tab of the registry, so closing a tab takes its page out of the
    document, and the container never holds more than three iframes. *)
Theorem reachable_iframes_owned (p : Page) :
  reachable URL_hostname p ->
  (forall k f,
      nth_error (iframes p) k = Some f -> if_attached f = true ->
      exists tab, In tab (tabs (bs p)) /\ tab_iframe tab = Some k)
  /\ attached_count p <= 3.
Proof.
  intros Hp.
  assert (Hown : iframes_owned p).
  { destruct Hp as (p0 & es & Hi & Hr).
    apply (owned_run es (q := p0)); [|exact Hr].
    destruct Hi as (_ & _ & Hif & _); intros k; rewrite Hif.
    destruct k; discriminate. }
  split.
  - intros k f Hk Ha.
    assert (Hin : In (Some k) (map tab_iframe (tabs (bs p)))).
    { apply Hown; rewrite nth_error_map, Hk; cbn [option_map].
      rewrite Ha; reflexivity. }
    apply in_map_iff in Hin; destruct Hin as (tab & Ht & Hin); eauto.
  - pose proof (owned_count Hown) as Hc.
    destruct (reachable_state_ok Hp) as (_ & Hlen & _); lia.
Qed.

End OwnedIframes.

(* ===================================================================== *)
(** ** The further statements at concrete inputs *)
(* ===================================================================== *)

Section MoreInstances.

Import V2 Samples.

Lemma reachable_visited_page : reachable sample_URL visited_page.
Proof.
  exists blank_page, visit_trace.
  split; [repeat split; discriminate|vm_compute; reflexivity].
Defined.

Lemma reachable_superseded :
  reachable sample_URL (superseded (js "a.example") (js "b.example")).
Proof.
  exists blank_page, supersede_trace.
  split; [repeat split; discriminate|vm_compute; reflexivity].
Defined.

(** A search query comes back as an [https] address. *)
Lemma sanitizeUrl_has_scheme_at_query :
  sanitizeUrl sample_URL (js "  hello world ")
  = Some (js "https://www.google.com/search?q=hello%20world")
  /\ has_scheme (js "https://www.google.com/search?q=hello%20world") = true.
Proof.
  assert (H : sanitizeUrl sample_URL (js "  hello world ")
              = Some (js "https://www.google.com/search?q=hello%20world"))
    by (vm_compute; reflexivity).
  split; [exact H|].
  exact (proj1 (@sanitizeUrl_has_scheme sample_URL _ _ H)).
Defined.

(** The address made from a host name is kept as it is. *)
Lemma sanitizeUrl_idempotent_at_host :
  sanitizeUrl sample_URL (js "example.com") = Some (js "https://example.com")
  /\ sanitizeUrl sample_URL (js "https://example.com")
     = Some (js "https://example.com").
Proof.
  assert (H : sanitizeUrl sample_URL (js "example.com")
              = Some (js "https://example.com"))
    by (vm_compute; reflexivity).
  split; [exact H|].
  exact (@sanitizeUrl_idempotent sample_URL _ _ H).
Defined.

(** A query made of one character outside the basic plane. *)
Lemma sanitizeUrl_at_grinning_face :
  isWellFormed grinning_face = true
  /\ exists r, sanitizeUrl sample_URL grinning_face = Some r.
Proof.
  assert (H : isWellFormed grinning_face = true) by reflexivity.
  split; [exact H|].
  exact (@sanitizeUrl_well_formed_input sample_URL grinning_face H).
Defined.

Lemma goBack_goForward_inverse_at_two_visits :
  canGoBack two_visits sample_id = true
  /\ goForward (fst (goBack two_visits sample_id)) sample_id
     = (two_visits, VStr address_b).
Proof.
  assert (Hc : canGoBack two_visits sample_id = true) by reflexivity.
  split; [exact Hc|].
  destruct (find (has_id sample_id) (tabs two_visits)) as [tab|] eqn:Hf;
    [|vm_compute in Hf; discriminate].
  assert (Hu : nth_error (tab_history tab) (Z.to_nat (tab_historyIndex tab))
               = Some address_b)
    by (vm_compute in Hf; injection Hf as <-; reflexivity).
  assert (H0 : (0 <= tab_historyIndex tab)%Z)
    by (vm_compute in Hf; injection Hf as <-; discriminate).
  exact (proj1 (goBack_goForward_inverse two_visits sample_id Hf Hu H0) Hc).
Defined.

Lemma addToHistory_then_goBack_at_one_visit :
  let b := addToHistory one_tab sample_id address_a in
  snd (goBack (addToHistory b sample_id address_b) sample_id) = VStr address_a
  /\ canGoForward (addToHistory b sample_id address_b) sample_id = false.
Proof.
  intros b.
  destruct (find (has_id sample_id) (tabs b)) as [tab|] eqn:Hf;
    [|vm_compute in Hf; discriminate].
  assert (Hu : nth_error (tab_history tab) (Z.to_nat (tab_historyIndex tab))
               = Some address_a)
    by (vm_compute in Hf; injection Hf as <-; reflexivity).
  assert (H0 : (0 <= tab_historyIndex tab)%Z)
    by (vm_compute in Hf; injection Hf as <-; discriminate).
  destruct (addToHistory_then_goBack b sample_id address_b Hf Hu H0)
    as (Hfw & _ & Hb & _).
  split; [exact Hb|exact Hfw].
Defined.

Lemma reachable_tabs_bounded_at_visited_page :
  reachable sample_URL visited_page
  /\ length (tabs (bs visited_page)) <= 3
  /\ exists tab, getActiveTab (bs visited_page) = Some tab
                 /\ In tab (tabs (bs visited_page)).
Proof.
  destruct (reachable_tabs_bounded reachable_visited_page) as (_ & Hl & Ha).
  split; [exact reachable_visited_page|split; [exact Hl|]].
  apply Ha; vm_compute; discriminate.
Defined.

Lemma tabs_after_page_load_at_visited_page :
  initial blank_page
  /\ run sample_URL visit_trace blank_page = Some visited_page
  /\ 1 <= length (tabs (bs visited_page)) <= 3.
Proof.
  assert (Hi : initial blank_page) by (repeat split; discriminate).
  assert (Hr : run sample_URL visit_trace blank_page = Some visited_page)
    by (vm_compute; reflexivity).
  split; [exact Hi|split; [exact Hr|]].
  exact (@tabs_after_page_load sample_URL blank_page visited_page 0%N
           sample_now sample_now [(1000%N, PressEnter address_a)] Hi Hr).
Defined.

Lemma reachable_tabs_consistent_at_visited_page :
  reachable sample_URL visited_page
  /\ forall tab, In tab (tabs (bs visited_page)) -> tab_ok tab.
Proof.
  split; [exact reachable_visited_page|].
  exact (proj1 (reachable_tabs_consistent reachable_visited_page)).
Defined.

(** The timeout armed by the second navigation of the superseding trace
    does nothing when it fires, whether or not the second page has
    loaded. *)
Lemma load_timeout_dead_at_superseded :
  let p := set_clock 1200 visited_page in
  let p' := superseded (js "a.example") (js "b.example") in
  0 < length (iframes p)
  /\ run sample_URL [(1400%N, PressEnter address_b)] (on_load 0 p) = Some p'
  /\ forall pr,
      run_callback sample_URL
        {| tm_id := 3; tm_due := 11400; tm_cb := LoadTimeout 0 address_b;
           tm_attempt := 2 |} pr p' = p'.
Proof.
  intros p p'.
  assert (Hh : 0 < length (iframes p)) by (vm_compute; apply le_n).
  assert (Hr : run sample_URL [(1400%N, PressEnter address_b)] (on_load 0 p)
               = Some p') by (vm_compute; reflexivity).
  split; [exact Hh|split; [exact Hr|]].
  intros pr.
  exact (proj2 (@load_timeout_dead_after_first_signal sample_URL p p' 0
                  [(1400%N, PressEnter address_b)] Hh (or_introl Hr))
               {| tm_id := 3; tm_due := 11400;
                  tm_cb := LoadTimeout 0 address_b; tm_attempt := 2 |}
               pr address_b eq_refl).
Defined.

Lemma reachable_shows_active_only_at_superseded :
  let p := superseded (js "a.example") (js "b.example") in
  reachable sample_URL p /\ shows_active_only p.
Proof.
  intros p; split; [exact reachable_superseded|].
  exact (proj1 (reachable_shows_active_only reachable_superseded)).
Defined.

Lemma navigateToUrl_loads_address_at_loaded_page :
  let p' := navigateToUrl sample_URL (js "example.com") loaded_page in
  reachable sample_URL loaded_page
  /\ sanitizeUrl sample_URL (js "example.com")
     = Some (js "https://example.com")
  /\ addressBar (view p') = js "https://example.com"
  /\ loading (view p') = true
  /\ exists tm, In tm (timers p')
                /\ tm_due tm = 10000%N
                /\ tm_cb tm = LoadTimeout 0 (js "https://example.com").
Proof.
  intros p'.
  assert (Hs : sanitizeUrl sample_URL (js "example.com")
               = Some (js "https://example.com"))
    by (vm_compute; reflexivity).
  destruct (getActiveTab (bs loaded_page)) as [tab|] eqn:Hg;
    [|vm_compute in Hg; discriminate].
  assert (Hi : tab_iframe tab = None)
    by (vm_compute in Hg; injection Hg as <-; reflexivity).
  pose proof (@navigateToUrl_loads_address sample_URL loaded_page
                (js "example.com") _ tab reachable_loaded_page Hg Hs) as H.
  cbv zeta in H.
  destruct H
    as (_ & Hab & Hl & _ & _ & _ & _ & _ & (tm & Hin & _ & Hdue & Hcb)).
  split; [exact reachable_loaded_page|split; [exact Hs|]].
  split; [exact Hab|split; [exact Hl|]].
  exists tm; split; [exact Hin|split; [exact Hdue|]].
  rewrite Hcb, Hi; reflexivity.
Defined.

(** The first load of the visited page times out and then succeeds. *)
Lemma late_load_at_visited_page :
  let timed_out := load_timeout sample_URL 0 address_a visited_page in
  let settled :=
    settle sample_URL 0 1
           {| probe_document := Some (js "A"); probe_window := true |}
           (on_load 0 timed_out) in
  errorDisplay (view timed_out) = DFlex
  /\ errorDisplay (view settled) = DNone
  /\ containerDisplay (view settled) = DNone
  /\ welcomeDisplay (view settled) = DNone.
Proof.
  intros timed_out settled.
  destruct (nth_error (iframes visited_page) 0) as [f|] eqn:Hf;
    [|vm_compute in Hf; discriminate].
  assert (Hl : hasLoaded f = false)
    by (vm_compute in Hf; injection Hf as <-; reflexivity).
  pose proof (@late_load_stays_hidden sample_URL visited_page 0 1 address_a
                f
                {| probe_document := Some (js "A"); probe_window := true |}
                Hf Hl) as H.
  cbv zeta in H; destruct H as ((He & _) & Hc & Hw & _ & Hs & _).
  split; [exact He|].
  split; [exact (Hs (js "A") eq_refl (or_introl eq_refl))|].
  split; [exact Hc|exact Hw].
Defined.

Lemma active_tab_highlighted_at_visited_page :
  reachable sample_URL visited_page
  /\ forall e, In e (tabBar (view visited_page)) ->
               el_active e = true
               <-> activeTabId (bs visited_page) = Some (el_tabId e).
Proof.
  split; [exact reachable_visited_page|].
  exact (@reachable_active_tab_highlighted sample_URL visited_page
           reachable_visited_page).
Defined.

(** After the first visit of a tab there is no way back or forward. *)
Lemma nav_buttons_at_visited_page :
  reachable sample_URL visited_page
  /\ backDisabled (view visited_page) = true
  /\ forwardDisabled (view visited_page) = true.
Proof.
  split; [exact reachable_visited_page|].
  destruct (getActiveTab (bs visited_page)) as [tab|] eqn:Hg;
    [|vm_compute in Hg; discriminate].
  destruct (@reachable_nav_buttons sample_URL visited_page tab
              reachable_visited_page Hg) as [Hb Hf].
  assert (Hid : tab_id tab = sample_id)
    by (vm_compute in Hg; injection Hg as <-; reflexivity).
  rewrite Hid in Hb, Hf.
  split; [rewrite Hb | rewrite Hf]; vm_compute; reflexivity.
Defined.

(** Back from the second address of the superseding trace. *)
Lemma history_buttons_at_superseded :
  let p := superseded (js "a.example") (js "b.example") in
  reachable sample_URL p
  /\ canGoBack (bs p) sample_id = true
  /\ addressBar (view (goBack_page p)) = address_a
  /\ goForward_page p = p.
Proof.
  intros p.
  assert (Hc : canGoBack (bs p) sample_id = true) by (vm_compute; reflexivity).
  assert (Hw : canGoForward (bs p) sample_id = false)
    by (vm_compute; reflexivity).
  destruct (getActiveTab (bs p)) as [tab|] eqn:Hg;
    [|vm_compute in Hg; discriminate].
  assert (Hid : tab_id tab = sample_id)
    by (vm_compute in Hg; injection Hg as <-; reflexivity).
  assert (Hi : tab_iframe tab = Some 0)
    by (vm_compute in Hg; injection Hg as <-; reflexivity).
  assert (Hu : index (tab_history tab) (tab_historyIndex tab - 1)
               = VStr address_a)
    by (vm_compute in Hg; injection Hg as <-; reflexivity).
  destruct (@history_buttons_load_neighbour sample_URL p tab 0
              reachable_superseded Hg Hi) as (_ & Hstay & Hback & _).
  rewrite Hid in Hstay, Hback.
  destruct (Hback Hc) as (u & Hu' & _ & H); cbv zeta in H.
  destruct H as (_ & Hab & _).
  split; [exact reachable_superseded|split; [exact Hc|split]].
  - rewrite Hab; rewrite Hu in Hu'; injection Hu' as <-; reflexivity.
  - exact (Hstay Hw).
Defined.

Lemma timeout_outlives_its_tab_at_two_tabs :
  let tm := {| tm_id := 1; tm_due := 11000;
               tm_cb := LoadTimeout 0 address_a; tm_attempt := 1 |} in
  let p' := closeTab sample_id two_tab_page in
  In tm (timers two_tab_page)
  /\ map tab_id (tabs (bs p')) = [make_id (sample_now + 1)]
  /\ In tm (timers p')
  /\ forall pr,
      errorDisplay (view (run_callback sample_URL tm pr p')) = DFlex.
Proof.
  intros tm p'.
  assert (Hin : In tm (timers two_tab_page))
    by (vm_compute; left; reflexivity).
  destruct (nth_error (iframes two_tab_page) 0) as [f|] eqn:Hf;
    [|vm_compute in Hf; discriminate].
  assert (Hl : hasLoaded f = false)
    by (vm_compute in Hf; injection Hf as <-; reflexivity).
  split; [exact Hin|].
  split; [vm_compute; reflexivity|].
  split.
  - exact (proj1 (@timeout_outlives_its_tab sample_URL two_tab_page
                    sample_id tm 0 address_a f
                    {| probe_document := None; probe_window := false |}
                    Hin eq_refl Hf Hl p' (or_introl eq_refl))).
  - intros pr.
    exact (proj1 (proj2 (@timeout_outlives_its_tab sample_URL two_tab_page
                           sample_id tm 0 address_a f pr
                           Hin eq_refl Hf Hl p' (or_introl eq_refl)))).
Defined.

Lemma reachable_two_tab_page : reachable sample_URL two_tab_page.
Proof.
  exists blank_page, background_trace.
  split; [repeat split; discriminate|vm_compute; reflexivity].
Defined.

Lemma reachable_iframes_owned_at_two_tabs :
  reachable sample_URL two_tab_page
  /\ (exists tab, In tab (tabs (bs two_tab_page)) /\ tab_iframe tab = Some 0)
  /\ attached_count two_tab_page <= 3.
Proof.
  destruct (reachable_iframes_owned reachable_two_tab_page) as (Hown & Hc).
  split; [exact reachable_two_tab_page|split; [|exact Hc]].
  destruct (nth_error (iframes two_tab_page) 0) as [f|] eqn:Hf;
    [|vm_compute in Hf; discriminate].
  apply (Hown 0 f Hf).
  vm_compute in Hf; injection Hf as <-; reflexivity.
Defined.

End MoreInstances.
